(** * Circuit simulator: topology rebuild and MNA solver

    A shallow embedding of [engine.js] (classes [Matrix], [Node], [Component],
    [CircuitEngine], function [solveLinearSystem]) and of [rebuildCircuit]
    from the interaction controller, followed by the properties of the
    solver and of the topology builder.

    JavaScript numbers are IEEE 754 binary64 values, which is what Rocq's
    primitive [float] is: arithmetic and comparisons below are the kernel's
    [PrimFloat] operations, so every definition evaluates to the very value
    the engine computes.

    JavaScript objects with identity ([Node], [Component]) live in two
    stores, addressed by their position; a reference is an address, and
    [null]/[undefined] is [None]. *)

From Stdlib Require Import Floats ZArith Lia.
From stdpp Require Import base option list strings pretty gmap.

Set Warnings "-inexact-float".
Set Default Proof Using "Type".

Local Open Scope float_scope.
Local Open Scope nat_scope.

(** ** Outcomes

    [Ok v] is a normal return.  [TypeError] is the exception JavaScript
    raises for a property read on [undefined] or [null].  [OutOfFuel] only
    concerns the recursive [find] of the union-find, whose recursion follows
    parent references and is unbounded on a cyclic chain. *)

Inductive outcome (A : Type) : Type :=
  | Ok (a : A)
  | TypeError
  | OutOfFuel.
Arguments Ok {A} a.
Arguments TypeError {A}.
Arguments OutOfFuel {A}.

Global Instance outcome_bind : MBind outcome := fun A B k m =>
  match m with
  | Ok a => k a
  | TypeError => TypeError
  | OutOfFuel => OutOfFuel
  end.

(** A [for]/[forEach] loop whose body may raise. *)
Fixpoint forM {A S : Type} (body : S -> A -> outcome S) (l : list A) (s : S)
  : outcome S :=
  match l with
  | [] => Ok s
  | a :: l' => s' ← body s a; forM body l' s'
  end.

(** ** Numbers *)

Definition fabs (v : float) : float := PrimFloat.abs v.
Definition flt (a b : float) : bool := PrimFloat.ltb a b.
Definition fgt (a b : float) : bool := PrimFloat.ltb b a.

(** Reading a numeric array outside its bounds yields [undefined], which
    every arithmetic use turns into NaN. *)
Definition vget (v : list float) (i : nat) : float := default nan (v !! i).

(** ** class Matrix *)

Module Matrix.

Record t := mk { rows : nat; cols : nat; data : list (list float) }.

(** [new Matrix(rows, cols)]: a zero-filled array of arrays. *)
Definition new (r c : nat) : t := mk r c (replicate r (replicate c 0%float)).

(** [set(r, c, val)]: bounds-checked write, silently ignored outside. *)
Definition set (A : t) (r c : nat) (val : float) : t :=
  if (r <? rows A) && (c <? cols A)
  then mk (rows A) (cols A) (alter (fun row => <[c := val]> row) r (data A))
  else A.

(** [get(r, c)] is [this.data[r][c]] with no check: a row index outside
    the array raises; a column index outside the row would yield
    [undefined].  Both are flagged, and [solve] is shown to cause
    neither. *)
Definition get (A : t) (r c : nat) : outcome float :=
  match data A !! r with
  | None => TypeError
  | Some row => match row !! c with
                | None => TypeError
                | Some v => Ok v
                end
  end.

(** The shape [new] establishes and [set] keeps. *)
Definition shaped (A : t) : Prop :=
  length (data A) = rows A /\ Forall (fun row => length row = cols A) (data A).

End Matrix.

(** ** solveLinearSystem *)

(** [JSON.parse(JSON.stringify(v))] on a number: NaN and the infinities are
    serialised as [null], which every arithmetic use below reads as [0];
    negative zero is serialised as ["0"]; any other double is printed in
    its shortest round-tripping form and parsed back to itself. *)
Definition json_number (v : float) : float :=
  if PrimFloat.is_nan v || PrimFloat.is_infinity v || PrimFloat.is_zero v
  then 0%float else v.

(** [M[r][c]] on an array of rows. *)
Definition entry (M : list (list float)) (r c : nat) : float :=
  vget (default [] (M !! r)) c.

(** [M[r][c] = v]. *)
Definition mset (M : list (list float)) (r c : nat) (v : float)
  : list (list float) :=
  alter (fun row => <[c := v]> row) r M.

(** The pivot search: [maxRow = i], then rows [i+1 .. n-1] in order. *)
Definition select_pivot (M : list (list float)) (n i : nat) : nat :=
  foldl (fun maxRow k =>
           if fgt (fabs (entry M k i)) (fabs (entry M maxRow i))
           then k else maxRow)
        i (seq (S i) (n - S i)).

(** [[a[i], a[j]] = [a[j], a[i]]]: the right-hand side is read first, then
    [a[i]] and [a[j]] are written in that order.  Both indices are inside
    the array wherever the solver swaps. *)
Definition swap {A : Type} (a : list A) (i j : nat) : list A :=
  match a !! i, a !! j with
  | Some ai, Some aj => <[j := ai]> (<[i := aj]> a)
  | _, _ => a
  end.

(** The body of the inner [for (k = i + 1; k < n; k++)] loop. *)
Definition eliminate_row (n i : nat) (MR : list (list float) * list float)
  (k : nat) : list (list float) * list float :=
  let '(M, R) := MR in
  let factor := (entry M k i / entry M i i)%float in
  let R := <[k := (vget R k - factor * vget R i)%float]> R in
  let M := foldl (fun M j =>
                    mset M k j (entry M k j - factor * entry M i j)%float)
                 M (seq i (n - i)) in
  (M, R).

Definition eliminate (n i : nat) (MR : list (list float) * list float)
  : list (list float) * list float :=
  foldl (eliminate_row n i) MR (seq (S i) (n - S i)).

(** One iteration of the forward-elimination loop. *)
Definition forward_step (n : nat) (MR : list (list float) * list float)
  (i : nat) : list (list float) * list float :=
  let '(M, R) := MR in
  let maxRow := select_pivot M n i in
  let M := swap M i maxRow in
  let R := swap R i maxRow in
  if flt (fabs (entry M i i)) 1e-10 then (M, R)
  else eliminate n i (M, R).

Definition forward (n : nat) (MR : list (list float) * list float)
  : list (list float) * list float :=
  foldl (forward_step n) MR (seq 0 n).

(** One iteration of the backward-substitution loop. *)
Definition back_step (n : nat) (M : list (list float)) (R : list float)
  (x : list float) (i : nat) : list float :=
  if flt (fabs (entry M i i)) 1e-10 then x
  else
    let sum := foldl (fun sum j => (sum + entry M i j * vget x j)%float)
                     0%float (seq (S i) (n - S i)) in
    <[i := ((vget R i - sum) / entry M i i)%float]> x.

Definition back_substitute (n : nat) (M : list (list float)) (R : list float)
  : list float :=
  foldl (back_step n M R) (replicate n 0%float) (rev (seq 0 n)).

(** [solveLinearSystem(A, B)].  The source comment "Assume square A" is the
    function's precondition; under it no read below leaves its array. *)
Definition solveLinearSystem (A : Matrix.t) (B : list float) : list float :=
  let n := Matrix.rows A in
  let M := map (map json_number) (Matrix.data A) in
  let R := B in
  let '(M, R) := forward n (M, R) in
  back_substitute n M R.

(** ** solveLinearSystem on stored arrays

    [solveLinearSystem] above works on array values.  To tell which arrays
    it writes to, the same statements are given here on a store of numeric
    arrays addressed by position: the rows of [A.data] and the array [B]
    are stored objects, the deep copy and the spread allocate new ones, and
    every assignment goes to the object its left-hand side designates.
    The outer array of [M], which only the function itself holds, is the
    list of its rows' addresses. *)

(** The array stored at an address. *)
Definition vec_of (st : list (list float)) (a : nat) : list float :=
  default [] (st !! a).

(** The rows an array of row references designates. *)
Definition rows_of (st : list (list float)) (M : list nat)
  : list (list float) :=
  map (vec_of st) M.

(** [M[k][j] = v] through the reference [M[k]]. *)
Definition row_write (st : list (list float)) (M : list nat) (k j : nat)
  (v : float) : list (list float) :=
  match M !! k with
  | Some a => alter (fun row => <[j := v]> row) a st
  | None => st
  end.

Definition eliminate_row_stored (n i R : nat)
  (s : list (list float) * list nat) (k : nat)
  : list (list float) * list nat :=
  let '(st, M) := s in
  let factor := (entry (rows_of st M) k i / entry (rows_of st M) i i)%float in
  let st := <[R := <[k := (vget (vec_of st R) k
                           - factor * vget (vec_of st R) i)%float]>
                     (vec_of st R)]> st in
  let st := foldl (fun st j =>
                     row_write st M k j
                       (entry (rows_of st M) k j
                        - factor * entry (rows_of st M) i j)%float)
                  st (seq i (n - i)) in
  (st, M).

Definition forward_step_stored (n R : nat)
  (s : list (list float) * list nat) (i : nat)
  : list (list float) * list nat :=
  let '(st, M) := s in
  let maxRow := select_pivot (rows_of st M) n i in
  let M := swap M i maxRow in
  let st := <[R := swap (vec_of st R) i maxRow]> st in
  if flt (fabs (entry (rows_of st M) i i)) 1e-10 then (st, M)
  else foldl (eliminate_row_stored n i R) (st, M) (seq (S i) (n - S i)).

Definition back_step_stored (n : nat) (M : list nat) (R x : nat)
  (st : list (list float)) (i : nat) : list (list float) :=
  if flt (fabs (entry (rows_of st M) i i)) 1e-10 then st
  else
    let sum := foldl (fun sum j =>
                        (sum + entry (rows_of st M) i j
                               * vget (vec_of st x) j)%float)
                     0%float (seq (S i) (n - S i)) in
    <[x := <[i := ((vget (vec_of st R) i - sum)
                   / entry (rows_of st M) i i)%float]> (vec_of st x)]> st.

(** [solveLinearSystem(A, B)] with [A.rows = n], [A.data] the array of the
    row references [A_data], and [B] a reference: the store it leaves and
    the reference to the array [x] it returns. *)
Definition solveLinearSystem_stored (st : list (list float)) (n : nat)
  (A_data : list nat) (B : nat) : list (list float) * nat :=
  let x := length st in
  let st := st ++ [replicate n 0%float] in
  let M := seq (length st) (length A_data) in
  let st := st ++ map (fun a => map json_number (vec_of st a)) A_data in
  let R := length st in
  let st := st ++ [vec_of st B] in
  let '(st, M) := foldl (forward_step_stored n R) (st, M) (seq 0 n) in
  (foldl (back_step_stored n M R x) st (rev (seq 0 n)), x).

(** ** Circuit elements *)

(** A reference to a stored object is its position in the store. *)
Abbreviation addr := nat (only parsing).

Module Node.

(** [class Node] with the [parent] field [rebuildCircuit] adds to every
    node it creates (it is the only place where nodes are created).  The
    [connections] array is never read or written after construction. *)
Record t := mk { id : string; voltage : float; isGND : bool; parent : addr }.

Definition set_voltage (v : float) (n : t) : t :=
  mk (id n) v (isGND n) (parent n).
Definition set_isGND (b : bool) (n : t) : t :=
  mk (id n) (voltage n) b (parent n).
Definition set_parent (p : addr) (n : t) : t :=
  mk (id n) (voltage n) (isGND n) p.
Definition set_id (s : string) (n : t) : t :=
  mk s (voltage n) (isGND n) (parent n).

Definition dummy : t := mk "" 0%float false 0.

End Node.

Module Component.

(** [class Component] without the presentation fields ([x], [y],
    [rotation], [lightLevel], [wiperPos], [maxResistance]), which neither
    the solver nor the topology builder reads.  [spdtState] and [current]
    are absent ([undefined]) until the controller or the solver assigns
    them. *)
Record t := mk {
  id : string;
  type : string;
  nodes : list (option addr);
  resistance : float;
  voltage : float;
  isOpen : bool;
  spdtState : option nat;
  current : option float
}.

Definition set_current (i : float) (c : t) : t :=
  mk (id c) (type c) (nodes c) (resistance c) (voltage c) (isOpen c)
     (spdtState c) (Some i).
Definition set_nodes (ns : list (option addr)) (c : t) : t :=
  mk (id c) (type c) ns (resistance c) (voltage c) (isOpen c)
     (spdtState c) (current c).

Definition set_resistance (R : float) (c : t) : t :=
  mk (id c) (type c) (nodes c) R (voltage c) (isOpen c)
     (spdtState c) (current c).
Definition set_voltage (V : float) (c : t) : t :=
  mk (id c) (type c) (nodes c) (resistance c) V (isOpen c)
     (spdtState c) (current c).
Definition set_isOpen (b : bool) (c : t) : t :=
  mk (id c) (type c) (nodes c) (resistance c) (voltage c) b
     (spdtState c) (current c).
Definition set_spdtState (s : option nat) (c : t) : t :=
  mk (id c) (type c) (nodes c) (resistance c) (voltage c) (isOpen c)
     s (current c).

Definition dummy : t := mk "" "" [] 0%float 0%float false None None.

(** [comp.nodes[k]], with [null] and [undefined] both read as "no node". *)
Definition terminal (c : t) (k : nat) : option addr := mjoin (nodes c !! k).

End Component.

(** The two object stores and the engine's two arrays of references. *)
Record CircuitEngine := mkEngine {
  node_store : list Node.t;
  comp_store : list Component.t;
  engine_nodes : list addr;
  engine_components : list addr
}.

(** Dereferencing.  A JavaScript reference always designates an object; the
    default is only there to make the function total on stores that miss
    the address. *)
Definition node_at (h : list Node.t) (a : addr) : Node.t :=
  default Node.dummy (h !! a).
Definition comp_at (h : list Component.t) (a : addr) : Component.t :=
  default Component.dummy (h !! a).

(** The voltage read [n ? n.voltage : 0]. *)
Definition voltage_of (h : list Node.t) (n : option addr) : float :=
  match n with
  | Some a => Node.voltage (node_at h a)
  | None => 0%float
  end.

Definition is_type (s : string) (c : Component.t) : bool :=
  String.eqb (Component.type c) s.

(** ** CircuitEngine.solve: matrix assembly *)

Definition activeNodes (e : CircuitEngine) : list addr :=
  filter (fun a => Node.isGND (node_at (node_store e) a) = false)
         (engine_nodes e).

Definition battery_count (h : list Component.t) (cs : list addr) : nat :=
  length (filter (fun a => is_type "battery" (comp_at h a) = true) cs).

(** [activeNodes.forEach((n, i) => nodeMap.set(n.id, i))]: the map is keyed
    by the node's [id] string, later entries replacing earlier ones. *)
Definition build_nodeMap (h : list Node.t) (active : list addr)
  : gmap string nat :=
  foldl (fun m ia => <[Node.id (node_at h ia.2) := ia.1]> m) ∅
        (imap pair active).

(** [getIdx]; [None] is the source's [-1]. *)
Definition getIdx (h : list Node.t) (nodeMap : gmap string nat)
  (node : option addr) : option nat :=
  match node with
  | None => None
  | Some a =>
      if Node.isGND (node_at h a) then None
      else nodeMap !! Node.id (node_at h a)
  end.

(** The four-line two-terminal conductance stamp, written out twice in the
    source (spdt branch and resistive branch). *)
Definition stamp (A : Matrix.t) (g : float) (i j : option nat)
  : outcome Matrix.t :=
  A ← match i with
      | Some i => v ← Matrix.get A i i; Ok (Matrix.set A i i (v + g)%float)
      | None => Ok A
      end;
  A ← match j with
      | Some j => v ← Matrix.get A j j; Ok (Matrix.set A j j (v + g)%float)
      | None => Ok A
      end;
  match i, j with
  | Some i, Some j =>
      v ← Matrix.get A i j;
      let A := Matrix.set A i j (v - g)%float in
      v ← Matrix.get A j i;
      Ok (Matrix.set A j i (v - g)%float)
  | _, _ => Ok A
  end.

(** The resistance the resistive branch of the assembly stamps with. *)
Definition stamp_resistance (iter : nat) (h : list Node.t) (comp : Component.t)
  : float :=
  let R := Component.resistance comp in
  let R := if is_type "switch" comp || is_type "pushbutton" comp
           then (if Component.isOpen comp then 1e9 else 0.001)%float
           else R in
  let R := if is_type "led" comp
           then
             let v1 := voltage_of h (Component.terminal comp 0) in
             let v2 := voltage_of h (Component.terminal comp 1) in
             let drop := (v1 - v2)%float in
             if 0 <? iter then (if fgt drop 0.5 then 90 else 1e7)%float
             else R
           else R in
  if flt R 1e-6 then 1e-6%float else R.

(** What the assembly threads through [components.forEach]: the matrix,
    the source vector and [vSourceIndex]. *)
Record assembly := mkAssembly {
  asm_A : Matrix.t;
  asm_Z : list float;
  asm_vSourceIndex : nat
}.

Definition stamp_battery (h : list Node.t) (nodeMap : gmap string nat)
  (N : nat) (comp : Component.t) (s : assembly) : assembly :=
  let i := getIdx h nodeMap (Component.terminal comp 0) in
  let j := getIdx h nodeMap (Component.terminal comp 1) in
  let row := N + asm_vSourceIndex s in
  let A := asm_A s in
  let A := match i with
           | Some i => Matrix.set (Matrix.set A row i 1) i row 1
           | None => A
           end in
  let A := match j with
           | Some j => Matrix.set (Matrix.set A row j (-1)) j row (-1)
           | None => A
           end in
  mkAssembly A (<[row := Component.voltage comp]> (asm_Z s))
             (S (asm_vSourceIndex s)).

Definition stamp_spdt (h : list Node.t) (nodeMap : gmap string nat)
  (comp : Component.t) (A : Matrix.t) : outcome Matrix.t :=
  let targets :=
    [ (1, bool_decide (Component.spdtState comp = Some 0));
      (2, bool_decide (Component.spdtState comp = Some 1)) ] in
  let cIdx := getIdx h nodeMap (Component.terminal comp 0) in
  forM (fun A (t : nat * bool) =>
          let R := (if t.2 then 0.001 else 1e9)%float in
          let g := (1 / R)%float in
          let tIdx := getIdx h nodeMap (Component.terminal comp t.1) in
          stamp A g cIdx tIdx)
       targets A.

Definition stamp_resistive (iter : nat) (h : list Node.t)
  (nodeMap : gmap string nat) (comp : Component.t) (A : Matrix.t)
  : outcome Matrix.t :=
  let R := stamp_resistance iter h comp in
  let g := (1 / R)%float in
  let n1 := Component.terminal comp 0 in
  let n2 := Component.terminal comp 1 in
  if bool_decide (n1 = None) && bool_decide (n2 = None) then Ok A
  else stamp A g (getIdx h nodeMap n1) (getIdx h nodeMap n2).

(** The body of [this.components.forEach(comp => ...)] in "Fill Matrix". *)
Definition stamp_component (iter : nat) (h : list Node.t)
  (nodeMap : gmap string nat) (N : nat) (s : assembly) (comp : Component.t)
  : outcome assembly :=
  if is_type "battery" comp then Ok (stamp_battery h nodeMap N comp s)
  else if is_type "spdt" comp then
    A ← stamp_spdt h nodeMap comp (asm_A s);
    Ok (mkAssembly A (asm_Z s) (asm_vSourceIndex s))
  else
    A ← stamp_resistive iter h nodeMap comp (asm_A s);
    Ok (mkAssembly A (asm_Z s) (asm_vSourceIndex s)).

Definition leakage (N : nat) (A : Matrix.t) : Matrix.t :=
  foldl (fun A i => Matrix.set A i i 1e-12) A (seq 0 N).

Definition assemble (iter : nat) (e : CircuitEngine) : outcome assembly :=
  let active := activeNodes e in
  let N := length active in
  let M := battery_count (comp_store e) (engine_components e) in
  let size := N + M in
  let A := Matrix.new size size in
  let Z := replicate size 0%float in
  let nodeMap := build_nodeMap (node_store e) active in
  let A := leakage N A in
  forM (fun s ca =>
          stamp_component iter (node_store e) nodeMap N s
                          (comp_at (comp_store e) ca))
       (engine_components e) (mkAssembly A Z 0).

(** ** CircuitEngine.solve: update step *)

(** [activeNodes.forEach((n, i) => ...)] of "Update Voltages": the running
    [maxChange] and the node store, written node by node. *)
Definition update_voltage (result : list float)
  (s : float * list Node.t) (ia : nat * addr) : float * list Node.t :=
  let '(maxChange, h) := s in
  let n := node_at h ia.2 in
  let diff := fabs (Node.voltage n - vget result ia.1)%float in
  let maxChange := if fgt diff maxChange then diff else maxChange in
  (maxChange, <[ia.2 := Node.set_voltage (vget result ia.1) n]> h).

Definition update_voltages (result : list float) (active : list addr)
  (h : list Node.t) : float * list Node.t :=
  foldl (update_voltage result) (0%float, h) (imap pair active).

(** [this.nodes.forEach(n => { if (n.isGND) n.voltage = 0; })]. *)
Definition ground_voltages (all : list addr) (h : list Node.t) : list Node.t :=
  foldl (fun h a =>
           let n := node_at h a in
           if Node.isGND n then <[a := Node.set_voltage 0 n]> h else h)
        h all.

(** The index search of the battery branch: batteries met before the first
    occurrence of [comp] itself (object identity) in [this.components]. *)
Fixpoint battery_index (h : list Component.t) (cs : list addr) (ca : addr)
  : nat :=
  match cs with
  | [] => 0
  | c :: cs' =>
      if c =? ca then 0
      else (if is_type "battery" (comp_at h c) then 1 else 0)
           + battery_index h cs' ca
  end.

(** The resistance the update step divides by for a resistive component. *)
Definition update_resistance (h : list Node.t) (comp : Component.t) : float :=
  let v1 := voltage_of h (Component.terminal comp 0) in
  let v2 := voltage_of h (Component.terminal comp 1) in
  let R := Component.resistance comp in
  let R := if is_type "switch" comp || is_type "pushbutton" comp
           then (if Component.isOpen comp then 1e9 else 0.001)%float
           else R in
  if is_type "led" comp
  then (if fgt (v1 - v2)%float 0.5 then 90 else 1e7)%float
  else R.

(** The value assigned to [comp.current]. *)
Definition component_current (h : list Node.t) (hc : list Component.t)
  (cs : list addr) (N : nat) (result : list float) (ca : addr) : float :=
  let comp := comp_at hc ca in
  let v1 := voltage_of h (Component.terminal comp 0) in
  let v2 := voltage_of h (Component.terminal comp 1) in
  if is_type "battery" comp then vget result (N + battery_index hc cs ca)
  else if is_type "spdt" comp then
    let idx := if bool_decide (Component.spdtState comp = Some 0)
               then 1 else 2 in
    let vTarget := voltage_of h (Component.terminal comp idx) in
    let vCommon := voltage_of h (Component.terminal comp 0) in
    ((vCommon - vTarget) / 0.001)%float
  else ((v1 - v2) / update_resistance h comp)%float.

(** [this.components.forEach(comp => ...)] of "Update Currents". *)
Definition update_currents (h : list Node.t) (cs : list addr) (N : nat)
  (result : list float) (hc : list Component.t) : list Component.t :=
  foldl (fun hc ca =>
           <[ca := Component.set_current
                     (component_current h hc cs N result ca)
                     (comp_at hc ca)]> hc)
        hc cs.

(** ** CircuitEngine.solve: one pass and the iteration *)

(** Everything one pass of the [for] loop computes. *)
Record pass := mkPass {
  pass_iter : nat;
  pass_before : CircuitEngine;
  pass_A : Matrix.t;
  pass_Z : list float;
  pass_result : list float;
  pass_maxChange : float;
  pass_after : CircuitEngine
}.

Definition unknowns (e : CircuitEngine) : nat :=
  length (activeNodes e)
  + battery_count (comp_store e) (engine_components e).

Definition solve_pass (iter : nat) (e : CircuitEngine) : outcome pass :=
  let active := activeNodes e in
  let N := length active in
  s ← assemble iter e;
  let result := solveLinearSystem (asm_A s) (asm_Z s) in
  let '(maxChange, h) := update_voltages result active (node_store e) in
  let h := ground_voltages (engine_nodes e) h in
  let hc := update_currents h (engine_components e) N result (comp_store e) in
  Ok (mkPass iter e (asm_A s) (asm_Z s) result maxChange
             (mkEngine h hc (engine_nodes e) (engine_components e))).

Definition maxIterations : nat := 10.

(** The [for (let iter = 0; iter < maxIterations; iter++)] loop, [todo]
    being [maxIterations - iter]; it returns the passes it ran, oldest
    first. *)
Fixpoint solve_loop (todo iter : nat) (e : CircuitEngine)
  : outcome (list pass) :=
  match todo with
  | 0 => Ok []
  | S todo' =>
      if unknowns e =? 0 then Ok []
      else
        p ← solve_pass iter e;
        if (0 <? iter) && flt (pass_maxChange p) 1e-3 then Ok [p]
        else
          ps ← solve_loop todo' (S iter) (pass_after p);
          Ok (p :: ps)
  end.

Definition solve_passes (e : CircuitEngine) : outcome (list pass) :=
  solve_loop maxIterations 0 e.

(** The engine state a sequence of passes leaves behind. *)
Definition final_state (e : CircuitEngine) (ps : list pass) : CircuitEngine :=
  default e (pass_after <$> last ps).

(** [solve()]. *)
Definition solve (e : CircuitEngine) : outcome CircuitEngine :=
  ps ← solve_passes e;
  Ok (final_state e ps).

(** ** rebuildCircuit *)

(** An entry of [visualWires]: [{ startComp, startTerm, endComp, endTerm }].
    The component references are object references, so a wire can name a
    component that is no longer in [engine.components]. *)
Record wire := mkWire {
  startComp : option addr;
  startTerm : nat;
  endComp : option addr;
  endTerm : nat
}.

(** Step 1 for one component: [c.nodes = []], then one fresh node per
    terminal, each its own union-find parent.  ([allNodes] is filled but
    never read.) *)
Definition fresh_terminals (s : list Node.t * list Component.t) (ca : addr)
  : list Node.t * list Component.t :=
  let '(h, hc) := s in
  let c := comp_at hc ca in
  let termCount := if is_type "spdt" c then 3 else 2 in
  let '(h, ns) :=
    foldl (fun (s : list Node.t * list (option addr)) i =>
             let n := length s.1 in
             (s.1 ++ [Node.mk ("n_" +:+ Component.id c +:+ "_" +:+ pretty i)
                              0%float false n],
              s.2 ++ [Some n]))
          (h, []) (seq 0 termCount) in
  (h, <[ca := Component.set_nodes ns c]> hc).

(** [find], with path compression.  The recursion follows [parent]
    references; [fuel] bounds its depth. *)
Fixpoint find (fuel : nat) (h : list Node.t) (n : addr)
  : outcome (list Node.t * addr) :=
  match fuel with
  | 0 => OutOfFuel
  | S fuel' =>
      let p := Node.parent (node_at h n) in
      if p =? n then Ok (h, p)
      else
        '(h, r) ← find fuel' h p;
        Ok (<[n := Node.set_parent r (node_at h n)]> h, r)
  end.

Definition union (fuel : nat) (h : list Node.t) (n1 n2 : addr)
  : outcome (list Node.t) :=
  '(h, root1) ← find fuel h n1;
  '(h, root2) ← find fuel h n2;
  Ok (if root1 =? root2 then h
      else <[root1 := Node.set_parent root2 (node_at h root1)]> h).

(** The "safe check" of step 3: the two nodes a wire joins, if all four
    tested values are truthy. *)
Definition wire_ends (hc : list Component.t) (w : wire)
  : option (addr * addr) :=
  match startComp w, endComp w with
  | Some sc, Some ec =>
      match Component.terminal (comp_at hc sc) (startTerm w),
            Component.terminal (comp_at hc ec) (endTerm w) with
      | Some n1, Some n2 => Some (n1, n2)
      | _, _ => None
      end
  | _, _ => None
  end.

Definition apply_wire (fuel : nat) (hc : list Component.t)
  (h : list Node.t) (w : wire) : outcome (list Node.t) :=
  match wire_ends hc w with
  | Some (n1, n2) => union fuel h n1 n2
  | None => Ok h
  end.

(** Step 4 for one component: every slot replaced by its root.  A slot
    holding [null] would make [find] read [null.parent]. *)
Definition root_terminals (fuel : nat) (s : list Node.t * list Component.t)
  (ca : addr) : outcome (list Node.t * list Component.t) :=
  let '(h, hc) := s in
  forM (fun (s : list Node.t * list Component.t) i =>
          let c := comp_at s.2 ca in
          match Component.terminal c i with
          | None => TypeError
          | Some n =>
              '(h, r) ← find fuel s.1 n;
              Ok (h, <[ca := Component.set_nodes (<[i := Some r]>
                                 (Component.nodes c)) c]> s.2)
          end)
       (seq 0 (length (Component.nodes (comp_at hc ca)))) (h, hc).

(** [Set.prototype.add] on the insertion-ordered list of members. *)
Definition set_add {A : Type} `{EqDecision A} (s : list A) (x : A) : list A :=
  if decide (x ∈ s) then s else s ++ [x].

(** Step 5: the distinct values found in the components' terminal slots,
    in order of first occurrence. *)
Definition uniqueNodes (hc : list Component.t) (cs : list addr)
  : list (option addr) :=
  foldl (fun s ca => foldl set_add s (Component.nodes (comp_at hc ca))) [] cs.

(** [engine.nodes.forEach((n, i) => n.id = `node_${i}`)]. *)
Definition assign_ids (ns : list (option addr)) (h : list Node.t)
  : outcome (list Node.t) :=
  forM (fun h (ia : nat * option addr) =>
          match ia.2 with
          | None => TypeError
          | Some a => Ok (<[a := Node.set_id ("node_" +:+ pretty ia.1)
                                              (node_at h a)]> h)
          end)
       (imap pair ns) h.

(** Step 6: the second terminal of the first battery becomes ground. *)
Definition ground_first_battery (hc : list Component.t) (cs : list addr)
  (h : list Node.t) : list Node.t :=
  match list_find (fun ca => is_type "battery" (comp_at hc ca) = true) cs with
  | Some (_, ca) =>
      match Component.terminal (comp_at hc ca) 1 with
      | Some a => <[a := Node.set_isGND true (node_at h a)]> h
      | None => h
      end
  | None => h
  end.

(** Steps 1 to 6: everything [rebuildCircuit] does before it calls
    [engine.solve()].  The recursion depth given to [find] is one more than
    the number of nodes in the store, which no acyclic parent chain
    exceeds. *)
Definition rebuildTopology (wires : list wire) (e : CircuitEngine)
  : outcome CircuitEngine :=
  let cs := engine_components e in
  let '(h, hc) := foldl fresh_terminals (node_store e, comp_store e) cs in
  let fuel := S (length h) in
  h ← forM (apply_wire fuel hc) wires h;
  '(h, hc) ← forM (root_terminals fuel) cs (h, hc);
  let unique := uniqueNodes hc cs in
  h ← assign_ids unique h;
  let h := ground_first_battery hc cs h in
  Ok (mkEngine h hc (omap id unique) cs).

Definition rebuildCircuit (wires : list wire) (e : CircuitEngine)
  : outcome CircuitEngine :=
  e ← rebuildTopology wires e;
  solve e.

(** ** CircuitEngine.addComponent *)

Definition kind_defaults (type : string) (c : Component.t) : Component.t :=
  if String.eqb type "battery"
  then Component.set_resistance 0.1 (Component.set_voltage 9 c)
  else if String.eqb type "bulb" then Component.set_resistance 50 c
  else if String.eqb type "switch"
  then Component.set_isOpen true (Component.set_resistance 0.001 c)
  else if String.eqb type "resistor" then Component.set_resistance 100 c
  else if String.eqb type "voltmeter" then Component.set_resistance 1e9 c
  else if String.eqb type "ammeter" then Component.set_resistance 0.001 c
  else if String.eqb type "joint" then Component.set_resistance 0.001 c
  else if String.eqb type "led" then Component.set_resistance 10 c
  else if String.eqb type "pushbutton"
  then Component.set_isOpen true (Component.set_resistance 1e9 c)
  else if String.eqb type "buzzer" then Component.set_resistance 100 c
  else if String.eqb type "ldr" then Component.set_resistance 250 c
  else if String.eqb type "potentiometer" then Component.set_resistance 250 c
  else c.

(** [addComponent(type, x, y)]: the new component object is stored at a
    fresh address and its reference pushed on [this.components];
    [compCounter] is the number the next id is built from. *)
Definition addComponent (compCounter : nat) (type : string)
  (e : CircuitEngine) : CircuitEngine * addr :=
  let ca := length (comp_store e) in
  let comp := Component.mk ("comp_" +:+ pretty compCounter) type [None; None]
                           10%float 0%float false None None in
  (mkEngine (node_store e) (comp_store e ++ [kind_defaults type comp])
            (engine_nodes e) (engine_components e ++ [ca]),
   ca).

(** ** The interaction controller

    The controller's state, as far as the engine is concerned: the engine,
    its [compCounter] (a field of [CircuitEngine] that only [addComponent]
    reads), the connection edges [visualWires], [selectedComponent] and
    the drag and wire-drawing state.  [wireStartTerminal] is kept as
    [(component, index)]; its coordinates only serve the display.

    [updatePropertiesPanel] reads the state and does not change it; of the
    handlers the panel installs, only the delete button is given here (the
    others parse text inputs or turn the drawing).  [draw] writes
    presentation fields only ([exploded], [angle]), but it dereferences the
    components the edges name and so can raise; it is given below as far
    as that goes.  The hit tests [getTerminalAt], [getComponentAt] and [getWireAt] are
    geometry on the presentation fields; the handlers that call them are
    given here as functions of what the hit test returned. *)
Record controller := mkController {
  engine : CircuitEngine;
  compCounter : nat;
  visualWires : list wire;
  selectedComponent : option addr;
  isDragging : bool;
  isDrawingWire : bool;
  wireStartTerminal : option (addr * nat)
}.

(** The set [usedComps] of [removeOrphanedJoints]: every [startComp] and
    [endComp], in insertion order. *)
Definition usedComps (wires : list wire) : list (option addr) :=
  foldl (fun s w => set_add (set_add s (startComp w)) (endComp w)) [] wires.

(** [removeOrphanedJoints()]: joints that no edge names leave
    [engine.components]. *)
Definition removeOrphanedJoints (wires : list wire) (e : CircuitEngine)
  : CircuitEngine :=
  let used := usedComps wires in
  mkEngine (node_store e) (comp_store e) (engine_nodes e)
    (filter (fun c => (if is_type "joint" (comp_at (comp_store e) c)
                       then bool_decide (Some c ∈ used) else true) = true)
            (engine_components e)).

(** [engine.components.filter(c => c !== comp)]. *)
Definition without_component (comp : addr) (e : CircuitEngine)
  : CircuitEngine :=
  mkEngine (node_store e) (comp_store e) (engine_nodes e)
           (filter (fun c => c <> comp) (engine_components e)).

(** [visualWires.filter(w => w.startComp !== comp && w.endComp !== comp)]. *)
Definition without_wires_of (comp : addr) (wires : list wire) : list wire :=
  filter (fun w => startComp w <> Some comp /\ endComp w <> Some comp) wires.

(** [getTransformedTerminals(comp)], less the coordinates: whether the
    object it returns has a [t2], which only an spdt has.  Its first
    statement reads [comp.rotation], which raises on [null]. *)
Definition getTransformedTerminals (hc : list Component.t)
  (comp : option addr) : outcome bool :=
  match comp with
  | None => TypeError
  | Some c => Ok (is_type "spdt" (comp_at hc c))
  end.

(** [getTermPos(terms, idx)] of [draw]: whether the position it returns is
    defined.  It returns [terms.t2] for index 2, and [terms.t0] or
    [terms.t1], which every component has, for every other index. *)
Definition getTermPos (has_t2 : bool) (idx : nat) : bool :=
  if idx =? 2 then has_t2 else true.

(** One round of the edge loop of [draw]: the two calls of
    [getTransformedTerminals], then [start.x] and [end.x], which raise on
    an undefined position.  The canvas calls draw and return. *)
Definition draw_wire (hc : list Component.t) (w : wire) : outcome unit :=
  startTerms ← getTransformedTerminals hc (startComp w);
  endTerms ← getTransformedTerminals hc (endComp w);
  if getTermPos startTerms (startTerm w) && getTermPos endTerms (endTerm w)
  then Ok tt else TypeError.

(** [draw()], as far as it can raise: the loop over [visualWires].  The
    loop over [engine.components] and the wire being drawn only read
    fields of objects that exist. *)
Definition draw (a : controller) : outcome unit :=
  forM (fun _ w => draw_wire (comp_store (engine a)) w) (visualWires a) tt.

(** [window.deleteSelected]. *)
Definition deleteSelected (a : controller) : outcome controller :=
  match selectedComponent a with
  | None => Ok a
  | Some sel =>
      let e := without_component sel (engine a) in
      let wires := without_wires_of sel (visualWires a) in
      let e := removeOrphanedJoints wires e in
      e ← rebuildCircuit wires e;
      let a' := mkController e (compCounter a) wires None (isDragging a)
                             (isDrawingWire a) (wireStartTerminal a) in
      draw a';; Ok a'
  end.

(** The [onclick] handler of the panel's delete button, which is bound to
    the component the panel shows. *)
Definition deleteButton (comp : addr) (a : controller) : outcome controller :=
  let e := without_component comp (engine a) in
  let wires := without_wires_of comp (visualWires a) in
  e ← rebuildCircuit wires e;
  let a' := mkController e (compCounter a) wires None (isDragging a)
                         (isDrawingWire a) (wireStartTerminal a) in
  draw a';; Ok a'.

(** [handleDrop(clientX, clientY)], [type] being the dragged item type
    ([null] when nothing is dragged); the position only goes to the
    presentation fields of the new component. *)
Definition handleDrop (type : option string) (a : controller)
  : outcome controller :=
  match type with
  | None => Ok a
  | Some type =>
      if String.eqb type "" then Ok a
      else
        let e := (addComponent (compCounter a) type (engine a)).1 in
        e ← rebuildCircuit (visualWires a) e;
        let a' := mkController e (S (compCounter a)) (visualWires a)
                               (selectedComponent a) (isDragging a)
                               (isDrawingWire a) (wireStartTerminal a) in
        draw a';; Ok a'
  end.

(** [mergeNodes(nodeA, nodeB)] on two node objects. *)
Definition mergeNodes (nodeA nodeB : addr) (e : CircuitEngine)
  : CircuitEngine :=
  if nodeA =? nodeB then e
  else
    let hc :=
      foldl (fun hc ca =>
               let c := comp_at hc ca in
               <[ca := Component.set_nodes
                         (map (fun o => if bool_decide (o = Some nodeB)
                                        then Some nodeA else o)
                              (Component.nodes c)) c]> hc)
            (comp_store e) (engine_components e) in
    let h := if Node.isGND (node_at (node_store e) nodeB)
             then <[nodeA := Node.set_isGND true
                               (node_at (node_store e) nodeA)]> (node_store e)
             else node_store e in
    mkEngine h hc (filter (fun n => n <> nodeB) (engine_nodes e))
             (engine_components e).

(** A write to fields of the component object at [ca]. *)
Definition store_comp (e : CircuitEngine) (ca : addr) (c : Component.t)
  : CircuitEngine :=
  mkEngine (node_store e) (<[ca := c]> (comp_store e)) (engine_nodes e)
           (engine_components e).

(** The three [if (clickedComp.type === ...)] blocks of
    [handlePointerDown], in order. *)
Definition click_component (clicked : addr) (a : controller)
  : outcome CircuitEngine :=
  let e := engine a in
  e ← (let c := comp_at (comp_store e) clicked in
       if is_type "switch" c
          && (bool_decide (selectedComponent a = Some clicked)
              || bool_decide (selectedComponent a = None))
       then solve (store_comp e clicked
                     (Component.set_isOpen (negb (Component.isOpen c)) c))
       else Ok e);
  e ← (let c := comp_at (comp_store e) clicked in
       if is_type "pushbutton" c
       then solve (store_comp e clicked
                     (Component.set_resistance 0.001
                        (Component.set_isOpen false c)))
       else Ok e);
  let c := comp_at (comp_store e) clicked in
  if is_type "spdt" c
  then solve (store_comp e clicked
                (Component.set_spdtState
                   (Some (if bool_decide (Component.spdtState c = Some 0)
                          then 1 else 0)) c))
  else Ok e.

(** [handlePointerDown(clientX, clientY)].  [terminal], [clickedComp] and
    [wireHit] are what [getTerminalAt], [getComponentAt] and [getWireAt]
    return at the pointer; the second is only looked at when the first is
    [null], the third when both are.  A wire hit is the pair
    [{wire, index}]. *)
Definition handlePointerDown (terminal : option (addr * nat))
  (clickedComp : option addr) (wireHit : option (wire * nat)) (a : controller)
  : outcome controller :=
  match terminal with
  | Some t =>
      Ok (mkController (engine a) (compCounter a) (visualWires a)
                       (selectedComponent a) (isDragging a) true (Some t))
  | None =>
      match clickedComp with
      | Some clicked =>
          e ← click_component clicked a;
          Ok (mkController e (compCounter a) (visualWires a) (Some clicked)
                           true (isDrawingWire a) (wireStartTerminal a))
      | None =>
          match wireHit with
          | Some (oldW, index) =>
              let '(e, joint) :=
                addComponent (compCounter a) "joint" (engine a) in
              let wires :=
                delete index (visualWires a)
                ++ [mkWire (startComp oldW) (startTerm oldW) (Some joint) 0;
                    mkWire (Some joint) 1 (endComp oldW) (endTerm oldW)] in
              e ← rebuildCircuit wires e;
              Ok (mkController e (S (compCounter a)) wires (Some joint)
                               true (isDrawingWire a) (wireStartTerminal a))
          | None =>
              let a' := mkController (engine a) (compCounter a)
                                     (visualWires a) None (isDragging a)
                                     (isDrawingWire a)
                                     (wireStartTerminal a) in
              draw a';; Ok a'
          end
      end
  end.

(** The push-button release of [handlePointerUp]: the engine and
    [needsSolve]. *)
Definition release_pushbuttons (e : CircuitEngine) : CircuitEngine * bool :=
  foldl (fun (s : CircuitEngine * bool) pb =>
           let c := comp_at (comp_store s.1) pb in
           if Component.isOpen c then s
           else (store_comp s.1 pb
                   (Component.set_resistance 1e9
                      (Component.set_isOpen true c)),
                 true))
        (e, false)
        (filter (fun c => is_type "pushbutton" (comp_at (comp_store e) c) = true)
                (engine_components e)).

(** [handlePointerUp(clientX, clientY)], [terminal] being what
    [getTerminalAt] returns at the pointer (it is only looked at while a
    wire is being drawn). *)
Definition handlePointerUp (terminal : option (addr * nat)) (a : controller)
  : outcome controller :=
  let '(e, needsSolve) := release_pushbuttons (engine a) in
  let added : outcome (CircuitEngine * list wire * bool) :=
    match isDrawingWire a, wireStartTerminal a, terminal with
    | true, Some start, Some t =>
        if bool_decide (t = start) then Ok (e, visualWires a, needsSolve)
        else
          let wires :=
            visualWires a ++ [mkWire (Some start.1) start.2
                                     (Some t.1) t.2] in
          e ← rebuildCircuit wires e;
          Ok (e, wires, false)
    | _, _, _ => Ok (e, visualWires a, needsSolve)
    end in
  '(e, wires, needsSolve) ← added;
  e ← (if needsSolve : bool then solve e else Ok e);
  let a' := mkController e (compCounter a) wires (selectedComponent a)
                         false false None in
  draw a';; Ok a'.

(** [handleDoubleClick(clientX, clientY)], [wireHit] being what
    [getWireAt] returns at the pointer. *)
Definition handleDoubleClick (wireHit : option (wire * nat))
  (a : controller) : outcome controller :=
  match wireHit with
  | None => Ok a
  | Some (_, index) =>
      let wires := delete index (visualWires a) in
      let e := removeOrphanedJoints wires (engine a) in
      e ← rebuildCircuit wires e;
      let a' := mkController e (compCounter a) wires (selectedComponent a)
                             (isDragging a) (isDrawingWire a)
                             (wireStartTerminal a) in
      draw a';; Ok a'
  end.

(** [resetSimulation()].  The new [CircuitEngine] has empty lists and its
    own [compCounter]; the objects of the old one stay in the stores, where
    [wireStartTerminal], which the function does not clear, may still
    reference one. *)
Definition resetSimulation (a : controller) : outcome controller :=
  let e := mkEngine (node_store (engine a)) (comp_store (engine a)) [] [] in
  e ← solve e;
  let a' := mkController e 0 [] None false false (wireStartTerminal a) in
  draw a';; Ok a'.

(** The [onchange] and [oninput] handlers of the panel's inputs, which
    are bound to the component [comp] the panel shows: a field of the
    component is written, then [engine.solve()] and [draw()]. *)
Definition panel_input (comp : addr) (write : Component.t -> Component.t)
  (a : controller) : outcome controller :=
  let c := comp_at (comp_store (engine a)) comp in
  e ← solve (store_comp (engine a) comp (write c));
  let a' := mkController e (compCounter a) (visualWires a)
                         (selectedComponent a) (isDragging a)
                         (isDrawingWire a) (wireStartTerminal a) in
  draw a';; Ok a'.

(** [comp.resistance = 500 - (val * 5)], raised to [0.001] when below. *)
Definition light_resistance (val : float) : float :=
  let r := (500 - val * 5)%float in
  if flt r 0.001 then 0.001%float else r.

(** [comp.resistance = val], raised to [0.001] when below. *)
Definition pot_resistance (val : float) : float :=
  if flt val 0.001 then 0.001%float else val.

(** What the listeners of the page hand to the handlers.  The pointer
    events carry what the hit tests return at the pointer; the inputs of
    the panel carry the component the panel shows and what [parseFloat]
    returns.  [Repaint] stands for the listeners that write presentation
    fields only and call [draw()]: [handlePointerMove], [rotateSelected],
    the panel's rotate button, [resizeCanvas], the screenshot button and
    the animation frame [loop]. *)
Inductive event : Type :=
  | DropItem (type : option string)
  | PointerDown (terminal : option (addr * nat)) (clickedComp : option addr)
                (wireHit : option (wire * nat))
  | PointerUp (terminal : option (addr * nat))
  | DoubleClick (wireHit : option (wire * nat))
  | DeleteKey
  | DeleteClick (comp : addr)
  | ResetClick
  | VoltageInput (comp : addr) (v : float)
  | ResistanceInput (comp : addr) (r : float)
  | LightInput (comp : addr) (val : float)
  | PotInput (comp : addr) (val : float)
  | Repaint.

Definition handle (ev : event) (a : controller) : outcome controller :=
  match ev with
  | DropItem type => handleDrop type a
  | PointerDown terminal clickedComp wireHit =>
      handlePointerDown terminal clickedComp wireHit a
  | PointerUp terminal => handlePointerUp terminal a
  | DoubleClick wireHit => handleDoubleClick wireHit a
  | DeleteKey => deleteSelected a
  | DeleteClick comp => deleteButton comp a
  | ResetClick => resetSimulation a
  | VoltageInput comp v => panel_input comp (Component.set_voltage v) a
  | ResistanceInput comp r => panel_input comp (Component.set_resistance r) a
  | LightInput comp val =>
      panel_input comp (Component.set_resistance (light_resistance val)) a
  | PotInput comp val =>
      panel_input comp (Component.set_resistance (pot_resistance val)) a
  | Repaint => draw a;; Ok a
  end.

(** * Predicates and example circuits of the statements *)

(** A square matrix of the given size, as [solve] builds and keeps it. *)
Definition square (size : nat) (A : Matrix.t) : Prop :=
  Matrix.shaped A /\ Matrix.rows A = size /\ Matrix.cols A = size.

Definition idx_below (size : nat) (i : option nat) : Prop :=
  match i with Some i => i < size | None => True end.

Definition assembly_ok (size : nat) (s : assembly) : Prop :=
  square size (asm_A s) /\ length (asm_Z s) = size.

(** Two node records that differ at most in [voltage]. *)
Definition node_frame (n n' : Node.t) : Prop :=
  Node.id n' = Node.id n /\ Node.isGND n' = Node.isGND n
  /\ Node.parent n' = Node.parent n.

(** Two component records that differ at most in [current]. *)
Definition comp_frame (c c' : Component.t) : Prop :=
  Component.id c' = Component.id c /\ Component.type c' = Component.type c
  /\ Component.nodes c' = Component.nodes c
  /\ Component.resistance c' = Component.resistance c
  /\ Component.voltage c' = Component.voltage c
  /\ Component.isOpen c' = Component.isOpen c
  /\ Component.spdtState c' = Component.spdtState c.

(** Two engine states with the same two reference arrays, whose stored
    nodes differ at most in [voltage] and whose stored components differ at
    most in [current]. *)
Definition engine_frame (e e' : CircuitEngine) : Prop :=
  engine_nodes e' = engine_nodes e
  /\ engine_components e' = engine_components e
  /\ Forall2 node_frame (node_store e) (node_store e')
  /\ Forall2 comp_frame (comp_store e) (comp_store e').

(** The early-exit test at the end of a pass:
    [iter > 0 && maxChange < 1e-3]. *)
Definition converged (p : pass) : bool :=
  (0 <? pass_iter p) && flt (pass_maxChange p) 1e-3.

(** The running maximum [if (d > m) m = d] over a list of values: no value
    exceeds the result, and the result is the start value or one of them. *)
Definition running_max (m : float) (ds : list float) : float :=
  foldl (fun m d => if fgt d m then d else m) m ds.

(** A resistor whose two terminals sit on the one, grounded, node. *)
Definition grounded_resistor : CircuitEngine :=
  mkEngine [Node.mk "node_0" 3.5%float true 0]
           [Component.mk "comp_0" "resistor" [Some 0; Some 0] 100%float
                         0%float false None (Some 0.25%float)]
           [0] [0].

Definition empty_engine : CircuitEngine := mkEngine [] [] [] [].

Definition built (r : outcome CircuitEngine) : CircuitEngine :=
  match r with Ok e => e | _ => empty_engine end.

(** A 9 V battery with an LED (default resistance 10) directly across it,
    as [addComponent] and the topology builder produce it. *)
Definition led_across_battery : CircuitEngine :=
  let e := (addComponent 0 "battery" empty_engine).1 in
  let e := (addComponent 1 "led" e).1 in
  built (rebuildTopology [mkWire (Some 0) 0 (Some 1) 0;
                          mkWire (Some 0) 1 (Some 1) 1] e).

(** The passes [solve] runs on [led_across_battery], and the second of
    them. *)
Definition led_passes : list pass :=
  Eval vm_compute in
    match solve_passes led_across_battery with Ok ps => ps | _ => [] end.

Definition led_pass_1 : pass :=
  Eval vm_compute in
    default (mkPass 0 empty_engine (Matrix.new 0 0) [] [] 0%float empty_engine)
            (led_passes !! 1).

Definition led_pass_0 : pass :=
  Eval vm_compute in
    default (mkPass 0 empty_engine (Matrix.new 0 0) [] [] 0%float empty_engine)
            (led_passes !! 0).

(** A 9 V battery feeding an LED through a 100 ohm resistor. *)
Definition led_with_resistor : CircuitEngine :=
  let e := (addComponent 0 "battery" empty_engine).1 in
  let e := (addComponent 1 "led" e).1 in
  let e := (addComponent 2 "resistor" e).1 in
  built (rebuildTopology [mkWire (Some 0) 0 (Some 2) 0;
                          mkWire (Some 2) 1 (Some 1) 0;
                          mkWire (Some 0) 1 (Some 1) 1] e).

Definition series_passes : list pass :=
  Eval vm_compute in
    match solve_passes led_with_resistor with Ok ps => ps | _ => [] end.

Definition series_pass_2 : pass :=
  Eval vm_compute in
    default (mkPass 0 empty_engine (Matrix.new 0 0) [] [] 0%float empty_engine)
            (series_passes !! 2).

(** An [n] by [n] array of rows with a right-hand side of length [n]. *)
Definition system_shape (n : nat) (MR : list (list float) * list float)
  : Prop :=
  length MR.1 = n /\ Forall (fun row => length row = n) MR.1
  /\ length MR.2 = n.

(** The working copies [M], [R] on entry to iteration [i] of the forward
    loop. *)
Definition forward_upto (n : nat) (MR : list (list float) * list float)
  (i : nat) : list (list float) * list float :=
  foldl (forward_step n) MR (seq 0 i).

(** The sum the backward loop accumulates for row [i]. *)
Definition back_sum (n : nat) (M : list (list float)) (x : list float)
  (i : nat) : float :=
  foldl (fun sum j => (sum + entry M i j * vget x j)%float)
        0%float (seq (S i) (n - S i)).

(** The unknowns after the backward loop has handled rows [n-1] down to
    [m]. *)
Definition back_from (n : nat) (M : list (list float)) (R : list float)
  (m : nat) : list float :=
  foldl (back_step n M R) (replicate n 0%float) (rev (seq m (n - m))).

(** What [solveLinearSystem A B] does on an [n] by [n] system, iteration by
    iteration.  [M], [R] are the working copies on entry to forward
    iteration [i], [p] is the selected row and [M1], [R1] the copies after
    the swap; [Mf], [Rf] are the copies the forward loop ends with and [x]
    is the returned vector. *)
Definition partial_pivoting_elimination (A : Matrix.t) (B : list float)
  (n : nat) : Prop :=
  let MR0 := (map (map json_number) (Matrix.data A), B) in
  let x := solveLinearSystem A B in
  let Mf := (forward_upto n MR0 n).1 in
  let Rf := (forward_upto n MR0 n).2 in
  length x = n
  /\ forall i, i < n ->
       let M := (forward_upto n MR0 i).1 in
       let R := (forward_upto n MR0 i).2 in
       let p := select_pivot M n i in
       let M1 := swap M i p in
       let R1 := swap R i p in
       let pivot := entry M p i in
       let MR' := forward_upto n MR0 (S i) in
       (* the row with the largest magnitude in column i, at or below i *)
       i <= p < n
       /\ (forall k, i <= k < n ->
             fgt (fabs (entry M k i)) (fabs pivot) = false)
       (* rows i and p of M and R change places *)
       /\ M1 !! i = M !! p /\ M1 !! p = M !! i
       /\ R1 !! i = R !! p /\ R1 !! p = R !! i
       /\ (forall r, r <> i -> r <> p -> M1 !! r = M !! r /\ R1 !! r = R !! r)
       (* a pivot below 1e-10: nothing eliminated, unknown left at 0 *)
       /\ (flt (fabs pivot) 1e-10 = true ->
           MR' = (M1, R1) /\ vget x i = 0%float)
       (* otherwise: rows below lose their multiple of the pivot row, and
          the unknown comes from the unknowns after it *)
       /\ (flt (fabs pivot) 1e-10 = false ->
           (forall r, r <= i ->
              MR'.1 !! r = M1 !! r /\ vget MR'.2 r = vget R1 r)
           /\ (forall k, i < k < n ->
                 let factor := (entry M1 k i / pivot)%float in
                 vget MR'.2 k = (vget R1 k - factor * vget R1 i)%float
                 /\ forall j,
                      entry MR'.1 k j
                      = if decide (i <= j < n)
                        then (entry M1 k j - factor * entry M1 i j)%float
                        else entry M1 k j)
           /\ vget x i = ((vget Rf i - back_sum n Mf x i) / pivot)%float)
       (* row i is final once iteration i is over *)
       /\ Mf !! i = M1 !! i /\ vget Rf i = vget R1 i.

(** A node that is its own [parent]. *)
Definition is_root (h : list Node.t) (a : nat) : Prop :=
  Node.parent (node_at h a) = a.

(** Two node records that differ at most in [parent]. *)
Definition same_payload (n n' : Node.t) : Prop :=
  Node.id n' = Node.id n /\ Node.voltage n' = Node.voltage n
  /\ Node.isGND n' = Node.isGND n.

(** The parent references form a forest: they stay inside the store, and
    a rank grows strictly along every reference that is not a self-loop. *)
Definition forest_by (rank : nat -> nat) (h : list Node.t) : Prop :=
  forall a n, h !! a = Some n ->
    Node.parent n < length h
    /\ (Node.parent n <> a -> rank a < rank (Node.parent n)).

Definition forest (h : list Node.t) : Prop := exists rank, forest_by rank h.

(** The number of stored nodes ranked above [a]: a bound on the length of
    the parent chain that starts at [a]. *)
Definition above (rank : nat -> nat) (h : list Node.t) (a : nat) : nat :=
  length (filter (fun b => rank a < rank b) (seq 0 (length h))).

(** Every node reference held by a stored component designates a stored
    node. *)
Definition terminals_valid (h : list Node.t) (hc : list Component.t) : Prop :=
  forall c a, c ∈ hc -> Some a ∈ Component.nodes c -> a < length h.

(** No listed component has an empty terminal slot. *)
Definition slots_filled (hc : list Component.t) (cs : list nat) : Prop :=
  forall ca, ca ∈ cs -> Forall is_Some (Component.nodes (comp_at hc ca)).

(** Two component records that differ at most in [nodes]. *)
Definition same_but_nodes (c c' : Component.t) : Prop :=
  Component.id c' = Component.id c /\ Component.type c' = Component.type c
  /\ Component.resistance c' = Component.resistance c
  /\ Component.voltage c' = Component.voltage c
  /\ Component.isOpen c' = Component.isOpen c
  /\ Component.spdtState c' = Component.spdtState c
  /\ Component.current c' = Component.current c.

Definition termCount (c : Component.t) : nat :=
  if is_type "spdt" c then 3 else 2.

Definition fresh_nodes (c : Component.t) (base t : nat) : list Node.t :=
  map (fun i => Node.mk ("n_" +:+ Component.id c +:+ "_" +:+ pretty i)
                        0%float false (base + i))
      (seq 0 t).

Definition fresh_refs (base t : nat) : list (option nat) :=
  map (fun i => Some (base + i)) (seq 0 t).

(** What step 1 establishes: the node store grows by fresh nodes, each its
    own parent, not grounded and at 0 V; components keep everything but
    [nodes]; a listed component gets one fresh node per terminal; an
    unlisted stored component is left alone. *)
Definition after_step1 (h0 : list Node.t) (hc0 : list Component.t)
  (cs : list nat) (s : list Node.t * list Component.t) : Prop :=
  (exists fresh,
      s.1 = h0 ++ fresh
      /\ forall k n, fresh !! k = Some n ->
           Node.parent n = length h0 + k /\ Node.isGND n = false
           /\ Node.voltage n = 0%float)
  /\ Forall2 same_but_nodes hc0 s.2
  /\ (forall ca, ca ∉ cs -> s.2 !! ca = hc0 !! ca)
  /\ forall ca, ca ∈ cs ->
       exists base,
         Component.nodes (comp_at s.2 ca)
         = (if decide (ca < length hc0)
            then fresh_refs base (termCount (comp_at hc0 ca)) else [])
         /\ length h0 <= base
         /\ base + termCount (comp_at hc0 ca) <= length s.1.

(** Two node records with the same [parent]. *)
Definition same_parent (n n' : Node.t) : Prop :=
  Node.parent n' = Node.parent n.

(** The store invariant: parent references form a forest, and components
    only hold references to stored nodes. *)
Definition engine_wf (e : CircuitEngine) : Prop :=
  forest (node_store e)
  /\ terminals_valid (node_store e) (comp_store e).

(** The state of the topology after a rebuild: every listed component
    has one terminal slot per terminal, three for an spdt and two for any
    other kind; every terminal slot of a listed component holds a node
    that is a union-find root and is in the node list; the node list has
    no repeated node and holds nothing else.  (A listed reference always
    designates a component object; the side condition [ca < length ...]
    says so for the addresses of the store.) *)
Definition canonical_topology (e : CircuitEngine) : Prop :=
  NoDup (engine_nodes e)
  /\ (forall ca, ca ∈ engine_components e -> ca < length (comp_store e) ->
        length (Component.nodes (comp_at (comp_store e) ca))
        = if is_type "spdt" (comp_at (comp_store e) ca) then 3 else 2)
  /\ (forall ca k, ca ∈ engine_components e ->
        k < length (Component.nodes (comp_at (comp_store e) ca)) ->
        exists a,
          Component.nodes (comp_at (comp_store e) ca) !! k = Some (Some a)
          /\ is_root (node_store e) a /\ a ∈ engine_nodes e)
  /\ forall a, a ∈ engine_nodes e ->
       is_root (node_store e) a
       /\ exists ca k,
            ca ∈ engine_components e
            /\ Component.nodes (comp_at (comp_store e) ca) !! k
               = Some (Some a).

(** A session at the canvas.  A battery (component 0) and three
    resistors (1, 2, 3) are dropped; terminal 1 of the battery is wired to
    terminal 1 of resistor 1, and terminal 0 of resistor 3 to terminal 0
    of the battery.  Resistor 2 is selected with a click; a wire is then
    started on its terminal 0, the resistor is deleted with the Delete
    key while the pointer is down, and the pointer is released on
    terminal 0 of the battery.  The same is done with resistor 3, the
    pointer being released on terminal 0 of resistor 1. *)
Definition two_deleted_during_drag : outcome controller :=
  let a := mkController empty_engine 0 [] None false false None in
  a ← handleDrop (Some "battery") a;
  a ← handleDrop (Some "resistor") a;
  a ← handleDrop (Some "resistor") a;
  a ← handleDrop (Some "resistor") a;
  a ← handlePointerDown (Some (0, 1)) None None a;
  a ← handlePointerUp (Some (1, 1)) a;
  a ← handlePointerDown (Some (3, 0)) None None a;
  a ← handlePointerUp (Some (0, 0)) a;
  a ← handlePointerDown None (Some 2) None a;
  a ← handlePointerUp None a;
  a ← handlePointerDown (Some (2, 0)) None None a;
  a ← deleteSelected a;
  a ← handlePointerUp (Some (0, 0)) a;
  a ← handlePointerDown None (Some 3) None a;
  a ← handlePointerUp None a;
  a ← handlePointerDown (Some (3, 0)) None None a;
  a ← deleteSelected a;
  handlePointerUp (Some (1, 0)) a.

(** An end of a wire that the "safe check" rejects: no component, or a
    listed component with a terminal index beyond its terminals, or an
    unlisted component whose slot at that index holds no node. *)
Definition endpoint_skipped (e : CircuitEngine) (comp : option nat)
  (term : nat) : Prop :=
  match comp with
  | None => True
  | Some ca =>
      if decide (ca ∈ engine_components e)
      then termCount (comp_at (comp_store e) ca) <= term
      else Component.terminal (comp_at (comp_store e) ca) term = None
  end.

Definition edge_skipped (e : CircuitEngine) (w : wire) : Prop :=
  endpoint_skipped e (startComp w) (startTerm w)
  \/ endpoint_skipped e (endComp w) (endTerm w).

(** The working arrays of a stored run: row references without repetition,
    none of them the reference [R] or [x], all three beyond the addresses
    [below] of the caller's arrays, which hold what they held. *)
Definition separated (st0 st : list (list float)) (M : list nat) (R x : nat)
  : Prop :=
  NoDup M /\ (R ∉ M) /\ (x ∉ M) /\ R <> x
  /\ Forall (fun a => length st0 <= a < length st) M
  /\ length st0 <= R < length st /\ length st0 <= x < length st
  /\ forall a, a < length st0 -> st !! a = st0 !! a.

(** The state of a stored run, seen as values. *)
Definition stored_values (R : nat) (s : list (list float) * list nat)
  : list (list float) * list float :=
  (rows_of s.1 s.2, vec_of s.1 R).

Definition stored_inv (st0 : list (list float)) (R x : nat) (xv : list float)
  (s : list (list float) * list nat) : Prop :=
  separated st0 s.1 s.2 R x /\ vec_of s.1 x = xv.

Definition shift_ref (d : nat) (o : option nat) : option nat :=
  (fun a => a + d) <$> o.

(** [n2] is [n1] moved by [d] addresses. *)
Definition relocated_node (d : nat) (n1 n2 : Node.t) : Prop :=
  Node.id n2 = Node.id n1 /\ Node.voltage n2 = Node.voltage n1
  /\ Node.isGND n2 = Node.isGND n1 /\ Node.parent n2 = Node.parent n1 + d.

(** [c2] is [c1] with its node references moved by [d]; [current] is
    free. *)
Definition relocated_comp (d : nat) (c1 c2 : Component.t) : Prop :=
  Component.id c2 = Component.id c1 /\ Component.type c2 = Component.type c1
  /\ Component.resistance c2 = Component.resistance c1
  /\ Component.voltage c2 = Component.voltage c1
  /\ Component.isOpen c2 = Component.isOpen c1
  /\ Component.spdtState c2 = Component.spdtState c1
  /\ Component.nodes c2 = map (shift_ref d) (Component.nodes c1).

(** The nodes stored at [lo .. hi-1] in [h1] are found, moved by [d], in
    [h2], and their parents stay in that range. *)
Definition relocated_region (lo hi d : nat) (h1 h2 : list Node.t) : Prop :=
  hi <= length h1 /\ hi + d <= length h2
  /\ forall a, lo <= a < hi ->
       relocated_node d (node_at h1 a) (node_at h2 (a + d))
       /\ lo <= Node.parent (node_at h1 a) < hi.

Definition in_region (lo hi : nat) (o : option nat) : Prop :=
  forall a, o = Some a -> lo <= a < hi.

(** The listed components of the two stores correspond, and all their
    node references are in the range. *)
Definition relocated_comps (lo hi d : nat) (cs : list nat)
  (hc1 hc2 : list Component.t) : Prop :=
  length hc2 = length hc1
  /\ forall ca, ca ∈ cs ->
       relocated_comp d (comp_at hc1 ca) (comp_at hc2 ca)
       /\ Forall (in_region lo hi) (Component.nodes (comp_at hc1 ca)).

Definition relocated_engine (lo hi d : nat) (e1 e2 : CircuitEngine) : Prop :=
  engine_components e2 = engine_components e1
  /\ engine_nodes e2 = map (fun a => a + d) (engine_nodes e1)
  /\ Forall (fun a => lo <= a < hi) (engine_nodes e1)
  /\ relocated_region lo hi d (node_store e1) (node_store e2)
  /\ relocated_comps lo hi d (engine_components e1)
       (comp_store e1) (comp_store e2).

(** Two component records with the same settings; [nodes] and [current]
    are free. *)
Definition same_settings (c c' : Component.t) : Prop :=
  Component.id c' = Component.id c /\ Component.type c' = Component.type c
  /\ Component.resistance c' = Component.resistance c
  /\ Component.voltage c' = Component.voltage c
  /\ Component.isOpen c' = Component.isOpen c
  /\ Component.spdtState c' = Component.spdtState c.

(** Every wire endpoint that names a component names a listed one. *)
Definition wires_listed (cs : list nat) (wires : list wire) : Prop :=
  forall w, w ∈ wires ->
    (forall ca, startComp w = Some ca -> ca ∈ cs)
    /\ (forall ca, endComp w = Some ca -> ca ∈ cs).

(** The voltages of the nodes of the node list, in order. *)
Definition node_voltages (e : CircuitEngine) : list float :=
  map (fun a => Node.voltage (node_at (node_store e) a)) (engine_nodes e).

(** The voltages at the terminals of the listed components, in order. *)
Definition terminal_voltages (e : CircuitEngine) : list (list float) :=
  map (fun ca => map (voltage_of (node_store e))
                     (Component.nodes (comp_at (comp_store e) ca)))
      (engine_components e).

(** Two node records that differ at most in [id]. *)
Definition same_but_id (n n' : Node.t) : Prop :=
  Node.voltage n' = Node.voltage n /\ Node.isGND n' = Node.isGND n
  /\ Node.parent n' = Node.parent n.

(** [root_of h a r]: following [parent] references from [a] ends at the
    root [r]. *)
Inductive root_of (h : list Node.t) : nat -> nat -> Prop :=
  | root_here a : is_root h a -> root_of h a a
  | root_step a r :
      Node.parent (node_at h a) <> a ->
      root_of h (Node.parent (node_at h a)) r ->
      root_of h a r.

(** Two nodes of the same union-find class. *)
Definition same_class (h : list Node.t) (a b : nat) : Prop :=
  exists r, root_of h a r /\ root_of h b r.
(** Step 4 seen from the stores [h0], [hc0] it starts on: every root of
    [h0] is still the root of the same nodes, every slot holds a node of
    the class it held, and slots keep their number. *)
Definition roots_kept (h0 : list Node.t) (hc0 : list Component.t)
  (s : list Node.t * list Component.t) : Prop :=
  (forall b rb, root_of h0 b rb -> root_of s.1 b rb)
  /\ (forall ca k n r,
        Component.terminal (comp_at hc0 ca) k = Some n -> root_of h0 n r ->
        exists a, Component.terminal (comp_at s.2 ca) k = Some a
                  /\ root_of s.1 a r)
  /\ forall ca, length (Component.nodes (comp_at s.2 ca))
                = length (Component.nodes (comp_at hc0 ca)).

(** Slot [k] of component [ca] holds the root of the node it held in
    [hc0]. *)
Definition slot_rooted (h0 : list Node.t) (hc0 : list Component.t)
  (ca k : nat) (s : list Node.t * list Component.t) : Prop :=
  forall n r,
    Component.terminal (comp_at hc0 ca) k = Some n -> root_of h0 n r ->
    Component.terminal (comp_at s.2 ca) k = Some r.

(** A terminal [(component, index)] that the rebuild gives a node: the
    component is listed and stored, the index is below its number of
    terminals. *)
Definition real_terminal (e : CircuitEngine) (t : nat * nat) : Prop :=
  t.1 ∈ engine_components e /\ t.1 < length (comp_store e)
  /\ t.2 < termCount (comp_at (comp_store e) t.1).

(** A connection edge from terminal [t1] to terminal [t2]. *)
Definition wire_between (e : CircuitEngine) (wires : list wire)
  (t1 t2 : nat * nat) : Prop :=
  real_terminal e t1 /\ real_terminal e t2
  /\ exists w, w ∈ wires
       /\ startComp w = Some t1.1 /\ startTerm w = t1.2
       /\ endComp w = Some t2.1 /\ endTerm w = t2.2.

(** Terminals joined by a chain of connection edges, in either
    direction. *)
Definition wired (e : CircuitEngine) (wires : list wire)
  : relation (nat * nat) :=
  rtsc (wire_between e wires).

(** The pairs of nodes the wire loop joins. *)
Definition wire_pair (hc : list Component.t) (wires : list wire)
  (n1 n2 : nat) : Prop :=
  exists w, w ∈ wires /\ wire_ends hc w = Some (n1, n2).

(** The invariant of the controller: the engine's stores are well formed
    and every connection edge names listed components only. *)
Definition controller_wf (a : controller) : Prop :=
  engine_wf (engine a)
  /\ wires_listed (engine_components (engine a)) (visualWires a).

(** An edge with an end on the component [c]. *)
Definition names (w : wire) (c : nat) : Prop :=
  startComp w = Some c \/ endComp w = Some c.

(** A terminal [draw] finds a position for: index 2 only on an spdt.
    [getTerminalAt] returns no other. *)
Definition terminal_drawable (hc : list Component.t) (t : nat * nat) : Prop :=
  t.2 = 2 -> is_type "spdt" (comp_at hc t.1) = true.

(** An edge [draw] can draw: both ends are component objects and
    terminals with a position. *)
Definition wire_drawable (hc : list Component.t) (w : wire) : Prop :=
  exists sc ec,
    startComp w = Some sc /\ endComp w = Some ec
    /\ terminal_drawable hc (sc, startTerm w)
    /\ terminal_drawable hc (ec, endTerm w).

(** Every edge of the controller can be drawn. *)
Definition controller_drawable (a : controller) : Prop :=
  forall w, w ∈ visualWires a -> wire_drawable (comp_store (engine a)) w.

(** Two node references that correspond under [R], or are both absent. *)
Definition renamed_ref (R : nat -> nat -> Prop) (o1 o2 : option nat) : Prop :=
  match o1, o2 with
  | Some a, Some b => R a b
  | None, None => True
  | _, _ => False
  end.

(** [c2] is [c1] with its node references renamed by [R]; [current] is
    free. *)
Definition renamed_comp (R : nat -> nat -> Prop) (c1 c2 : Component.t)
  : Prop :=
  Component.id c2 = Component.id c1 /\ Component.type c2 = Component.type c1
  /\ Component.resistance c2 = Component.resistance c1
  /\ Component.voltage c2 = Component.voltage c1
  /\ Component.isOpen c2 = Component.isOpen c1
  /\ Component.spdtState c2 = Component.spdtState c1
  /\ Forall2 (renamed_ref R) (Component.nodes c1) (Component.nodes c2).

(** Nodes that correspond under [R] are stored and differ at most in
    [parent]. *)
Definition renamed_nodes (R : nat -> nat -> Prop) (h1 h2 : list Node.t)
  : Prop :=
  forall a b, R a b ->
    a < length h1 /\ b < length h2
    /\ same_payload (node_at h1 a) (node_at h2 b).

Definition renamed_comps (R : nat -> nat -> Prop) (cs : list nat)
  (hc1 hc2 : list Component.t) : Prop :=
  length hc2 = length hc1
  /\ forall ca, ca ∈ cs -> renamed_comp R (comp_at hc1 ca) (comp_at hc2 ca).

(** The same circuit on other node objects: [R] pairs the nodes of the
    two node lists in order, and the listed components agree up to [R]. *)
Definition renamed_engine (R : nat -> nat -> Prop) (e1 e2 : CircuitEngine)
  : Prop :=
  engine_components e2 = engine_components e1
  /\ Forall2 R (engine_nodes e1) (engine_nodes e2)
  /\ renamed_nodes R (node_store e1) (node_store e2)
  /\ renamed_comps R (engine_components e1) (comp_store e1) (comp_store e2).

(** Every edge that ends on a component ends on a listed one.  (The
    controller only ends an edge on a terminal it finds by a hit test
    among the listed components, and removes the edges of a component it
    removes; an edge may still start on a removed component.) *)
Definition wires_end_listed (cs : list nat) (wires : list wire) : Prop :=
  forall w ca, w ∈ wires -> endComp w = Some ca -> ca ∈ cs.

(** Two nodes found in the same terminal slot of a listed component, the
    first in [e1] and the second in [e2]. *)
Definition same_slot (e1 e2 : CircuitEngine) (a b : nat) : Prop :=
  exists ca k,
    ca ∈ engine_components e1
    /\ Component.terminal (comp_at (comp_store e1) ca) k = Some a
    /\ Component.terminal (comp_at (comp_store e2) ca) k = Some b.

(** What holds of the controller between two events: the stores are well
    formed, every edge ends on a listed component and can be drawn, and
    the terminal a wire is being drawn from has a position.  An edge may
    start on a component that is no longer listed. *)
Definition controller_inv (a : controller) : Prop :=
  engine_wf (engine a)
  /\ wires_end_listed (engine_components (engine a)) (visualWires a)
  /\ controller_drawable a
  /\ forall t, wireStartTerminal a = Some t ->
       terminal_drawable (comp_store (engine a)) t.

(** A terminal [getTerminalAt] can return: one of a listed component,
    with index 2 only on an spdt. *)
Definition terminal_hit (a : controller) (t : nat * nat) : Prop :=
  t.1 ∈ engine_components (engine a)
  /\ terminal_drawable (comp_store (engine a)) t.

(** A pair [getWireAt] can return: an edge of [visualWires] with its
    index. *)
Definition wire_hit (a : controller) (h : wire * nat) : Prop :=
  visualWires a !! h.2 = Some h.1.

(** The event carries what the hit tests can return on the state [a]. *)
Definition hit_tests (a : controller) (ev : event) : Prop :=
  match ev with
  | PointerDown terminal _ wireHit =>
      (forall t, terminal = Some t -> terminal_hit a t)
      /\ forall h, wireHit = Some h -> wire_hit a h
  | PointerUp terminal => forall t, terminal = Some t -> terminal_hit a t
  | _ => True
  end.

(** * Properties *)

(** ** The outcome monad *)

Lemma bind_Ok {A B : Type} (m : outcome A) (k : A -> outcome B) (b : B) :
  m ≫= k = Ok b -> exists a, m = Ok a /\ k a = Ok b.
Proof. destruct m as [a| |]; simpl; intros H; try discriminate. by exists a. Qed.

Lemma forM_app {A S : Type} (body : S -> A -> outcome S) (l1 l2 : list A) s :
  forM body (l1 ++ l2) s = forM body l1 s ≫= forM body l2.
Proof.
  revert s. induction l1 as [|a l1 IH]; intros s; simpl; [done|].
  destruct (body s a) as [s'| |]; simpl; [apply IH|done..].
Qed.

(** A loop whose body keeps an invariant and never raises under it. *)
Lemma forM_invariant {A S : Type} (I : S -> Prop)
  (body : S -> A -> outcome S) (l : list A) (s : S) :
  I s ->
  (forall s a, a ∈ l -> I s -> exists s', body s a = Ok s' /\ I s') ->
  exists s', forM body l s = Ok s' /\ I s'.
Proof.
  revert s. induction l as [|a l IH]; intros s Hs Hbody; simpl.
  - by exists s.
  - destruct (Hbody s a) as (s' & -> & Hs'); [left|done|]. simpl.
    apply IH; [done|]. intros ? ? ?. apply Hbody. by right.
Qed.

(** ** Matrix shape *)

Lemma Matrix_new_shaped r c : Matrix.shaped (Matrix.new r c).
Proof.
  split; simpl; [apply length_replicate|].
  apply Forall_replicate, length_replicate.
Qed.

Lemma Matrix_set_rows A r c v : Matrix.rows (Matrix.set A r c v) = Matrix.rows A.
Proof. unfold Matrix.set. by case_match. Qed.

Lemma Matrix_set_cols A r c v : Matrix.cols (Matrix.set A r c v) = Matrix.cols A.
Proof. unfold Matrix.set. by case_match. Qed.

Lemma Matrix_set_shaped A r c v :
  Matrix.shaped A -> Matrix.shaped (Matrix.set A r c v).
Proof.
  intros [Hr Hc]. unfold Matrix.set. case_match; [|done].
  split; simpl; [by rewrite length_alter|].
  apply Forall_alter; [done|]. intros row _ Hrow. by rewrite length_insert.
Qed.

Lemma Matrix_get_Ok A r c :
  Matrix.shaped A -> r < Matrix.rows A -> c < Matrix.cols A ->
  exists v, Matrix.get A r c = Ok v.
Proof.
  intros [Hr Hc] Hlt1 Hlt2. unfold Matrix.get.
  destruct (lookup_lt_is_Some_2 (Matrix.data A) r) as [row Hrow]; [lia|].
  rewrite Hrow.
  assert (length row = Matrix.cols A) as Hlen.
  { rewrite Forall_forall in Hc. apply Hc. by eapply list_elem_of_lookup_2. }
  destruct (lookup_lt_is_Some_2 row c) as [v Hv]; [lia|].
  rewrite Hv. by exists v.
Qed.

Lemma square_set size A r c v : square size A -> square size (Matrix.set A r c v).
Proof.
  intros (Hs & Hr & Hc). split; [by apply Matrix_set_shaped|].
  by rewrite Matrix_set_rows, Matrix_set_cols.
Qed.

Lemma square_get size A r c :
  square size A -> r < size -> c < size -> exists v, Matrix.get A r c = Ok v.
Proof. intros (Hs & Hr & Hc) ? ?. apply Matrix_get_Ok; [done|lia..]. Qed.

Lemma stamp_Ok size A g i j :
  square size A -> idx_below size i -> idx_below size j ->
  exists A', stamp A g i j = Ok A' /\ square size A'.
Proof.
  intros HA Hi Hj. unfold stamp.
  destruct i as [i|], j as [j|]; simpl in Hi, Hj.
  - destruct (square_get size A i i) as [v ->]; [done..|]. simpl.
    pose proof (square_set size A i i (v + g)%float HA) as HA1.
    destruct (square_get size _ j j HA1) as [v1 ->]; [done..|]. simpl.
    pose proof (square_set size _ j j (v1 + g)%float HA1) as HA2.
    destruct (square_get size _ i j HA2) as [v2 ->]; [done..|]. simpl.
    pose proof (square_set size _ i j (v2 - g)%float HA2) as HA3.
    destruct (square_get size _ j i HA3) as [v3 ->]; [done..|]. simpl.
    eexists; split; [done|]. by apply square_set.
  - destruct (square_get size A i i) as [v ->]; [done..|]. simpl.
    eexists; split; [done|]. by apply square_set.
  - simpl. destruct (square_get size A j j) as [v ->]; [done..|]. simpl.
    eexists; split; [done|]. by apply square_set.
  - by exists A.
Qed.

(** ** The node map *)

Lemma build_nodeMap_below h active s i :
  build_nodeMap h active !! s = Some i -> i < length active.
Proof.
  unfold build_nodeMap.
  assert (forall (l : list (nat * addr)) (m : gmap string nat) (n : nat),
    (forall s i, m !! s = Some i -> i < n) ->
    Forall (fun ia => ia.1 < n) l ->
    forall s i, foldl (fun m ia => <[Node.id (node_at h ia.2) := ia.1]> m) m l
                !! s = Some i -> i < n) as Hgen.
  { induction l as [|[k a] l IH]; intros m n Hm Hl s' i'; simpl; [apply Hm|].
    inversion_clear Hl as [|? ? Hk Hl']. apply IH; [|done].
    intros s'' i''. rewrite lookup_insert. case_decide; [|apply Hm].
    intros [= <-]. done. }
  apply Hgen; [intros ? ?; by rewrite lookup_empty|].
  apply Forall_forall. intros [k a] Hin.
  apply list_elem_of_lookup in Hin as [p Hp].
  rewrite list_lookup_imap in Hp.
  destruct (active !! p) eqn:Hap; simpl in Hp; [|done].
  injection Hp as <- <-. simpl. by eapply lookup_lt_Some.
Qed.

Lemma getIdx_below h active n :
  idx_below (length active) (getIdx h (build_nodeMap h active) n).
Proof.
  unfold getIdx, idx_below. destruct n as [a|]; [|done].
  destruct (Node.isGND _); [done|].
  destruct (build_nodeMap h active !! _) as [i|] eqn:Hi; [|done].
  by eapply build_nodeMap_below.
Qed.

Lemma idx_below_mono n m i : n <= m -> idx_below n i -> idx_below m i.
Proof. destruct i; simpl; lia. Qed.

(** ** Assembly never raises *)

Lemma leakage_square size N A : square size A -> square size (leakage N A).
Proof.
  unfold leakage. generalize (seq 0 N). intros l. revert A.
  induction l as [|i l IH]; intros A HA; simpl; [done|].
  by apply IH, square_set.
Qed.

Lemma stamp_battery_ok size h nodeMap N comp s :
  assembly_ok size s -> assembly_ok size (stamp_battery h nodeMap N comp s).
Proof.
  intros [HA HZ]. unfold stamp_battery. split; simpl.
  - repeat case_match; repeat apply square_set; done.
  - by rewrite length_insert.
Qed.

Lemma stamp_spdt_Ok size h active comp A :
  length active <= size -> square size A ->
  exists A', stamp_spdt h (build_nodeMap h active) comp A = Ok A'
             /\ square size A'.
Proof.
  intros Hle HA. unfold stamp_spdt.
  apply (forM_invariant (square size)); [done|].
  intros A0 t _ HA0. apply stamp_Ok; [done|..];
    (eapply idx_below_mono; [exact Hle|apply getIdx_below]).
Qed.

Lemma stamp_resistive_Ok size iter h active comp A :
  length active <= size -> square size A ->
  exists A', stamp_resistive iter h (build_nodeMap h active) comp A = Ok A'
             /\ square size A'.
Proof.
  intros Hle HA. unfold stamp_resistive.
  case_match; [by exists A|].
  apply stamp_Ok; [done|..];
    (eapply idx_below_mono; [exact Hle|apply getIdx_below]).
Qed.

Lemma stamp_component_Ok size iter h active s comp :
  length active <= size -> assembly_ok size s ->
  exists s', stamp_component iter h (build_nodeMap h active)
                             (length active) s comp = Ok s'
             /\ assembly_ok size s'.
Proof.
  intros Hle [HA HZ]. unfold stamp_component.
  destruct (is_type "battery" comp).
  { eexists; split; [done|]. by apply stamp_battery_ok. }
  destruct (is_type "spdt" comp).
  - destruct (stamp_spdt_Ok size h active comp (asm_A s)) as (A' & -> & HA');
      [done..|].
    simpl. eexists; split; [done|]. by split.
  - destruct (stamp_resistive_Ok size iter h active comp (asm_A s))
      as (A' & -> & HA'); [done..|].
    simpl. eexists; split; [done|]. by split.
Qed.

Lemma assemble_Ok iter e :
  exists s, assemble iter e = Ok s /\ assembly_ok (unknowns e) s.
Proof.
  unfold assemble, unknowns.
  set (N := length (activeNodes e)).
  set (M := battery_count (comp_store e) (engine_components e)).
  apply (forM_invariant (assembly_ok (N + M))).
  - split; simpl; [|apply length_replicate].
    apply leakage_square. split; [apply Matrix_new_shaped|done].
  - intros s ca _ Hs. apply stamp_component_Ok; [lia|done].
Qed.

Lemma solve_pass_Ok iter e : exists p, solve_pass iter e = Ok p.
Proof.
  unfold solve_pass. destruct (assemble_Ok iter e) as (s & -> & _). simpl.
  destruct (update_voltages _ _ _). by eexists.
Qed.

Lemma solve_loop_Ok todo iter e : exists ps, solve_loop todo iter e = Ok ps.
Proof.
  revert iter e. induction todo as [|todo IH]; intros iter e; simpl.
  { by exists []. }
  case_match; [by exists []|].
  destruct (solve_pass_Ok iter e) as [p ->]. simpl.
  case_match; [by eexists|].
  destruct (IH (S iter) (pass_after p)) as [ps ->]. simpl. by eexists.
Qed.

(** ** What a pass may change *)

Lemma node_frame_refl n : node_frame n n.
Proof. done. Qed.

Lemma comp_frame_refl c : comp_frame c c.
Proof. by repeat split. Qed.

Lemma node_frame_trans n1 n2 n3 :
  node_frame n1 n2 -> node_frame n2 n3 -> node_frame n1 n3.
Proof. unfold node_frame. intros (?&?&?) (?&?&?). repeat split; congruence. Qed.

Lemma comp_frame_trans c1 c2 c3 :
  comp_frame c1 c2 -> comp_frame c2 c3 -> comp_frame c1 c3.
Proof.
  unfold comp_frame. intros (?&?&?&?&?&?&?) (?&?&?&?&?&?&?).
  repeat split; congruence.
Qed.

Lemma Forall2_refl_frame {A} (R : A -> A -> Prop) (l : list A) :
  (forall x, R x x) -> Forall2 R l l.
Proof. intros HR. induction l; constructor; auto. Qed.

(** Overwriting slot [a] with a record related to the one it held. *)
Lemma Forall2_insert_related {A} (R : A -> A -> Prop) (l0 l : list A) a x :
  Forall2 R l0 l ->
  (forall y0 y, l0 !! a = Some y0 -> l !! a = Some y -> R y0 x) ->
  Forall2 R l0 (<[a := x]> l).
Proof.
  intros HF Hx. apply Forall2_same_length_lookup. split.
  { rewrite length_insert. by eapply Forall2_length. }
  intros i y0 y Hy0. destruct (decide (a = i)) as [->|Hne].
  - destruct (l !! i) as [yi|] eqn:Hyi.
    + rewrite list_lookup_insert_eq by (by eapply lookup_lt_Some).
      intros [= <-]. by eapply Hx.
    + rewrite list_insert_ge by (by apply lookup_ge_None). congruence.
  - rewrite list_lookup_insert_ne by done. intros Hy.
    by eapply Forall2_lookup_lr.
Qed.

Lemma node_at_lookup h a n : h !! a = Some n -> node_at h a = n.
Proof. unfold node_at. by intros ->. Qed.

Lemma comp_at_lookup h a c : h !! a = Some c -> comp_at h a = c.
Proof. unfold comp_at. by intros ->. Qed.

Lemma node_frame_node_at h h' a :
  Forall2 node_frame h h' -> node_frame (node_at h a) (node_at h' a).
Proof.
  intros HF. unfold node_at. destruct (h !! a) as [n|] eqn:Hn.
  - destruct (Forall2_lookup_l _ _ _ _ _ HF Hn) as (n' & Hn' & Hnn').
    simpl. rewrite Hn'. done.
  - assert (h' !! a = None) as ->; [|done].
    apply lookup_ge_None. rewrite <- (Forall2_length _ _ _ HF).
    by apply lookup_ge_None.
Qed.

Lemma comp_frame_comp_at h h' a :
  Forall2 comp_frame h h' -> comp_frame (comp_at h a) (comp_at h' a).
Proof.
  intros HF. unfold comp_at. destruct (h !! a) as [n|] eqn:Hn.
  - destruct (Forall2_lookup_l _ _ _ _ _ HF Hn) as (n' & Hn' & Hnn').
    simpl. rewrite Hn'. done.
  - assert (h' !! a = None) as ->; [|apply comp_frame_refl].
    apply lookup_ge_None. rewrite <- (Forall2_length _ _ _ HF).
    by apply lookup_ge_None.
Qed.

Lemma frame_set_voltage h0 h a v :
  Forall2 node_frame h0 h ->
  Forall2 node_frame h0 (<[a := Node.set_voltage v (node_at h a)]> h).
Proof.
  intros HF. apply Forall2_insert_related; [done|].
  intros y0 y Hy0 Hy. rewrite (node_at_lookup _ _ _ Hy).
  eapply node_frame_trans; [by eapply Forall2_lookup_lr|done].
Qed.

Lemma update_voltages_frame result active h0 h :
  Forall2 node_frame h0 h ->
  Forall2 node_frame h0 (update_voltages result active h).2.
Proof.
  unfold update_voltages. generalize (imap pair active) 0%float.
  intros l. revert h. induction l as [|[i a] l IH]; intros h m HF; simpl; [done|].
  apply IH. by apply frame_set_voltage.
Qed.

Lemma ground_voltages_frame all h0 h :
  Forall2 node_frame h0 h -> Forall2 node_frame h0 (ground_voltages all h).
Proof.
  unfold ground_voltages. revert h.
  induction all as [|a l IH]; intros h HF; simpl; [done|].
  apply IH. case_match; [|done]. by apply frame_set_voltage.
Qed.

Lemma update_currents_frame h cs cs' N result hc0 hc :
  Forall2 comp_frame hc0 hc ->
  Forall2 comp_frame hc0
    (foldl (fun hc ca =>
              <[ca := Component.set_current
                        (component_current h hc cs N result ca)
                        (comp_at hc ca)]> hc) hc cs').
Proof.
  revert hc. induction cs' as [|a l IH]; intros hc HF; simpl; [done|].
  apply IH. apply Forall2_insert_related; [done|].
  intros y0 y Hy0 Hy. rewrite (comp_at_lookup _ _ _ Hy).
  eapply comp_frame_trans; [by eapply Forall2_lookup_lr|by repeat split].
Qed.

Lemma engine_frame_refl e : engine_frame e e.
Proof.
  repeat split; apply Forall2_refl_frame;
    [apply node_frame_refl|apply comp_frame_refl].
Qed.

Lemma engine_frame_trans e1 e2 e3 :
  engine_frame e1 e2 -> engine_frame e2 e3 -> engine_frame e1 e3.
Proof.
  intros (?&?&Hn1&Hc1) (?&?&Hn2&Hc2). repeat split; try congruence.
  - eapply Forall2_trans; [|done..]. apply node_frame_trans.
  - eapply Forall2_trans; [|done..]. apply comp_frame_trans.
Qed.

Lemma solve_pass_frame iter e p :
  solve_pass iter e = Ok p ->
  pass_iter p = iter /\ pass_before p = e /\ engine_frame e (pass_after p).
Proof.
  unfold solve_pass. intros H. apply bind_Ok in H as (s & Hs & H).
  destruct (update_voltages _ _ _) as [maxChange h] eqn:Hu.
  injection H as <-. simpl. repeat split.
  - apply ground_voltages_frame.
    change h with (maxChange, h).2. rewrite <- Hu.
    apply update_voltages_frame, Forall2_refl_frame, node_frame_refl.
  - unfold update_currents. apply update_currents_frame.
    apply Forall2_refl_frame, comp_frame_refl.
Qed.

Lemma activeNodes_frame e e' : engine_frame e e' -> activeNodes e' = activeNodes e.
Proof.
  intros (Hn & _ & HF & _). unfold activeNodes. rewrite Hn.
  apply list_filter_iff. intros a.
  destruct (node_frame_node_at _ _ a HF) as (_ & -> & _). done.
Qed.

Lemma battery_count_frame e e' :
  engine_frame e e' ->
  battery_count (comp_store e') (engine_components e')
  = battery_count (comp_store e) (engine_components e).
Proof.
  intros (_ & Hc & _ & HF). unfold battery_count. rewrite Hc. f_equal.
  apply list_filter_iff. intros a. unfold is_type.
  destruct (comp_frame_comp_at _ _ a HF) as (_ & -> & _). done.
Qed.

Lemma unknowns_frame e e' : engine_frame e e' -> unknowns e' = unknowns e.
Proof.
  intros HF. unfold unknowns.
  by rewrite (activeNodes_frame _ _ HF), (battery_count_frame _ _ HF).
Qed.

(** ** The iteration *)

Lemma final_state_cons e p ps :
  final_state e (p :: ps) = final_state (pass_after p) ps.
Proof.
  unfold final_state. destruct ps as [|q ps]; [done|].
  change (last (p :: q :: ps)) with (last (q :: ps)).
  rewrite (last_cons q ps). by destruct (last ps).
Qed.

Lemma solve_loop_spec todo iter e ps :
  solve_loop todo iter e = Ok ps ->
  length ps <= todo
  /\ (unknowns e = 0 -> ps = [])
  /\ (unknowns e <> 0 -> 0 < todo -> ps <> [])
  /\ forall k p, ps !! k = Some p ->
       pass_iter p = iter + k
       /\ pass_before p = final_state e (take k ps)
       /\ engine_frame e (pass_after p)
       /\ (converged p = true -> S k = length ps)
       /\ (converged p = false -> S k < todo -> S k < length ps).
Proof.
  revert iter e ps. induction todo as [|todo IH]; intros iter e ps; simpl.
  { intros [= <-]. split_and!; [done|done|lia|]. intros k p. by rewrite lookup_nil. }
  destruct (unknowns e =? 0) eqn:Hu.
  { apply Nat.eqb_eq in Hu. intros [= <-].
    split_and!; [simpl; lia|done|done|]. intros k p. by rewrite lookup_nil. }
  apply Nat.eqb_neq in Hu.
  intros H. apply bind_Ok in H as (p & Hp & H).
  destruct (solve_pass_frame _ _ _ Hp) as (Hit & Hbef & Hfr).
  destruct ((0 <? iter) && flt (pass_maxChange p) 1e-3) eqn:Hconv.
  - injection H as <-. split_and!; [simpl; lia|done|done|].
    intros [|k] p0; simpl; [|by rewrite lookup_nil].
    intros [= <-]. split_and!; [lia|done|done|done|].
    unfold converged. rewrite Hit. congruence.
  - apply bind_Ok in H as (ps' & Hps' & [= <-]).
    destruct (IH _ _ _ Hps') as (Hlen & Hzero & Hnz & Hk).
    split_and!; [simpl; lia|done|done|].
    intros [|k] p0; simpl.
    + intros [= <-]. split_and!; [lia|done|done|..].
      * unfold converged. rewrite Hit. congruence.
      * intros _ Hlt.
        assert (ps' <> []); [|destruct ps'; simpl; [done|lia]].
        apply Hnz; [|lia]. by rewrite (unknowns_frame _ _ Hfr).
    + intros Hp0. destruct (Hk k p0 Hp0) as (H1 & H2 & H3 & H4 & H5).
      split_and!.
      * lia.
      * by rewrite final_state_cons.
      * by eapply engine_frame_trans.
      * intros Hc. f_equal. by apply H4.
      * intros Hc Hlt. apply -> Nat.succ_lt_mono. apply H5; [done|lia].
Qed.

(** ** The order on binary64 values *)

Lemma SFltb_irrefl x : SFltb x x = false.
Proof.
  unfold SFltb, SFcompare. destruct x as [s|s| |s m e]; try done.
  - by destruct s.
  - destruct s; rewrite Z.compare_refl;
      change (PosDef.Pos.compare_cont Eq m m) with (Pos.compare m m);
      by rewrite Pos.compare_refl.
Qed.

Lemma SFltb_trans x y z :
  SFltb x y = true -> SFltb y z = true -> SFltb x z = true.
Proof.
  unfold SFltb, SFcompare.
  destruct x as [sx|sx| |sx mx ex], y as [sy|sy| |sy my ey],
    z as [sz|sz| |sz mz ez]; try done;
    repeat match goal with s : bool |- _ => destruct s end; try done;
    change PosDef.Pos.compare_cont with Pos.compare_cont;
    repeat match goal with
      | |- context [Pos.compare_cont Eq ?a ?b] =>
          change (Pos.compare_cont Eq a b) with (Pos.compare a b)
      end;
    repeat match goal with
      | |- context [(?a ?= ?b)%Z] => destruct (Z.compare_spec a b)
      | |- context [(?a ?= ?b)%positive] => destruct (Pos.compare_spec a b)
      end; simpl; try done; try lia.
Qed.

Lemma flt_irrefl x : flt x x = false.
Proof. unfold flt. rewrite ltb_spec. apply SFltb_irrefl. Qed.

Lemma flt_trans x y z : flt x y = true -> flt y z = true -> flt x z = true.
Proof. unfold flt. rewrite !ltb_spec. apply SFltb_trans. Qed.

Lemma running_max_bound ds m d :
  (d ∈ ds \/ fgt d m = false) -> fgt d (running_max m ds) = false.
Proof.
  unfold running_max. revert m.
  induction ds as [|d' ds IH]; intros m; simpl.
  { intros [H|H]; [by apply elem_of_nil in H|done]. }
  intros H. apply IH.
  destruct H as [H|H]; [apply elem_of_cons in H as [->|H]; [right|by left]|right].
  - unfold fgt. destruct (PrimFloat.ltb m d') eqn:Hm; [apply flt_irrefl|done].
  - unfold fgt in *. destruct (PrimFloat.ltb m d') eqn:Hm; [|done].
    destruct (PrimFloat.ltb d' d) eqn:Hd; [|done].
    rewrite <- H. symmetry. by apply (flt_trans m d' d).
Qed.

Lemma running_max_attained ds m :
  running_max m ds = m \/ running_max m ds ∈ ds.
Proof.
  unfold running_max. revert m.
  induction ds as [|d' ds IH]; intros m; simpl; [by left|].
  destruct (IH (if fgt d' m then d' else m)) as [->|H].
  - destruct (fgt d' m); [right; left|by left].
  - right. by right.
Qed.

(** ** The voltage update and [maxChange] *)

Lemma node_at_insert_eq h a n : a < length h -> node_at (<[a := n]> h) a = n.
Proof. intros Hlt. unfold node_at. by rewrite list_lookup_insert_eq. Qed.

Lemma node_at_insert_ne h a b n : a <> b -> node_at (<[a := n]> h) b = node_at h b.
Proof. intros Hne. unfold node_at. by rewrite list_lookup_insert_ne. Qed.

(** The loop over [(index, node)] pairs without repeated node: the diffs
    are all taken against the voltages held on entry, and each listed node
    ends at its entry of [result]. *)
Lemma update_voltage_loop result (l : list (nat * nat)) m h :
  NoDup l.*2 -> Forall (fun ia => ia.2 < length h) l ->
  let s := foldl (update_voltage result) (m, h) l in
  s.1 = running_max m
          (map (fun ia => fabs (Node.voltage (node_at h ia.2)
                                - vget result ia.1)%float) l)
  /\ length s.2 = length h
  /\ (forall ia, ia ∈ l ->
        Node.voltage (node_at s.2 ia.2) = vget result ia.1)
  /\ (forall a, a ∉ l.*2 -> node_at s.2 a = node_at h a).
Proof.
  revert m h. induction l as [|[i a] l IH]; intros m h Hnd Hv; simpl.
  { split_and!; try done. intros ia H. by apply elem_of_nil in H. }
  apply NoDup_cons in Hnd as [Hnotin Hnd].
  apply Forall_cons in Hv as [Ha Hv]. simpl in *.
  set (h1 := <[a := Node.set_voltage (vget result i) (node_at h a)]> h).
  destruct (IH (if fgt (fabs (Node.voltage (node_at h a) - vget result i))%float m
                then fabs (Node.voltage (node_at h a) - vget result i)%float
                else m) h1 Hnd) as (H1 & H2 & H3 & H4).
  { unfold h1. eapply Forall_impl; [done|]. intros ia. by rewrite length_insert. }
  split_and!.
  - rewrite H1. unfold running_max. simpl. f_equal.
    apply map_ext_in. intros [i' a'] Hin. simpl.
    unfold h1. rewrite node_at_insert_ne; [done|].
    intros ->. apply Hnotin. apply list_elem_of_In in Hin.
    apply list_elem_of_fmap. by exists (i', a').
  - rewrite H2. unfold h1. by rewrite length_insert.
  - intros ia Hin. apply elem_of_cons in Hin as [->|Hin]; [|by apply H3].
    simpl. rewrite H4 by done. unfold h1. by rewrite node_at_insert_eq.
  - intros b Hb. apply not_elem_of_cons in Hb as [Hne Hb].
    rewrite H4 by done. unfold h1. by rewrite node_at_insert_ne.
Qed.

Lemma imap_pair_snd {A} (l : list A) : (imap pair l).*2 = l.
Proof.
  apply list_eq. intros i. rewrite list_lookup_fmap, list_lookup_imap.
  by destruct (l !! i).
Qed.

Lemma ground_voltages_keeps all h a :
  Node.isGND (node_at h a) = false ->
  node_at (ground_voltages all h) a = node_at h a.
Proof.
  unfold ground_voltages. revert h.
  induction all as [|b l IH]; intros h Ha; simpl; [done|].
  destruct (Node.isGND (node_at h b)) eqn:Hb; [|by apply IH].
  assert (a <> b) by (intros ->; congruence).
  rewrite IH; rewrite node_at_insert_ne by done; done.
Qed.

(** [maxChange], for an engine whose node list has no repeated node and
    holds stored nodes only: it is the running maximum, from [0], of the
    absolute changes of the non-ground nodes' voltages across the pass. *)
Lemma solve_pass_maxChange iter e p :
  solve_pass iter e = Ok p ->
  NoDup (engine_nodes e) ->
  Forall (fun a => a < length (node_store e)) (engine_nodes e) ->
  pass_maxChange p
  = running_max 0%float
      (map (fun a => fabs (Node.voltage (node_at (node_store e) a)
                           - Node.voltage
                               (node_at (node_store (pass_after p)) a))%float)
           (activeNodes e)).
Proof.
  unfold solve_pass. intros H Hnd Hv. apply bind_Ok in H as (s & Hs & H).
  set (result := solveLinearSystem (asm_A s) (asm_Z s)) in *.
  destruct (update_voltages _ _ _) as [maxChange h] eqn:Hu.
  injection H as <-. simpl.
  unfold update_voltages in Hu.
  destruct (update_voltage_loop result (imap pair (activeNodes e)) 0%float
              (node_store e)) as (H1 & H2 & H3 & H4).
  { rewrite imap_pair_snd. unfold activeNodes. by apply NoDup_filter. }
  { apply Forall_forall. intros [i a] Hin.
    apply list_elem_of_lookup in Hin as [k Hk].
    rewrite list_lookup_imap in Hk.
    destruct (activeNodes e !! k) as [a'|] eqn:Ha'; simplify_eq/=.
    apply list_elem_of_lookup_2 in Ha'.
    apply list_elem_of_filter in Ha' as [_ Ha'].
    rewrite Forall_forall in Hv. by apply Hv. }
  rewrite Hu in H1, H2, H3, H4. simpl in *. rewrite H1.
  f_equal. clear H1.
  apply list_eq. intros k. rewrite !list_lookup_fmap, list_lookup_imap.
  destruct (activeNodes e !! k) as [a|] eqn:Ha; [|done]. simpl. do 3 f_equal.
  assert (Node.isGND (node_at (node_store e) a) = false) as Hg.
  { apply list_elem_of_lookup_2 in Ha. by apply list_elem_of_filter in Ha as [? _]. }
  rewrite ground_voltages_keeps.
  - symmetry. apply (H3 (k, a)). apply list_elem_of_lookup. exists k.
    rewrite list_lookup_imap, Ha. done.
  - assert (Forall2 node_frame (node_store e) h) as HF.
    { change h with (maxChange, h).2. rewrite <- Hu.
      apply (update_voltages_frame result (activeNodes e)).
      apply Forall2_refl_frame, node_frame_refl. }
    destruct (node_frame_node_at _ _ a HF) as (_ & -> & _). done.
Qed.

(** ** Passes of a [solve] call *)

Lemma solve_passes_Ok e : exists ps, solve_passes e = Ok ps.
Proof. apply solve_loop_Ok. Qed.

Lemma solve_unfold e ps : solve_passes e = Ok ps -> solve e = Ok (final_state e ps).
Proof. unfold solve. by intros ->. Qed.

Lemma solve_pass_assemble iter e p :
  solve_pass iter e = Ok p ->
  exists vs, assemble iter e = Ok (mkAssembly (pass_A p) (pass_Z p) vs)
             /\ pass_result p = solveLinearSystem (pass_A p) (pass_Z p).
Proof.
  unfold solve_pass. intros H. apply bind_Ok in H as ([A Z vs] & Hs & H).
  destruct (update_voltages _ _ _) as [maxChange h].
  injection H as <-. simpl. by exists vs.
Qed.

(** Every pass of the trace is [solve_pass] run on the state the previous
    passes left. *)
Lemma solve_loop_pass todo iter e ps k p :
  solve_loop todo iter e = Ok ps -> ps !! k = Some p ->
  solve_pass (iter + k) (final_state e (take k ps)) = Ok p.
Proof.
  revert iter e ps k. induction todo as [|todo IH]; intros iter e ps k; simpl.
  { intros [= <-]. by rewrite lookup_nil. }
  destruct (unknowns e =? 0); [intros [= <-]; by rewrite lookup_nil|].
  intros H. apply bind_Ok in H as (q & Hq & H).
  destruct ((0 <? iter) && flt (pass_maxChange q) 1e-3).
  - injection H as <-. destruct k as [|k]; simpl; [|by rewrite lookup_nil].
    intros [= <-]. by rewrite Nat.add_0_r.
  - apply bind_Ok in H as (ps' & Hps' & [= <-]).
    destruct k as [|k]; simpl.
    + intros [= <-]. by rewrite Nat.add_0_r.
    + intros Hk. rewrite final_state_cons.
      replace (iter + S k) with (S iter + k) by lia. by eapply IH.
Qed.

Lemma final_state_take_S e ps k p :
  ps !! k = Some p -> final_state e (take (S k) ps) = pass_after p.
Proof.
  intros Hk. unfold final_state.
  rewrite (take_S_r _ _ _ Hk), last_snoc. done.
Qed.

(** C8. When there is no non-ground node and no battery (the unknown count
    N + M is 0), [solve] runs no pass at all (no assembly, no linear solve)
    and returns the engine state it was given, every node voltage and
    component current included. *)
Theorem solve_zero_unknowns_untouched (e : CircuitEngine) :
  length (activeNodes e) = 0 ->
  battery_count (comp_store e) (engine_components e) = 0 ->
  solve_passes e = Ok [] /\ solve e = Ok e.
Proof.
  intros HN HM.
  assert (solve_passes e = Ok []) as Hps.
  { unfold solve_passes, maxIterations. simpl.
    unfold unknowns. by rewrite HN, HM. }
  split; [done|]. by rewrite (solve_unfold _ _ Hps).
Qed.

Lemma solve_zero_unknowns_untouched_witness :
  solve_passes grounded_resistor = Ok []
  /\ solve grounded_resistor = Ok grounded_resistor.
Proof.
  apply (solve_zero_unknowns_untouched grounded_resistor); reflexivity.
Defined.

(** C9. [solve] returns normally on every engine state: it never raises,
    whatever the matrix (singular or not), the terminal slots ([null] or
    missing) and the resistances (zero included).  The state it leaves is
    the one it was given when no pass ran and the one its last pass
    computed otherwise; and every linear system it hands to
    [solveLinearSystem] is square, of the size of its right-hand side. *)
Theorem solve_never_throws (e : CircuitEngine) :
  exists ps e',
    solve_passes e = Ok ps /\ solve e = Ok e'
    /\ ((ps = [] /\ e' = e) \/ (exists p, last ps = Some p /\ e' = pass_after p))
    /\ forall p, p ∈ ps ->
         square (unknowns e) (pass_A p) /\ length (pass_Z p) = unknowns e.
Proof.
  destruct (solve_passes_Ok e) as [ps Hps].
  exists ps, (final_state e ps). split_and!; [done|by apply solve_unfold|..].
  - unfold final_state. destruct (last ps) as [p|] eqn:Hl.
    + right. by exists p.
    + left. by apply last_None in Hl.
  - intros p Hp. apply list_elem_of_lookup in Hp as [k Hk].
    pose proof (solve_loop_pass _ _ _ _ _ _ Hps Hk) as Hpass.
    destruct (solve_pass_assemble _ _ _ Hpass) as (vs & Hasm & _).
    destruct (assemble_Ok (0 + k) (final_state e (take k ps)))
      as (s & Hs & Hok).
    rewrite Hasm in Hs. injection Hs as <-.
    assert (unknowns (final_state e (take k ps)) = unknowns e) as <-; [|done].
    destruct (solve_loop_spec _ _ _ _ Hps) as (_ & _ & _ & Hspec).
    destruct (Hspec k p Hk) as (_ & Hbef & _).
    destruct k as [|k]; [done|].
    assert (is_Some (ps !! k)) as [q Hq].
    { apply lookup_lt_is_Some. apply lookup_lt_Some in Hk. lia. }
    rewrite (final_state_take_S _ _ _ _ Hq).
    apply unknowns_frame. by apply (Hspec k q Hq).
Qed.

(** C5. [solve] always returns, after at most 10 passes.  Pass number [k]
    (from 0) runs on the state pass [k-1] left.  A pass other than the
    first whose [maxChange] is below 1e-3 is the last one; any other pass
    is followed by a further pass unless it is the tenth.  For an engine
    whose node list has no repeated node and holds stored nodes only,
    [maxChange] is the largest absolute change of a non-ground node's
    voltage across the pass: no such change exceeds it, and it is one of
    them or 0. *)
Theorem solve_at_most_ten_passes (e : CircuitEngine) :
  exists ps,
    solve_passes e = Ok ps /\ solve e = Ok (final_state e ps)
    /\ length ps <= 10
    /\ forall k p, ps !! k = Some p ->
         pass_iter p = k
         /\ pass_before p = final_state e (take k ps)
         /\ (0 < k -> flt (pass_maxChange p) 1e-3 = true -> S k = length ps)
         /\ (k = 0 \/ flt (pass_maxChange p) 1e-3 = false ->
             S k < 10 -> S k < length ps)
         /\ (NoDup (engine_nodes e) ->
             Forall (fun a => a < length (node_store e)) (engine_nodes e) ->
             let change a :=
               fabs (Node.voltage (node_at (node_store (pass_before p)) a)
                     - Node.voltage (node_at (node_store (pass_after p)) a))
             in
             (forall a, a ∈ activeNodes (pass_before p) ->
                fgt (change a) (pass_maxChange p) = false)
             /\ (pass_maxChange p = 0%float
                 \/ exists a, a ∈ activeNodes (pass_before p)
                              /\ pass_maxChange p = change a)).
Proof.
  destruct (solve_passes_Ok e) as [ps Hps].
  exists ps. split_and!; [done|by apply solve_unfold|..].
  { by apply (solve_loop_spec _ _ _ _ Hps). }
  intros k p Hk.
  destruct (solve_loop_spec _ _ _ _ Hps) as (_ & _ & _ & Hspec).
  destruct (Hspec k p Hk) as (Hit & Hbef & Hfr & Hstop & Hgo).
  simpl in Hit. unfold converged in Hstop, Hgo. rewrite Hit in Hstop, Hgo.
  split_and!; [done|done|..].
  - intros Hk0 Hlt. apply Hstop. rewrite Hlt.
    by destruct k; [lia|].
  - intros Hcase Hlt. apply Hgo; [|done].
    destruct Hcase as [-> | ->]; [done|]. by rewrite andb_false_r.
  - intros Hnd Hv change.
    pose proof (solve_loop_pass _ _ _ _ _ _ Hps Hk) as Hpass.
    rewrite <- Hbef in Hpass.
    assert (engine_frame e (pass_before p)) as (Hn' & _ & HF' & _).
    { rewrite Hbef. destruct k as [|k]; [apply engine_frame_refl|].
      assert (is_Some (ps !! k)) as [q Hq].
      { apply lookup_lt_is_Some. apply lookup_lt_Some in Hk. lia. }
      rewrite (final_state_take_S _ _ _ _ Hq). by apply (Hspec k q Hq). }
    rewrite (solve_pass_maxChange _ _ _ Hpass).
    2: { by rewrite Hn'. }
    2: { rewrite Hn', <- (Forall2_length _ _ _ HF'). done. }
    split.
    + intros a Ha. apply running_max_bound. left.
      apply list_elem_of_fmap. by exists a.
    + destruct (running_max_attained
                  (map change (activeNodes (pass_before p))) 0%float)
        as [H0|Hin]; [by left|right].
      apply list_elem_of_fmap in Hin as (a & Ha & Hin). by exists a.
Qed.

(** ** The resistance of a stamp and of a current *)

Lemma is_type_eq s c : is_type s c = true <-> Component.type c = s.
Proof. unfold is_type. apply String.eqb_eq. Qed.

Lemma stamp_resistance_led iter h comp :
  is_type "led" comp = true ->
  stamp_resistance iter h comp
  = if iter =? 0
    then (if flt (Component.resistance comp) 1e-6 then 1e-6%float
          else Component.resistance comp)
    else (if fgt (voltage_of h (Component.terminal comp 0)
                  - voltage_of h (Component.terminal comp 1))%float 0.5
          then 90%float else 1e7%float).
Proof.
  intros Hled. unfold stamp_resistance. rewrite Hled.
  apply is_type_eq in Hled. unfold is_type. rewrite Hled. simpl.
  destruct iter as [|iter]; simpl; [done|].
  by destruct (fgt _ _).
Qed.

Lemma update_resistance_led h comp :
  is_type "led" comp = true ->
  update_resistance h comp
  = if fgt (voltage_of h (Component.terminal comp 0)
            - voltage_of h (Component.terminal comp 1))%float 0.5
    then 90%float else 1e7%float.
Proof. intros Hled. unfold update_resistance. by rewrite Hled. Qed.

Lemma update_resistance_not_led iter h h' comp :
  is_type "led" comp = false ->
  is_type "switch" comp || is_type "pushbutton" comp = true
  \/ flt (Component.resistance comp) 1e-6 = false ->
  update_resistance h' comp = stamp_resistance iter h comp.
Proof.
  intros Hled Hcase. unfold update_resistance, stamp_resistance.
  rewrite Hled. destruct (is_type "switch" comp || is_type "pushbutton" comp).
  - by destruct (Component.isOpen comp).
  - destruct Hcase as [?| ->]; done.
Qed.

Lemma battery_index_frame hc hc' cs ca :
  Forall2 comp_frame hc hc' ->
  battery_index hc' cs ca = battery_index hc cs ca.
Proof.
  intros HF. induction cs as [|c cs IH]; simpl; [done|].
  rewrite IH. unfold is_type.
  destruct (comp_frame_comp_at _ _ c HF) as (_ & -> & _). done.
Qed.

Lemma component_current_frame h hc hc' cs N result ca :
  Forall2 comp_frame hc hc' ->
  component_current h hc' cs N result ca
  = component_current h hc cs N result ca.
Proof.
  intros HF. unfold component_current.
  rewrite (battery_index_frame _ _ _ _ HF).
  destruct (comp_frame_comp_at _ _ ca HF) as (_ & Ht & Hn & HR & _ & HO & HS).
  unfold is_type, update_resistance, is_type, Component.terminal.
  by rewrite Ht, Hn, HR, HO, HS.
Qed.

Lemma comp_at_insert_eq h a c : a < length h -> comp_at (<[a := c]> h) a = c.
Proof. intros Hlt. unfold comp_at. by rewrite list_lookup_insert_eq. Qed.

Lemma comp_at_insert_ne h a b c : a <> b -> comp_at (<[a := c]> h) b = comp_at h b.
Proof. intros Hne. unfold comp_at. by rewrite list_lookup_insert_ne. Qed.

(** After "Update Currents", every listed stored component holds the
    current computed for it. *)
Lemma update_currents_current h cs N result hc ca :
  ca ∈ cs -> ca < length hc ->
  Component.current (comp_at (update_currents h cs N result hc) ca)
  = Some (component_current h hc cs N result ca).
Proof.
  unfold update_currents.
  assert (forall cs' hc',
    Forall2 comp_frame hc hc' ->
    (ca ∈ cs' \/ Component.current (comp_at hc' ca)
                 = Some (component_current h hc cs N result ca)) ->
    ca < length hc' ->
    Component.current
      (comp_at (foldl (fun hc ca =>
                         <[ca := Component.set_current
                                   (component_current h hc cs N result ca)
                                   (comp_at hc ca)]> hc) hc' cs') ca)
    = Some (component_current h hc cs N result ca)) as Hgen.
  { induction cs' as [|c cs' IH]; intros hc' HF Hcase Hlt; simpl.
    { destruct Hcase as [H|H]; [by apply elem_of_nil in H|done]. }
    apply IH.
    - apply (update_currents_frame h cs [c] N result hc hc' HF).
    - destruct (decide (c = ca)) as [->|Hne].
      + right. rewrite comp_at_insert_eq by done. simpl.
        by rewrite (component_current_frame _ _ _ _ _ _ _ HF).
      + rewrite comp_at_insert_ne by done.
        destruct Hcase as [H|H]; [|by right].
        apply elem_of_cons in H as [?|?]; [congruence|by left].
    - by rewrite length_insert. }
  intros Hin Hlt. apply Hgen; [|by left|done].
  apply Forall2_refl_frame, comp_frame_refl.
Qed.

Lemma solve_pass_current iter e p ca comp :
  solve_pass iter e = Ok p ->
  ca ∈ engine_components e -> comp_store e !! ca = Some comp ->
  Component.current (comp_at (comp_store (pass_after p)) ca)
  = Some (component_current (node_store (pass_after p)) (comp_store e)
            (engine_components e) (length (activeNodes e))
            (pass_result p) ca).
Proof.
  unfold solve_pass. intros H Hin Hca. apply bind_Ok in H as (s & Hs & H).
  destruct (update_voltages _ _ _) as [maxChange h].
  injection H as <-. simpl.
  apply update_currents_current; [done|]. by eapply lookup_lt_Some.
Qed.

(** ** C1: the LED stamp *)

(** C1, as stated, fails on the first pass: the LED of
    [led_across_battery] carries the default resistance 10, and pass 0
    stamps it with 10, not with 1e7; the diagonal entry of its node is
    1e-12 + 1/10. *)
Lemma led_first_pass_not_1e7 :
  let e := led_across_battery in
  let led := comp_at (comp_store e) 1 in
  is_type "led" led = true
  /\ stamp_resistance 0 (node_store e) led = 10%float
  /\ stamp_resistance 0 (node_store e) led <> 1e7%float
  /\ exists ps p,
       solve_passes e = Ok ps /\ ps !! 0 = Some p
       /\ Matrix.get (pass_A p) 0 0 = Ok (1e-12 + 1 / 10)%float.
Proof.
  split_and!; [reflexivity|reflexivity| |].
  - intros H.
    assert (flt (stamp_resistance 0 (node_store led_across_battery)
                   (comp_at (comp_store led_across_battery) 1)) 1e7
            = flt 1e7 1e7) as Hcmp by (by rewrite H).
    vm_compute in Hcmp. discriminate.
  - eexists _, _. split_and!; [vm_compute; reflexivity|reflexivity|].
    vm_compute. reflexivity.
Qed.

(** C1, amended.  In pass [k] of a [solve] call, an led component is
    stamped as a two-terminal conductance [1/R] between its first two
    terminals (no stamp when both are missing), where [R] is, on the first
    pass, the component's own resistance, raised to 1e-6 when below it,
    and, on every later pass, 90 when the voltage of terminal 0 minus that
    of terminal 1, as the previous pass left them, exceeds 0.5 and 1e7
    otherwise. *)
Theorem led_stamp_by_pass (e : CircuitEngine) (ps : list pass) (k : nat)
  (p : pass) (ca : nat) (comp : Component.t) :
  solve_passes e = Ok ps -> ps !! k = Some p ->
  comp_store (pass_before p) !! ca = Some comp ->
  is_type "led" comp = true ->
  let h := node_store (pass_before p) in
  let n1 := Component.terminal comp 0 in
  let n2 := Component.terminal comp 1 in
  let R :=
    if k =? 0
    then (if flt (Component.resistance comp) 1e-6 then 1e-6%float
          else Component.resistance comp)
    else (if fgt (voltage_of h n1 - voltage_of h n2)%float 0.5
          then 90%float else 1e7%float) in
  (exists vs, assemble k (pass_before p)
              = Ok (mkAssembly (pass_A p) (pass_Z p) vs))
  /\ (forall nodeMap N s,
        stamp_component k h nodeMap N s (comp_at (comp_store (pass_before p)) ca)
        = A ← (if bool_decide (n1 = None) && bool_decide (n2 = None)
               then Ok (asm_A s)
               else stamp (asm_A s) (1 / R)%float
                          (getIdx h nodeMap n1) (getIdx h nodeMap n2));
          Ok (mkAssembly A (asm_Z s) (asm_vSourceIndex s)))
  /\ (0 < k -> exists q, ps !! (k - 1) = Some q /\ pass_before p = pass_after q).
Proof.
  intros Hps Hk Hca Hled h n1 n2 R.
  destruct (solve_loop_spec _ _ _ _ Hps) as (_ & _ & _ & Hspec).
  destruct (Hspec k p Hk) as (Hit & Hbef & _). simpl in Hit.
  pose proof (solve_loop_pass _ _ _ _ _ _ Hps Hk) as Hpass.
  rewrite <- Hbef in Hpass. simpl in Hpass.
  split_and!.
  - destruct (solve_pass_assemble _ _ _ Hpass) as (vs & Hasm & _). by exists vs.
  - intros nodeMap N s. rewrite (comp_at_lookup _ _ _ Hca).
    unfold stamp_component.
    pose proof Hled as Ht. apply is_type_eq in Ht.
    unfold is_type at 1 2. rewrite Ht. simpl.
    unfold stamp_resistive. fold n1 n2.
    by rewrite (stamp_resistance_led k h comp Hled).
  - intros Hk0. destruct k as [|k]; [lia|]. simpl. rewrite Nat.sub_0_r.
    assert (is_Some (ps !! k)) as [q Hq].
    { apply lookup_lt_is_Some. apply lookup_lt_Some in Hk. lia. }
    exists q. split; [done|]. by rewrite Hbef, (final_state_take_S _ _ _ _ Hq).
Qed.

(** Pass 1 of [led_across_battery]: the previous pass left 9 V across the
    LED, which is therefore stamped with 90. *)
Lemma led_stamp_by_pass_witness :
  let h := node_store (pass_before led_pass_1) in
  (exists vs, assemble 1 (pass_before led_pass_1)
              = Ok (mkAssembly (pass_A led_pass_1) (pass_Z led_pass_1) vs))
  /\ (forall nodeMap N s,
        stamp_component 1 h nodeMap N s
                        (comp_at (comp_store (pass_before led_pass_1)) 1)
        = A ← stamp (asm_A s) (1 / 90)%float
                    (getIdx h nodeMap (Some 2)) (getIdx h nodeMap (Some 3));
          Ok (mkAssembly A (asm_Z s) (asm_vSourceIndex s)))
  /\ (0 < 1 -> exists q, led_passes !! (1 - 1) = Some q
                         /\ pass_before led_pass_1 = pass_after q).
Proof.
  apply (led_stamp_by_pass led_across_battery led_passes 1 led_pass_1 1
           (comp_at (comp_store (pass_before led_pass_1)) 1));
    vm_compute; reflexivity.
Defined.

(** ** C2: the resistance behind a current *)

(** C2, as stated, fails for an LED: in pass 0 of [led_across_battery] the
    LED is stamped with resistance 10, yet its current is the 9 V across it
    divided by 90. *)
Lemma led_current_not_by_stamp_resistance :
  let p := led_pass_0 in
  let led := comp_at (comp_store (pass_before p)) 1 in
  let v1 := voltage_of (node_store (pass_after p)) (Component.terminal led 0) in
  let v2 := voltage_of (node_store (pass_after p)) (Component.terminal led 1) in
  solve_passes led_across_battery = Ok led_passes
  /\ led_passes !! 0 = Some p
  /\ is_type "battery" led = false /\ is_type "spdt" led = false
  /\ stamp_resistance 0 (node_store (pass_before p)) led = 10%float
  /\ (v1 - v2)%float = 9%float
  /\ Component.current (comp_at (comp_store (pass_after p)) 1)
     = Some (9 / 90)%float
  /\ Component.current (comp_at (comp_store (pass_after p)) 1)
     <> Some ((v1 - v2)
              / stamp_resistance 0 (node_store (pass_before p)) led)%float.
Proof.
  split_and!; try (vm_compute; reflexivity).
  intros H.
  apply (f_equal (fun o => match o with
                           | Some i => flt i 0.5
                           | None => false
                           end)) in H.
  vm_compute in H. discriminate.
Qed.

(** C2, amended.  In every pass, the current of a listed component that is
    neither a battery nor an spdt is [(V0 - V1) / R], with the voltages the
    pass has just written and [R] as follows: for an led, 90 when
    [V0 - V1] exceeds 0.5 and 1e7 otherwise; for a switch or pushbutton,
    and for any other kind whose resistance is not below 1e-6, the
    resistance the component was stamped with in that pass. *)
Theorem current_by_update_resistance (e : CircuitEngine) (ps : list pass)
  (k : nat) (p : pass) (ca : nat) (comp : Component.t) :
  solve_passes e = Ok ps -> ps !! k = Some p ->
  ca ∈ engine_components (pass_before p) ->
  comp_store (pass_before p) !! ca = Some comp ->
  is_type "battery" comp = false -> is_type "spdt" comp = false ->
  let h := node_store (pass_before p) in
  let h' := node_store (pass_after p) in
  let v1 := voltage_of h' (Component.terminal comp 0) in
  let v2 := voltage_of h' (Component.terminal comp 1) in
  exists R,
    Component.current (comp_at (comp_store (pass_after p)) ca)
    = Some ((v1 - v2) / R)%float
    /\ (is_type "led" comp = true ->
        R = if fgt (v1 - v2)%float 0.5 then 90%float else 1e7%float)
    /\ (is_type "led" comp = false ->
        is_type "switch" comp || is_type "pushbutton" comp = true
        \/ flt (Component.resistance comp) 1e-6 = false ->
        R = stamp_resistance k h comp).
Proof.
  intros Hps Hk Hin Hca Hbat Hspdt h h' v1 v2.
  destruct (solve_loop_spec _ _ _ _ Hps) as (_ & _ & _ & Hspec).
  destruct (Hspec k p Hk) as (Hit & Hbef & _). simpl in Hit.
  pose proof (solve_loop_pass _ _ _ _ _ _ Hps Hk) as Hpass.
  rewrite <- Hbef in Hpass. simpl in Hpass.
  exists (update_resistance h' comp). split_and!.
  - rewrite (solve_pass_current _ _ _ _ _ Hpass Hin Hca).
    unfold component_current. rewrite (comp_at_lookup _ _ _ Hca).
    by rewrite Hbat, Hspdt.
  - apply update_resistance_led.
  - apply update_resistance_not_led.
Qed.

(** The resistor of [led_with_resistor] in the last pass: its current is
    the voltage across it divided by the 100 it was stamped with. *)
Lemma current_by_update_resistance_witness :
  let p := series_pass_2 in
  let resistor := comp_at (comp_store (pass_before p)) 2 in
  let h' := node_store (pass_after p) in
  let v1 := voltage_of h' (Component.terminal resistor 0) in
  let v2 := voltage_of h' (Component.terminal resistor 1) in
  exists R,
    Component.current (comp_at (comp_store (pass_after p)) 2)
    = Some ((v1 - v2) / R)%float
    /\ (is_type "led" resistor = true ->
        R = if fgt (v1 - v2)%float 0.5 then 90%float else 1e7%float)
    /\ (is_type "led" resistor = false ->
        is_type "switch" resistor || is_type "pushbutton" resistor = true
        \/ flt (Component.resistance resistor) 1e-6 = false ->
        R = stamp_resistance 2 (node_store (pass_before p)) resistor).
Proof.
  apply (current_by_update_resistance led_with_resistor series_passes 2
           series_pass_2 2
           (comp_at (comp_store (pass_before series_pass_2)) 2));
    try (vm_compute; reflexivity).
  apply (bool_decide_unpack _). vm_compute. exact I.
Defined.

(** The case the amended statement leaves open: a resistor of resistance 0
    is stamped with 1e-6 while its current is a division by 0. *)
Example zero_resistance_divides_by_zero :
  let r := Component.set_resistance 0 Component.dummy in
  stamp_resistance 0 [] r = 1e-6%float /\ update_resistance [] r = 0%float.
Proof. split; reflexivity. Qed.

(** ** Gaussian elimination *)

(** *** Pivot search *)

Lemma argmax_running_max (f : nat -> float) (l : list nat) (m0 : nat) :
  f (foldl (fun m k => if fgt (f k) (f m) then k else m) m0 l)
  = running_max (f m0) (map f l).
Proof.
  unfold running_max. revert m0.
  induction l as [|k l IH]; intros m0; simpl; [done|].
  rewrite IH. by destruct (fgt (f k) (f m0)).
Qed.

Lemma argmax_range (f : nat -> float) (l : list nat) (m0 : nat) :
  let m := foldl (fun m k => if fgt (f k) (f m) then k else m) m0 l in
  m = m0 \/ m ∈ l.
Proof.
  revert m0. induction l as [|k l IH]; intros m0; simpl; [by left|].
  destruct (IH (if fgt (f k) (f m0) then k else m0)) as [->|Hin];
    [|right; by right].
  destruct (fgt (f k) (f m0)); [right; left|by left].
Qed.

(** The selected row is at or below the pivot position and no row at or
    below it has an entry of larger magnitude in the pivot column. *)
Lemma select_pivot_spec M n i :
  i < n ->
  let p := select_pivot M n i in
  i <= p < n
  /\ forall k, i <= k < n ->
       fgt (fabs (entry M k i)) (fabs (entry M p i)) = false.
Proof.
  intros Hi p. unfold select_pivot in p.
  pose proof (argmax_range (fun k => fabs (entry M k i))
                (seq (S i) (n - S i)) i) as Hrange.
  pose proof (argmax_running_max (fun k => fabs (entry M k i))
                (seq (S i) (n - S i)) i) as Hmax.
  simpl in Hrange, Hmax. fold p in Hrange, Hmax. split.
  - destruct Hrange as [->|Hin]; [lia|]. apply elem_of_seq in Hin. lia.
  - intros k Hk. rewrite Hmax. apply running_max_bound.
    destruct (decide (k = i)) as [->|Hne]; [right; apply flt_irrefl|left].
    apply list_elem_of_fmap. exists k. split; [done|].
    apply elem_of_seq. lia.
Qed.

(** *** Swapping *)

Lemma length_swap {A} (a : list A) i j : length (swap a i j) = length a.
Proof. unfold swap. repeat case_match; by rewrite ?length_insert. Qed.

Lemma swap_lookup {A} (a : list A) i j k :
  i < length a -> j < length a ->
  swap a i j !! k
  = if decide (k = j) then a !! i
    else if decide (k = i) then a !! j else a !! k.
Proof.
  intros Hi Hj. unfold swap.
  destruct (lookup_lt_is_Some_2 a i Hi) as [ai Hai].
  destruct (lookup_lt_is_Some_2 a j Hj) as [aj Haj].
  rewrite Hai, Haj.
  destruct (decide (k = j)) as [->|Hkj].
  { by rewrite list_lookup_insert_eq by (by rewrite length_insert). }
  rewrite list_lookup_insert_ne by done.
  destruct (decide (k = i)) as [->|Hki].
  { by rewrite list_lookup_insert_eq. }
  by rewrite list_lookup_insert_ne.
Qed.

Lemma swap_Forall {A} (P : A -> Prop) (a : list A) i j :
  Forall P a -> Forall P (swap a i j).
Proof.
  intros HF. unfold swap.
  destruct (a !! i) as [ai|] eqn:Hai; [|done].
  destruct (a !! j) as [aj|] eqn:Haj; [|done].
  rewrite Forall_forall in HF.
  apply Forall_insert; [apply Forall_insert|].
  - by apply Forall_forall.
  - apply HF. by eapply list_elem_of_lookup_2.
  - apply HF. by eapply list_elem_of_lookup_2.
Qed.

(** *** Elimination below the pivot *)

Lemma entry_row M r row c : M !! r = Some row -> entry M r c = vget row c.
Proof. unfold entry. by intros ->. Qed.

Lemma mset_lookup_ne M k j v r : r <> k -> mset M k j v !! r = M !! r.
Proof. intros Hne. unfold mset. by rewrite list_lookup_alter_ne. Qed.

Lemma mset_lookup_eq M k j v :
  mset M k j v !! k = (fun row => <[j := v]> row) <$> M !! k.
Proof. unfold mset. by rewrite list_lookup_alter_eq. Qed.

Lemma length_mset M k j v : length (mset M k j v) = length M.
Proof. unfold mset. by rewrite length_alter. Qed.

Lemma entry_mset_other_row M k j v r c :
  r <> k -> entry (mset M k j v) r c = entry M r c.
Proof. intros Hne. unfold entry. by rewrite mset_lookup_ne. Qed.

Lemma entry_mset_other_col M k j v c :
  c <> j -> entry (mset M k j v) k c = entry M k c.
Proof.
  intros Hne. unfold entry. rewrite mset_lookup_eq.
  destruct (M !! k) as [row|]; simpl; [|done].
  unfold vget. by rewrite list_lookup_insert_ne.
Qed.

Lemma entry_mset_same M k j v row :
  M !! k = Some row -> j < length row -> entry (mset M k j v) k j = v.
Proof.
  intros Hrow Hj. unfold entry. rewrite mset_lookup_eq, Hrow. simpl.
  unfold vget. by rewrite list_lookup_insert_eq.
Qed.

(** The inner [for (j = i; j < n; j++)] loop on row [k], for any list of
    distinct columns. *)
Lemma eliminate_columns (n k i : nat) (f : float) (js : list nat)
  (M : list (list float)) :
  k <> i -> NoDup js -> Forall (fun j => j < n) js ->
  (exists row, M !! k = Some row /\ length row = n) ->
  let M' := foldl (fun M j =>
                     mset M k j (entry M k j - f * entry M i j)%float) M js in
  length M' = length M
  /\ (forall r, r <> k -> M' !! r = M !! r)
  /\ (exists row, M' !! k = Some row /\ length row = n)
  /\ forall j, entry M' k j
               = if decide (j ∈ js)
                 then (entry M k j - f * entry M i j)%float
                 else entry M k j.
Proof.
  intros Hki. revert M.
  induction js as [|j0 js IH]; intros M Hnd Hlt Hrow; simpl.
  { by split_and!. }
  apply NoDup_cons in Hnd as [Hnotin Hnd].
  apply Forall_cons in Hlt as [Hj0 Hlt].
  destruct Hrow as (row & Hrow & Hlen).
  set (M1 := mset M k j0 (entry M k j0 - f * entry M i j0)%float).
  destruct (IH M1 Hnd Hlt) as (H1 & H2 & H3 & H4).
  { exists (<[j0 := (entry M k j0 - f * entry M i j0)%float]> row).
    unfold M1. rewrite mset_lookup_eq, Hrow. simpl.
    by rewrite length_insert. }
  split_and!.
  - rewrite H1. apply length_mset.
  - intros r Hr. rewrite H2 by done. by apply mset_lookup_ne.
  - done.
  - intros j. rewrite H4.
    destruct (decide (j = j0)) as [->|Hne].
    + rewrite decide_False by done. rewrite decide_True by left.
      unfold M1. eapply entry_mset_same; [done|lia].
    + unfold M1. rewrite entry_mset_other_col by done.
      rewrite entry_mset_other_row by done.
      destruct (decide (j ∈ js)) as [Hin|Hnin].
      * by rewrite decide_True by (by right).
      * rewrite decide_False; [done|].
        intros Hin. apply elem_of_cons in Hin as [?|?]; done.
Qed.

Lemma system_shape_row n M R r :
  system_shape n (M, R) -> r < n ->
  exists row, M !! r = Some row /\ length row = n.
Proof.
  intros (Hl & HF & _) Hr. simpl in *.
  destruct (lookup_lt_is_Some_2 M r) as [row Hrow]; [lia|].
  exists row. split; [done|]. rewrite Forall_forall in HF.
  apply HF. by eapply list_elem_of_lookup_2.
Qed.

Lemma vget_insert_eq (v : list float) i x : i < length v -> vget (<[i := x]> v) i = x.
Proof. intros Hi. unfold vget. by rewrite list_lookup_insert_eq. Qed.

Lemma vget_insert_ne (v : list float) i j x : i <> j -> vget (<[i := x]> v) j = vget v j.
Proof. intros Hne. unfold vget. by rewrite list_lookup_insert_ne. Qed.

(** One row of the elimination. *)
Lemma eliminate_row_spec n i M R k :
  system_shape n (M, R) -> i < n -> k < n -> k <> i ->
  let factor := (entry M k i / entry M i i)%float in
  let MR' := eliminate_row n i (M, R) k in
  system_shape n MR'
  /\ (forall r, r <> k -> MR'.1 !! r = M !! r)
  /\ (forall r, r <> k -> vget MR'.2 r = vget R r)
  /\ (forall j, entry MR'.1 k j
                = if decide (i <= j < n)
                  then (entry M k j - factor * entry M i j)%float
                  else entry M k j)
  /\ vget MR'.2 k = (vget R k - factor * vget R i)%float.
Proof.
  intros Hshape Hi Hk Hki factor MR'. unfold eliminate_row in MR'.
  fold factor in MR'.
  destruct (eliminate_columns n k i factor (seq i (n - i)) M Hki)
    as (H1 & H2 & H3 & H4).
  { apply NoDup_seq. }
  { apply Forall_forall. intros j Hj. apply elem_of_seq in Hj. lia. }
  { by eapply system_shape_row. }
  destruct Hshape as (Hl & HF & HR). simpl in *.
  subst MR'. simpl. split_and!.
  - split_and!; simpl.
    + by rewrite H1.
    + apply Forall_forall. intros row Hrow.
      apply list_elem_of_lookup in Hrow as [r Hr].
      destruct (decide (r = k)) as [->|Hne].
      * destruct H3 as (row' & Hrow' & Hlen). congruence.
      * rewrite H2 in Hr by done. rewrite Forall_forall in HF.
        apply HF. by eapply list_elem_of_lookup_2.
    + by rewrite length_insert.
  - done.
  - intros r Hr. by apply vget_insert_ne.
  - intros j. rewrite H4.
    destruct (decide (i <= j < n)) as [Hj|Hj].
    + rewrite decide_True; [done|]. apply elem_of_seq. lia.
    + rewrite decide_False; [done|]. rewrite elem_of_seq. lia.
  - apply vget_insert_eq. lia.
Qed.

Lemma entry_ext M M' r c : M' !! r = M !! r -> entry M' r c = entry M r c.
Proof. unfold entry. by intros ->. Qed.

(** The loop over the rows below the pivot, for any list of distinct rows
    other than the pivot row: every listed row is replaced by itself minus
    its factor times the pivot row, from the pivot column on. *)
Lemma eliminate_rows_spec n i (ks : list nat) M R :
  system_shape n (M, R) -> i < n ->
  NoDup ks -> Forall (fun k => k < n /\ k <> i) ks ->
  let MR' := foldl (eliminate_row n i) (M, R) ks in
  system_shape n MR'
  /\ (forall r, r ∉ ks -> MR'.1 !! r = M !! r)
  /\ (forall r, r ∉ ks -> vget MR'.2 r = vget R r)
  /\ (forall k j, k ∈ ks ->
        entry MR'.1 k j
        = if decide (i <= j < n)
          then (entry M k j - entry M k i / entry M i i * entry M i j)%float
          else entry M k j)
  /\ (forall k, k ∈ ks ->
        vget MR'.2 k
        = (vget R k - entry M k i / entry M i i * vget R i)%float).
Proof.
  intros Hshape Hi. revert M R Hshape.
  induction ks as [|k0 ks IH]; intros M R Hshape Hnd Hks; cbn [foldl].
  { split_and!; try done; intros ? **; by apply elem_of_nil in H. }
  apply NoDup_cons in Hnd as [Hnotin Hnd].
  apply Forall_cons in Hks as [[Hk0 Hk0i] Hks].
  destruct (eliminate_row_spec n i M R k0 Hshape Hi Hk0 Hk0i)
    as (S1 & S2 & S3 & S4 & S5).
  destruct (eliminate_row n i (M, R) k0) as [M1 R1] eqn:E1.
  cbn [fst snd] in S1, S2, S3, S4, S5.
  destruct (IH M1 R1 S1 Hnd Hks) as (H1 & H2 & H3 & H4 & H5).
  cbv zeta. split_and!.
  - done.
  - intros r Hr. apply not_elem_of_cons in Hr as [Hne Hr].
    rewrite H2 by done. by apply S2.
  - intros r Hr. apply not_elem_of_cons in Hr as [Hne Hr].
    rewrite H3 by done. by apply S3.
  - intros k j Hk. apply elem_of_cons in Hk as [->|Hk].
    + rewrite (entry_ext M1 _ k0 j (H2 k0 Hnotin)). apply S4.
    + assert (k <> k0) as Hne by (intros ->; done).
      rewrite H4 by done.
      rewrite !(entry_ext M M1 k) by (by apply S2).
      rewrite !(entry_ext M M1 i) by (by apply S2). done.
  - intros k Hk. apply elem_of_cons in Hk as [->|Hk].
    + rewrite H3 by done. apply S5.
    + assert (k <> k0) as Hne by (intros ->; done).
      rewrite H5 by done.
      rewrite !(entry_ext M M1 k) by (by apply S2).
      rewrite !(entry_ext M M1 i) by (by apply S2).
      rewrite (S3 k), (S3 i) by done. done.
Qed.

Lemma eliminate_spec n i M R :
  system_shape n (M, R) -> i < n ->
  let MR' := eliminate n i (M, R) in
  system_shape n MR'
  /\ (forall r, r <= i -> MR'.1 !! r = M !! r)
  /\ (forall r, r <= i -> vget MR'.2 r = vget R r)
  /\ (forall k j, i < k < n ->
        entry MR'.1 k j
        = if decide (i <= j < n)
          then (entry M k j - entry M k i / entry M i i * entry M i j)%float
          else entry M k j)
  /\ (forall k, i < k < n ->
        vget MR'.2 k
        = (vget R k - entry M k i / entry M i i * vget R i)%float).
Proof.
  intros Hshape Hi. unfold eliminate.
  destruct (eliminate_rows_spec n i (seq (S i) (n - S i)) M R Hshape Hi)
    as (H1 & H2 & H3 & H4 & H5).
  { apply NoDup_seq. }
  { apply Forall_forall. intros k Hk. apply elem_of_seq in Hk. lia. }
  split_and!; [done|..].
  - intros r Hr. apply H2. rewrite elem_of_seq. lia.
  - intros r Hr. apply H3. rewrite elem_of_seq. lia.
  - intros k j Hk. apply H4. apply elem_of_seq. lia.
  - intros k Hk. apply H5. apply elem_of_seq. lia.
Qed.

(** *** One forward step *)

Lemma vget_ext (v v' : list float) i : v' !! i = v !! i -> vget v' i = vget v i.
Proof. unfold vget. by intros ->. Qed.

Lemma forward_step_spec n i M R :
  system_shape n (M, R) -> i < n ->
  let p := select_pivot M n i in
  let M1 := swap M i p in
  let R1 := swap R i p in
  let MR' := forward_step n (M, R) i in
  system_shape n (M1, R1)
  /\ system_shape n MR'
  /\ M1 !! i = M !! p
  /\ R1 !! i = R !! p
  /\ MR' = (if flt (fabs (entry M1 i i)) 1e-10 then (M1, R1)
            else eliminate n i (M1, R1))
  /\ (forall r, r < i -> MR'.1 !! r = M !! r)
  /\ (forall r, r < i -> vget MR'.2 r = vget R r)
  /\ MR'.1 !! i = M1 !! i
  /\ vget MR'.2 i = vget R1 i.
Proof.
  intros Hshape Hi p M1 R1 MR'.
  destruct (select_pivot_spec M n i Hi) as [Hp _]. fold p in Hp.
  destruct Hshape as (Hl & HF & HR). simpl in *.
  assert (system_shape n (M1, R1)) as Hshape1.
  { unfold M1, R1.
    split_and!; simpl; [by rewrite length_swap|by apply swap_Forall|
                        by rewrite length_swap]. }
  assert (forall r, r < i -> M1 !! r = M !! r) as HM1.
  { intros r Hr. unfold M1. rewrite swap_lookup by lia.
    rewrite decide_False by lia. by rewrite decide_False by lia. }
  assert (forall r, r < i -> R1 !! r = R !! r) as HR1.
  { intros r Hr. unfold R1. rewrite swap_lookup by lia.
    rewrite decide_False by lia. by rewrite decide_False by lia. }
  assert (M1 !! i = M !! p) as HMi.
  { unfold M1. rewrite swap_lookup by lia.
    destruct (decide (i = p)) as [<-|?]; [done|]. by rewrite decide_True. }
  assert (R1 !! i = R !! p) as HRi.
  { unfold R1. rewrite swap_lookup by lia.
    destruct (decide (i = p)) as [<-|?]; [done|]. by rewrite decide_True. }
  assert (MR' = (if flt (fabs (entry M1 i i)) 1e-10 then (M1, R1)
                 else eliminate n i (M1, R1))) as HMR' by done.
  destruct (eliminate_spec n i M1 R1 Hshape1 Hi) as (E1 & E2 & E3 & _).
  split_and!; [done| |done|done|done|..]; rewrite HMR';
    destruct (flt _ _); simpl; try done; intros;
    rewrite ?E2, ?E3 by lia; auto using vget_ext.
Qed.

Lemma forward_upto_S n MR i :
  forward_upto n MR (S i) = forward_step n (forward_upto n MR i) i.
Proof. unfold forward_upto. by rewrite seq_S, foldl_app. Qed.

Lemma forward_upto_shape n MR i :
  system_shape n MR -> i <= n -> system_shape n (forward_upto n MR i).
Proof.
  intros Hshape. induction i as [|i IH]; intros Hi; [done|].
  rewrite forward_upto_S.
  destruct (forward_upto n MR i) as [M R] eqn:E.
  apply (forward_step_spec n i M R); [apply IH|]; lia.
Qed.

(** Row [i] of [M] and entry [i] of [R] no longer change once iteration
    [i] has run. *)
Lemma forward_upto_frozen n MR i j :
  system_shape n MR -> i < j -> j <= n ->
  (forward_upto n MR j).1 !! i = (forward_upto n MR (S i)).1 !! i
  /\ vget (forward_upto n MR j).2 i = vget (forward_upto n MR (S i)).2 i.
Proof.
  intros Hshape Hij. induction j as [|j IH]; intros Hj; [lia|].
  destruct (decide (j = i)) as [->|Hne]; [done|].
  destruct IH as [IH1 IH2]; [lia..|].
  rewrite <- IH1, <- IH2. rewrite (forward_upto_S n MR j).
  pose proof (forward_upto_shape n MR j Hshape) as Hs.
  destruct (forward_upto n MR j) as [M R] eqn:E.
  destruct (forward_step_spec n j M R) as (_ & _ & _ & _ & _ & F1 & F2 & _);
    [apply Hs; lia|lia|].
  split; [apply F1|apply F2]; lia.
Qed.

(** *** Backward substitution *)

Lemma back_sum_ext n M x x' i :
  (forall j, i < j < n -> vget x' j = vget x j) ->
  back_sum n M x' i = back_sum n M x i.
Proof.
  intros Hx. unfold back_sum.
  assert (forall (l : list nat) s,
            Forall (fun j => i < j < n) l ->
            foldl (fun sum j => (sum + entry M i j * vget x' j)%float) s l
            = foldl (fun sum j => (sum + entry M i j * vget x j)%float) s l)
    as Hgen.
  { induction l as [|j l IH]; intros s Hl; simpl; [done|].
    apply Forall_cons in Hl as [Hj Hl]. rewrite Hx by done. by apply IH. }
  apply Hgen. apply Forall_forall. intros j Hj. apply elem_of_seq in Hj. lia.
Qed.

Lemma back_from_step n M R m :
  m < n -> back_from n M R m = back_step n M R (back_from n M R (S m)) m.
Proof.
  intros Hm. unfold back_from.
  replace (n - m) with (S (n - S m)) by lia.
  cbn [seq rev]. by rewrite foldl_app.
Qed.

Lemma back_from_spec n M R m :
  m <= n ->
  let x := back_from n M R m in
  length x = n
  /\ (forall i, i < m -> vget x i = 0%float)
  /\ forall i, m <= i < n ->
       vget x i
       = if flt (fabs (entry M i i)) 1e-10 then 0%float
         else ((vget R i - back_sum n M x i) / entry M i i)%float.
Proof.
  intros Hm. remember (n - m) as d eqn:Hd. revert m Hm Hd.
  induction d as [|d IH]; intros m Hm Hd x.
  { assert (m = n) as -> by lia. subst x. unfold back_from.
    rewrite Nat.sub_diag. simpl. split_and!.
    - apply length_replicate.
    - intros i Hi. unfold vget. by rewrite lookup_replicate_2.
    - intros i Hi. lia. }
  destruct (IH (S m)) as (H1 & H2 & H3); [lia..|].
  subst x. rewrite back_from_step by lia. unfold back_step.
  fold (back_sum n M (back_from n M R (S m)) m).
  set (x1 := back_from n M R (S m)) in *.
  destruct (flt (fabs (entry M m m)) 1e-10) eqn:Hskip.
  - split_and!; [done|intros i Hi; apply H2; lia|].
    intros i Hi. destruct (decide (i = m)) as [->|Hne].
    + rewrite Hskip. apply H2. lia.
    + apply H3. lia.
  - split_and!.
    + by rewrite length_insert.
    + intros i Hi. rewrite vget_insert_ne by lia. apply H2. lia.
    + intros i Hi. destruct (decide (i = m)) as [->|Hne].
      * rewrite Hskip, vget_insert_eq by lia. do 2 f_equal.
        symmetry. apply back_sum_ext. intros j Hj.
        by rewrite vget_insert_ne by lia.
      * rewrite vget_insert_ne by lia. rewrite H3 by lia.
        destruct (flt (fabs (entry M i i)) 1e-10); [done|]. do 2 f_equal.
        symmetry. apply back_sum_ext. intros j Hj.
        by rewrite vget_insert_ne by lia.
Qed.

Lemma back_substitute_spec n M R :
  let x := back_substitute n M R in
  length x = n
  /\ forall i, i < n ->
       vget x i
       = if flt (fabs (entry M i i)) 1e-10 then 0%float
         else ((vget R i - back_sum n M x i) / entry M i i)%float.
Proof.
  destruct (back_from_spec n M R 0) as (H1 & _ & H3); [lia|].
  unfold back_from in *. rewrite Nat.sub_0_r in *.
  split; [done|]. intros i Hi. apply H3. lia.
Qed.

(** *** The whole solver *)

Lemma entry_row_eq M M' r r' c : M' !! r' = M !! r -> entry M' r' c = entry M r c.
Proof. unfold entry. by intros ->. Qed.

(** C4. On a square system, [solveLinearSystem] is Gaussian elimination
    with partial pivoting: for each pivot column it selects the row at or
    below the pivot position whose entry in that column has the largest
    magnitude and swaps it into place; when that pivot's magnitude is below
    1e-10 it eliminates nothing and the backward loop skips the row, whose
    unknown keeps its initial 0; otherwise it eliminates below the pivot
    and back-substitutes, from the last row upward. *)
Theorem solveLinearSystem_partial_pivoting (A : Matrix.t) (B : list float)
  (n : nat) :
  Matrix.shaped A -> Matrix.rows A = n -> Matrix.cols A = n ->
  length B = n ->
  partial_pivoting_elimination A B n.
Proof.
  intros [Hlen Hrows] Hr Hc HB. unfold partial_pivoting_elimination.
  set (MR0 := (map (map json_number) (Matrix.data A), B)).
  assert (system_shape n MR0) as Hshape0.
  { split_and!; simpl; [rewrite length_map; lia| |done].
    apply Forall_fmap. eapply Forall_impl; [exact Hrows|].
    intros row Hrow. simpl in *. rewrite length_map. lia. }
  assert (solveLinearSystem A B
          = back_substitute n (forward_upto n MR0 n).1 (forward_upto n MR0 n).2)
    as Hx.
  { unfold solveLinearSystem. rewrite Hr. fold MR0.
    unfold forward, forward_upto. by destruct (foldl _ _ _). }
  rewrite Hx.
  destruct (back_substitute_spec n (forward_upto n MR0 n).1
              (forward_upto n MR0 n).2) as [Hxlen Hxi].
  split; [done|]. intros i Hi.
  pose proof (forward_upto_shape n MR0 i Hshape0) as Hs.
  pose proof (forward_upto_S n MR0 i) as HS.
  destruct (forward_upto n MR0 i) as [M R] eqn:E. cbn [fst snd].
  specialize (Hs ltac:(lia)).
  destruct (forward_step_spec n i M R Hs Hi)
    as (Hs1 & Hs' & HMi & HRi & Hstep & _ & _ & Hrowi & HRi').
  destruct (select_pivot_spec M n i Hi) as [Hp Hmax].
  destruct (eliminate_spec n i _ _ Hs1 Hi) as (_ & E2 & E3 & E4 & E5).
  set (p := select_pivot M n i) in *.
  set (M1 := swap M i p) in *. set (R1 := swap R i p) in *.
  destruct Hs as (HlM & _ & HlR). simpl in HlM, HlR.
  assert (entry M1 i i = entry M p i) as Hpivot by (by apply entry_row_eq).
  rewrite Hpivot in Hstep. rewrite HS, Hstep.
  assert ((forward_upto n MR0 n).1 !! i = M1 !! i
          /\ vget (forward_upto n MR0 n).2 i = vget R1 i) as [HMf HRf].
  { destruct (decide (S i = n)) as [<-|Hne].
    - rewrite HS. by split.
    - destruct (forward_upto_frozen n MR0 i n Hshape0) as [-> ->]; [lia..|].
      rewrite HS. by split. }
  assert (entry (forward_upto n MR0 n).1 i i = entry M p i) as Hfinal.
  { rewrite <- Hpivot. by apply entry_ext. }
  split_and!; try done; try lia.
  - unfold M1. rewrite swap_lookup by lia. by rewrite decide_True.
  - unfold R1. rewrite swap_lookup by lia. by rewrite decide_True.
  - intros r Hri Hrp. unfold M1, R1. rewrite !swap_lookup by lia.
    by rewrite !decide_False by done.
  - intros Hskip. rewrite Hskip. split; [done|].
    rewrite (Hxi i Hi), Hfinal, Hskip. done.
  - intros Hskip. rewrite Hskip. split_and!.
    + intros r Hri. split; [by apply E2|by apply E3].
    + intros k Hk. rewrite <- Hpivot.
      split; [by apply E5|]. intros j. by apply E4.
    + rewrite (Hxi i Hi), Hfinal, Hskip. done.
Qed.

(** The system of [led_across_battery]'s first pass. *)
Lemma solveLinearSystem_partial_pivoting_witness :
  partial_pivoting_elimination
    (Matrix.mk 2 2 [[(1e-12 + 1 / 10)%float; 1%float]; [1%float; 0%float]])
    [0%float; 9%float] 2.
Proof.
  apply solveLinearSystem_partial_pivoting; try reflexivity.
  split; [reflexivity|]. repeat constructor.
Defined.

Example solveLinearSystem_led_first_pass :
  solveLinearSystem
    (Matrix.mk 2 2 [[(1e-12 + 1 / 10)%float; 1%float]; [1%float; 0%float]])
    [0%float; 9%float]
  = [9%float; (-0.90000000000900005)%float].
Proof. vm_compute. reflexivity. Qed.

(** ** Union-find *)

Lemma same_payload_refl n : same_payload n n.
Proof. done. Qed.

Lemma same_payload_trans n1 n2 n3 :
  same_payload n1 n2 -> same_payload n2 n3 -> same_payload n1 n3.
Proof. unfold same_payload. intros (?&?&?) (?&?&?). repeat split; congruence. Qed.

Lemma payload_set_parent h0 h a r :
  Forall2 same_payload h0 h ->
  Forall2 same_payload h0 (<[a := Node.set_parent r (node_at h a)]> h).
Proof.
  intros HF. apply Forall2_insert_related; [done|].
  intros y0 y Hy0 Hy. rewrite (node_at_lookup _ _ _ Hy).
  eapply same_payload_trans; [by eapply Forall2_lookup_lr|done].
Qed.

Lemma is_root_insert_other h a b n :
  a <> b -> is_root (<[a := n]> h) b <-> is_root h b.
Proof. intros Hne. unfold is_root. by rewrite node_at_insert_ne. Qed.

(** What [find] guarantees whenever it returns. *)
Lemma find_spec fuel h a h' r :
  find fuel h a = Ok (h', r) ->
  length h' = length h
  /\ is_root h' r
  /\ (forall b, is_root h b -> is_root h' b)
  /\ Forall2 same_payload h h'.
Proof.
  revert h a h' r. induction fuel as [|fuel IH]; intros h a h' r; simpl; [done|].
  destruct (Nat.eqb_spec (Node.parent (node_at h a)) a) as [Heq|Hne].
  { intros [= <- <-]. split_and!; try done.
    - unfold is_root. by rewrite Heq.
    - apply Forall2_refl_frame, same_payload_refl. }
  intros H. apply bind_Ok in H as ([h1 r1] & Hfind & [= <- <-]).
  destruct (IH _ _ _ _ Hfind) as (Hlen & Hroot & Hkeep & Hpay).
  split_and!.
  - by rewrite length_insert.
  - unfold is_root in *. destruct (decide (a = r1)) as [->|Hne'].
    + destruct (decide (r1 < length h1)).
      * by rewrite node_at_insert_eq.
      * by rewrite list_insert_ge by lia.
    + by rewrite node_at_insert_ne.
  - intros b Hb. assert (a <> b) as Hab by (intros ->; done).
    apply is_root_insert_other; [done|]. by apply Hkeep.
  - by apply payload_set_parent.
Qed.

Lemma above_le rank h a : above rank h a <= length h.
Proof.
  unfold above. etrans; [apply length_filter|]. by rewrite length_seq.
Qed.

Lemma above_parent rank h a p :
  p < length h -> rank a < rank p -> above rank h p < above rank h a.
Proof.
  intros Hp Hlt. unfold above.
  rewrite <- (list_filter_filter_l (fun b => rank p < rank b)
                                   (fun b => rank a < rank b)).
  2: { intros b ?. lia. }
  apply (length_filter_lt _ _ p); [|lia].
  apply list_elem_of_filter. split; [done|]. apply elem_of_seq. lia.
Qed.

Lemma forest_by_node_at rank h a :
  forest_by rank h -> a < length h ->
  Node.parent (node_at h a) < length h
  /\ (Node.parent (node_at h a) <> a -> rank a < rank (Node.parent (node_at h a))).
Proof.
  intros Hf Ha. destruct (lookup_lt_is_Some_2 h a Ha) as [n Hn].
  rewrite (node_at_lookup _ _ _ Hn). by apply Hf.
Qed.

(** On a forest, [find] returns once its fuel exceeds the number of nodes
    ranked above the start node; the forest keeps its ranks. *)
Lemma find_Ok rank fuel h a :
  forest_by rank h -> a < length h -> above rank h a < fuel ->
  exists h' r,
    find fuel h a = Ok (h', r)
    /\ forest_by rank h' /\ r < length h /\ rank a <= rank r.
Proof.
  revert a. induction fuel as [|fuel IH]; intros a Hf Ha Hfuel; [lia|].
  simpl. destruct (forest_by_node_at rank h a Hf Ha) as [Hp Hrank].
  destruct (Nat.eqb_spec (Node.parent (node_at h a)) a) as [Heq|Hne].
  { exists h, (Node.parent (node_at h a)). rewrite Heq. by split_and!. }
  specialize (Hrank Hne).
  destruct (IH (Node.parent (node_at h a)))
    as (h1 & r & Hfind & Hf1 & Hr & Hle); [done|done|..].
  { pose proof (above_parent rank h a _ Hp Hrank). lia. }
  rewrite Hfind. simpl. eexists _, r. split_and!; [done| |done|lia].
  destruct (find_spec _ _ _ _ _ Hfind) as (Hlen & _).
  intros b n Hb. rewrite length_insert.
  destruct (decide (a = b)) as [<-|Hab].
  - rewrite list_lookup_insert_eq in Hb by lia. injection Hb as <-. simpl.
    split; [lia|]. intros _. lia.
  - rewrite list_lookup_insert_ne in Hb by done. by apply Hf1.
Qed.

Lemma bind_Ok_l {A B : Type} (a : A) (k : A -> outcome B) : Ok a ≫= k = k a.
Proof. done. Qed.

(** [union] on a forest, with the fuel [rebuildCircuit] gives it. *)
Lemma union_Ok h n1 n2 :
  forest h -> n1 < length h -> n2 < length h ->
  exists h',
    union (S (length h)) h n1 n2 = Ok h'
    /\ forest h' /\ length h' = length h /\ Forall2 same_payload h h'.
Proof.
  intros [rank Hf] H1 H2. unfold union.
  destruct (find_Ok rank (S (length h)) h n1 Hf H1)
    as (h1 & root1 & Hfind1 & Hf1 & Hr1 & _).
  { pose proof (above_le rank h n1). lia. }
  destruct (find_spec _ _ _ _ _ Hfind1) as (Hlen1 & Hroot1 & _ & Hpay1).
  rewrite Hfind1, bind_Ok_l.
  destruct (find_Ok rank (S (length h)) h1 n2 Hf1)
    as (h2 & root2 & Hfind2 & Hf2 & Hr2 & _); [lia|..].
  { pose proof (above_le rank h1 n2). lia. }
  destruct (find_spec _ _ _ _ _ Hfind2) as (Hlen2 & Hroot2 & Hkeep2 & Hpay2).
  rewrite Hfind2, bind_Ok_l.
  assert (Forall2 same_payload h h2) as Hpay.
  { eapply Forall2_trans; [|done..]. apply same_payload_trans. }
  destruct (Nat.eqb_spec root1 root2) as [Heq|Hne].
  { exists h2. split_and!; [done|by exists rank|lia|done]. }
  eexists. split_and!; [done| |rewrite length_insert; lia|
                        by apply payload_set_parent].
  exists (fun a => if decide (a = root2)
                   then Nat.max (rank root2) (S (rank root1)) else rank a).
  intros b n Hb. rewrite length_insert.
  destruct (decide (root1 = b)) as [<-|Hb1].
  - rewrite list_lookup_insert_eq in Hb by lia. injection Hb as <-. simpl.
    split; [by rewrite Hlen2|]. intros _. rewrite decide_False by done.
    rewrite decide_True by done. lia.
  - rewrite list_lookup_insert_ne in Hb by done.
    destruct (Hf2 b n Hb) as [Hlt Hrank]. split; [done|].
    intros Hnb. specialize (Hrank Hnb).
    destruct (decide (b = root2)) as [->|Hb2].
    + exfalso. apply Hnb. unfold is_root in Hroot2.
      by rewrite (node_at_lookup _ _ _ Hb) in Hroot2.
    + repeat case_decide; simplify_eq; lia.
Qed.

Lemma union_spec fuel h n1 n2 h' :
  union fuel h n1 n2 = Ok h' ->
  length h' = length h /\ Forall2 same_payload h h'.
Proof.
  unfold union. intros H.
  apply bind_Ok in H as ([h1 root1] & Hfind1 & H).
  apply bind_Ok in H as ([h2 root2] & Hfind2 & [= <-]).
  destruct (find_spec _ _ _ _ _ Hfind1) as (Hlen1 & _ & _ & Hpay1).
  destruct (find_spec _ _ _ _ _ Hfind2) as (Hlen2 & _ & _ & Hpay2).
  assert (Forall2 same_payload h h2) as Hpay.
  { eapply Forall2_trans; [|done..]. apply same_payload_trans. }
  destruct (root1 =? root2); [split; [lia|done]|].
  split; [rewrite length_insert; lia|by apply payload_set_parent].
Qed.

(** ** Loops that may raise: invariants *)

(** An invariant indexed by the items already handled. *)
Lemma forM_prefix_invariant {A S : Type} (I : list A -> S -> Prop)
  (body : S -> A -> outcome S) (l : list A) (s s' : S) :
  I [] s ->
  (forall pre a s s', I pre s -> body s a = Ok s' -> I (pre ++ [a]) s') ->
  forM body l s = Ok s' -> I l s'.
Proof.
  intros H0 Hstep.
  assert (forall pre l s, I pre s -> forM body l s = Ok s' -> I (pre ++ l) s')
    as Hgen.
  { clear s H0. intros pre l0. revert pre.
    induction l0 as [|a l0 IH]; intros pre s Hs; simpl.
    - intros [= <-]. by rewrite app_nil_r.
    - intros H. apply bind_Ok in H as (s1 & Hs1 & H).
      rewrite (cons_middle a pre l0), app_assoc. eapply IH; [|done].
      by eapply Hstep. }
  apply (Hgen [] l s H0).
Qed.

Lemma foldl_prefix_invariant {A S : Type} (I : list A -> S -> Prop)
  (body : S -> A -> S) (l : list A) (s : S) :
  I [] s ->
  (forall pre a s, I pre s -> I (pre ++ [a]) (body s a)) ->
  I l (foldl body s l).
Proof.
  intros H0 Hstep.
  assert (forall pre l s, I pre s -> I (pre ++ l) (foldl body s l)) as Hgen.
  { clear s H0. intros pre l0. revert pre.
    induction l0 as [|a l0 IH]; intros pre s Hs; simpl.
    - by rewrite app_nil_r.
    - rewrite (cons_middle a pre l0), app_assoc. apply IH. by apply Hstep. }
  apply (Hgen [] l s H0).
Qed.

(** ** Step 1: fresh terminals *)

Lemma same_but_nodes_refl c : same_but_nodes c c.
Proof. by repeat split. Qed.

Lemma same_but_nodes_trans c1 c2 c3 :
  same_but_nodes c1 c2 -> same_but_nodes c2 c3 -> same_but_nodes c1 c3.
Proof.
  unfold same_but_nodes. intros (?&?&?&?&?&?&?) (?&?&?&?&?&?&?).
  repeat split; congruence.
Qed.

Lemma same_but_nodes_comp_at h h' a :
  Forall2 same_but_nodes h h' -> same_but_nodes (comp_at h a) (comp_at h' a).
Proof.
  intros HF. unfold comp_at. destruct (h !! a) as [n|] eqn:Hn.
  - destruct (Forall2_lookup_l _ _ _ _ _ HF Hn) as (n' & Hn' & Hnn').
    simpl. rewrite Hn'. done.
  - assert (h' !! a = None) as ->; [|apply same_but_nodes_refl].
    apply lookup_ge_None. rewrite <- (Forall2_length _ _ _ HF).
    by apply lookup_ge_None.
Qed.

Lemma same_but_nodes_set_nodes hc0 hc ca ns :
  Forall2 same_but_nodes hc0 hc ->
  Forall2 same_but_nodes hc0
    (<[ca := Component.set_nodes ns (comp_at hc ca)]> hc).
Proof.
  intros HF. apply Forall2_insert_related; [done|].
  intros y0 y Hy0 Hy. rewrite (comp_at_lookup _ _ _ Hy).
  eapply same_but_nodes_trans; [by eapply Forall2_lookup_lr|by repeat split].
Qed.

(** The closed form of step 1 for one component. *)
Lemma fresh_terminals_eq h hc ca :
  let c := comp_at hc ca in
  fresh_terminals (h, hc) ca
  = (h ++ fresh_nodes c (length h) (termCount c),
     <[ca := Component.set_nodes (fresh_refs (length h) (termCount c)) c]> hc).
Proof.
  intros c. unfold fresh_terminals. fold c. fold (termCount c).
  assert (forall t,
    foldl (fun (s : list Node.t * list (option nat)) i =>
             let n := length s.1 in
             (s.1 ++ [Node.mk ("n_" +:+ Component.id c +:+ "_" +:+ pretty i)
                              0%float false n],
              s.2 ++ [Some n]))
          (h, []) (seq 0 t)
    = (h ++ fresh_nodes c (length h) t, fresh_refs (length h) t)) as Hgen.
  { induction t as [|t IH].
    { unfold fresh_nodes, fresh_refs. simpl. by rewrite app_nil_r. }
    rewrite seq_S, foldl_app, IH. simpl.
    unfold fresh_nodes, fresh_refs.
    rewrite !seq_S, !map_app, length_app, length_map, length_seq. simpl.
    by rewrite app_assoc. }
  by rewrite Hgen.
Qed.

Lemma termCount_same c c' : same_but_nodes c c' -> termCount c' = termCount c.
Proof. intros (_ & Ht & _). unfold termCount, is_type. by rewrite Ht. Qed.

Lemma length_fresh_nodes c base t : length (fresh_nodes c base t) = t.
Proof. unfold fresh_nodes. by rewrite length_map, length_seq. Qed.

Lemma step1_spec h0 hc0 cs :
  after_step1 h0 hc0 cs (foldl fresh_terminals (h0, hc0) cs).
Proof.
  apply (foldl_prefix_invariant (after_step1 h0 hc0)).
  { split_and!; simpl.
    - exists []. split; [by rewrite app_nil_r|]. intros k n. by rewrite lookup_nil.
    - apply Forall2_refl_frame, same_but_nodes_refl.
    - done.
    - intros ca Hca. by apply elem_of_nil in Hca. }
  intros pre ca [h hc] ((fresh & Hh & Hfresh) & Hsame & Hout & Hin).
  simpl in Hh, Hsame, Hout, Hin. subst h.
  rewrite fresh_terminals_eq. simpl.
  set (c := comp_at hc ca).
  assert (termCount c = termCount (comp_at hc0 ca)) as Ht.
  { apply termCount_same. by apply same_but_nodes_comp_at. }
  split_and!; simpl.
  - exists (fresh ++ fresh_nodes c (length (h0 ++ fresh)) (termCount c)).
    split; [by rewrite app_assoc|]. intros k n Hk.
    apply lookup_app_Some in Hk as [Hk|[Hge Hk]]; [by apply Hfresh|].
    unfold fresh_nodes in Hk. rewrite list_lookup_fmap in Hk.
    destruct (seq 0 (termCount c) !! (k - length fresh)) as [i|] eqn:Hi;
      [|done].
    apply lookup_seq in Hi as [-> _]. injection Hk as <-. simpl.
    rewrite length_app. split_and!; [lia|done..].
  - by apply same_but_nodes_set_nodes.
  - intros ca' Hca'. apply not_elem_of_app in Hca' as [Hpre Hne].
    apply not_elem_of_cons in Hne as [Hne _].
    rewrite list_lookup_insert_ne by done. by apply Hout.
  - intros ca' Hca'.
    destruct (decide (ca' = ca)) as [->|Hne].
    + exists (length (h0 ++ fresh)).
      rewrite !length_app, length_fresh_nodes.
      split_and!; [|lia|lia].
      rewrite (Forall2_length _ _ _ Hsame).
      destruct (decide (ca < length hc)) as [Hlt|Hge].
      * rewrite comp_at_insert_eq by done. simpl. by rewrite Ht.
      * rewrite list_insert_ge by lia. unfold comp_at.
        by rewrite (proj2 (lookup_ge_None hc ca)) by lia.
    + rewrite comp_at_insert_ne by done.
      destruct (Hin ca') as (base & Hnodes & Hb1 & Hb2).
      { apply elem_of_app in Hca' as [?|Hca']; [done|].
        apply elem_of_cons in Hca' as [?|Hca']; [done|].
        by apply elem_of_nil in Hca'. }
      exists base. rewrite !length_app, length_fresh_nodes.
      rewrite length_app in Hb2. split_and!; [done|lia|lia].
Qed.

Lemma elem_of_fresh_refs base t (x : option nat) :
  x ∈ fresh_refs base t <-> exists i, i < t /\ x = Some (base + i).
Proof.
  unfold fresh_refs. rewrite list_elem_of_fmap. split.
  - intros (i & -> & Hi). apply elem_of_seq in Hi. exists i. split; [lia|done].
  - intros (i & Hi & ->). exists i. split; [done|]. apply elem_of_seq. lia.
Qed.

Lemma step1_slots_filled h0 hc0 cs s :
  after_step1 h0 hc0 cs s -> slots_filled s.2 cs.
Proof.
  intros (_ & _ & _ & Hin) ca Hca.
  destruct (Hin ca Hca) as (base & -> & _).
  case_decide; [|done]. apply Forall_forall. intros x Hx.
  apply elem_of_fresh_refs in Hx as (i & _ & ->). done.
Qed.

Lemma step1_terminals_valid h0 hc0 cs s :
  after_step1 h0 hc0 cs s -> terminals_valid h0 hc0 ->
  terminals_valid s.1 s.2.
Proof.
  intros ((fresh & Hh & _) & Hsame & Hout & Hin) Hvalid c a Hc Ha.
  apply list_elem_of_lookup in Hc as [ca Hca].
  destruct (decide (ca ∈ cs)) as [Hin'|Hnotin].
  - destruct (Hin ca Hin') as (base & Hnodes & Hb1 & Hb2).
    rewrite (comp_at_lookup _ _ _ Hca) in Hnodes.
    rewrite Hnodes in Ha. case_decide; [|by apply elem_of_nil in Ha].
    apply elem_of_fresh_refs in Ha as (i & Hi & [= ->]). lia.
  - rewrite Hout in Hca by done. rewrite Hh, length_app.
    assert (a < length h0); [|lia]. eapply Hvalid; [|done].
    by eapply list_elem_of_lookup_2.
Qed.

Lemma step1_forest h0 hc0 cs s :
  after_step1 h0 hc0 cs s -> forest h0 -> forest s.1.
Proof.
  intros ((fresh & Hh & Hfresh) & _) [rank Hf]. rewrite Hh.
  exists (fun a => if decide (a < length h0) then rank a else 0).
  intros a n Ha. rewrite length_app.
  apply lookup_app_Some in Ha as [Ha|[Hge Ha]].
  - destruct (Hf a n Ha) as [Hp Hr]. split; [lia|]. intros Hne.
    apply lookup_lt_Some in Ha.
    rewrite decide_True by done. rewrite decide_True by done. by apply Hr.
  - destruct (Hfresh _ _ Ha) as (Hp & _). apply lookup_lt_Some in Ha.
    split; [lia|]. intros Hne. lia.
Qed.

(** ** Step 3: wires *)

Lemma terminal_Some c k a :
  Component.terminal c k = Some a <-> Component.nodes c !! k = Some (Some a).
Proof.
  unfold Component.terminal. destruct (Component.nodes c !! k) as [[b|]|]; simpl;
    split; intros H; by simplify_eq.
Qed.

Lemma terminal_comp_at_Some hc ca k a :
  Component.terminal (comp_at hc ca) k = Some a ->
  exists c, hc !! ca = Some c /\ Component.nodes c !! k = Some (Some a).
Proof.
  intros H. unfold comp_at in H. destruct (hc !! ca) as [c|] eqn:Hc; simpl in H.
  - exists c. split; [done|]. by apply terminal_Some.
  - unfold Component.terminal in H. simpl in H. done.
Qed.

Lemma terminal_valid h hc ca k a :
  terminals_valid h hc -> Component.terminal (comp_at hc ca) k = Some a ->
  a < length h.
Proof.
  intros Hvalid H. apply terminal_comp_at_Some in H as (c & Hc & Hk).
  eapply Hvalid; by eapply list_elem_of_lookup_2.
Qed.

Lemma wire_ends_Some hc w n1 n2 :
  wire_ends hc w = Some (n1, n2) ->
  exists sc ec,
    startComp w = Some sc /\ endComp w = Some ec
    /\ Component.terminal (comp_at hc sc) (startTerm w) = Some n1
    /\ Component.terminal (comp_at hc ec) (endTerm w) = Some n2.
Proof.
  unfold wire_ends. destruct (startComp w) as [sc|]; [|done].
  destruct (endComp w) as [ec|]; [|done].
  destruct (Component.terminal _ _) as [a|] eqn:Ha; [|done].
  destruct (Component.terminal (comp_at hc ec) _) as [b|] eqn:Hb; [|done].
  intros [= <- <-]. by exists sc, ec.
Qed.

Lemma apply_wire_spec fuel hc h w h' :
  apply_wire fuel hc h w = Ok h' ->
  length h' = length h /\ Forall2 same_payload h h'.
Proof.
  unfold apply_wire. destruct (wire_ends hc w) as [[n1 n2]|].
  - apply union_spec.
  - intros [= <-]. split; [done|]. apply Forall2_refl_frame, same_payload_refl.
Qed.

Lemma wires_Ok hc wires h :
  forest h -> terminals_valid h hc ->
  exists h',
    forM (apply_wire (S (length h)) hc) wires h = Ok h'
    /\ forest h' /\ length h' = length h /\ Forall2 same_payload h h'.
Proof.
  intros Hf Hvalid.
  apply (forM_invariant
           (fun h' => forest h' /\ length h' = length h
                      /\ Forall2 same_payload h h')).
  { split_and!; [done..|]. apply Forall2_refl_frame, same_payload_refl. }
  intros h1 w _ (Hf1 & Hlen1 & Hpay1). unfold apply_wire.
  destruct (wire_ends hc w) as [[n1 n2]|] eqn:Hw; [|by exists h1].
  apply wire_ends_Some in Hw as (sc & ec & _ & _ & Hn1 & Hn2).
  destruct (union_Ok h1 n1 n2 Hf1) as (h2 & Hu & Hf2 & Hlen2 & Hpay2).
  { rewrite Hlen1. by eapply terminal_valid. }
  { rewrite Hlen1. by eapply terminal_valid. }
  rewrite Hlen1 in Hu. exists h2. split_and!; [done|done|lia|].
  eapply Forall2_trans; [|done..]. apply same_payload_trans.
Qed.

(** ** Step 4: terminals replaced by roots *)

(** What step 4 does for one component, whenever it returns. *)
Lemma root_terminals_spec fuel h hc ca h' hc' :
  root_terminals fuel (h, hc) ca = Ok (h', hc') ->
  length h' = length h
  /\ Forall2 same_payload h h'
  /\ (forall b, is_root h b -> is_root h' b)
  /\ Forall2 same_but_nodes hc hc'
  /\ (forall ca', ca' <> ca -> hc' !! ca' = hc !! ca')
  /\ length (Component.nodes (comp_at hc' ca))
     = length (Component.nodes (comp_at hc ca))
  /\ forall k, k < length (Component.nodes (comp_at hc ca)) ->
       exists a, Component.nodes (comp_at hc' ca) !! k = Some (Some a)
                 /\ is_root h' a.
Proof.
  unfold root_terminals. intros H.
  set (len := length (Component.nodes (comp_at hc ca))) in *.
  pose (I := fun (pre : list nat) (s : list Node.t * list Component.t) =>
    length s.1 = length h
    /\ Forall2 same_payload h s.1
    /\ (forall b, is_root h b -> is_root s.1 b)
    /\ Forall2 same_but_nodes hc s.2
    /\ (forall ca', ca' <> ca -> s.2 !! ca' = hc !! ca')
    /\ length (Component.nodes (comp_at s.2 ca)) = len
    /\ forall k, k ∈ pre ->
         exists a, Component.nodes (comp_at s.2 ca) !! k = Some (Some a)
                   /\ is_root s.1 a).
  assert (I (seq 0 len) (h', hc')) as (H1 & H2 & H3 & H4 & H5 & H6 & H7).
  { eapply (forM_prefix_invariant I); [| |exact H].
    - unfold I. simpl. split_and!; try done.
      + apply Forall2_refl_frame, same_payload_refl.
      + apply Forall2_refl_frame, same_but_nodes_refl.
      + intros k Hk. by apply elem_of_nil in Hk.
    - clear H. intros pre i [h1 hc1] [h2 hc2] (J1 & J2 & J3 & J4 & J5 & J6 & J7).
      simpl in *.
      destruct (Component.terminal (comp_at hc1 ca) i) as [n|] eqn:Hn; [|done].
      intros H. apply bind_Ok in H as ([h3 r] & Hfind & [= <- <-]).
      destruct (find_spec _ _ _ _ _ Hfind) as (F1 & F2 & F3 & F4).
      destruct (terminal_comp_at_Some _ _ _ _ Hn) as (c & Hc & Hi).
      pose proof (lookup_lt_Some _ _ _ Hc) as Hca.
      pose proof (lookup_lt_Some _ _ _ Hi) as Hilt.
      rewrite (comp_at_lookup _ _ _ Hc) in *.
      unfold I. simpl. split_and!.
      + lia.
      + eapply Forall2_trans; [|done..]. apply same_payload_trans.
      + intros b Hb. by apply F3, J3.
      + apply Forall2_insert_related; [done|].
        intros y0 y Hy0 Hy. assert (y = c) as -> by congruence.
        eapply same_but_nodes_trans; [by eapply Forall2_lookup_lr|].
        by repeat split.
      + intros ca' Hne. rewrite list_lookup_insert_ne by done. by apply J5.
      + rewrite comp_at_insert_eq by done. simpl. by rewrite length_insert.
      + intros k Hk. rewrite comp_at_insert_eq by done. simpl.
        destruct (decide (k = i)) as [->|Hne].
        * exists r. by rewrite list_lookup_insert_eq.
        * rewrite list_lookup_insert_ne by done.
          apply elem_of_app in Hk as [Hk|Hk].
          -- destruct (J7 k Hk) as (a & Ha & Hroot). exists a. split; [done|].
             by apply F3.
          -- apply elem_of_cons in Hk as [?|Hk]; [done|].
             by apply elem_of_nil in Hk. }
  simpl in *. split_and!; try done.
  intros k Hk. apply H7. apply elem_of_seq. lia.
Qed.

Lemma elem_of_insert_inv {A} (l : list A) i y x :
  x ∈ <[i := y]> l -> x = y \/ x ∈ l.
Proof.
  intros Hx. apply list_elem_of_lookup in Hx as [j Hj].
  apply list_lookup_insert_Some in Hj as [(-> & -> & _)|[_ Hj]]; [by left|].
  right. by eapply list_elem_of_lookup_2.
Qed.

Lemma terminals_valid_insert h hc ca c ns :
  terminals_valid h hc -> hc !! ca = Some c ->
  (forall a, Some a ∈ ns -> a < length h) ->
  terminals_valid h (<[ca := Component.set_nodes ns c]> hc).
Proof.
  intros Hvalid Hc Hns c' a Hc' Ha.
  apply elem_of_insert_inv in Hc' as [->|Hc']; [by apply Hns|].
  by eapply Hvalid.
Qed.

Lemma terminals_valid_length h h' hc :
  length h' = length h -> terminals_valid h hc -> terminals_valid h' hc.
Proof. intros Hlen Hvalid c a Hc Ha. rewrite Hlen. by eapply Hvalid. Qed.

(** On a forest whose component references are valid, step 4 returns for
    a component without empty slot. *)
Lemma root_terminals_Ok rank fuel h hc ca :
  forest_by rank h -> terminals_valid h hc -> length h < fuel ->
  Forall is_Some (Component.nodes (comp_at hc ca)) ->
  exists h' hc',
    root_terminals fuel (h, hc) ca = Ok (h', hc')
    /\ forest_by rank h' /\ terminals_valid h' hc'
    /\ (forall ca', Forall is_Some (Component.nodes (comp_at hc ca')) ->
                    Forall is_Some (Component.nodes (comp_at hc' ca'))).
Proof.
  intros Hf Hvalid Hfuel Hsome. unfold root_terminals.
  set (len := length (Component.nodes (comp_at hc ca))).
  pose (I := fun (s : list Node.t * list Component.t) =>
    forest_by rank s.1 /\ length s.1 = length h /\ terminals_valid s.1 s.2
    /\ length (Component.nodes (comp_at s.2 ca)) = len
    /\ (forall ca', Forall is_Some (Component.nodes (comp_at hc ca')) ->
                    Forall is_Some (Component.nodes (comp_at s.2 ca')))).
  destruct (forM_invariant I
    (fun (s : list Node.t * list Component.t) i =>
       let c := comp_at s.2 ca in
       match Component.terminal c i with
       | None => TypeError
       | Some n =>
           '(h, r) ← find fuel s.1 n;
           Ok (h, <[ca := Component.set_nodes (<[i := Some r]>
                             (Component.nodes c)) c]> s.2)
       end) (seq 0 len) (h, hc)) as ([h' hc'] & Hrun & J1 & J2 & J3 & J4 & J5).
  { unfold I. by split_and!. }
  { intros [h1 hc1] i Hi (J1 & J2 & J3 & J4 & J5). simpl in *.
    apply elem_of_seq in Hi.
    destruct (lookup_lt_is_Some_2 (Component.nodes (comp_at hc1 ca)) i)
      as [x Hx]; [lia|].
    assert (is_Some x) as [n ->].
    { specialize (J5 ca Hsome). rewrite Forall_forall in J5. apply J5.
      by eapply list_elem_of_lookup_2. }
    apply terminal_Some in Hx as Hn. rewrite Hn.
    destruct (terminal_comp_at_Some _ _ _ _ Hn) as (c & Hc & _).
    rewrite (comp_at_lookup _ _ _ Hc) in *.
    pose proof (lookup_lt_Some _ _ _ Hc) as Hca.
    assert (n < length h1) as Hnlt.
    { eapply J3; by eapply list_elem_of_lookup_2. }
    destruct (find_Ok rank fuel h1 n J1 Hnlt)
      as (h2 & r & Hfind & Hf2 & Hr & _).
    { pose proof (above_le rank h1 n). lia. }
    destruct (find_spec _ _ _ _ _ Hfind) as (F1 & _).
    rewrite Hfind, bind_Ok_l. eexists. split; [done|].
    unfold I. simpl. split_and!.
    - done.
    - lia.
    - apply (terminals_valid_length h1); [done|].
      apply terminals_valid_insert; [done..|].
      intros a Ha. apply elem_of_insert_inv in Ha as [[= ->]|Ha]; [done|].
      eapply J3; [|done]. by eapply list_elem_of_lookup_2.
    - rewrite comp_at_insert_eq by done. simpl. by rewrite length_insert.
    - intros ca' Hca'. destruct (decide (ca' = ca)) as [->|Hne].
      + rewrite comp_at_insert_eq by done. simpl.
        apply Forall_insert; [|done].
        specialize (J5 ca Hca'). by rewrite (comp_at_lookup _ _ _ Hc) in J5.
      + rewrite comp_at_insert_ne by done. by apply J5. }
  exists h', hc'. simpl in *. split_and!; try done.
Qed.

(** All of step 4: every slot of every listed component holds a root. *)
Lemma step4_spec fuel cs h hc h' hc' :
  forM (root_terminals fuel) cs (h, hc) = Ok (h', hc') ->
  length h' = length h
  /\ Forall2 same_payload h h'
  /\ Forall2 same_but_nodes hc hc'
  /\ (forall ca, ca ∉ cs -> hc' !! ca = hc !! ca)
  /\ forall ca, ca ∈ cs ->
       length (Component.nodes (comp_at hc' ca))
       = length (Component.nodes (comp_at hc ca))
       /\ forall k, k < length (Component.nodes (comp_at hc ca)) ->
            exists a, Component.nodes (comp_at hc' ca) !! k = Some (Some a)
                      /\ is_root h' a.
Proof.
  intros H.
  pose (I := fun (pre : list nat) (s : list Node.t * list Component.t) =>
    length s.1 = length h
    /\ Forall2 same_payload h s.1
    /\ Forall2 same_but_nodes hc s.2
    /\ (forall ca, ca ∉ pre -> s.2 !! ca = hc !! ca)
    /\ forall ca, ca ∈ pre ->
         length (Component.nodes (comp_at s.2 ca))
         = length (Component.nodes (comp_at hc ca))
         /\ forall k, k < length (Component.nodes (comp_at hc ca)) ->
              exists a, Component.nodes (comp_at s.2 ca) !! k = Some (Some a)
                        /\ is_root s.1 a).
  apply (forM_prefix_invariant I (root_terminals fuel) cs (h, hc) (h', hc'));
    [| |done].
  { unfold I. simpl. split_and!; try done.
    - apply Forall2_refl_frame, same_payload_refl.
    - apply Forall2_refl_frame, same_but_nodes_refl.
    - intros ca Hca. by apply elem_of_nil in Hca. }
  clear H. intros pre ca [h1 hc1] [h2 hc2] (J1 & J2 & J3 & J4 & J5) Hstep.
  simpl in *.
  destruct (root_terminals_spec _ _ _ _ _ _ Hstep)
    as (R1 & R2 & R3 & R4 & R5 & R6 & R7).
  unfold I. simpl. split_and!.
  - lia.
  - eapply Forall2_trans; [|done..]. apply same_payload_trans.
  - eapply Forall2_trans; [|done..]. apply same_but_nodes_trans.
  - intros ca' Hca'. apply not_elem_of_app in Hca' as [Hpre Hne].
    apply not_elem_of_cons in Hne as [Hne _].
    rewrite R5 by done. by apply J4.
  - intros ca' Hca'.
    assert (length (Component.nodes (comp_at hc1 ca'))
            = length (Component.nodes (comp_at hc ca'))) as Hlen1.
    { destruct (decide (ca' ∈ pre)) as [Hpre|Hpre]; [by apply J5|].
      unfold comp_at. by rewrite J4. }
    destruct (decide (ca' = ca)) as [->|Hne].
    + split; [lia|]. intros k Hk. apply R7. lia.
    + assert (ca' ∈ pre) as Hpre.
      { apply elem_of_app in Hca' as [?|Hca']; [done|].
        apply elem_of_cons in Hca' as [?|Hca']; [done|].
        by apply elem_of_nil in Hca'. }
      destruct (J5 ca' Hpre) as [_ Hroots].
      assert (comp_at hc2 ca' = comp_at hc1 ca') as ->.
      { unfold comp_at. by rewrite R5. }
      split; [done|]. intros k Hk.
      destruct (Hroots k Hk) as (a & Ha & Hroot).
      exists a. split; [done|]. by apply R3.
Qed.

Lemma step4_Ok rank fuel cs h hc :
  forest_by rank h -> terminals_valid h hc -> length h < fuel ->
  slots_filled hc cs ->
  exists h' hc',
    forM (root_terminals fuel) cs (h, hc) = Ok (h', hc')
    /\ forest_by rank h' /\ terminals_valid h' hc' /\ slots_filled hc' cs.
Proof.
  intros Hf Hvalid Hfuel Hfilled.
  pose (I := fun (s : list Node.t * list Component.t) =>
    forest_by rank s.1 /\ length s.1 = length h /\ terminals_valid s.1 s.2
    /\ slots_filled s.2 cs).
  destruct (forM_invariant I (root_terminals fuel) cs (h, hc))
    as ([h' hc'] & Hrun & J1 & J2 & J3 & J4).
  { unfold I. by split_and!. }
  { intros [h1 hc1] ca Hca (J1 & J2 & J3 & J4). simpl in *.
    destruct (root_terminals_Ok rank fuel h1 hc1 ca J1 J3)
      as (h2 & hc2 & Hstep & S1 & S2 & S3); [lia|by apply J4|].
    destruct (root_terminals_spec _ _ _ _ _ _ Hstep) as (R1 & _).
    exists (h2, hc2). split; [done|]. unfold I. simpl.
    split_and!; [done|lia|done|]. intros ca' Hca'. by apply S3, J4. }
  exists h', hc'. by split_and!.
Qed.

(** ** Steps 5 and 6 *)

Lemma foldl_set_add {A} `{EqDecision A} (s l : list A) :
  NoDup s ->
  NoDup (foldl set_add s l)
  /\ forall x, x ∈ foldl set_add s l <-> x ∈ s \/ x ∈ l.
Proof.
  revert s. induction l as [|y l IH]; intros s Hs; simpl.
  { split; [done|]. intros x. rewrite elem_of_nil. tauto. }
  destruct (IH (set_add s y)) as [Hnd Hin].
  { unfold set_add. case_decide; [done|].
    apply NoDup_app. split_and!; [done| |apply NoDup_singleton].
    intros x Hx Hy. apply list_elem_of_singleton in Hy. by subst. }
  split; [done|]. intros x. rewrite Hin, elem_of_cons. unfold set_add.
  case_decide as Hy.
  - split; [tauto|]. intros [?|[->|?]]; tauto.
  - rewrite elem_of_app, list_elem_of_singleton. tauto.
Qed.

Lemma uniqueNodes_spec hc cs :
  NoDup (uniqueNodes hc cs)
  /\ forall x, x ∈ uniqueNodes hc cs
               <-> exists ca, ca ∈ cs /\ x ∈ Component.nodes (comp_at hc ca).
Proof.
  unfold uniqueNodes.
  assert (forall cs s, NoDup s ->
    let u := foldl (fun s ca => foldl set_add s
                                  (Component.nodes (comp_at hc ca))) s cs in
    NoDup u
    /\ forall x, x ∈ u <-> x ∈ s \/ exists ca,
                   ca ∈ cs /\ x ∈ Component.nodes (comp_at hc ca)) as Hgen.
  { clear cs. induction cs as [|ca cs IH]; intros s Hs; simpl.
    { split; [done|]. intros x. split; [by left|].
      intros [?|(ca & Hca & _)]; [done|]. by apply elem_of_nil in Hca. }
    destruct (foldl_set_add s (Component.nodes (comp_at hc ca)) Hs)
      as [Hnd Hin].
    destruct (IH _ Hnd) as [Hnd' Hin']. split; [done|].
    intros x. rewrite Hin', Hin. split.
    - intros [[?|?]|(ca' & Hca' & Hx)]; [by left|right..].
      + exists ca. split; [left|done].
      + exists ca'. split; [by right|done].
    - intros [?|(ca' & Hca' & Hx)]; [by left; left|].
      apply elem_of_cons in Hca' as [->|Hca']; [by left; right|].
      right. by exists ca'. }
  destruct (Hgen cs [] (NoDup_nil_2)) as [Hnd Hin]. split; [done|].
  intros x. rewrite Hin, elem_of_nil. split; [by intros [?|?]|by right].
Qed.

Lemma same_parent_insert h0 h a (f : Node.t -> Node.t) :
  (forall n, Node.parent (f n) = Node.parent n) ->
  Forall2 same_parent h0 h ->
  Forall2 same_parent h0 (<[a := f (node_at h a)]> h).
Proof.
  intros Hf HF. apply Forall2_insert_related; [done|].
  intros y0 y Hy0 Hy. rewrite (node_at_lookup _ _ _ Hy).
  unfold same_parent. rewrite Hf. by eapply (Forall2_lookup_lr _ _ _ _ _ _ HF).
Qed.

Lemma same_parent_node_at h h' a :
  Forall2 same_parent h h' ->
  Node.parent (node_at h' a) = Node.parent (node_at h a).
Proof.
  intros HF. unfold node_at. destruct (h !! a) as [n|] eqn:Hn.
  - destruct (Forall2_lookup_l _ _ _ _ _ HF Hn) as (n' & Hn' & Hnn').
    simpl. rewrite Hn'. done.
  - assert (h' !! a = None) as ->; [|done].
    apply lookup_ge_None. rewrite <- (Forall2_length _ _ _ HF).
    by apply lookup_ge_None.
Qed.

Lemma is_root_same_parent h h' a :
  Forall2 same_parent h h' -> is_root h a -> is_root h' a.
Proof. intros HF. unfold is_root. by rewrite (same_parent_node_at _ _ a HF). Qed.

Lemma forest_same_parent h h' :
  Forall2 same_parent h h' -> forest h -> forest h'.
Proof.
  intros HF [rank Hf]. exists rank. intros a n' Ha.
  destruct (Forall2_lookup_r _ _ _ _ _ HF Ha) as (n & Hn & Hnn').
  rewrite <- (Forall2_length _ _ _ HF). unfold same_parent in Hnn'.
  rewrite Hnn'. by apply Hf.
Qed.

Lemma assign_ids_Ok ns h :
  Forall is_Some ns ->
  exists h', assign_ids ns h = Ok h' /\ Forall2 same_parent h h'.
Proof.
  intros Hns. unfold assign_ids.
  apply (forM_invariant (fun h' => Forall2 same_parent h h')).
  { by apply Forall2_refl_frame. }
  intros h1 [i x] Hin HF. simpl.
  apply list_elem_of_lookup in Hin as [k Hk].
  rewrite list_lookup_imap in Hk.
  destruct (ns !! k) as [y|] eqn:Hy; simplify_eq/=.
  rewrite Forall_forall in Hns.
  destruct (Hns x) as [a ->]; [by eapply list_elem_of_lookup_2|].
  eexists. split; [done|]. by apply same_parent_insert.
Qed.

Lemma ground_first_battery_parent hc cs h0 h :
  Forall2 same_parent h0 h ->
  Forall2 same_parent h0 (ground_first_battery hc cs h).
Proof.
  intros HF. unfold ground_first_battery.
  destruct (list_find _ cs) as [[i ca]|]; [|done].
  destruct (Component.terminal _ 1) as [a|]; [|done].
  by apply same_parent_insert.
Qed.

(** ** rebuildCircuit, as a whole *)

Lemma rebuildTopology_spec wires e :
  engine_wf e ->
  exists e',
    rebuildTopology wires e = Ok e'
    /\ engine_wf e'
    /\ engine_components e' = engine_components e
    /\ Forall2 same_but_nodes (comp_store e) (comp_store e')
    /\ canonical_topology e'.
Proof.
  intros [Hforest Hvalid]. unfold rebuildTopology.
  pose proof (step1_spec (node_store e) (comp_store e) (engine_components e))
    as Hstep1.
  destruct (foldl fresh_terminals _ _) as [h1 hc1] eqn:E1.
  pose proof (step1_forest _ _ _ _ Hstep1 Hforest) as Hf1.
  pose proof (step1_terminals_valid _ _ _ _ Hstep1 Hvalid) as Hv1.
  pose proof (step1_slots_filled _ _ _ _ Hstep1) as Hs1.
  destruct Hstep1 as (_ & Hsame1 & _ & Hfresh1). simpl in *.
  destruct (wires_Ok hc1 wires h1 Hf1 Hv1) as (h3 & -> & [rank Hf3] & Hlen3 & _).
  rewrite bind_Ok_l.
  destruct (step4_Ok rank (S (length h1)) (engine_components e) h3 hc1 Hf3)
    as (h4 & hc4 & Hrun4 & Hf4 & Hv4 & Hs4);
    [by apply (terminals_valid_length h1)|lia|done|].
  destruct (step4_spec _ _ _ _ _ _ Hrun4) as (Hlen4 & _ & Hsame4 & _ & Hroots4).
  rewrite Hrun4, bind_Ok_l.
  destruct (uniqueNodes_spec hc4 (engine_components e)) as [Hnd Hin].
  assert (Forall is_Some (uniqueNodes hc4 (engine_components e))) as Hall.
  { apply Forall_forall. intros x Hx. apply Hin in Hx as (ca & Hca & Hx).
    specialize (Hs4 ca Hca). rewrite Forall_forall in Hs4. by apply Hs4. }
  destruct (assign_ids_Ok _ h4 Hall) as (h5 & -> & Hp5). rewrite bind_Ok_l.
  pose proof (ground_first_battery_parent hc4 (engine_components e) h4 h5 Hp5)
    as Hp6.
  set (h6 := ground_first_battery hc4 (engine_components e) h5) in *.
  eexists. split; [done|]. unfold engine_wf, canonical_topology. simpl.
  assert (forall a, a ∈ omap id (uniqueNodes hc4 (engine_components e))
                    <-> Some a ∈ uniqueNodes hc4 (engine_components e)) as Hom.
  { intros a. rewrite list_elem_of_omap. split.
    - intros ([b|] & Hb & Heq); by simplify_eq/=.
    - intros Ha. by exists (Some a). }
  split_and!.
  - eapply forest_same_parent; [done|]. by exists rank.
  - apply (terminals_valid_length h4); [|done].
    symmetry. by eapply Forall2_length.
  - done.
  - eapply Forall2_trans; [|done..]. apply same_but_nodes_trans.
  - clear -Hnd. induction Hnd as [|x l Hx Hnd IH]; simpl; [constructor|].
    destruct x as [a|]; simpl; [|done].
    constructor; [|done]. rewrite list_elem_of_omap.
    intros ([b|] & Hb & Heq); by simplify_eq/=.
  - intros ca Hca Hlt.
    rewrite <- (Forall2_length _ _ _ Hsame4),
      <- (Forall2_length _ _ _ Hsame1) in Hlt.
    destruct (Hroots4 ca Hca) as [-> _].
    destruct (Hfresh1 ca Hca) as (base & -> & _).
    rewrite decide_True by done.
    unfold fresh_refs. rewrite length_map, length_seq.
    rewrite <- (termCount_same (comp_at (comp_store e) ca) (comp_at hc4 ca));
      [done|].
    eapply same_but_nodes_trans; by apply same_but_nodes_comp_at.
  - intros ca k Hca Hk.
    destruct (Hroots4 ca Hca) as [Hlen Hroots].
    destruct (Hroots k) as (a & Ha & Hroot); [lia|].
    exists a. split_and!; [done|by eapply is_root_same_parent|].
    apply Hom, Hin. exists ca. split; [done|].
    by eapply list_elem_of_lookup_2.
  - intros a Ha. apply Hom, Hin in Ha as (ca & Hca & Ha).
    apply list_elem_of_lookup in Ha as [k Hk].
    destruct (Hroots4 ca Hca) as [Hlen Hroots].
    destruct (Hroots k) as (a' & Ha' & Hroot).
    { rewrite <- Hlen. by eapply lookup_lt_Some. }
    assert (a' = a) as -> by congruence.
    split; [by eapply is_root_same_parent|]. by exists ca, k.
Qed.

Lemma node_frame_same_parent h h' :
  Forall2 node_frame h h' -> Forall2 same_parent h h'.
Proof. intros HF. eapply Forall2_impl; [done|]. by intros n n' (_ & _ & ?). Qed.

Lemma comp_frame_nodes hc hc' ca :
  Forall2 comp_frame hc hc' ->
  Component.nodes (comp_at hc' ca) = Component.nodes (comp_at hc ca).
Proof. intros HF. by destruct (comp_frame_comp_at _ _ ca HF) as (_ & _ & ? & _). Qed.

Lemma engine_wf_frame e e' : engine_frame e e' -> engine_wf e -> engine_wf e'.
Proof.
  intros (_ & _ & Hn & Hc) [Hf Hv]. split.
  - eapply forest_same_parent; [|done]. by apply node_frame_same_parent.
  - intros c' a Hc' Ha. apply list_elem_of_lookup in Hc' as [ca Hca].
    destruct (Forall2_lookup_r _ _ _ _ _ Hc Hca) as (c & Hc0 & (_ & _ & Hnodes & _)).
    rewrite <- (Forall2_length _ _ _ Hn). rewrite Hnodes in Ha.
    eapply Hv; [|done]. by eapply list_elem_of_lookup_2.
Qed.

Lemma canonical_topology_frame e e' :
  engine_frame e e' -> canonical_topology e -> canonical_topology e'.
Proof.
  intros (Hen & Hec & Hn & Hc) (Hnd & Hcount & Hslots & Hnodes).
  pose proof (node_frame_same_parent _ _ Hn) as Hp.
  unfold canonical_topology. rewrite Hen, Hec. split_and!; [done|..].
  - intros ca Hca Hlt. rewrite (comp_frame_nodes _ _ ca Hc).
    rewrite <- (Forall2_length _ _ _ Hc) in Hlt. rewrite (Hcount ca Hca Hlt).
    destruct (comp_frame_comp_at _ _ ca Hc) as (_ & Hty & _).
    unfold is_type. by rewrite Hty.
  - intros ca k Hca. rewrite (comp_frame_nodes _ _ ca Hc). intros Hk.
    destruct (Hslots ca k Hca Hk) as (a & Ha & Hroot & Hin).
    exists a. split_and!; [done| |done]. by eapply is_root_same_parent.
  - intros a Ha. destruct (Hnodes a Ha) as (Hroot & ca & k & Hca & Hk).
    split; [by eapply is_root_same_parent|].
    exists ca, k. by rewrite (comp_frame_nodes _ _ ca Hc).
Qed.

Lemma solve_frame e : exists e', solve e = Ok e' /\ engine_frame e e'.
Proof.
  destruct (solve_passes_Ok e) as [ps Hps].
  exists (final_state e ps). split; [by apply solve_unfold|].
  unfold final_state. destruct (last ps) as [p|] eqn:Hl; simpl;
    [|apply engine_frame_refl].
  rewrite last_lookup in Hl.
  by apply (solve_loop_spec _ _ _ _ Hps) in Hl as (_ & _ & ? & _).
Qed.


Lemma engine_wf_empty : engine_wf empty_engine.
Proof.
  split.
  - exists (fun _ => 0). intros a n H. simpl in H. done.
  - intros c a Hc. by apply elem_of_nil in Hc.
Qed.

Lemma engine_wf_addComponent compCounter type e :
  engine_wf e -> engine_wf (addComponent compCounter type e).1.
Proof.
  intros [Hf Hv]. split; [done|]. simpl.
  intros c a Hc Ha. apply elem_of_app in Hc as [Hc|Hc]; [by eapply Hv|].
  apply list_elem_of_singleton in Hc as ->.
  assert (Component.nodes
            (kind_defaults type
               (Component.mk ("comp_" +:+ pretty compCounter) type
                  [None; None] 10%float 0%float false None None))
          = [None; None]) as Hnodes.
  { unfold kind_defaults. by repeat case_match. }
  rewrite Hnodes in Ha. apply elem_of_cons in Ha as [?|Ha]; [done|].
  apply elem_of_cons in Ha as [?|Ha]; [done|]. by apply elem_of_nil in Ha.
Qed.

(** Removing components only shortens [engine.components]. *)
Lemma engine_wf_remove e cs :
  engine_wf e ->
  engine_wf (mkEngine (node_store e) (comp_store e) (engine_nodes e) cs).
Proof. done. Qed.


(** ** C3: edges that name a removed component *)

(** C3.  The code does not skip an edge that names a removed component.
    The session [two_deleted_during_drag] returns with the battery and
    resistor 1 listed and three edges: the one between their terminals 1,
    and one from each deleted resistor.  A rebuild with these edges joins
    terminal 0 of the battery with terminal 0 of the resistor, which no
    edge between listed components does, and the resistor carries 0.09 A;
    a rebuild of the same state with the first edge alone keeps the two
    terminals apart and the resistor carries no current. *)
Theorem removed_components_conduct :
  exists a,
    two_deleted_during_drag = Ok a
    /\ engine_components (engine a) = [0; 1]
    /\ visualWires a = [mkWire (Some 0) 1 (Some 1) 1;
                        mkWire (Some 2) 0 (Some 0) 0;
                        mkWire (Some 3) 0 (Some 1) 0]
    /\ (exists e1,
          rebuildCircuit (visualWires a) (engine a) = Ok e1
          /\ Component.terminal (comp_at (comp_store e1) 0) 0
             = Component.terminal (comp_at (comp_store e1) 1) 0
          /\ Component.current (comp_at (comp_store e1) 1)
             = Some 0.089999999999999997%float)
    /\ exists e2,
         rebuildCircuit [mkWire (Some 0) 1 (Some 1) 1] (engine a) = Ok e2
         /\ Component.terminal (comp_at (comp_store e2) 0) 0
            <> Component.terminal (comp_at (comp_store e2) 1) 0
         /\ Component.current (comp_at (comp_store e2) 1) = Some 0%float.
Proof.
  eexists. split; [vm_compute; reflexivity|].
  split; [reflexivity|]. split; [reflexivity|]. split.
  - eexists. split; [vm_compute; reflexivity|].
    split; vm_compute; reflexivity.
  - eexists. split; [vm_compute; reflexivity|].
    split; [vm_compute; discriminate|vm_compute; reflexivity].
Qed.

(** ** Edges that the rebuild skips *)

Lemma fresh_refs_lookup_ge base t k : t <= k -> fresh_refs base t !! k = None.
Proof.
  intros Hk. unfold fresh_refs. apply lookup_ge_None.
  by rewrite length_map, length_seq.
Qed.

Lemma endpoint_skipped_step1 e comp term ca :
  endpoint_skipped e comp term -> comp = Some ca ->
  Component.terminal
    (comp_at (foldl fresh_terminals (node_store e, comp_store e)
                    (engine_components e)).2 ca) term = None.
Proof.
  intros Hskip ->. simpl in Hskip.
  destruct (step1_spec (node_store e) (comp_store e) (engine_components e))
    as (_ & _ & Hout & Hin).
  destruct (decide (ca ∈ engine_components e)) as [Hca|Hca].
  - destruct (Hin ca Hca) as (base & Hnodes & _).
    unfold Component.terminal. rewrite Hnodes. case_decide; [|done].
    by rewrite fresh_refs_lookup_ge.
  - unfold comp_at. rewrite Hout by done. exact Hskip.
Qed.

Lemma edge_skipped_wire_ends e w :
  edge_skipped e w ->
  wire_ends (foldl fresh_terminals (node_store e, comp_store e)
                   (engine_components e)).2 w = None.
Proof.
  intros Hskip. unfold wire_ends.
  destruct (startComp w) as [sc|] eqn:Hsc; [|done].
  destruct (endComp w) as [ec|] eqn:Hec; [|done].
  destruct Hskip as [Hskip|Hskip].
  - by rewrite (endpoint_skipped_step1 e _ _ sc Hskip Hsc).
  - rewrite (endpoint_skipped_step1 e _ _ ec Hskip Hec). by case_match.
Qed.

(** A connection edge with a missing component reference, or naming a
    listed component with an out-of-range terminal index, or naming a
    component no longer listed whose slot at that index holds no node, is
    silently skipped: on any node store it returns normally without a
    union or any other write, and the rebuild gives the result it gives
    without that edge. *)
Theorem skipped_edge_has_no_effect (e : CircuitEngine) (w : wire)
  (before after : list wire) :
  edge_skipped e w ->
  (forall fuel h,
      apply_wire fuel
        (foldl fresh_terminals (node_store e, comp_store e)
               (engine_components e)).2 h w = Ok h)
  /\ rebuildTopology (before ++ w :: after) e
     = rebuildTopology (before ++ after) e
  /\ rebuildCircuit (before ++ w :: after) e
     = rebuildCircuit (before ++ after) e.
Proof.
  intros Hskip. pose proof (edge_skipped_wire_ends e w Hskip) as Hends.
  assert (rebuildTopology (before ++ w :: after) e
          = rebuildTopology (before ++ after) e) as Htopo.
  { unfold rebuildTopology.
    destruct (foldl fresh_terminals _ _) as [h1 hc1]. simpl in Hends.
    rewrite !forM_app.
    destruct (forM _ before h1) as [h2| |]; [|done..].
    rewrite !bind_Ok_l. cbn [forM].
    assert (apply_wire (S (length h1)) hc1 h2 w = Ok h2) as ->.
    { unfold apply_wire. by rewrite Hends. }
    by rewrite bind_Ok_l. }
  split_and!; [|done|].
  - intros fuel h. unfold apply_wire. by rewrite Hends.
  - unfold rebuildCircuit. by rewrite Htopo.
Qed.

(** A wire to terminal 5 of the LED has no effect on
    [led_across_battery]'s rebuild. *)
Lemma skipped_edge_has_no_effect_witness :
  let e := (addComponent 1 "led"
              (addComponent 0 "battery" empty_engine).1).1 in
  let w := mkWire (Some 0) 0 (Some 1) 5 in
  (forall fuel h,
      apply_wire fuel
        (foldl fresh_terminals (node_store e, comp_store e)
               (engine_components e)).2 h w = Ok h)
  /\ rebuildTopology ([mkWire (Some 0) 0 (Some 1) 0] ++
                      w :: [mkWire (Some 0) 1 (Some 1) 1]) e
     = rebuildTopology ([mkWire (Some 0) 0 (Some 1) 0] ++
                        [mkWire (Some 0) 1 (Some 1) 1]) e
  /\ rebuildCircuit ([mkWire (Some 0) 0 (Some 1) 0] ++
                     w :: [mkWire (Some 0) 1 (Some 1) 1]) e
     = rebuildCircuit ([mkWire (Some 0) 0 (Some 1) 0] ++
                       [mkWire (Some 0) 1 (Some 1) 1]) e.
Proof.
  apply skipped_edge_has_no_effect. right. vm_compute. lia.
Defined.

(** ** C10: what [solve] and [solveLinearSystem] write *)

Lemma vec_of_insert_eq st a v : a < length st -> vec_of (<[a := v]> st) a = v.
Proof. intros Ha. unfold vec_of. by rewrite list_lookup_insert_eq. Qed.

Lemma vec_of_insert_ne st a b v : a <> b -> vec_of (<[a := v]> st) b = vec_of st b.
Proof. intros Hne. unfold vec_of. by rewrite list_lookup_insert_ne. Qed.

Lemma rows_of_insert_notin st M a v : a ∉ M -> rows_of (<[a := v]> st) M = rows_of st M.
Proof.
  intros Ha. unfold rows_of. apply map_ext_in. intros b Hb.
  apply vec_of_insert_ne. intros ->. apply Ha. by apply list_elem_of_In.
Qed.

Lemma rows_of_lookup st M k : rows_of st M !! k = vec_of st <$> M !! k.
Proof. unfold rows_of. apply list_lookup_fmap. Qed.

Lemma rows_of_swap st M i j : rows_of st (swap M i j) = swap (rows_of st M) i j.
Proof.
  unfold swap. rewrite !rows_of_lookup.
  destruct (M !! i) as [ai|], (M !! j) as [aj|]; simpl; try done.
  unfold rows_of. by rewrite !list_fmap_insert.
Qed.

Lemma separated_update st0 st st' M R x :
  separated st0 st M R x -> length st' = length st ->
  (forall a, a < length st0 -> st' !! a = st !! a) ->
  separated st0 st' M R x.
Proof.
  intros (Hnd & HR & Hx & HRx & HM & HRl & Hxl & Hold) Hlen Hsame.
  unfold separated. rewrite Hlen. split_and!; try done; try lia.
  intros a Ha. rewrite Hsame by done. by apply Hold.
Qed.

(** A write through [M[k]] changes row [k] of the designated rows and no
    other array. *)
Lemma row_write_spec st0 st M R x k j v :
  separated st0 st M R x ->
  separated st0 (row_write st M k j v) M R x
  /\ rows_of (row_write st M k j v) M = mset (rows_of st M) k j v
  /\ vec_of (row_write st M k j v) R = vec_of st R
  /\ vec_of (row_write st M k j v) x = vec_of st x.
Proof.
  intros Hsep. pose proof Hsep as (Hnd & HR & Hx & HRx & HM & HRl & Hxl & Hold).
  unfold row_write, mset. destruct (M !! k) as [a|] eqn:Hk.
  - assert (a ∈ M) as Ha by (by eapply list_elem_of_lookup_2).
    assert (length st0 <= a < length st) as Hal.
    { rewrite Forall_forall in HM. by apply HM. }
    split_and!.
    + eapply separated_update; [done|by rewrite length_alter|].
      intros b Hb. by rewrite list_lookup_alter_ne by lia.
    + apply list_eq. intros r. rewrite list_lookup_alter, !rows_of_lookup.
      destruct (decide (k = r)) as [<-|Hne].
      * rewrite Hk. simpl. f_equal. unfold vec_of.
        rewrite list_lookup_alter_eq. by destruct (st !! a).
      * destruct (M !! r) as [b|] eqn:Hr; simpl; [|done]. f_equal.
        unfold vec_of. rewrite list_lookup_alter_ne; [done|].
        intros ->. apply Hne. by eapply NoDup_lookup.
    + unfold vec_of. rewrite list_lookup_alter_ne; [done|]. by intros ->.
    + unfold vec_of. rewrite list_lookup_alter_ne; [done|]. by intros ->.
  - split_and!; try done.
    apply list_eq. intros r. rewrite list_lookup_alter.
    case_decide; [subst r|done]. by rewrite rows_of_lookup, Hk.
Qed.

(** A loop on the store simulated by the loop on values. *)
Lemma foldl_simulation {S V A : Type} (abs : S -> V) (Inv : S -> Prop)
  (f : S -> A -> S) (g : V -> A -> V) (l : list A) (s : S) :
  (forall s a, Inv s -> Inv (f s a) /\ abs (f s a) = g (abs s) a) ->
  Inv s ->
  Inv (foldl f s l) /\ abs (foldl f s l) = foldl g (abs s) l.
Proof.
  intros Hstep. revert s. induction l as [|a l IH]; intros s Hs; simpl; [done|].
  destruct (Hstep s a Hs) as [Hinv Habs]. rewrite <- Habs. by apply IH.
Qed.

Lemma swap_elem_of {A} (a : list A) i j x : x ∈ swap a i j <-> x ∈ a.
Proof.
  unfold swap. destruct (a !! i) as [ai|] eqn:Hi; [|done].
  destruct (a !! j) as [aj|] eqn:Hj; [|done].
  pose proof (lookup_lt_Some _ _ _ Hi) as Hil.
  pose proof (lookup_lt_Some _ _ _ Hj) as Hjl.
  rewrite !list_elem_of_lookup. split; intros [k Hk].
  - destruct (decide (k = j)) as [->|Hkj].
    { rewrite list_lookup_insert_eq in Hk by (by rewrite length_insert).
      exists i. congruence. }
    rewrite list_lookup_insert_ne in Hk by done.
    destruct (decide (k = i)) as [->|Hki].
    { rewrite list_lookup_insert_eq in Hk by done. exists j. congruence. }
    rewrite list_lookup_insert_ne in Hk by done. by exists k.
  - destruct (decide (k = i)) as [->|Hki].
    { exists j. rewrite list_lookup_insert_eq by (by rewrite length_insert).
      congruence. }
    destruct (decide (k = j)) as [->|Hkj].
    { exists i. rewrite list_lookup_insert_ne by done.
      rewrite list_lookup_insert_eq by done. congruence. }
    exists k. by rewrite !list_lookup_insert_ne by done.
Qed.

Lemma swap_NoDup {A} (a : list A) i j : NoDup a -> NoDup (swap a i j).
Proof.
  intros Hnd. unfold swap. destruct (a !! i) as [ai|] eqn:Hi; [|done].
  destruct (a !! j) as [aj|] eqn:Hj; [|done].
  pose proof (lookup_lt_Some _ _ _ Hi) as Hil.
  pose proof (lookup_lt_Some _ _ _ Hj) as Hjl.
  apply NoDup_alt. intros k1 k2 x H1 H2.
  assert (forall k y, <[j:=ai]> (<[i:=aj]> a) !! k = Some y ->
            a !! (if decide (k = j) then i
                  else if decide (k = i) then j else k) = Some y) as Hperm.
  { intros k y Hk. destruct (decide (k = j)) as [->|Hkj].
    { rewrite list_lookup_insert_eq in Hk by (by rewrite length_insert).
      congruence. }
    rewrite list_lookup_insert_ne in Hk by done.
    destruct (decide (k = i)) as [->|Hki].
    { rewrite list_lookup_insert_eq in Hk by done. congruence. }
    by rewrite list_lookup_insert_ne in Hk by done. }
  apply Hperm in H1, H2.
  pose proof (NoDup_lookup _ _ _ _ Hnd H1 H2) as Heq.
  repeat case_decide; subst; congruence.
Qed.

Lemma separated_swap st0 st M R x i j :
  separated st0 st M R x -> separated st0 st (swap M i j) R x.
Proof.
  intros (Hnd & HR & Hx & HRx & HM & HRl & Hxl & Hold).
  unfold separated. rewrite !swap_elem_of. split_and!; try done; try lia.
  - by apply swap_NoDup.
  - by apply swap_Forall.
Qed.

Lemma separated_write_R st0 st M R x v :
  separated st0 st M R x ->
  separated st0 (<[R := v]> st) M R x
  /\ rows_of (<[R := v]> st) M = rows_of st M
  /\ vec_of (<[R := v]> st) R = v
  /\ vec_of (<[R := v]> st) x = vec_of st x.
Proof.
  intros Hsep. pose proof Hsep as (Hnd & HR & Hx & HRx & HM & HRl & Hxl & Hold).
  split_and!.
  - eapply separated_update; [done|by rewrite length_insert|].
    intros a Ha. by rewrite list_lookup_insert_ne by lia.
  - by apply rows_of_insert_notin.
  - apply vec_of_insert_eq. lia.
  - by apply vec_of_insert_ne.
Qed.

Lemma separated_write_x st0 st M R x v :
  separated st0 st M R x ->
  separated st0 (<[x := v]> st) M R x
  /\ rows_of (<[x := v]> st) M = rows_of st M
  /\ vec_of (<[x := v]> st) R = vec_of st R
  /\ vec_of (<[x := v]> st) x = v.
Proof.
  intros Hsep. pose proof Hsep as (Hnd & HR & Hx & HRx & HM & HRl & Hxl & Hold).
  split_and!.
  - eapply separated_update; [done|by rewrite length_insert|].
    intros a Ha. by rewrite list_lookup_insert_ne by lia.
  - by apply rows_of_insert_notin.
  - apply vec_of_insert_ne. congruence.
  - apply vec_of_insert_eq. lia.
Qed.

Lemma eliminate_row_stored_spec st0 n i R x xv s k :
  stored_inv st0 R x xv s ->
  stored_inv st0 R x xv (eliminate_row_stored n i R s k)
  /\ stored_values R (eliminate_row_stored n i R s k)
     = eliminate_row n i (stored_values R s) k.
Proof.
  destruct s as [st M]. intros [Hsep Hx]. simpl in Hsep, Hx.
  unfold eliminate_row_stored, stored_values, eliminate_row. simpl.
  set (factor := (entry (rows_of st M) k i / entry (rows_of st M) i i)%float).
  set (Rv := <[k := (vget (vec_of st R) k - factor * vget (vec_of st R) i)%float]>
               (vec_of st R)).
  destruct (separated_write_R st0 st M R x Rv Hsep) as (S1 & S2 & S3 & S4).
  destruct (foldl_simulation
    (fun st => rows_of st M)
    (fun st => separated st0 st M R x /\ vec_of st R = Rv /\ vec_of st x = xv)
    (fun st j => row_write st M k j
                   (entry (rows_of st M) k j
                    - factor * entry (rows_of st M) i j)%float)
    (fun Mv j => mset Mv k j (entry Mv k j - factor * entry Mv i j)%float)
    (seq i (n - i)) (<[R := Rv]> st)) as ((T1 & T2 & T3) & T4).
  { intros st1 j (U1 & U2 & U3).
    destruct (row_write_spec st0 st1 M R x k j
                (entry (rows_of st1 M) k j
                 - factor * entry (rows_of st1 M) i j)%float U1)
      as (V1 & V2 & V3 & V4).
    split_and!; [done|congruence|congruence|done]. }
  { split_and!; [done|done|congruence]. }
  split; [by split|]. rewrite T4, T2, S2. done.
Qed.

Lemma forward_step_stored_spec st0 n R x xv s i :
  stored_inv st0 R x xv s ->
  stored_inv st0 R x xv (forward_step_stored n R s i)
  /\ stored_values R (forward_step_stored n R s i)
     = forward_step n (stored_values R s) i.
Proof.
  destruct s as [st M]. intros [Hsep Hx]. simpl in Hsep, Hx.
  unfold forward_step_stored, forward_step, stored_values. simpl.
  set (p := select_pivot (rows_of st M) n i).
  pose proof (separated_swap st0 st M R x i p Hsep) as Hsep1.
  destruct (separated_write_R st0 st (swap M i p) R x
              (swap (vec_of st R) i p) Hsep1) as (S1 & S2 & S3 & S4).
  rewrite S2, rows_of_swap.
  assert (stored_inv st0 R x xv
            (<[R := swap (vec_of st R) i p]> st, swap M i p)) as Hinv.
  { split; simpl; [done|congruence]. }
  assert (stored_values R (<[R := swap (vec_of st R) i p]> st, swap M i p)
          = (swap (rows_of st M) i p, swap (vec_of st R) i p)) as Hval.
  { unfold stored_values. simpl. by rewrite S2, S3, rows_of_swap. }
  destruct (flt _ _); [by rewrite <- Hval|].
  unfold eliminate. rewrite <- Hval.
  apply (foldl_simulation (stored_values R) (stored_inv st0 R x xv));
    [|done].
  intros s k Hs. by apply eliminate_row_stored_spec.
Qed.

Lemma back_step_stored_spec st0 n M R x Mv Rv st i :
  separated st0 st M R x -> rows_of st M = Mv -> vec_of st R = Rv ->
  let st' := back_step_stored n M R x st i in
  (separated st0 st' M R x /\ rows_of st' M = Mv /\ vec_of st' R = Rv)
  /\ vec_of st' x = back_step n Mv Rv (vec_of st x) i.
Proof.
  intros Hsep HM HR. unfold back_step_stored, back_step. rewrite HM, HR.
  destruct (flt _ _); [done|].
  match goal with |- context [<[x := ?v]> st] =>
    destruct (separated_write_x st0 st M R x v Hsep) as (S1 & S2 & S3 & S4)
  end.
  split; [split_and!; congruence|]. done.
Qed.

(** The stored run leaves every array of the caller as it was, and the
    array it returns holds what [solveLinearSystem] computes from the
    values of [A.data] and [B]. *)
Lemma solveLinearSystem_stored_spec st n cols A_data B :
  Forall (fun a => a < length st) A_data -> B < length st ->
  let r := solveLinearSystem_stored st n A_data B in
  (forall a, a < length st -> r.1 !! a = st !! a)
  /\ vec_of r.1 r.2
     = solveLinearSystem (Matrix.mk n cols (rows_of st A_data)) (vec_of st B).
Proof.
  intros HA HB. unfold solveLinearSystem_stored, solveLinearSystem. simpl.
  set (x := length st).
  set (st1 := st ++ [replicate n 0%float]).
  set (M := seq (length st1) (length A_data)).
  set (st2 := st1 ++ map (fun a => map json_number (vec_of st1 a)) A_data).
  set (R := length st2).
  set (st3 := st2 ++ [vec_of st2 B]).
  assert (length st1 = S x) as Hl1.
  { unfold st1. rewrite length_app. simpl. lia. }
  assert (length st2 = S x + length A_data) as Hl2.
  { unfold st2. rewrite length_app, length_map. lia. }
  assert (length st3 = S (S x + length A_data)) as Hl3.
  { unfold st3. rewrite length_app. simpl. lia. }
  assert (forall a, a < x -> st3 !! a = st !! a) as Hold.
  { intros a Ha. unfold st3, st2, st1.
    rewrite !lookup_app_l; [done|..]; rewrite ?length_app; simpl; lia. }
  assert (forall a, a < x -> vec_of st1 a = vec_of st a) as Hold1.
  { intros a Ha. unfold vec_of, st1. by rewrite lookup_app_l. }
  assert (separated st st3 M R x) as Hsep.
  { unfold separated, M, R. rewrite Hl1, Hl2, Hl3. fold x.
    rewrite !elem_of_seq. split_and!; try lia; try apply NoDup_seq; [|done].
    apply Forall_forall. intros a Ha. apply elem_of_seq in Ha. lia. }
  assert (rows_of st3 M = map (map json_number) (rows_of st A_data)) as HMv.
  { apply list_eq. intros k. unfold M.
    rewrite rows_of_lookup, !list_lookup_fmap.
    destruct (A_data !! k) as [a|] eqn:Hk.
    - rewrite lookup_seq_lt by (by eapply lookup_lt_Some). simpl. f_equal.
      unfold vec_of at 1, st3, st2.
      rewrite lookup_app_l by (rewrite length_app, length_map;
                               apply lookup_lt_Some in Hk; lia).
      rewrite lookup_app_r by lia.
      replace (length st1 + k - length st1) with k by lia.
      rewrite list_lookup_fmap, Hk. simpl.
      rewrite rows_of_lookup, Hk. simpl. rewrite Hold1; [done|].
      rewrite Forall_forall in HA. apply HA. by eapply list_elem_of_lookup_2.
    - rewrite lookup_seq_ge by (by apply lookup_ge_None).
      by rewrite rows_of_lookup, Hk. }
  assert (vec_of st3 R = vec_of st B) as HRv.
  { unfold vec_of at 1, st3, R. rewrite lookup_app_r by lia.
    rewrite Nat.sub_diag. simpl. unfold vec_of, st2, st1.
    by rewrite !lookup_app_l by (rewrite ?length_app; simpl; lia). }
  assert (vec_of st3 x = replicate n 0%float) as Hxv.
  { unfold vec_of, st3, st2, st1.
    rewrite !lookup_app_l by (rewrite ?length_app; simpl; lia).
    rewrite lookup_app_r by lia. by rewrite Nat.sub_diag. }
  destruct (foldl_simulation (stored_values R)
              (stored_inv st R x (replicate n 0%float))
              (forward_step_stored n R) (forward_step n) (seq 0 n) (st3, M))
    as ([Hsep4 Hx4] & Hval4).
  { intros s i Hs. by apply forward_step_stored_spec. }
  { by split. }
  destruct (foldl (forward_step_stored n R) (st3, M) (seq 0 n))
    as [st4 M4] eqn:E4.
  unfold stored_values in Hval4. simpl in Hsep4, Hx4, Hval4.
  rewrite HMv, HRv in Hval4. unfold forward. rewrite <- Hval4.
  destruct (foldl_simulation (fun s5 => vec_of s5 x)
              (fun s5 => separated st s5 M4 R x
                         /\ rows_of s5 M4 = rows_of st4 M4
                         /\ vec_of s5 R = vec_of st4 R)
              (back_step_stored n M4 R x)
              (back_step n (rows_of st4 M4) (vec_of st4 R))
              (rev (seq 0 n)) st4) as ((Hsep5 & _) & Hval5).
  { intros st5 i (U1 & U2 & U3).
    by apply (back_step_stored_spec st n M4 R x). }
  { by split_and!. }
  simpl. split.
  - intros a Ha. by apply Hsep5.
  - rewrite Hval5, Hx4. done.
Qed.

(** C10.  A call to [solve] returns an engine state with the same node
    list and component list, whose stored nodes differ from the given ones
    at most in [voltage] (same [id], [isGND], [parent]) and whose stored
    components differ at most in [current] (same [id], [type], [nodes],
    [resistance], [voltage], [isOpen], [spdtState]).  A call to
    [solveLinearSystem] on stored arrays leaves every array that existed
    before the call, the rows of [A] and [B] among them, as it was: it
    only writes to the copies it allocates, and what it returns is what
    the solver computes from the values of [A] and [B]. *)
Theorem solve_writes_only_voltage_and_current (e : CircuitEngine)
  (st : list (list float)) (n cols : nat) (A_data : list nat) (B : nat) :
  Forall (fun a => a < length st) A_data -> B < length st ->
  (exists e', solve e = Ok e' /\ engine_frame e e')
  /\ (let r := solveLinearSystem_stored st n A_data B in
      (forall a, a < length st -> r.1 !! a = st !! a)
      /\ vec_of r.1 r.2
         = solveLinearSystem (Matrix.mk n cols (rows_of st A_data))
                             (vec_of st B)).
Proof.
  intros HA HB. split; [apply solve_frame|].
  by apply solveLinearSystem_stored_spec.
Qed.

(** The first-pass system of [led_across_battery], its two rows and its
    right-hand side stored at addresses 0, 1 and 2. *)
Lemma solve_writes_only_voltage_and_current_witness :
  let st := [[(1e-12 + 1 / 10)%float; 1%float]; [1%float; 0%float];
             [0%float; 9%float]] in
  (exists e', solve led_across_battery = Ok e'
              /\ engine_frame led_across_battery e')
  /\ (let r := solveLinearSystem_stored st 2 [0; 1] 2 in
      (forall a, a < length st -> r.1 !! a = st !! a)
      /\ vec_of r.1 r.2
         = solveLinearSystem (Matrix.mk 2 2 (rows_of st [0; 1]))
                             (vec_of st 2)).
Proof.
  apply (solve_writes_only_voltage_and_current led_across_battery).
  - repeat constructor.
  - simpl. lia.
Defined.

Example solveLinearSystem_stored_led_first_pass :
  solveLinearSystem_stored
    [[(1e-12 + 1 / 10)%float; 1%float]; [1%float; 0%float];
     [0%float; 9%float]] 2 [0; 1] 2
  = ([[(1e-12 + 1 / 10)%float; 1%float]; [1%float; 0%float];
      [0%float; 9%float];
      [9%float; (-0.90000000000900005)%float];
      [0%float; 1%float]; [1%float; 0%float];
      [9%float; (-0.90000000000900005)%float]], 3).
Proof. vm_compute. reflexivity. Qed.

(** ** Relocation: the same circuit at other addresses

    A rebuild creates its nodes at fresh addresses, so two rebuilds of the
    same circuit give node stores that agree only up to a shift of the
    addresses. *)

Section Relocation.

Variables lo hi d : nat.

Lemma relocated_terminal cs hc1 hc2 ca k :
  relocated_comps lo hi d cs hc1 hc2 -> ca ∈ cs ->
  Component.terminal (comp_at hc2 ca) k
  = shift_ref d (Component.terminal (comp_at hc1 ca) k)
  /\ in_region lo hi (Component.terminal (comp_at hc1 ca) k).
Proof.
  intros [_ Hcs] Hca. destruct (Hcs ca Hca) as [(_&_&_&_&_&_&Hn) Hin].
  unfold Component.terminal. rewrite Hn, list_lookup_fmap.
  destruct (Component.nodes (comp_at hc1 ca) !! k) as [o|] eqn:Hk; simpl.
  - split; [done|]. rewrite Forall_forall in Hin. apply Hin.
    by eapply list_elem_of_lookup_2.
  - split; [done|]. by intros a.
Qed.

Lemma relocated_region_update h1 h2 a n1 n2 :
  relocated_region lo hi d h1 h2 -> lo <= a < hi ->
  relocated_node d n1 n2 -> lo <= Node.parent n1 < hi ->
  relocated_region lo hi d (<[a := n1]> h1) (<[a + d := n2]> h2).
Proof.
  intros (H1 & H2 & Hreg) Ha Hn Hp. unfold relocated_region.
  rewrite !length_insert. split_and!; [done..|].
  intros b Hb. destruct (decide (b = a)) as [->|Hne].
  - rewrite !node_at_insert_eq by lia. done.
  - rewrite !node_at_insert_ne by lia. by apply Hreg.
Qed.

End Relocation.

(** ** Relocation of a rebuild *)

Lemma same_settings_refl c : same_settings c c.
Proof. by repeat split. Qed.

Lemma same_settings_trans c1 c2 c3 :
  same_settings c1 c2 -> same_settings c2 c3 -> same_settings c1 c3.
Proof.
  unfold same_settings. intros (?&?&?&?&?&?) (?&?&?&?&?&?).
  repeat split; congruence.
Qed.

Lemma same_settings_comp_at h h' a :
  Forall2 same_settings h h' -> same_settings (comp_at h a) (comp_at h' a).
Proof.
  intros HF. unfold comp_at. destruct (h !! a) as [n|] eqn:Hn.
  - destruct (Forall2_lookup_l _ _ _ _ _ HF Hn) as (n' & Hn' & Hnn').
    simpl. rewrite Hn'. done.
  - assert (h' !! a = None) as ->; [|apply same_settings_refl].
    apply lookup_ge_None. rewrite <- (Forall2_length _ _ _ HF).
    by apply lookup_ge_None.
Qed.

(** Two runs of a loop that may raise, both returning. *)
Lemma forM_related {A S1 S2 : Type} (R : S1 -> S2 -> Prop)
  (body1 : S1 -> A -> outcome S1) (body2 : S2 -> A -> outcome S2)
  (l : list A) (s1 s1' : S1) (s2 s2' : S2) :
  R s1 s2 ->
  (forall a s1 s2 s1' s2', a ∈ l -> R s1 s2 ->
     body1 s1 a = Ok s1' -> body2 s2 a = Ok s2' -> R s1' s2') ->
  forM body1 l s1 = Ok s1' -> forM body2 l s2 = Ok s2' -> R s1' s2'.
Proof.
  revert s1 s2. induction l as [|a l IH]; intros s1 s2 HR Hstep; simpl.
  { by intros [= <-] [= <-]. }
  intros H1 H2. apply bind_Ok in H1 as (t1 & Ht1 & H1).
  apply bind_Ok in H2 as (t2 & Ht2 & H2).
  eapply (IH t1 t2); [|intros; eapply Hstep; [by right|done..]|done|done].
  eapply Hstep; [left|done..].
Qed.

Lemma foldl_related {A S1 S2 : Type} (R : list A -> S1 -> S2 -> Prop)
  (body1 : S1 -> A -> S1) (body2 : S2 -> A -> S2)
  (l : list A) (s1 : S1) (s2 : S2) :
  R [] s1 s2 ->
  (forall pre a s1 s2, R pre s1 s2 ->
     R (pre ++ [a]) (body1 s1 a) (body2 s2 a)) ->
  R l (foldl body1 s1 l) (foldl body2 s2 l).
Proof.
  intros H0 Hstep.
  assert (forall pre l s1 s2, R pre s1 s2 ->
            R (pre ++ l) (foldl body1 s1 l) (foldl body2 s2 l)) as Hgen.
  { clear s1 s2 H0. intros pre l0. revert pre.
    induction l0 as [|a l0 IH]; intros pre s1 s2 Hs; simpl.
    - by rewrite app_nil_r.
    - rewrite (cons_middle a pre l0), app_assoc. apply IH. by apply Hstep. }
  apply (Hgen [] l s1 s2 H0).
Qed.

Lemma relocated_region_widen lo hi hi' d h1 h2 fresh1 fresh2 :
  relocated_region lo hi d h1 h2 ->
  hi = length h1 -> length h2 = hi + d ->
  hi' = hi + length fresh1 -> length fresh2 = length fresh1 ->
  (forall k n1 n2, fresh1 !! k = Some n1 -> fresh2 !! k = Some n2 ->
     relocated_node d n1 n2 /\ lo <= Node.parent n1 < hi') ->
  relocated_region lo hi' d (h1 ++ fresh1) (h2 ++ fresh2).
Proof.
  intros (H1 & H2 & Hreg) -> Hl2 -> Hlf Hfresh. unfold relocated_region.
  rewrite !length_app. split_and!; [lia..|].
  intros a Ha. destruct (decide (a < length h1)) as [Hlt|Hge].
  - unfold node_at. rewrite !lookup_app_l by lia.
    destruct (Hreg a) as [Hn Hp]; [lia|]. split; [done|].
    unfold node_at in Hp. lia.
  - destruct (lookup_lt_is_Some_2 fresh1 (a - length h1)) as [n1 Hn1]; [lia|].
    destruct (lookup_lt_is_Some_2 fresh2 (a - length h1)) as [n2 Hn2]; [lia|].
    unfold node_at. rewrite !lookup_app_r by lia.
    replace (a + d - length h2) with (a - length h1) by lia.
    rewrite Hn1, Hn2. simpl. by eapply Hfresh.
Qed.

Lemma fresh_refs_shift d base t :
  fresh_refs (base + d) t = map (shift_ref d) (fresh_refs base t).
Proof.
  unfold fresh_refs. rewrite map_map. apply map_ext. intros i. simpl.
  f_equal. lia.
Qed.

(** Step 1 of two rebuilds of the same components, the second on a store
    that is [d] nodes longer. *)
Lemma relocated_step1 d h1 hc1 h2 hc2 cs :
  length h2 = length h1 + d -> Forall2 same_settings hc1 hc2 ->
  let s1 := foldl fresh_terminals (h1, hc1) cs in
  let s2 := foldl fresh_terminals (h2, hc2) cs in
  length s2.1 = length s1.1 + d
  /\ relocated_region (length h1) (length s1.1) d s1.1 s2.1
  /\ Forall2 same_settings hc1 s1.2
  /\ relocated_comps (length h1) (length s1.1) d cs s1.2 s2.2.
Proof.
  intros Hlen Hsame.
  pose (I := fun (pre : list nat) (s1 s2 : list Node.t * list Component.t) =>
    length h1 <= length s1.1
    /\ length s2.1 = length s1.1 + d
    /\ relocated_region (length h1) (length s1.1) d s1.1 s2.1
    /\ Forall2 same_settings hc1 s1.2
    /\ Forall2 same_settings s1.2 s2.2
    /\ forall ca, ca ∈ pre ->
         relocated_comp d (comp_at s1.2 ca) (comp_at s2.2 ca)
         /\ Forall (in_region (length h1) (length s1.1))
                   (Component.nodes (comp_at s1.2 ca))).
  assert (I cs (foldl fresh_terminals (h1, hc1) cs)
               (foldl fresh_terminals (h2, hc2) cs))
    as (H0 & H1 & H2 & H3 & H4 & H5).
  { apply (foldl_related I).
    { unfold I. simpl. split_and!; [done|done| | |done|].
      - split_and!; [lia..|]. intros a Ha. lia.
      - apply Forall2_refl_frame, same_settings_refl.
      - intros ca Hca. by apply elem_of_nil in Hca. }
    intros pre ca [g1 gc1] [g2 gc2] (J0 & J1 & J2 & J3 & J4 & J5).
    simpl in J0, J1, J2, J3, J4, J5. unfold I. rewrite !fresh_terminals_eq.
    pose proof (same_settings_comp_at _ _ ca J4) as Hset.
    set (c1 := comp_at gc1 ca) in *. set (c2 := comp_at gc2 ca) in *.
    assert (termCount c2 = termCount c1) as Ht.
    { destruct Hset as (_ & Ht & _). unfold termCount, is_type. by rewrite Ht. }
    rewrite Ht, J1. simpl.
    rewrite !length_app, !length_fresh_nodes.
    pose proof (Forall2_length _ _ _ J4) as Hlc.
    pose proof J2 as (Hhi & _).
    split_and!.
    - lia.
    - lia.
    - eapply relocated_region_widen; [done|done|done|
        by rewrite length_fresh_nodes|by rewrite !length_fresh_nodes|].
      intros k n1 n2 Hn1 Hn2. unfold fresh_nodes in Hn1, Hn2.
      rewrite list_lookup_fmap in Hn1, Hn2.
      destruct (seq 0 (termCount c1) !! k) as [i|] eqn:Hi; [|done].
      apply lookup_seq in Hi as [-> Hi]. simpl in *.
      injection Hn1 as <-. injection Hn2 as <-. simpl.
      destruct Hset as (Hid & _). rewrite Hid.
      split; [unfold relocated_node; simpl; split_and!; [done..|lia]|lia].
    - apply Forall2_insert_related; [done|].
      intros y0 y Hy0 Hy. unfold c1. rewrite (comp_at_lookup _ _ _ Hy).
      eapply same_settings_trans;
        [exact (Forall2_lookup_lr _ _ _ _ _ _ J3 Hy0 Hy)|].
      by repeat split.
    - apply Forall2_same_length_lookup. split.
      { by rewrite !length_insert. }
      intros i y1 y2 Hy1 Hy2. destruct (decide (i = ca)) as [->|Hne].
      + pose proof (lookup_lt_Some _ _ _ Hy1) as Hlt.
        rewrite length_insert in Hlt.
        rewrite list_lookup_insert_eq in Hy1 by lia.
        rewrite list_lookup_insert_eq in Hy2 by lia.
        injection Hy1 as <-. injection Hy2 as <-.
        destruct Hset as (?&?&?&?&?&?). by repeat split.
      + rewrite list_lookup_insert_ne in Hy1 by done.
        rewrite list_lookup_insert_ne in Hy2 by done.
        by eapply Forall2_lookup_lr.
    - intros ca' Hca'. destruct (decide (ca' = ca)) as [->|Hne].
      + destruct (decide (ca < length gc1)) as [Hlt|Hge].
        * rewrite !comp_at_insert_eq by lia. simpl. split.
          -- destruct Hset as (?&?&?&?&?&?).
             split_and!; try done. simpl. apply fresh_refs_shift.
          -- apply Forall_forall. intros o Ho a ->.
             apply elem_of_fresh_refs in Ho as (i & Hi & [= ->]). lia.
        * rewrite !list_insert_ge by lia.
          assert (comp_at gc1 ca = Component.dummy) as ->.
          { unfold comp_at. by rewrite (proj2 (lookup_ge_None gc1 ca)) by lia. }
          assert (comp_at gc2 ca = Component.dummy) as ->.
          { unfold comp_at. by rewrite (proj2 (lookup_ge_None gc2 ca)) by lia. }
          split; [by repeat split|]. constructor.
      + rewrite !comp_at_insert_ne by done.
        destruct (J5 ca') as [Hrel Hin].
        { apply elem_of_app in Hca' as [?|Hca']; [done|].
          apply elem_of_cons in Hca' as [?|Hca']; [done|].
          by apply elem_of_nil in Hca'. }
        split; [done|]. eapply Forall_impl; [done|].
        intros o Ho a Ha. specialize (Ho a Ha). lia. }
  simpl. split_and!; try done. split; [|done].
  symmetry. by eapply Forall2_length.
Qed.

Lemma forM_related2 {A1 A2 S1 S2 : Type} (Q : A1 -> A2 -> Prop)
  (R : S1 -> S2 -> Prop)
  (body1 : S1 -> A1 -> outcome S1) (body2 : S2 -> A2 -> outcome S2)
  (l1 : list A1) (l2 : list A2) (s1 s1' : S1) (s2 s2' : S2) :
  Forall2 Q l1 l2 -> R s1 s2 ->
  (forall a1 a2 s1 s2 s1' s2', Q a1 a2 -> R s1 s2 ->
     body1 s1 a1 = Ok s1' -> body2 s2 a2 = Ok s2' -> R s1' s2') ->
  forM body1 l1 s1 = Ok s1' -> forM body2 l2 s2 = Ok s2' -> R s1' s2'.
Proof.
  intros HF. revert s1 s2.
  induction HF as [|a1 a2 l1 l2 Ha HF IH]; intros s1 s2 HR Hstep; simpl.
  { by intros [= <-] [= <-]. }
  intros H1 H2. apply bind_Ok in H1 as (t1 & Ht1 & H1).
  apply bind_Ok in H2 as (t2 & Ht2 & H2).
  eapply (IH t1 t2); [|done|done|done]. by eapply Hstep.
Qed.

Section RebuildRelocation.

Variables lo hi d : nat.

Lemma relocated_find f1 f2 h1 h2 a h1' r1 h2' r2 :
  relocated_region lo hi d h1 h2 -> lo <= a < hi ->
  find f1 h1 a = Ok (h1', r1) -> find f2 h2 (a + d) = Ok (h2', r2) ->
  r2 = r1 + d /\ lo <= r1 < hi /\ relocated_region lo hi d h1' h2'.
Proof.
  revert f2 h1 h2 a h1' r1 h2' r2.
  induction f1 as [|f1 IH]; intros [|f2] h1 h2 a h1' r1 h2' r2 Hreg Ha;
    simpl; try done.
  pose proof Hreg as (_ & _ & Hall).
  destruct (Hall a Ha) as [(_ & _ & _ & Hpar) Hp]. rewrite Hpar.
  destruct (Nat.eqb_spec (Node.parent (node_at h1 a)) a) as [Heq|Hne].
  - rewrite (proj2 (Nat.eqb_eq _ _)) by lia.
    intros [= <- <-] [= <- <-]. done.
  - rewrite (proj2 (Nat.eqb_neq _ _)) by lia.
    intros H1 H2. apply bind_Ok in H1 as ([g1 q1] & Hf1 & [= <- <-]).
    apply bind_Ok in H2 as ([g2 q2] & Hf2 & [= <- <-]).
    destruct (IH _ _ _ _ _ _ _ _ Hreg Hp Hf1 Hf2) as (-> & Hq & Hreg').
    split; [done|]. split; [done|].
    pose proof Hreg' as (_ & _ & Hall').
    destruct (Hall' a Ha) as [(? & ? & ? & ?) _].
    apply relocated_region_update; [done|done| |done].
    by repeat split.
Qed.

Lemma relocated_union f1 f2 h1 h2 a b h1' h2' :
  relocated_region lo hi d h1 h2 -> lo <= a < hi -> lo <= b < hi ->
  union f1 h1 a b = Ok h1' -> union f2 h2 (a + d) (b + d) = Ok h2' ->
  relocated_region lo hi d h1' h2'.
Proof.
  intros Hreg Ha Hb. unfold union. intros H1 H2.
  apply bind_Ok in H1 as ([g1 ra1] & Hfa1 & H1).
  apply bind_Ok in H2 as ([g2 ra2] & Hfa2 & H2).
  destruct (relocated_find _ _ _ _ _ _ _ _ _ Hreg Ha Hfa1 Hfa2)
    as (-> & Hra & Hreg1).
  apply bind_Ok in H1 as ([k1 rb1] & Hfb1 & [= <-]).
  apply bind_Ok in H2 as ([k2 rb2] & Hfb2 & [= <-]).
  destruct (relocated_find _ _ _ _ _ _ _ _ _ Hreg1 Hb Hfb1 Hfb2)
    as (-> & Hrb & Hreg2).
  destruct (Nat.eqb_spec ra1 rb1) as [Heq|Hne].
  - by rewrite (proj2 (Nat.eqb_eq _ _)) by lia.
  - rewrite (proj2 (Nat.eqb_neq _ _)) by lia.
    pose proof Hreg2 as (_ & _ & Hall).
    destruct (Hall ra1 Hra) as [(? & ? & ? & ?) _].
    apply relocated_region_update; [done|done| |done].
    by repeat split.
Qed.

Lemma relocated_wire_ends cs hc1 hc2 w :
  relocated_comps lo hi d cs hc1 hc2 ->
  (forall ca, startComp w = Some ca -> ca ∈ cs) ->
  (forall ca, endComp w = Some ca -> ca ∈ cs) ->
  match wire_ends hc1 w with
  | Some (a, b) =>
      wire_ends hc2 w = Some (a + d, b + d) /\ lo <= a < hi /\ lo <= b < hi
  | None => wire_ends hc2 w = None
  end.
Proof.
  intros Hcs Hs He. unfold wire_ends.
  destruct (startComp w) as [sc|]; [|done].
  destruct (endComp w) as [ec|]; [|done].
  destruct (relocated_terminal lo hi d cs hc1 hc2 sc (startTerm w) Hcs)
    as [-> Hin1]; [by apply Hs|].
  destruct (relocated_terminal lo hi d cs hc1 hc2 ec (endTerm w) Hcs)
    as [-> Hin2]; [by apply He|].
  destruct (Component.terminal (comp_at hc1 sc) (startTerm w)) as [a|];
    [|done].
  destruct (Component.terminal (comp_at hc1 ec) (endTerm w)) as [b|];
    [|done].
  simpl. split; [done|]. split; [by apply Hin1|by apply Hin2].
Qed.

Lemma relocated_wires f1 f2 cs hc1 hc2 wires h1 h2 h1' h2' :
  relocated_comps lo hi d cs hc1 hc2 -> wires_listed cs wires ->
  relocated_region lo hi d h1 h2 ->
  forM (apply_wire f1 hc1) wires h1 = Ok h1' ->
  forM (apply_wire f2 hc2) wires h2 = Ok h2' ->
  relocated_region lo hi d h1' h2'.
Proof.
  intros Hcs Hw Hreg.
  apply (forM_related (relocated_region lo hi d)); [done|].
  intros w g1 g2 g1' g2' Hin Hg. unfold apply_wire.
  destruct (Hw w Hin) as [Hs He].
  pose proof (relocated_wire_ends cs hc1 hc2 w Hcs Hs He) as Hends.
  destruct (wire_ends hc1 w) as [[a b]|].
  - destruct Hends as (-> & Ha & Hb). by apply relocated_union.
  - rewrite Hends. by intros [= <-] [= <-].
Qed.

Lemma relocated_root_terminals f1 f2 cs ca h1 hc1 h2 hc2 s1' s2' :
  ca ∈ cs ->
  relocated_region lo hi d h1 h2 -> relocated_comps lo hi d cs hc1 hc2 ->
  root_terminals f1 (h1, hc1) ca = Ok s1' ->
  root_terminals f2 (h2, hc2) ca = Ok s2' ->
  relocated_region lo hi d s1'.1 s2'.1
  /\ relocated_comps lo hi d cs s1'.2 s2'.2.
Proof.
  intros Hca Hreg Hcs. unfold root_terminals.
  assert (length (Component.nodes (comp_at hc2 ca))
          = length (Component.nodes (comp_at hc1 ca))) as ->.
  { destruct Hcs as [_ Hcs].
    destruct (Hcs ca Hca) as [(_&_&_&_&_&_&->) _]. by rewrite length_map. }
  apply (forM_related
           (fun s1 s2 : list Node.t * list Component.t =>
              relocated_region lo hi d s1.1 s2.1
              /\ relocated_comps lo hi d cs s1.2 s2.2)); [done|].
  clear Hreg Hcs s1' s2'.
  intros i [g1 gc1] [g2 gc2] s1' s2' _ [Hreg Hcs]. simpl in Hreg, Hcs.
  clear h1 hc1 h2 hc2. rename g1 into h1, gc1 into hc1, g2 into h2, gc2 into hc2.
  cbn [fst snd].
  destruct (relocated_terminal lo hi d cs hc1 hc2 ca i Hcs Hca) as [-> Hin].
  destruct (Component.terminal (comp_at hc1 ca) i) as [n|]; [|done].
  simpl. intros H1 H2.
  apply bind_Ok in H1 as ([k1 r1] & Hf1 & [= <-]).
  apply bind_Ok in H2 as ([k2 r2] & Hf2 & [= <-]).
  destruct (relocated_find _ _ _ _ _ _ _ _ _ Hreg (Hin n eq_refl) Hf1 Hf2)
    as (-> & Hr & Hreg').
  simpl. split; [done|].
  destruct Hcs as [Hlen Hall]. split; [by rewrite !length_insert|].
  intros c Hc. destruct (Hall c Hc) as [Hrel Hnodes].
  destruct (decide (c = ca)) as [->|Hne].
  - destruct (decide (ca < length hc1)) as [Hlt|Hge].
    + rewrite !comp_at_insert_eq by lia. simpl.
      destruct Hrel as (?&?&?&?&?&?&Hn). split.
      * split_and!; try done. simpl. by rewrite Hn, list_fmap_insert.
      * apply Forall_insert; [done|]. by intros a [= <-].
    + rewrite !list_insert_ge by lia. done.
  - rewrite !comp_at_insert_ne by done. done.
Qed.

Lemma relocated_step4 f1 f2 cs h1 hc1 h2 hc2 s1' s2' :
  relocated_region lo hi d h1 h2 -> relocated_comps lo hi d cs hc1 hc2 ->
  forM (root_terminals f1) cs (h1, hc1) = Ok s1' ->
  forM (root_terminals f2) cs (h2, hc2) = Ok s2' ->
  relocated_region lo hi d s1'.1 s2'.1
  /\ relocated_comps lo hi d cs s1'.2 s2'.2.
Proof.
  intros Hreg Hcs.
  apply (forM_related
           (fun s1 s2 : list Node.t * list Component.t =>
              relocated_region lo hi d s1.1 s2.1
              /\ relocated_comps lo hi d cs s1.2 s2.2)); [done|].
  intros ca [g1 gc1] [g2 gc2] t1 t2 Hca [Hr Hc].
  by apply relocated_root_terminals.
Qed.

Lemma shift_ref_inj : Inj (=) (=) (shift_ref d).
Proof. intros [a|] [b|] H; simpl in H; simplify_eq; [f_equal; lia|done]. Qed.

Lemma set_add_shift (s : list (option nat)) x :
  set_add (map (shift_ref d) s) (shift_ref d x)
  = map (shift_ref d) (set_add s x).
Proof.
  unfold set_add.
  destruct (decide (x ∈ s)) as [Hin|Hnin].
  - rewrite decide_True; [done|]. apply list_elem_of_fmap. by exists x.
  - rewrite decide_False; [by rewrite map_app|].
    intros Hin. apply list_elem_of_fmap in Hin as (y & Hy & Hin).
    apply shift_ref_inj in Hy as ->. done.
Qed.

Lemma foldl_set_add_shift (l s : list (option nat)) :
  foldl set_add (map (shift_ref d) s) (map (shift_ref d) l)
  = map (shift_ref d) (foldl set_add s l).
Proof.
  revert s. induction l as [|x l IH]; intros s; simpl; [done|].
  by rewrite set_add_shift, IH.
Qed.

Lemma relocated_uniqueNodes cs hc1 hc2 :
  relocated_comps lo hi d cs hc1 hc2 ->
  uniqueNodes hc2 cs = map (shift_ref d) (uniqueNodes hc1 cs)
  /\ Forall (in_region lo hi) (uniqueNodes hc1 cs).
Proof.
  intros [_ Hcs]. split.
  - unfold uniqueNodes.
    assert (forall (l : list nat) s, (forall ca, ca ∈ l -> ca ∈ cs) ->
      foldl (fun s ca => foldl set_add s (Component.nodes (comp_at hc2 ca)))
            (map (shift_ref d) s) l
      = map (shift_ref d)
          (foldl (fun s ca => foldl set_add s
                                (Component.nodes (comp_at hc1 ca))) s l))
      as Hgen.
    { induction l as [|ca l IH]; intros s Hl; simpl; [done|].
      destruct (Hcs ca) as [(_&_&_&_&_&_&->) _]; [apply Hl; left|].
      rewrite foldl_set_add_shift. apply IH. intros. apply Hl. by right. }
    by apply (Hgen cs []).
  - apply Forall_forall. intros x Hx.
    apply uniqueNodes_spec in Hx as (ca & Hca & Hx).
    destruct (Hcs ca Hca) as [_ Hin]. rewrite Forall_forall in Hin.
    by apply Hin.
Qed.

Lemma relocated_assign_ids ns h1 h2 h1' h2' :
  relocated_region lo hi d h1 h2 -> Forall (in_region lo hi) ns ->
  assign_ids ns h1 = Ok h1' ->
  assign_ids (map (shift_ref d) ns) h2 = Ok h2' ->
  relocated_region lo hi d h1' h2'.
Proof.
  intros Hreg Hns. unfold assign_ids.
  apply (forM_related2
           (fun x y : nat * option nat =>
              y = (x.1, shift_ref d x.2) /\ in_region lo hi x.2)
           (relocated_region lo hi d)); [|done|].
  - apply Forall2_same_length_lookup. split.
    { by rewrite !length_imap, length_map. }
    intros i x y. rewrite !list_lookup_imap, list_lookup_fmap.
    destruct (ns !! i) as [o|] eqn:Ho; [|done]. simpl.
    intros [= <-] [= <-]. split; [done|]. simpl.
    rewrite Forall_forall in Hns. apply Hns.
    by eapply list_elem_of_lookup_2.
  - intros [i o] y g1 g2 g1' g2' [-> Hin] Hg. simpl in *.
    destruct o as [a|]; [|done]. simpl. intros [= <-] [= <-].
    pose proof Hg as (_ & _ & Hall).
    destruct (Hall a (Hin a eq_refl)) as [(? & ? & ? & ?) ?].
    apply relocated_region_update; [done|by apply Hin|by repeat split|done].
Qed.

Lemma list_find_agree {A} (P Q : A -> Prop)
  `{forall x, Decision (P x)} `{forall x, Decision (Q x)} (l : list A) :
  (forall x, x ∈ l -> P x <-> Q x) -> list_find P l = list_find Q l.
Proof.
  induction l as [|x l IH]; intros Hl; simpl; [done|].
  destruct (decide (P x)) as [Hp|Hp].
  - rewrite decide_True; [done|]. apply Hl; [left|done].
  - rewrite decide_False; [|rewrite <- Hl; [done|left]].
    rewrite IH; [done|]. intros. apply Hl. by right.
Qed.

Lemma relocated_ground_first_battery cs hc1 hc2 h1 h2 :
  relocated_region lo hi d h1 h2 -> relocated_comps lo hi d cs hc1 hc2 ->
  relocated_region lo hi d (ground_first_battery hc1 cs h1)
                           (ground_first_battery hc2 cs h2).
Proof.
  intros Hreg Hcs. unfold ground_first_battery.
  rewrite (list_find_agree
             (fun ca => is_type "battery" (comp_at hc2 ca) = true)
             (fun ca => is_type "battery" (comp_at hc1 ca) = true)).
  2:{ intros ca Hca. destruct Hcs as [_ Hcs].
      destruct (Hcs ca Hca) as [(_ & Ht & _) _].
      unfold is_type. by rewrite Ht. }
  destruct (list_find _ cs) as [[i ca]|] eqn:Hfind; [|done].
  apply list_find_Some in Hfind as (Hi & _ & _).
  apply list_elem_of_lookup_2 in Hi.
  destruct (relocated_terminal lo hi d cs hc1 hc2 ca 1 Hcs Hi) as [-> Hin].
  destruct (Component.terminal (comp_at hc1 ca) 1) as [a|]; [|done]. simpl.
  pose proof Hreg as (_ & _ & Hall).
  destruct (Hall a (Hin a eq_refl)) as [(? & ? & ? & ?) ?].
  apply relocated_region_update; [done|by apply Hin|by repeat split|done].
Qed.

End RebuildRelocation.

Lemma omap_shift d (l : list (option nat)) :
  omap id (map (shift_ref d) l) = map (fun a => a + d) (omap id l).
Proof.
  induction l as [|[a|] l IH]; [done| |exact IH].
  change (a + d :: omap id (map (shift_ref d) l)
          = a + d :: map (fun a => a + d) (omap id l)).
  by rewrite IH.
Qed.

(** Two rebuilds with the same wires, of the same listed components with
    the same settings, the second on a node store [d] nodes longer: the
    second topology is the first one, moved by [d] addresses. *)
Lemma relocated_rebuildTopology d wires e e' t t' :
  engine_components e' = engine_components e ->
  Forall2 same_settings (comp_store e) (comp_store e') ->
  length (node_store e') = length (node_store e) + d ->
  wires_listed (engine_components e) wires ->
  rebuildTopology wires e = Ok t -> rebuildTopology wires e' = Ok t' ->
  exists hi, relocated_engine (length (node_store e)) hi d t t'.
Proof.
  intros Hcs Hsame Hlen Hw. unfold rebuildTopology. rewrite Hcs.
  pose proof (relocated_step1 d (node_store e) (comp_store e)
                (node_store e') (comp_store e') (engine_components e)
                Hlen Hsame) as Hstep1.
  destruct (foldl fresh_terminals (node_store e, comp_store e) _)
    as [h1 hc1].
  destruct (foldl fresh_terminals (node_store e', comp_store e') _)
    as [h2 hc2].
  simpl in Hstep1. destruct Hstep1 as (Hl & Hreg & _ & Hcomps).
  set (lo := length (node_store e)) in *. set (hi := length h1) in *.
  intros H1 H2. exists hi.
  apply bind_Ok in H1 as (g1 & Hw1 & H1).
  apply bind_Ok in H2 as (g2 & Hw2 & H2).
  pose proof (relocated_wires lo hi d _ _ _ _ _ _ _ _ _ _
                Hcomps Hw Hreg Hw1 Hw2) as Hreg3.
  apply bind_Ok in H1 as ([k1 kc1] & Hr1 & H1).
  apply bind_Ok in H2 as ([k2 kc2] & Hr2 & H2).
  destruct (relocated_step4 lo hi d _ _ _ _ _ _ _ _ _
              Hreg3 Hcomps Hr1 Hr2) as [Hreg4 Hcomps4].
  simpl in Hreg4, Hcomps4.
  destruct (relocated_uniqueNodes lo hi d _ _ _ Hcomps4) as [Hu Hin].
  rewrite Hu in H2.
  apply bind_Ok in H1 as (m1 & Hi1 & [= <-]).
  apply bind_Ok in H2 as (m2 & Hi2 & [= <-]).
  pose proof (relocated_assign_ids lo hi d _ _ _ _ _ Hreg4 Hin Hi1 Hi2)
    as Hreg5.
  unfold relocated_engine. simpl. split_and!; [done| | | |done].
  - apply omap_shift.
  - apply Forall_forall. intros a Ha.
    apply list_elem_of_omap in Ha as ([b|] & Hb & Heq); simplify_eq/=.
    rewrite Forall_forall in Hin. by apply (Hin _ Hb).
  - by apply relocated_ground_first_battery.
Qed.

(** ** Settings kept by a rebuild and by a solve *)

Lemma same_settings_of_same_but_nodes c c' :
  same_but_nodes c c' -> same_settings c c'.
Proof. intros (?&?&?&?&?&?&?). by repeat split. Qed.

Lemma same_settings_of_comp_frame c c' : comp_frame c c' -> same_settings c c'.
Proof. intros (?&?&?&?&?&?&?). by repeat split. Qed.

(** * Further properties of the engine *)

(** ** class Matrix: reads after writes *)

(** [get] after [set], on a matrix of the shape the constructor builds: a
    write inside the bounds is read back at its cell and nowhere else; a
    write outside the bounds changes no cell. *)
Theorem Matrix_get_after_set (A : Matrix.t) (r c r' c' : nat) (v : float) :
  Matrix.shaped A ->
  Matrix.get (Matrix.set A r c v) r' c'
  = if bool_decide (r < Matrix.rows A /\ c < Matrix.cols A /\ r' = r /\ c' = c)
    then Ok v else Matrix.get A r' c'.
Proof.
  intros [Hrows Hcols]. unfold Matrix.set.
  destruct (Nat.ltb_spec r (Matrix.rows A)) as [Hr|Hr]; simpl;
    [|rewrite bool_decide_eq_false_2; [done|lia]].
  destruct (Nat.ltb_spec c (Matrix.cols A)) as [Hc|Hc]; simpl;
    [|rewrite bool_decide_eq_false_2; [done|lia]].
  unfold Matrix.get. simpl.
  destruct (decide (r' = r)) as [->|Hne].
  - rewrite list_lookup_alter_eq.
    destruct (lookup_lt_is_Some_2 (Matrix.data A) r) as [row Hrow]; [lia|].
    rewrite Hrow. simpl.
    assert (length row = Matrix.cols A) as Hlen.
    { rewrite Forall_forall in Hcols. apply Hcols.
      by eapply list_elem_of_lookup_2. }
    destruct (decide (c' = c)) as [->|Hnec].
    + rewrite list_lookup_insert_eq by lia.
      rewrite bool_decide_eq_true_2; [done|lia].
    + rewrite list_lookup_insert_ne by done.
      rewrite bool_decide_eq_false_2; [done|lia].
  - rewrite list_lookup_alter_ne by done.
    rewrite bool_decide_eq_false_2; [done|lia].
Qed.

Lemma Matrix_get_after_set_witness :
  Matrix.get (Matrix.set (Matrix.new 2 3) 1 2 5%float) 1 2 = Ok 5%float
  /\ Matrix.get (Matrix.set (Matrix.new 2 3) 1 2 5%float) 0 2 = Ok 0%float
  /\ Matrix.get (Matrix.set (Matrix.new 2 3) 2 0 5%float) 1 0 = Ok 0%float.
Proof.
  split_and!.
  - rewrite (Matrix_get_after_set (Matrix.new 2 3) 1 2 1 2 5%float
               (Matrix_new_shaped 2 3)). reflexivity.
  - rewrite (Matrix_get_after_set (Matrix.new 2 3) 1 2 0 2 5%float
               (Matrix_new_shaped 2 3)). reflexivity.
  - rewrite (Matrix_get_after_set (Matrix.new 2 3) 2 0 1 0 5%float
               (Matrix_new_shaped 2 3)). reflexivity.
Defined.

(** ** solve: objects outside the two lists *)

Lemma update_voltages_outside result active h a :
  a ∉ active -> (update_voltages result active h).2 !! a = h !! a.
Proof.
  intros Ha. unfold update_voltages.
  assert (forall (l : list (nat * nat)) m h,
            a ∉ l.*2 ->
            (foldl (update_voltage result) (m, h) l).2 !! a = h !! a) as Hgen.
  { induction l as [|[i b] l IH]; intros m g Hl; [done|].
    rewrite fmap_cons in Hl. apply not_elem_of_cons in Hl as [Hne Hl].
    cbn [foldl]. unfold update_voltage at 2. cbn [fst snd].
    rewrite IH by done. by apply list_lookup_insert_ne. }
  apply Hgen. by rewrite imap_pair_snd.
Qed.

Lemma ground_voltages_outside all h a :
  a ∉ all -> ground_voltages all h !! a = h !! a.
Proof.
  unfold ground_voltages. revert h.
  induction all as [|b l IH]; intros h Hl; simpl; [done|].
  rewrite IH by (intros Hin; apply Hl; by right).
  case_match; [|done].
  apply list_lookup_insert_ne. intros ->. apply Hl. left.
Qed.

Lemma update_currents_outside h cs N result hc ca :
  ca ∉ cs -> update_currents h cs N result hc !! ca = hc !! ca.
Proof.
  unfold update_currents. generalize cs at 2. intros cs0. revert hc.
  induction cs as [|b l IH]; intros hc Hl; simpl; [done|].
  rewrite IH by (intros Hin; apply Hl; by right).
  apply list_lookup_insert_ne. intros ->. apply Hl. left.
Qed.

Lemma solve_pass_outside iter e p :
  solve_pass iter e = Ok p ->
  (forall a, a ∉ engine_nodes e ->
     node_store (pass_after p) !! a = node_store e !! a)
  /\ (forall ca, ca ∉ engine_components e ->
        comp_store (pass_after p) !! ca = comp_store e !! ca).
Proof.
  unfold solve_pass. intros H. apply bind_Ok in H as (s & _ & H).
  destruct (update_voltages _ _ _) as [m h] eqn:Hu.
  injection H as <-. simpl. split.
  - intros a Ha. rewrite ground_voltages_outside by done.
    change h with (m, h).2. rewrite <- Hu.
    apply update_voltages_outside. unfold activeNodes.
    intros Hin. apply list_elem_of_filter in Hin as [_ Hin]. done.
  - intros ca Hca. by apply update_currents_outside.
Qed.

Lemma solve_loop_outside todo iter e ps :
  solve_loop todo iter e = Ok ps ->
  (forall a, a ∉ engine_nodes e ->
     node_store (final_state e ps) !! a = node_store e !! a)
  /\ (forall ca, ca ∉ engine_components e ->
        comp_store (final_state e ps) !! ca = comp_store e !! ca).
Proof.
  revert iter e ps. induction todo as [|todo IH]; intros iter e ps; simpl.
  { by intros [= <-]. }
  destruct (unknowns e =? 0); [by intros [= <-]|].
  intros H. apply bind_Ok in H as (p & Hp & H).
  destruct (solve_pass_frame _ _ _ Hp) as (_ & _ & Hen & Hec & _).
  destruct (solve_pass_outside _ _ _ Hp) as [Hn Hc].
  destruct ((0 <? iter) && flt (pass_maxChange p) 1e-3).
  { injection H as <-. unfold final_state. simpl. done. }
  apply bind_Ok in H as (ps' & Hps' & [= <-]).
  rewrite final_state_cons.
  destruct (IH _ _ _ Hps') as [Hn' Hc']. rewrite Hen in Hn'. rewrite Hec in Hc'.
  split.
  - intros a Ha. rewrite Hn' by done. by apply Hn.
  - intros ca Hca. rewrite Hc' by done. by apply Hc.
Qed.

(** [solve] reads and writes through [this.nodes] and [this.components]
    only: a stored node that is not in the node list and a stored
    component that is not in the component list (a removed one, say) are
    left exactly as they were, all fields included. *)
Theorem solve_leaves_unlisted_objects (e : CircuitEngine) :
  exists e',
    solve e = Ok e'
    /\ (forall a, a ∉ engine_nodes e -> node_store e' !! a = node_store e !! a)
    /\ (forall ca, ca ∉ engine_components e ->
          comp_store e' !! ca = comp_store e !! ca).
Proof.
  destruct (solve_passes_Ok e) as [ps Hps].
  exists (final_state e ps). split; [by apply solve_unfold|].
  by apply (solve_loop_outside _ _ _ _ Hps).
Qed.

(** ** solve: the ground reference *)

Lemma ground_voltages_length all h : length (ground_voltages all h) = length h.
Proof.
  symmetry. eapply Forall2_length.
  apply ground_voltages_frame, Forall2_refl_frame, node_frame_refl.
Qed.

Lemma ground_voltages_zero all h a :
  a ∈ all -> Node.isGND (node_at h a) = true ->
  Node.voltage (node_at (ground_voltages all h) a) = 0%float.
Proof.
  intros Ha Hg.
  assert (a < length h) as Hlt.
  { destruct (decide (a < length h)) as [|Hge]; [done|].
    unfold node_at in Hg. by rewrite (proj2 (lookup_ge_None h a)) in Hg by lia. }
  revert Ha. induction all as [|b l IH] using rev_ind; intros Ha.
  { by apply elem_of_nil in Ha. }
  unfold ground_voltages in *. rewrite foldl_app. simpl.
  fold (ground_voltages l h).
  pose proof (ground_voltages_frame l h h
                (Forall2_refl_frame _ _ node_frame_refl)) as Hfr.
  pose proof (ground_voltages_length l h) as Hlen.
  destruct (decide (b = a)) as [->|Hne].
  - destruct (node_frame_node_at _ _ a Hfr) as (_ & Hg' & _).
    rewrite Hg', Hg. rewrite node_at_insert_eq by lia. done.
  - apply elem_of_app in Ha as [Ha|Ha].
    2:{ apply list_elem_of_singleton in Ha. done. }
    case_match; [rewrite node_at_insert_ne by done|]; by apply IH.
Qed.

Lemma solve_pass_ground iter e p a :
  solve_pass iter e = Ok p ->
  a ∈ engine_nodes e -> Node.isGND (node_at (node_store e) a) = true ->
  Node.voltage (node_at (node_store (pass_after p)) a) = 0%float.
Proof.
  unfold solve_pass. intros H. apply bind_Ok in H as (s & _ & H).
  destruct (update_voltages _ _ _) as [m h] eqn:Hu.
  injection H as <-. simpl. intros Ha Hg.
  apply ground_voltages_zero; [done|].
  pose proof (update_voltages_frame (solveLinearSystem (asm_A s) (asm_Z s))
                (activeNodes e) (node_store e) (node_store e)
                (Forall2_refl_frame _ _ node_frame_refl)) as Hfr.
  rewrite Hu in Hfr. simpl in Hfr.
  destruct (node_frame_node_at _ _ a Hfr) as (_ & Hg' & _). congruence.
Qed.

Lemma solve_final_ground e ps a :
  solve_passes e = Ok ps -> unknowns e <> 0 -> a ∈ engine_nodes e ->
  Node.isGND (node_at (node_store e) a) = true ->
  Node.voltage (node_at (node_store (final_state e ps)) a) = 0%float.
Proof.
  intros Hps Hu Ha Hg.
  destruct (solve_loop_spec _ _ _ _ Hps) as (_ & _ & Hne & Hspec).
  specialize (Hne Hu). unfold maxIterations in Hne.
  assert (ps <> []) as Hps' by (apply Hne; lia).
  destruct (last ps) as [p|] eqn:Hlast.
  2:{ apply last_None in Hlast. done. }
  unfold final_state. rewrite Hlast. simpl.
  rewrite last_lookup in Hlast.
  pose proof (solve_loop_pass _ _ _ _ _ _ Hps Hlast) as Hp.
  assert (engine_frame e (final_state e (take (pred (length ps)) ps))) as Hfr.
  { unfold final_state.
    destruct (last (take (pred (length ps)) ps)) as [q|] eqn:Hq; simpl;
      [|apply engine_frame_refl].
    rewrite last_lookup in Hq. apply lookup_take_Some in Hq as [Hq _].
    by apply (Hspec _ _ Hq). }
  destruct Hfr as (Hen & _ & Hnf & _).
  eapply solve_pass_ground; [exact Hp|by rewrite Hen|].
  destruct (node_frame_node_at _ _ a Hnf) as (_ & Hg' & _). congruence.
Qed.

(** After a [solve] that has at least one unknown, every node of the node
    list that is flagged as ground is at exactly 0 V, whatever voltage it
    held before.  (Without unknowns [solve] returns at once and a ground
    node keeps the voltage it had.) *)
Theorem solve_grounds_at_zero (e : CircuitEngine) (a : nat) :
  unknowns e <> 0 -> a ∈ engine_nodes e ->
  Node.isGND (node_at (node_store e) a) = true ->
  exists e',
    solve e = Ok e' /\ Node.voltage (node_at (node_store e') a) = 0%float.
Proof.
  intros Hu Ha Hg. destruct (solve_passes_Ok e) as [ps Hps].
  exists (final_state e ps). split.
  - by apply solve_unfold.
  - by apply solve_final_ground.
Qed.

Lemma solve_grounds_at_zero_witness :
  exists e',
    solve (mkEngine [Node.mk "node_0" 3.5%float true 0;
                     Node.mk "node_1" 1%float false 1]
                    [Component.mk "comp_0" "resistor" [Some 1; Some 0]
                                  100%float 0%float false None None]
                    [0; 1] [0]) = Ok e'
    /\ Node.voltage (node_at (node_store e') 0) = 0%float.
Proof.
  apply solve_grounds_at_zero.
  - vm_compute. lia.
  - apply list_elem_of_In. simpl. auto.
  - reflexivity.
Defined.

(** ** solve: the row of a battery *)

Lemma battery_count_cons hc c l :
  battery_count hc (c :: l)
  = (if is_type "battery" (comp_at hc c) then 1 else 0) + battery_count hc l.
Proof.
  unfold battery_count. rewrite filter_cons.
  destruct (decide (is_type "battery" (comp_at hc c) = true)) as [Hb|Hb].
  - rewrite Hb. done.
  - apply not_true_is_false in Hb. rewrite Hb. done.
Qed.

Lemma stamp_component_source iter h nodeMap N s comp s' :
  stamp_component iter h nodeMap N s comp = Ok s' ->
  asm_Z s'
  = (if is_type "battery" comp
     then <[N + asm_vSourceIndex s := Component.voltage comp]> (asm_Z s)
     else asm_Z s)
  /\ asm_vSourceIndex s'
     = (if is_type "battery" comp then 1 else 0) + asm_vSourceIndex s.
Proof.
  unfold stamp_component. destruct (is_type "battery" comp).
  { intros [= <-]. done. }
  destruct (is_type "spdt" comp); intros H;
    apply bind_Ok in H as (A & _ & [= <-]); done.
Qed.

Lemma battery_index_bound hc l ca :
  ca ∈ l -> is_type "battery" (comp_at hc ca) = true ->
  battery_index hc l ca < battery_count hc l.
Proof.
  induction l as [|c l IH]; intros Hin Hb; [by apply elem_of_nil in Hin|].
  rewrite battery_count_cons. simpl.
  destruct (Nat.eqb_spec c ca) as [->|Hne].
  - rewrite Hb. lia.
  - apply elem_of_cons in Hin as [?|Hin]; [congruence|].
    specialize (IH Hin Hb). destruct (is_type "battery" (comp_at hc c)); lia.
Qed.

Lemma assemble_source_rows iter h nodeMap N hc l s s' :
  forM (fun s c => stamp_component iter h nodeMap N s (comp_at hc c)) l s
  = Ok s' ->
  length (asm_Z s') = length (asm_Z s)
  /\ (forall r, r < N + asm_vSourceIndex s -> asm_Z s' !! r = asm_Z s !! r)
  /\ forall ca, ca ∈ l -> is_type "battery" (comp_at hc ca) = true ->
       N + asm_vSourceIndex s + battery_count hc l <= length (asm_Z s) ->
       asm_Z s' !! (N + asm_vSourceIndex s + battery_index hc l ca)
       = Some (Component.voltage (comp_at hc ca)).
Proof.
  revert s. induction l as [|c l IH]; intros s; simpl.
  { intros [= <-]. split_and!; [done..|].
    intros ca Hca. by apply elem_of_nil in Hca. }
  intros H. apply bind_Ok in H as (s1 & Hs1 & H).
  destruct (stamp_component_source _ _ _ _ _ _ _ Hs1) as [HZ Hv].
  destruct (IH _ H) as (Hlen & Hlow & Hrow).
  assert (length (asm_Z s1) = length (asm_Z s)) as Hlen1.
  { rewrite HZ. case_match; [by rewrite length_insert|done]. }
  split_and!.
  - congruence.
  - intros r Hr. rewrite Hlow by lia. rewrite HZ.
    case_match; [|done]. apply list_lookup_insert_ne. lia.
  - intros ca Hca Hb. rewrite battery_count_cons. intros Hsize.
    destruct (Nat.eqb_spec c ca) as [->|Hne].
    + rewrite Hb in *. rewrite Hlow by lia. rewrite HZ.
      rewrite Nat.add_0_r. apply list_lookup_insert_eq. lia.
    + apply elem_of_cons in Hca as [?|Hca]; [congruence|].
      specialize (Hrow ca Hca Hb). rewrite Hv, Hlen1 in Hrow.
      replace (N + asm_vSourceIndex s
               + ((if is_type "battery" (comp_at hc c) then 1 else 0)
                  + battery_index hc l ca))
        with (N + ((if is_type "battery" (comp_at hc c) then 1 else 0)
                   + asm_vSourceIndex s) + battery_index hc l ca) by lia.
      apply Hrow. lia.
Qed.

(** The assembly numbers the batteries with [vSourceIndex] as it meets
    them, and the update step recounts the batteries before a given one to
    find its unknown.  Both arrive at the same row: in every pass, for a
    listed battery, the row [N + idx] whose unknown becomes the battery's
    [current] is inside the system and is the row of the source vector
    that holds the battery's voltage. *)
Theorem battery_current_row (e : CircuitEngine) (ps : list pass) (k : nat)
  (p : pass) (ca : nat) (comp : Component.t) :
  solve_passes e = Ok ps -> ps !! k = Some p ->
  ca ∈ engine_components (pass_before p) ->
  comp_store (pass_before p) !! ca = Some comp ->
  is_type "battery" comp = true ->
  let N := length (activeNodes (pass_before p)) in
  let row := N + battery_index (comp_store (pass_before p))
                               (engine_components (pass_before p)) ca in
  N <= row < unknowns (pass_before p)
  /\ length (pass_Z p) = unknowns (pass_before p)
  /\ pass_Z p !! row = Some (Component.voltage comp)
  /\ Component.current (comp_at (comp_store (pass_after p)) ca)
     = Some (vget (pass_result p) row).
Proof.
  intros Hps Hk Hca Hcomp Hb N row.
  pose proof (solve_loop_pass _ _ _ _ _ _ Hps Hk) as Hp.
  destruct (solve_pass_frame _ _ _ Hp) as (_ & Hbefore & _).
  rewrite <- Hbefore in Hp.
  set (e0 := pass_before p) in *.
  assert (comp_at (comp_store e0) ca = comp) as Hcat.
  { unfold comp_at. by rewrite Hcomp. }
  pose proof (battery_index_bound (comp_store e0) (engine_components e0) ca Hca)
    as Hidx. rewrite Hcat in Hidx. specialize (Hidx Hb).
  destruct (solve_pass_assemble _ _ _ Hp) as (vs & Hasm & _).
  unfold assemble in Hasm.
  apply assemble_source_rows in Hasm as (Hlen & _ & Hrow).
  simpl in Hlen, Hrow. rewrite length_replicate in Hlen, Hrow.
  split_and!.
  - unfold row. lia.
  - unfold row, unknowns. fold N. lia.
  - done.
  - specialize (Hrow ca Hca). rewrite Hcat in Hrow.
    rewrite Nat.add_0_r in Hrow. apply Hrow; [done|]. fold N. lia.
  - rewrite (solve_pass_current _ _ _ _ _ Hp Hca Hcomp).
    unfold component_current. rewrite Hcat, Hb. done.
Qed.

Lemma battery_current_row_witness :
  let p := led_pass_1 in
  let N := length (activeNodes (pass_before p)) in
  let row := N + battery_index (comp_store (pass_before p))
                               (engine_components (pass_before p)) 0 in
  N <= row < unknowns (pass_before p)
  /\ length (pass_Z p) = unknowns (pass_before p)
  /\ pass_Z p !! row = Some 9%float
  /\ Component.current (comp_at (comp_store (pass_after p)) 0)
     = Some (vget (pass_result p) row).
Proof.
  apply (battery_current_row led_across_battery led_passes 1 led_pass_1 0
           (comp_at (comp_store (pass_before led_pass_1)) 0)).
  - vm_compute. reflexivity.
  - reflexivity.
  - apply list_elem_of_In. simpl. auto.
  - reflexivity.
  - reflexivity.
Defined.

(** ** solveLinearSystem: degenerate systems *)




Lemma forward_negligible n (M : list (list float)) R i :
  length M = n ->
  Forall (fun row => length row = n
                     /\ Forall (fun v => flt (fabs v) 1e-10 = true) row) M ->
  i < n ->
  let MR' := forward_step n (M, R) i in
  length MR'.1 = n
  /\ Forall (fun row => length row = n
                        /\ Forall (fun v => flt (fabs v) 1e-10 = true) row)
            MR'.1.
Proof.
  intros Hlen Hall Hi. unfold forward_step.
  set (p := select_pivot M n i).
  assert (flt (fabs (entry (swap M i p) i i)) 1e-10 = true) as ->.
  { pose proof (swap_Forall _ M i p Hall) as Hall'.
    destruct (lookup_lt_is_Some_2 (swap M i p) i) as [row Hrow].
    { rewrite length_swap. lia. }
    rewrite (entry_row _ _ _ _ Hrow).
    rewrite Forall_forall in Hall'.
    destruct (Hall' row) as [Hl Hrowall]; [by eapply list_elem_of_lookup_2|].
    destruct (lookup_lt_is_Some_2 row i) as [v Hv]; [lia|].
    unfold vget. rewrite Hv. simpl.
    rewrite Forall_forall in Hrowall. apply Hrowall.
    by eapply list_elem_of_lookup_2. }
  simpl. split; [by rewrite length_swap|by apply swap_Forall].
Qed.

(** A system whose matrix is negligible throughout (every entry, as the
    solver reads it, below 1e-10 in magnitude: the zero matrix, say) has
    no usable pivot: every elimination and every substitution step is
    skipped and the solution returned is the zero vector, whatever the
    right-hand side. *)
Theorem solveLinearSystem_negligible_matrix (n : nat) (A : Matrix.t)
  (B : list float) :
  square n A ->
  Forall (Forall (fun v => flt (fabs (json_number v)) 1e-10 = true))
         (Matrix.data A) ->
  solveLinearSystem A B = replicate n 0%float.
Proof.
  intros (Hshape & Hrows & Hcols) Hall. destruct Hshape as [Hlen Hrowlen].
  unfold solveLinearSystem. rewrite Hrows.
  set (M0 := map (map json_number) (Matrix.data A)).
  pose (Q := fun MR : list (list float) * list float =>
               length MR.1 = n
               /\ Forall (fun row => length row = n
                            /\ Forall (fun v => flt (fabs v) 1e-10 = true) row)
                         MR.1).
  assert (Q (M0, B)) as HQ0.
  { split; simpl.
    - unfold M0. rewrite length_map. congruence.
    - unfold M0. apply Forall_fmap. rewrite Forall_forall in Hall, Hrowlen.
      apply Forall_forall. intros row Hrow. simpl. split.
      + rewrite length_map. rewrite (Hrowlen row Hrow). done.
      + apply Forall_fmap. by apply Hall. }
  assert (forall l MR, Forall (fun i => i < n) l -> Q MR ->
            Q (foldl (forward_step n) MR l)) as Hfold.
  { induction l as [|i l IH]; intros [M R] Hl HQ; simpl; [done|].
    apply Forall_cons in Hl as [Hi Hl']. apply IH; [done|].
    destruct HQ as [HQ1 HQ2]. simpl in HQ1, HQ2.
    by apply (forward_negligible n M R i). }
  unfold forward.
  specialize (Hfold (seq 0 n) (M0, B)).
  destruct (foldl (forward_step n) (M0, B) (seq 0 n)) as [Mf Rf].
  destruct Hfold as [HQ1 HQ2]; [|done|].
  { apply Forall_forall. intros i Hi. apply elem_of_seq in Hi. lia. }
  simpl in HQ1, HQ2.
  destruct (back_substitute_spec n Mf Rf) as [Hxlen Hx].
  apply list_eq_same_length with n; [by rewrite length_replicate|done|].
  intros i v w Hi Hv Hw.
  apply lookup_replicate in Hw as [-> _].
  specialize (Hx i Hi). unfold vget in Hx at 1. rewrite Hv in Hx. simpl in Hx.
  rewrite Hx.
  destruct (lookup_lt_is_Some_2 Mf i) as [row Hrow]; [lia|].
  rewrite (entry_row _ _ _ _ Hrow).
  rewrite Forall_forall in HQ2.
  destruct (HQ2 row) as [Hl Hrowall]; [by eapply list_elem_of_lookup_2|].
  destruct (lookup_lt_is_Some_2 row i) as [u Hu]; [lia|].
  unfold vget. rewrite Hu. simpl.
  rewrite Forall_forall in Hrowall.
  by rewrite (Hrowall u (list_elem_of_lookup_2 _ _ _ Hu)).
Qed.

Lemma solveLinearSystem_negligible_matrix_witness :
  solveLinearSystem (Matrix.new 3 3) [1%float; 2%float; 3%float]
  = replicate 3 0%float.
Proof.
  apply solveLinearSystem_negligible_matrix.
  - split; [apply Matrix_new_shaped|done].
  - simpl. repeat constructor.
Defined.

(** * Further properties of the topology builder *)

(** The stages of a rebuild that returns. *)
Lemma rebuildTopology_stages wires e t :
  rebuildTopology wires e = Ok t ->
  let cs := engine_components e in
  let s1 := foldl fresh_terminals (node_store e, comp_store e) cs in
  let fuel := S (length s1.1) in
  exists h3 h4 hc4 h5,
    forM (apply_wire fuel s1.2) wires s1.1 = Ok h3
    /\ forM (root_terminals fuel) cs (h3, s1.2) = Ok (h4, hc4)
    /\ assign_ids (uniqueNodes hc4 cs) h4 = Ok h5
    /\ t = mkEngine (ground_first_battery hc4 cs h5) hc4
                    (omap id (uniqueNodes hc4 cs)) cs.
Proof.
  intros H. cbv zeta. unfold rebuildTopology in H.
  destruct (foldl fresh_terminals _ _) as [h1 hc1]. simpl.
  apply bind_Ok in H as (h3 & Hw & H).
  apply bind_Ok in H as ([h4 hc4] & Hr & H).
  apply bind_Ok in H as (h5 & Hi & [= <-]).
  by exists h3, h4, hc4, h5.
Qed.

(** ** Node ids and matrix rows *)

Lemma same_but_id_refl n : same_but_id n n.
Proof. done. Qed.

Lemma same_but_id_trans n1 n2 n3 :
  same_but_id n1 n2 -> same_but_id n2 n3 -> same_but_id n1 n3.
Proof. intros (?&?&?) (?&?&?). repeat split; congruence. Qed.

Lemma assign_ids_spec ns h h' :
  assign_ids ns h = Ok h' -> NoDup ns ->
  length h' = length h
  /\ Forall2 same_but_id h h'
  /\ forall i a, ns !! i = Some (Some a) -> a < length h ->
       Node.id (node_at h' a) = "node_" +:+ pretty i.
Proof.
  unfold assign_ids. intros Hrun Hnd.
  pose (I := fun (pre : list (nat * option nat)) (g : list Node.t) =>
    length g = length h /\ Forall2 same_but_id h g
    /\ (NoDup pre.*2 ->
        forall i a, (i, Some a) ∈ pre -> a < length h ->
          Node.id (node_at g a) = "node_" +:+ pretty i)).
  assert (I (imap pair ns) h') as (Hlen & Hsame & Hids); cycle 1.
  { split_and!; [done|done|]. intros i a Hi. apply Hids.
    + by rewrite imap_pair_snd.
    + apply list_elem_of_lookup. exists i.
      rewrite list_lookup_imap, Hi. done. }
  eapply (forM_prefix_invariant I); [| |exact Hrun].
  - split_and!; [done|apply Forall2_refl_frame, same_but_id_refl|].
    intros _ i a Hin. by apply elem_of_nil in Hin.
  - intros pre [i o] g g' (Hl & Hs & Hi) Hbody. simpl in Hbody.
    destruct o as [a|]; [|done]. injection Hbody as <-.
    split_and!.
    + by rewrite length_insert.
    + apply Forall2_insert_related; [done|].
      intros y0 y Hy0 Hy. rewrite (node_at_lookup _ _ _ Hy).
      eapply same_but_id_trans; [exact (Forall2_lookup_lr _ _ _ _ _ _ Hs Hy0 Hy)|].
      done.
    + rewrite fmap_app. intros Hnd' j b Hin Hb.
      apply NoDup_app in Hnd' as (Hnd1 & Hnd2 & _).
      apply elem_of_app in Hin as [Hin|Hin].
      * assert (b <> a) as Hne.
        { intros ->. apply (Hnd2 (Some a)).
          - apply list_elem_of_fmap. by exists (j, Some a).
          - simpl. left. }
        rewrite node_at_insert_ne by done. by apply Hi.
      * apply list_elem_of_singleton in Hin as [= -> ->].
        rewrite node_at_insert_eq by lia. done.
Qed.
Lemma ground_first_battery_same_but_id hc cs h0 h :
  Forall2 same_but_id h0 h ->
  Forall2 (fun n n' => Node.id n' = Node.id n /\ Node.voltage n' = Node.voltage n
                       /\ Node.parent n' = Node.parent n)
          h (ground_first_battery hc cs h).
Proof.
  intros _. unfold ground_first_battery.
  destruct (list_find _ cs) as [[i ca]|]; [|by apply Forall2_refl_frame].
  destruct (Component.terminal _ 1) as [a|]; [|by apply Forall2_refl_frame].
  apply Forall2_insert_related; [by apply Forall2_refl_frame|].
  intros y0 y Hy0 Hy. rewrite (node_at_lookup _ _ _ Hy).
  assert (y0 = y) as -> by congruence. done.
Qed.

Lemma omap_id_lookup (l : list (option nat)) i a :
  Forall is_Some l -> omap id l !! i = Some a <-> l !! i = Some (Some a).
Proof.
  intros Hall. revert i. induction Hall as [|x l [b ->] Hall IH]; intros i.
  { by rewrite !lookup_nil. }
  change (omap id (Some b :: l)) with (b :: omap id l).
  destruct i as [|i]; simpl; [|apply IH]. split; congruence.
Qed.

(** The keys of the node map are the node ids; when they tell the active
    nodes apart, the [i]-th active node is mapped to [i]. *)
Lemma build_nodeMap_index h active k a :
  NoDup active ->
  (forall a b, a ∈ active -> b ∈ active ->
     Node.id (node_at h a) = Node.id (node_at h b) -> a = b) ->
  active !! k = Some a ->
  build_nodeMap h active !! Node.id (node_at h a) = Some k.
Proof.
  unfold build_nodeMap. revert k a.
  induction active as [|x l IH] using rev_ind; intros k a Hnd Hinj Hk.
  { by rewrite lookup_nil in Hk. }
  rewrite imap_app, foldl_app. simpl. rewrite Nat.add_0_r.
  apply NoDup_app in Hnd as (Hnd & Hnin & _).
  destruct (decide (k = length l)) as [->|Hne].
  - rewrite lookup_app_r, Nat.sub_diag in Hk by lia. injection Hk as ->.
    apply lookup_insert_eq.
  - assert (k < length l) as Hlt.
    { apply lookup_lt_Some in Hk. rewrite length_app in Hk. simpl in Hk. lia. }
    rewrite lookup_app_l in Hk by done.
    rewrite lookup_insert_ne.
    + apply IH; [done| |done]. intros b c Hb Hc. apply Hinj; set_solver.
    + intros Heq. apply Hinj in Heq; [|set_solver|].
      * subst x. apply (Hnin a); [by eapply list_elem_of_lookup_2|set_solver].
      * apply elem_of_app. left. by eapply list_elem_of_lookup_2.
Qed.

Lemma rebuildTopology_ids wires e t :
  engine_wf e -> rebuildTopology wires e = Ok t ->
  Forall (fun a => a < length (node_store t)) (engine_nodes t)
  /\ forall i a, engine_nodes t !! i = Some a ->
       Node.id (node_at (node_store t) a) = "node_" +:+ pretty i.
Proof.
  intros Hwf Ht.
  destruct (rebuildTopology_spec wires e Hwf)
    as (t' & Ht' & [_ Hvalid] & _ & _ & (_ & _ & _ & Hnodes)).
  assert (t' = t) as -> by congruence.
  assert (Forall (fun a => a < length (node_store t)) (engine_nodes t))
    as Hrange.
  { apply Forall_forall. intros a Ha.
    destruct (Hnodes a Ha) as (_ & ca & k & _ & Hk).
    eapply (terminal_valid _ _ ca k); [done|]. by apply terminal_Some. }
  split; [done|].
  destruct (rebuildTopology_stages _ _ _ Ht) as (h3 & h4 & hc4 & h5 & _ & _ & Hi & ->).
  simpl in *.
  set (cs := engine_components e) in *.
  destruct (uniqueNodes_spec hc4 cs) as [Hnd _].
  destruct (assign_ids_spec _ _ _ Hi Hnd) as (Hlen & Hsame & Hids).
  pose proof (ground_first_battery_same_but_id hc4 cs h4 h5 Hsame) as Hg.
  pose proof (Forall2_length _ _ _ Hg) as Hlen6.
  intros i a Hia.
  assert (Forall is_Some (uniqueNodes hc4 cs)) as Hall.
  { clear -Hi. unfold assign_ids in Hi.
    apply Forall_forall. intros x Hx. apply list_elem_of_lookup in Hx as [j Hj].
    destruct x as [b|]; [done|]. exfalso.
    assert ((j, @None nat) ∈ imap pair (uniqueNodes hc4 cs)) as Hin.
    { apply list_elem_of_lookup. exists j. by rewrite list_lookup_imap, Hj. }
    revert Hi Hin. generalize (imap pair (uniqueNodes hc4 cs)) h4.
    induction l as [|[j' o] l IH]; intros g Hrun Hin; simpl in *.
    { by apply elem_of_nil in Hin. }
    apply bind_Ok in Hrun as (g' & Hg' & Hrun).
    apply elem_of_cons in Hin as [[= <- <-]|Hin]; [done|]. by eapply IH. }
  apply (omap_id_lookup _ _ _ Hall) in Hia.
  rewrite Forall_forall in Hrange.
  assert (a < length h4) as Ha.
  { rewrite <- Hlen, Hlen6. apply Hrange.
    apply list_elem_of_lookup. exists i. by apply omap_id_lookup. }
  rewrite <- (Hids i a Hia Ha).
  assert (is_Some (h5 !! a)) as [n Hn] by (apply lookup_lt_is_Some; lia).
  destruct (Forall2_lookup_l _ _ _ _ _ Hg Hn) as (n' & Hn' & Hid & _).
  unfold node_at. by rewrite Hn, Hn'.
Qed.

(** After a rebuild, the nodes of the node list carry the ids [node_0],
    [node_1], ... in order, so [solve]'s node map, which is keyed by id,
    tells them apart: the [k]-th node that is not ground is given row and
    column [k] of the system, and no two unknown nodes share a row. *)
Theorem rebuildCircuit_one_row_per_node (wires : list wire)
  (e : CircuitEngine) :
  engine_wf e ->
  exists e',
    rebuildCircuit wires e = Ok e'
    /\ (forall i a, engine_nodes e' !! i = Some a ->
          Node.id (node_at (node_store e') a) = "node_" +:+ pretty i)
    /\ forall k a, activeNodes e' !! k = Some a ->
         getIdx (node_store e')
                (build_nodeMap (node_store e') (activeNodes e')) (Some a)
         = Some k.
Proof.
  intros Hwf. unfold rebuildCircuit.
  destruct (rebuildTopology_spec wires e Hwf)
    as (t & Ht & _ & _ & _ & (Hnd & _)).
  destruct (rebuildTopology_ids _ _ _ Hwf Ht) as [_ Hids].
  destruct (solve_frame t) as (e' & He' & (Hen & _ & Hnf & _)).
  exists e'. rewrite Ht, bind_Ok_l. split; [done|].
  assert (forall i a, engine_nodes e' !! i = Some a ->
            Node.id (node_at (node_store e') a) = "node_" +:+ pretty i)
    as Hids'.
  { intros i a. rewrite Hen. intros Hia.
    destruct (node_frame_node_at _ _ a Hnf) as (-> & _). by apply Hids. }
  split; [done|]. intros k a Hk.
  assert (a ∈ activeNodes e') as Hin by (by eapply list_elem_of_lookup_2).
  pose proof Hin as Hact. unfold activeNodes in Hact.
  apply list_elem_of_filter in Hact as [Hgnd _].
  unfold getIdx. rewrite Hgnd.
  apply build_nodeMap_index; [| |done].
  - unfold activeNodes. apply NoDup_filter. by rewrite Hen.
  - intros b c Hb Hc Hid.
    apply list_elem_of_filter in Hb as [_ Hb].
    apply list_elem_of_filter in Hc as [_ Hc].
    apply list_elem_of_lookup in Hb as [i Hi].
    apply list_elem_of_lookup in Hc as [j Hj].
    rewrite (Hids' _ _ Hi), (Hids' _ _ Hj) in Hid.
    cbn [String.append] in Hid. injection Hid as Hid.
    simpl in Hid. apply pretty_nat_inj in Hid. rewrite Hid in Hi. congruence.
Qed.

Lemma rebuildCircuit_one_row_per_node_witness :
  let e := (addComponent 1 "led" (addComponent 0 "battery" empty_engine).1).1 in
  exists e',
    rebuildCircuit [mkWire (Some 0) 0 (Some 1) 0] e = Ok e'
    /\ (forall i a, engine_nodes e' !! i = Some a ->
          Node.id (node_at (node_store e') a) = "node_" +:+ pretty i)
    /\ forall k a, activeNodes e' !! k = Some a ->
         getIdx (node_store e')
                (build_nodeMap (node_store e') (activeNodes e')) (Some a)
         = Some k.
Proof.
  apply rebuildCircuit_one_row_per_node.
  apply engine_wf_addComponent, engine_wf_addComponent, engine_wf_empty.
Defined.

(** ** Union-find: roots and classes *)

Lemma root_of_is_root h a r : root_of h a r -> is_root h r.
Proof. induction 1; done. Qed.

Lemma root_of_inj h a r1 r2 : root_of h a r1 -> root_of h a r2 -> r1 = r2.
Proof.
  intros H1. revert r2. induction H1 as [a Ha|a r Hne H1 IH]; intros r2 H2.
  - inversion H2 as [|? ? Hne' _]; subst; [done|]. by destruct Hne'.
  - inversion H2 as [? Ha|]; subst; [by destruct Hne|]. by apply IH.
Qed.

(** A root differs from no node of an empty store but [0]; so two
    different roots are both stored. *)
Lemma is_root_stored h r1 r2 :
  is_root h r1 -> is_root h r2 -> r1 <> r2 -> r1 < length h.
Proof.
  unfold is_root, node_at. intros H1 H2 Hne.
  destruct (decide (r1 < length h)) as [|Hge]; [done|]. exfalso.
  rewrite (proj2 (lookup_ge_None h r1)) in H1 by lia. simpl in H1.
  destruct h as [|n h]; [|simpl in Hge; lia].
  rewrite lookup_nil in H2. simpl in H2. congruence.
Qed.

(** Path compression: pointing a node at its root changes no root. *)
Lemma root_of_compress h a r b rb :
  root_of h a r -> root_of h b rb ->
  root_of (<[a := Node.set_parent r (node_at h a)]> h) b rb.
Proof.
  intros Ha Hb.
  destruct (decide (a < length h)) as [Hlt|Hge];
    [|by rewrite list_insert_ge by lia].
  induction Hb as [b Hroot|b rb Hne Hb IH].
  - apply root_here. unfold is_root in *.
    destruct (decide (b = a)) as [->|Hba].
    + rewrite node_at_insert_eq by done. simpl.
      inversion Ha as [|? ? Hne' _]; subst; [done|]. by destruct Hne'.
    + by rewrite node_at_insert_ne.
  - destruct (decide (b = a)) as [->|Hba].
    + assert (rb = r) as ->.
      { eapply root_of_inj; [|exact Ha]. by eapply root_step. }
      pose proof (root_of_is_root _ _ _ Ha) as Hr.
      assert (r <> a) as Hra by (intros ->; by destruct Hne).
      apply root_step.
      * by rewrite node_at_insert_eq.
      * rewrite node_at_insert_eq by done. simpl.
        apply root_here. unfold is_root. by rewrite node_at_insert_ne.
    + apply root_step; rewrite node_at_insert_ne by done; done.
Qed.

(** [find] returns the root of its argument and, path compression
    notwithstanding, leaves every node with the root it had. *)
Lemma find_root fuel h a h' r :
  find fuel h a = Ok (h', r) ->
  root_of h a r /\ forall b rb, root_of h b rb -> root_of h' b rb.
Proof.
  revert h a h' r. induction fuel as [|fuel IH]; intros h a h' r; simpl; [done|].
  destruct (Nat.eqb_spec (Node.parent (node_at h a)) a) as [Heq|Hne].
  { intros [= <- <-]. rewrite Heq. split; [by apply root_here|done]. }
  intros H. apply bind_Ok in H as ([h1 r1] & Hfind & [= <- <-]).
  destruct (IH _ _ _ _ Hfind) as [Hr Hkeep].
  assert (root_of h a r1) as Ha by (by apply root_step).
  split; [done|]. intros b rb Hb. apply root_of_compress; by apply Hkeep.
Qed.

(** Linking the root [r1] under another root [r2]: the nodes of [r1]'s
    class get the root [r2], all others keep theirs. *)
Lemma root_of_link h r1 r2 b rb :
  is_root h r1 -> is_root h r2 -> r1 <> r2 -> root_of h b rb ->
  root_of (<[r1 := Node.set_parent r2 (node_at h r1)]> h) b
          (if decide (rb = r1) then r2 else rb).
Proof.
  intros H1 H2 Hne Hb.
  pose proof (is_root_stored _ _ _ H1 H2 Hne) as Hlt.
  assert (root_of (<[r1 := Node.set_parent r2 (node_at h r1)]> h) r2 r2)
    as Hr2.
  { apply root_here. unfold is_root. by rewrite node_at_insert_ne. }
  induction Hb as [b Hroot|b rb Hnb Hb IH].
  - case_decide as Hb1.
    + subst b. apply root_step; rewrite node_at_insert_eq by done; simpl;
        [congruence|done].
    + apply root_here. unfold is_root. by rewrite node_at_insert_ne.
  - assert (b <> r1) as Hb1 by (intros ->; by destruct Hnb).
    apply root_step; rewrite node_at_insert_ne by done; done.
Qed.

Lemma same_class_refl h a r : root_of h a r -> same_class h a a.
Proof. intros H. by exists r. Qed.

Lemma same_class_sym h a b : same_class h a b -> same_class h b a.
Proof. intros (r & ? & ?). by exists r. Qed.

Lemma same_class_trans h a b c :
  same_class h a b -> same_class h b c -> same_class h a c.
Proof.
  intros (r & Ha & Hb) (r' & Hb' & Hc).
  assert (r' = r) as -> by exact (root_of_inj _ _ _ _ Hb' Hb). by exists r.
Qed.

(** [union] puts its two arguments in one class and separates no two
    nodes that were in one class. *)
Lemma union_classes fuel h n1 n2 h' :
  union fuel h n1 n2 = Ok h' ->
  same_class h' n1 n2
  /\ forall a b, same_class h a b -> same_class h' a b.
Proof.
  unfold union. intros H.
  apply bind_Ok in H as ([g1 r1] & Hf1 & H).
  apply bind_Ok in H as ([g2 r2] & Hf2 & [= <-]).
  destruct (find_root _ _ _ _ _ Hf1) as [Hr1 Hk1].
  destruct (find_root _ _ _ _ _ Hf2) as [Hr2 Hk2].
  pose proof (Hk2 _ _ (Hk1 _ _ Hr1)) as Hn1.
  pose proof (Hk2 _ _ Hr2) as Hn2.
  destruct (Nat.eqb_spec r1 r2) as [->|Hne].
  { split; [by exists r2|]. intros a b (r & Ha & Hb). exists r.
    split; by apply Hk2, Hk1. }
  pose proof (root_of_is_root _ _ _ Hn1) as Hroot1.
  pose proof (root_of_is_root _ _ _ Hn2) as Hroot2.
  split.
  - exists r2. split.
    + pose proof (root_of_link _ _ _ _ _ Hroot1 Hroot2 Hne Hn1) as Hl.
      by rewrite decide_True in Hl.
    + pose proof (root_of_link _ _ _ _ _ Hroot1 Hroot2 Hne Hn2) as Hl.
      by rewrite decide_False in Hl.
  - intros a b (r & Ha & Hb).
    exists (if decide (r = r1) then r2 else r).
    split; apply root_of_link; try done; by apply Hk2, Hk1.
Qed.

(** After the wire loop, the two nodes of every wire that passed the
    check are in one class. *)
Lemma wires_classes fuel hc wires h h' :
  forM (apply_wire fuel hc) wires h = Ok h' ->
  (forall a b, same_class h a b -> same_class h' a b)
  /\ forall w n1 n2, w ∈ wires -> wire_ends hc w = Some (n1, n2) ->
       same_class h' n1 n2.
Proof.
  intros Hrun.
  eapply (forM_prefix_invariant
            (fun pre g =>
               (forall a b, same_class h a b -> same_class g a b)
               /\ forall w n1 n2, w ∈ pre -> wire_ends hc w = Some (n1, n2) ->
                    same_class g n1 n2)); [| |exact Hrun].
  - split; [done|]. intros w n1 n2 Hw. by apply elem_of_nil in Hw.
  - intros pre w g g' [Hkeep Hdone]. unfold apply_wire.
    destruct (wire_ends hc w) as [[n1 n2]|] eqn:Hends.
    + intros Hu. destruct (union_classes _ _ _ _ _ Hu) as [Hjoin Hmono].
      split; [intros a b Hab; by apply Hmono, Hkeep|].
      intros w' m1 m2 Hw' Hends'.
      apply elem_of_app in Hw' as [Hw'|Hw'].
      * by apply Hmono, (Hdone w').
      * apply list_elem_of_singleton in Hw' as ->. congruence.
    + intros [= <-]. split; [done|].
      intros w' m1 m2 Hw' Hends'.
      apply elem_of_app in Hw' as [Hw'|Hw']; [by apply (Hdone w')|].
      apply list_elem_of_singleton in Hw' as ->. congruence.
Qed.
(** ** Step 4: which root a slot receives *)

Lemma terminal_set_slot c i o k :
  Component.terminal
    (Component.set_nodes (<[i := o]> (Component.nodes c)) c) k
  = if decide (k = i /\ i < length (Component.nodes c)) then o
    else Component.terminal c k.
Proof.
  unfold Component.terminal. simpl.
  destruct (decide (k = i)) as [->|Hne].
  - destruct (decide (i < length (Component.nodes c))) as [Hlt|Hge].
    + rewrite list_lookup_insert_eq by done. by rewrite decide_True.
    + rewrite list_insert_ge by lia. rewrite decide_False by lia. done.
  - rewrite list_lookup_insert_ne by done. rewrite decide_False by lia. done.
Qed.

Lemma root_slot_step h0 hc0 fuel ca i h hc n g r :
  roots_kept h0 hc0 (h, hc) ->
  Component.terminal (comp_at hc ca) i = Some n ->
  find fuel h n = Ok (g, r) ->
  let s' := (g, <[ca := Component.set_nodes
                          (<[i := Some r]> (Component.nodes (comp_at hc ca)))
                          (comp_at hc ca)]> hc) in
  roots_kept h0 hc0 s'
  /\ slot_rooted h0 hc0 ca i s'
  /\ forall ca' k, slot_rooted h0 hc0 ca' k (h, hc) ->
       slot_rooted h0 hc0 ca' k s'.
Proof.
  intros (K1 & K2 & K3) Hn Hfind. simpl in K1, K2, K3.
  destruct (find_root _ _ _ _ _ Hfind) as [Hr Hkeep].
  destruct (find_spec _ _ _ _ _ Hfind) as (_ & Hroot & _).
  destruct (terminal_comp_at_Some _ _ _ _ Hn) as (c & Hc & Hi).
  pose proof (lookup_lt_Some _ _ _ Hc) as Hca.
  pose proof (lookup_lt_Some _ _ _ Hi) as Hilt.
  rewrite (comp_at_lookup _ _ _ Hc) in *.
  assert (forall m q, Component.terminal (comp_at hc0 ca) i = Some m ->
            root_of h0 m q -> q = r) as Hsame.
  { intros m q Hm Hq. destruct (K2 _ _ _ _ Hm Hq) as (a & Ha & Haq).
    rewrite (comp_at_lookup _ _ _ Hc) in Ha.
    assert (a = n) as -> by congruence. by eapply root_of_inj. }
  assert (forall ca' k,
            Component.terminal
              (comp_at (<[ca := Component.set_nodes
                                  (<[i := Some r]> (Component.nodes c)) c]> hc)
                       ca') k
            = if decide (ca' = ca /\ k = i) then Some r
              else Component.terminal (comp_at hc ca') k) as Hterm.
  { intros ca' k. destruct (decide (ca' = ca)) as [->|Hne].
    - rewrite comp_at_insert_eq by done. rewrite terminal_set_slot.
      rewrite (comp_at_lookup _ _ _ Hc).
      destruct (decide (k = i)) as [->|Hk].
      + rewrite !decide_True by done. done.
      + rewrite !decide_False by lia. done.
    - rewrite comp_at_insert_ne by done. rewrite decide_False by lia. done. }
  cbv zeta. unfold roots_kept, slot_rooted. simpl. split_and!.
  - intros b rb Hb. by apply Hkeep, K1.
  - intros ca' k m q Hm Hq. rewrite Hterm.
    case_decide as Hck.
    + destruct Hck as [-> ->]. exists r. split; [done|].
      rewrite (Hsame _ _ Hm Hq). by apply root_here.
    + destruct (K2 _ _ _ _ Hm Hq) as (a & Ha & Haq).
      exists a. split; [done|]. by apply Hkeep.
  - intros ca'. destruct (decide (ca' = ca)) as [->|Hne].
    + rewrite comp_at_insert_eq by done. simpl. rewrite length_insert.
      rewrite <- K3. by rewrite (comp_at_lookup _ _ _ Hc).
    + rewrite comp_at_insert_ne by done. apply K3.
  - intros m q Hm Hq. rewrite Hterm, decide_True by done.
    by rewrite (Hsame _ _ Hm Hq).
  - intros ca' k Hdone m q Hm Hq. rewrite Hterm.
    case_decide as Hck; [|by apply (Hdone m q)].
    destruct Hck as [-> ->]. by rewrite (Hsame _ _ Hm Hq).
Qed.

Lemma root_terminals_roots h0 hc0 fuel ca s s' :
  roots_kept h0 hc0 s ->
  root_terminals fuel s ca = Ok s' ->
  roots_kept h0 hc0 s'
  /\ (forall k, slot_rooted h0 hc0 ca k s')
  /\ forall ca' k, slot_rooted h0 hc0 ca' k s -> slot_rooted h0 hc0 ca' k s'.
Proof.
  destruct s as [h hc]. intros HK Hrun. unfold root_terminals in Hrun.
  set (len := length (Component.nodes (comp_at hc ca))) in *.
  pose (I := fun (pre : list nat) (t : list Node.t * list Component.t) =>
    roots_kept h0 hc0 t
    /\ (forall k, k ∈ pre -> slot_rooted h0 hc0 ca k t)
    /\ forall ca' k, slot_rooted h0 hc0 ca' k (h, hc) ->
         slot_rooted h0 hc0 ca' k t).
  assert (I (seq 0 len) s') as (H1 & H2 & H3).
  { eapply (forM_prefix_invariant I); [| |exact Hrun].
    - split_and!; [done| |done]. intros k Hk. by apply elem_of_nil in Hk.
    - clear Hrun. intros pre i [g gc] t (J1 & J2 & J3). cbn [fst snd].
      destruct (Component.terminal (comp_at gc ca) i) as [n|] eqn:Hn; [|done].
      intros H. apply bind_Ok in H as ([g' r] & Hfind & [= <-]).
      destruct (root_slot_step h0 hc0 fuel ca i g gc n g' r J1 Hn Hfind)
        as (S1 & S2 & S3).
      split_and!; [done| |].
      + intros k Hk. apply elem_of_app in Hk as [Hk|Hk].
        * by apply S3, J2.
        * apply list_elem_of_singleton in Hk as ->. done.
      + intros ca' k Hd. by apply S3, J3. }
  split_and!; [done| |done].
  intros k m q Hm Hq.
  refine (H2 k _ m q Hm Hq).
  apply elem_of_seq. split; [lia|]. simpl.
  destruct HK as (_ & _ & K3). simpl in K3. unfold len. rewrite K3.
  apply terminal_Some in Hm. by apply lookup_lt_Some in Hm.
Qed.

Lemma step4_roots fuel cs h hc h' hc' :
  forM (root_terminals fuel) cs (h, hc) = Ok (h', hc') ->
  forall ca k n r, ca ∈ cs ->
    Component.terminal (comp_at hc ca) k = Some n -> root_of h n r ->
    Component.terminal (comp_at hc' ca) k = Some r.
Proof.
  intros Hrun.
  pose (I := fun (pre : list nat) (t : list Node.t * list Component.t) =>
    roots_kept h hc t
    /\ forall ca k, ca ∈ pre -> slot_rooted h hc ca k t).
  assert (I cs (h', hc')) as [_ Hdone].
  { eapply (forM_prefix_invariant I); [| |exact Hrun].
    - split.
      + split_and!; [done| |done]. intros ca k n r Hn Hr. by exists n.
      + intros ca k Hca. by apply elem_of_nil in Hca.
    - clear Hrun. intros pre ca s s' [J1 J2] Hrun.
      destruct (root_terminals_roots _ _ _ _ _ _ J1 Hrun) as (S1 & S2 & S3).
      split; [done|]. intros ca' k Hca'.
      apply elem_of_app in Hca' as [Hca'|Hca'].
      + by apply S3, J2.
      + apply list_elem_of_singleton in Hca' as ->. apply S2. }
  intros ca k n r Hca Hn Hr. by apply (Hdone ca k Hca n r).
Qed.

(** ** Wires join terminals *)

Lemma step1_terminal h0 hc0 cs s ca k :
  after_step1 h0 hc0 cs s -> ca ∈ cs -> ca < length hc0 ->
  k < termCount (comp_at hc0 ca) ->
  exists n, Component.terminal (comp_at s.2 ca) k = Some n.
Proof.
  intros (_ & _ & _ & Hin) Hca Hlt Hk.
  destruct (Hin ca Hca) as (base & Hnodes & _).
  rewrite decide_True in Hnodes by done.
  exists (base + k). unfold Component.terminal. rewrite Hnodes.
  unfold fresh_refs. rewrite list_lookup_fmap, lookup_seq_lt by done. done.
Qed.

(** A connection edge between two terminals of listed components makes
    them one node: after the rebuild both terminal slots hold the same
    node reference (and so the solver gives both the same voltage). *)
Theorem rebuildCircuit_joins_wired_terminals (wires : list wire)
  (e : CircuitEngine) (w : wire) (sc ec : nat) :
  engine_wf e -> w ∈ wires ->
  startComp w = Some sc -> endComp w = Some ec ->
  sc ∈ engine_components e -> ec ∈ engine_components e ->
  sc < length (comp_store e) -> ec < length (comp_store e) ->
  startTerm w < termCount (comp_at (comp_store e) sc) ->
  endTerm w < termCount (comp_at (comp_store e) ec) ->
  exists e' a,
    rebuildCircuit wires e = Ok e'
    /\ Component.terminal (comp_at (comp_store e') sc) (startTerm w) = Some a
    /\ Component.terminal (comp_at (comp_store e') ec) (endTerm w) = Some a.
Proof.
  intros Hwf Hw Hsc Hec Hscl Hecl Hsclt Heclt Hst Het. unfold rebuildCircuit.
  destruct (rebuildTopology_spec wires e Hwf) as (t & Ht & _).
  destruct (rebuildTopology_stages _ _ _ Ht)
    as (h3 & h4 & hc4 & h5 & Hwires & Hstep4 & _ & Heq).
  pose proof (step1_spec (node_store e) (comp_store e) (engine_components e))
    as Hstep1.
  set (s1 := foldl fresh_terminals (node_store e, comp_store e)
                   (engine_components e)) in *.
  destruct (step1_terminal _ _ _ _ sc (startTerm w) Hstep1 Hscl Hsclt Hst)
    as [n1 Hn1].
  destruct (step1_terminal _ _ _ _ ec (endTerm w) Hstep1 Hecl Heclt Het)
    as [n2 Hn2].
  assert (wire_ends s1.2 w = Some (n1, n2)) as Hends.
  { unfold wire_ends. by rewrite Hsc, Hec, Hn1, Hn2. }
  destruct (wires_classes _ _ _ _ _ Hwires) as [_ Hjoin].
  destruct (Hjoin w n1 n2 Hw Hends) as (r & Hr1 & Hr2).
  pose proof (step4_roots _ _ _ _ _ _ Hstep4 sc _ n1 r Hscl Hn1 Hr1) as Hs.
  pose proof (step4_roots _ _ _ _ _ _ Hstep4 ec _ n2 r Hecl Hn2 Hr2) as He.
  destruct (solve_frame t) as (e' & He' & (_ & _ & _ & Hcf)).
  exists e', r. rewrite Ht, bind_Ok_l. split; [done|].
  unfold Component.terminal in *.
  rewrite !(comp_frame_nodes _ _ _ Hcf). subst t. simpl. done.
Qed.

Lemma rebuildCircuit_joins_wired_terminals_witness :
  let e := (addComponent 1 "led" (addComponent 0 "battery" empty_engine).1).1 in
  let w := mkWire (Some 0) 1 (Some 1) 1 in
  exists e' a,
    rebuildCircuit [mkWire (Some 0) 0 (Some 1) 0; w] e = Ok e'
    /\ Component.terminal (comp_at (comp_store e') 0) 1 = Some a
    /\ Component.terminal (comp_at (comp_store e') 1) 1 = Some a.
Proof.
  apply (rebuildCircuit_joins_wired_terminals
           [mkWire (Some 0) 0 (Some 1) 0; mkWire (Some 0) 1 (Some 1) 1]
           (addComponent 1 "led" (addComponent 0 "battery" empty_engine).1).1
           (mkWire (Some 0) 1 (Some 1) 1) 0 1).
  - apply engine_wf_addComponent, engine_wf_addComponent, engine_wf_empty.
  - apply list_elem_of_In. simpl. auto.
  - reflexivity.
  - reflexivity.
  - apply list_elem_of_In. simpl. auto.
  - apply list_elem_of_In. simpl. auto.
  - simpl. lia.
  - simpl. lia.
  - vm_compute. lia.
  - vm_compute. lia.
Defined.

(** ** The ground reference of a rebuilt circuit *)

Lemma is_type_dummy s : s <> "" -> is_type s Component.dummy = false.
Proof.
  intros Hs. unfold is_type. simpl. by destruct s.
Qed.

Lemma is_type_stored hc ca s :
  s <> "" -> is_type s (comp_at hc ca) = true -> ca < length hc.
Proof.
  intros Hs Hb. destruct (decide (ca < length hc)) as [|Hge]; [done|].
  unfold comp_at in Hb. rewrite (proj2 (lookup_ge_None hc ca)) in Hb by lia.
  simpl in Hb. by rewrite is_type_dummy in Hb.
Qed.

Lemma termCount_battery c : is_type "battery" c = true -> termCount c = 2.
Proof.
  intros Hb. apply is_type_eq in Hb. unfold termCount, is_type. by rewrite Hb.
Qed.

Lemma wires_payload fuel hc wires h h' :
  forM (apply_wire fuel hc) wires h = Ok h' ->
  length h' = length h /\ Forall2 same_payload h h'.
Proof.
  revert h. induction wires as [|w ws IH]; intros h; simpl.
  - intros [= <-]. split; [done|apply Forall2_refl_frame, same_payload_refl].
  - intros H. apply bind_Ok in H as (g & Hg & H).
    destruct (apply_wire_spec _ _ _ _ _ Hg) as [Hl Hp].
    destruct (IH _ H) as [Hl' Hp']. split; [congruence|].
    eapply Forall2_trans; [apply same_payload_trans|done..].
Qed.

(** The node store a rebuild ends with, relative to the store [h5] that
    carries the new ids: the ground flags of [h5] are those of step 1, and
    step 6 sets one flag, on the node in slot 1 of the first battery. *)
Lemma rebuildTopology_ground wires e t :
  engine_wf e -> rebuildTopology wires e = Ok t ->
  let cs := engine_components e in
  let s1 := foldl fresh_terminals (node_store e, comp_store e) cs in
  exists h5,
    length h5 = length s1.1
    /\ (forall a, Node.isGND (node_at h5 a) = Node.isGND (node_at s1.1 a))
    /\ match list_find (fun ca => is_type "battery"
                                    (comp_at (comp_store e) ca) = true) cs with
       | Some (_, ca) =>
           exists a,
             Component.terminal (comp_at (comp_store t) ca) 1 = Some a
             /\ a ∈ engine_nodes t /\ a < length h5
             /\ node_store t = <[a := Node.set_isGND true (node_at h5 a)]> h5
       | None => node_store t = h5
       end.
Proof.
  intros Hwf Ht cs s1.
  destruct (rebuildTopology_spec wires e Hwf)
    as (t' & Ht' & [_ Hvalid] & _ & Hsame & (_ & _ & Hslots & _)).
  assert (t' = t) as -> by congruence.
  destruct (rebuildTopology_ids _ _ _ Hwf Ht) as [Hrange _].
  destruct (rebuildTopology_stages _ _ _ Ht)
    as (h3 & h4 & hc4 & h5 & Hwires & Hstep4 & Hids & Heq).
  fold cs in Hwires, Hstep4, Hids, Heq. fold s1 in Hwires, Hstep4.
  pose proof (step1_spec (node_store e) (comp_store e) cs) as Hstep1.
  fold s1 in Hstep1.
  destruct (wires_payload _ _ _ _ _ Hwires) as [Hl3 Hp3].
  destruct (step4_spec _ _ _ _ _ _ Hstep4) as (Hl4 & Hp4 & _ & _ & Hlen4).
  destruct (uniqueNodes_spec hc4 cs) as [Hnd _].
  destruct (assign_ids_spec _ _ _ Hids Hnd) as (Hl5 & Hp5 & _).
  exists h5. split_and!.
  - congruence.
  - intros a.
    assert (Forall2 same_payload s1.1 h4) as Hp.
    { eapply Forall2_trans; [apply same_payload_trans|done..]. }
    assert (forall (R : Node.t -> Node.t -> Prop) g g',
              R Node.dummy Node.dummy -> Forall2 R g g' ->
              R (node_at g a) (node_at g' a)) as Hat.
    { intros R g g' Hd HF. unfold node_at.
      destruct (g !! a) as [n|] eqn:Hn.
      - destruct (Forall2_lookup_l _ _ _ _ _ HF Hn) as (n' & -> & ?). done.
      - rewrite (proj2 (lookup_ge_None g' a)); [done|].
        rewrite <- (Forall2_length _ _ _ HF). by apply lookup_ge_None. }
    destruct (Hat _ _ _ (same_payload_refl _) Hp) as (_ & _ & <-).
    by destruct (Hat _ _ _ (same_but_id_refl _) Hp5) as (_ & -> & _).
  - subst t. simpl in *. unfold ground_first_battery.
    rewrite (list_find_agree
               (fun ca => is_type "battery" (comp_at hc4 ca) = true)
               (fun ca => is_type "battery" (comp_at (comp_store e) ca) = true)).
    2:{ intros ca _.
        destruct (same_but_nodes_comp_at _ _ ca Hsame) as (_ & Hty & _).
        unfold is_type. by rewrite Hty. }
    destruct (list_find _ cs) as [[i ca]|] eqn:Hfind; [|done].
    apply list_find_Some in Hfind as (Hi & Hb & _).
    apply list_elem_of_lookup_2 in Hi.
    assert (ca < length (comp_store e)) as Hca.
    { by apply (is_type_stored _ _ "battery"). }
    destruct (step1_terminal _ _ _ _ ca 1 Hstep1 Hi Hca) as [n Hn].
    { rewrite (termCount_battery _ Hb). lia. }
    destruct (Hslots ca 1 Hi) as (a & Ha & _ & Hin).
    { destruct (Hlen4 ca Hi) as [-> _].
      apply terminal_Some in Hn. by apply lookup_lt_Some in Hn. }
    apply terminal_Some in Ha. rewrite Ha.
    exists a. split_and!; [done|done| |done].
    rewrite Forall_forall in Hrange. specialize (Hrange a Hin).
    revert Hrange. unfold ground_first_battery.
    rewrite (list_find_agree
               (fun ca => is_type "battery" (comp_at hc4 ca) = true)
               (fun ca => is_type "battery" (comp_at (comp_store e) ca) = true)).
    2:{ intros ca' _.
        destruct (same_but_nodes_comp_at _ _ ca' Hsame) as (_ & Hty & _).
        unfold is_type. by rewrite Hty. }
    destruct (list_find _ cs) as [[i' ca']|]; [|done].
    destruct (Component.terminal (comp_at hc4 ca') 1);
      [by rewrite length_insert|done].
Qed.

(** Step 6 with a battery in the component list: the node in the second
    terminal slot of the first listed battery is in the node list, is
    flagged as ground, and is at exactly 0 V once [rebuildCircuit] has
    run the solver. *)
Theorem rebuildCircuit_grounds_first_battery (wires : list wire)
  (e : CircuitEngine) (i ca : nat) :
  engine_wf e ->
  list_find (fun ca => is_type "battery" (comp_at (comp_store e) ca) = true)
            (engine_components e) = Some (i, ca) ->
  exists e' a,
    rebuildCircuit wires e = Ok e'
    /\ Component.terminal (comp_at (comp_store e') ca) 1 = Some a
    /\ a ∈ engine_nodes e'
    /\ Node.isGND (node_at (node_store e') a) = true
    /\ Node.voltage (node_at (node_store e') a) = 0%float.
Proof.
  intros Hwf Hfind. unfold rebuildCircuit.
  destruct (rebuildTopology_spec wires e Hwf) as (t & Ht & _ & Hcs & Hsame & _).
  destruct (rebuildTopology_ground _ _ _ Hwf Ht) as (h5 & _ & _ & Hg).
  rewrite Hfind in Hg. destruct Hg as (a & Hterm & Hin & Ha & Hstore).
  assert (Node.isGND (node_at (node_store t) a) = true) as Hgnd.
  { rewrite Hstore, node_at_insert_eq by done. done. }
  assert (unknowns t <> 0) as Hu.
  { unfold unknowns. apply list_find_Some in Hfind as (Hi & Hb & _).
    apply list_elem_of_lookup_2 in Hi.
    pose proof (battery_index_bound (comp_store t) (engine_components t) ca)
      as Hlt.
    rewrite Hcs in Hlt. specialize (Hlt Hi).
    destruct (same_but_nodes_comp_at _ _ ca Hsame) as (_ & Hty & _).
    unfold is_type in Hlt, Hb. rewrite Hty in Hlt. specialize (Hlt Hb).
    rewrite Hcs. lia. }
  destruct (solve_passes_Ok t) as [ps Hps].
  pose proof (solve_final_ground _ _ _ Hps Hu Hin Hgnd) as Hzero.
  destruct (solve_frame t) as (e' & He' & (Hen & _ & Hnf & Hcf)).
  assert (e' = final_state t ps) as Hfin.
  { pose proof (solve_unfold _ _ Hps). congruence. }
  exists e', a. rewrite Ht, bind_Ok_l. split_and!; [done| | | |].
  - unfold Component.terminal. by rewrite (comp_frame_nodes _ _ _ Hcf).
  - by rewrite Hen.
  - destruct (node_frame_node_at _ _ a Hnf) as (_ & -> & _). done.
  - by rewrite Hfin.
Qed.

Lemma rebuildCircuit_grounds_first_battery_witness :
  let e := (addComponent 1 "battery"
              (addComponent 0 "resistor" empty_engine).1).1 in
  exists e' a,
    rebuildCircuit [mkWire (Some 0) 0 (Some 1) 0] e = Ok e'
    /\ Component.terminal (comp_at (comp_store e') 1) 1 = Some a
    /\ a ∈ engine_nodes e'
    /\ Node.isGND (node_at (node_store e') a) = true
    /\ Node.voltage (node_at (node_store e') a) = 0%float.
Proof.
  apply (rebuildCircuit_grounds_first_battery
           [mkWire (Some 0) 0 (Some 1) 0]
           (addComponent 1 "battery"
              (addComponent 0 "resistor" empty_engine).1).1 1 1).
  - apply engine_wf_addComponent, engine_wf_addComponent, engine_wf_empty.
  - reflexivity.
Defined.

(** ** Nodes are the classes of the wiring *)

Lemma root_of_total h a : forest h -> a < length h -> exists r, root_of h a r.
Proof.
  intros [rank Hf] Ha.
  destruct (find_Ok rank (S (length h)) h a Hf Ha) as (h' & r & Hfind & _).
  { pose proof (above_le rank h a). lia. }
  exists r. by apply (find_root _ _ _ _ _ Hfind).
Qed.

(** Path compression creates no root relation either. *)
Lemma root_of_compress_back h a r b rb :
  root_of h a r ->
  root_of (<[a := Node.set_parent r (node_at h a)]> h) b rb ->
  root_of h b rb.
Proof.
  intros Ha.
  destruct (decide (a < length h)) as [Hlt|Hge];
    [|by rewrite list_insert_ge by lia].
  pose proof (root_of_is_root _ _ _ Ha) as Hr.
  induction 1 as [b Hroot|b rb Hnb Hb IH].
  - unfold is_root in Hroot. destruct (decide (b = a)) as [->|Hba].
    + rewrite node_at_insert_eq in Hroot by done. simpl in Hroot. by subst r.
    + rewrite node_at_insert_ne in Hroot by done. by apply root_here.
  - destruct (decide (b = a)) as [->|Hba].
    + rewrite node_at_insert_eq in Hnb, IH by done. simpl in Hnb, IH.
      assert (rb = r) as ->; [|done].
      eapply root_of_inj; [exact IH|by apply root_here].
    + rewrite node_at_insert_ne in Hnb, IH by done. by apply root_step.
Qed.

Lemma find_root_back fuel h a h' r :
  find fuel h a = Ok (h', r) ->
  forall b rb, root_of h' b rb -> root_of h b rb.
Proof.
  revert h a h' r. induction fuel as [|fuel IH]; intros h a h' r; simpl; [done|].
  destruct (Nat.eqb_spec (Node.parent (node_at h a)) a) as [Heq|Hne].
  { by intros [= <- <-]. }
  intros H. apply bind_Ok in H as ([h1 r1] & Hfind & [= <- <-]).
  destruct (find_root _ _ _ _ _ Hfind) as [Hr Hkeep].
  intros b rb Hb. apply (IH _ _ _ _ Hfind).
  eapply root_of_compress_back; [|exact Hb].
  apply Hkeep. by apply root_step.
Qed.

Lemma root_of_link_back h r1 r2 b rb' :
  is_root h r1 -> is_root h r2 -> r1 <> r2 ->
  root_of (<[r1 := Node.set_parent r2 (node_at h r1)]> h) b rb' ->
  exists rb, root_of h b rb /\ rb' = if decide (rb = r1) then r2 else rb.
Proof.
  intros H1 H2 Hne.
  pose proof (is_root_stored _ _ _ H1 H2 Hne) as Hlt.
  induction 1 as [b Hroot|b rb' Hnb Hb IH].
  - unfold is_root in Hroot. destruct (decide (b = r1)) as [->|Hb1].
    + rewrite node_at_insert_eq in Hroot by done. simpl in Hroot. congruence.
    + rewrite node_at_insert_ne in Hroot by done.
      exists b. split; [by apply root_here|]. by rewrite decide_False.
  - destruct IH as (rb & Hrb & ->).
    destruct (decide (b = r1)) as [->|Hb1].
    + rewrite node_at_insert_eq in Hrb by done. simpl in Hrb.
      assert (rb = r2) as ->.
      { eapply root_of_inj; [exact Hrb|by apply root_here]. }
      exists r1. split; [by apply root_here|].
      rewrite (decide_False (P := r2 = r1)) by congruence.
      by rewrite decide_True.
    + rewrite node_at_insert_ne in Hnb, Hrb by done.
      exists rb. split; [by apply root_step|done].
Qed.

(** [union] merges the classes of its two arguments and nothing else. *)
Lemma union_classes_back fuel h n1 n2 h' a b :
  union fuel h n1 n2 = Ok h' -> same_class h' a b ->
  same_class h a b
  \/ (same_class h a n1 /\ same_class h b n2)
  \/ (same_class h a n2 /\ same_class h b n1).
Proof.
  unfold union. intros H.
  apply bind_Ok in H as ([g1 r1] & Hf1 & H).
  apply bind_Ok in H as ([g2 r2] & Hf2 & [= <-]).
  destruct (find_root _ _ _ _ _ Hf1) as [Hr1 Hk1].
  destruct (find_root _ _ _ _ _ Hf2) as [Hr2 Hk2].
  pose proof (find_root_back _ _ _ _ _ Hf1) as Hb1.
  pose proof (find_root_back _ _ _ _ _ Hf2) as Hb2.
  pose proof (Hb1 _ _ Hr2) as Hr2'.
  destruct (Nat.eqb_spec r1 r2) as [->|Hne].
  { intros (r & Ha & Hb). left. exists r. split; by apply Hb1, Hb2. }
  pose proof (root_of_is_root _ _ _ (Hk2 _ _ (Hk1 _ _ Hr1))) as Hroot1.
  pose proof (root_of_is_root _ _ _ (Hk2 _ _ Hr2)) as Hroot2.
  intros (r & Ha & Hb).
  apply (root_of_link_back _ _ _ _ _ Hroot1 Hroot2 Hne) in Ha as (ra & Ha & Era).
  apply (root_of_link_back _ _ _ _ _ Hroot1 Hroot2 Hne) in Hb as (rb & Hb & Erb).
  apply Hb2, Hb1 in Ha. apply Hb2, Hb1 in Hb.
  destruct (decide (ra = rb)) as [->|Hab]; [left; by exists rb|].
  right. rewrite Era in Erb. clear Era.
  destruct (decide (ra = r1)) as [Ha1|Ha1];
    destruct (decide (rb = r1)) as [Hb1'|Hb1']; try congruence.
  - left. rewrite Ha1 in Ha. rewrite <- Erb in Hb.
    split; [by exists r1|by exists r2].
  - right. rewrite Erb in Ha. rewrite Hb1' in Hb.
    split; [by exists r2|by exists r1].
Qed.

(** After the wire loop, two nodes that each were a root of their own at
    the start are in one class only if a chain of joined pairs leads from
    one to the other. *)
Lemma wires_classes_back fuel hc wires h h' (fresh : nat -> Prop) :
  (forall a, fresh a -> is_root h a) ->
  (forall w n1 n2, w ∈ wires -> wire_ends hc w = Some (n1, n2) ->
     fresh n1 /\ fresh n2) ->
  forM (apply_wire fuel hc) wires h = Ok h' ->
  forall a b, fresh a -> fresh b -> same_class h' a b ->
    rtsc (wire_pair hc wires) a b.
Proof.
  intros Hroots Hfresh Hrun.
  assert (forall pre g,
            (forall w, w ∈ pre -> w ∈ wires) ->
            forM (apply_wire fuel hc) pre h = Ok g ->
            forall a b, fresh a -> fresh b -> same_class g a b ->
              rtsc (wire_pair hc pre) a b) as Hgen.
  { induction pre as [|w pre IH] using rev_ind; intros g Hsub.
    - simpl. intros [= <-] a b Ha Hb (r & Hra & Hrb).
      assert (r = a) as ->.
      { eapply root_of_inj; [exact Hra|]. by apply root_here, Hroots. }
      assert (a = b) as ->.
      { eapply root_of_inj; [exact Hrb|]. by apply root_here, Hroots. }
      done.
    - rewrite forM_app. intros H. apply bind_Ok in H as (g0 & Hg0 & H).
      simpl in H. apply bind_Ok in H as (g1 & Hw & [= <-]).
      assert (forall a b, fresh a -> fresh b -> same_class g0 a b ->
                rtsc (wire_pair hc (pre ++ [w])) a b) as Hold.
      { intros a b Ha Hb Hab.
        eapply (rtsc_congruence id); [|apply (IH g0); try done].
        - intros x y (w' & Hw' & He). exists w'.
          split; [apply elem_of_app; by left|done].
        - intros w' Hw'. apply Hsub. apply elem_of_app. by left. }
      assert (w ∈ pre ++ [w]) as Hlast.
      { apply elem_of_app. right. apply list_elem_of_singleton. done. }
      unfold apply_wire in Hw.
      destruct (wire_ends hc w) as [[n1 n2]|] eqn:Hends.
      2:{ injection Hw as <-. exact Hold. }
      destruct (Hfresh w n1 n2) as [Hf1 Hf2]; [by apply Hsub|done|].
      assert (rtsc (wire_pair hc (pre ++ [w])) n1 n2) as Hpair.
      { apply rtsc_lr. by exists w. }
      intros a b Ha Hb Hab.
      destruct (union_classes_back _ _ _ _ _ _ _ Hw Hab)
        as [Hc|[[Hc1 Hc2]|[Hc1 Hc2]]].
      + by apply Hold.
      + trans n1; [by apply Hold|]. trans n2; [exact Hpair|].
        symmetry. by apply Hold.
      + trans n2; [by apply Hold|]. trans n1; [symmetry; exact Hpair|].
        symmetry. by apply Hold. }
  by apply (Hgen wires h').
Qed.
Lemma terminal_fresh_refs c base t k n :
  Component.terminal (Component.set_nodes (fresh_refs base t) c) k = Some n
  <-> k < t /\ n = base + k.
Proof.
  unfold Component.terminal, fresh_refs. simpl. rewrite list_lookup_fmap.
  destruct (decide (k < t)) as [Hlt|Hge].
  - rewrite lookup_seq_lt by done. simpl. split.
    + intros [= <-]. done.
    + intros [_ ->]. done.
  - rewrite lookup_seq_ge by lia. simpl. split; [done|lia].
Qed.

(** Step 1 gives different terminals of listed components different
    nodes. *)
Lemma step1_injective h0 hc0 cs ca ca' k k' n :
  let s := foldl fresh_terminals (h0, hc0) cs in
  ca ∈ cs -> ca' ∈ cs ->
  Component.terminal (comp_at s.2 ca) k = Some n ->
  Component.terminal (comp_at s.2 ca') k' = Some n ->
  ca = ca' /\ k = k'.
Proof.
  intros s.
  pose (I := fun (pre : list nat) (s : list Node.t * list Component.t) =>
    (forall ca k n, ca ∈ pre ->
       Component.terminal (comp_at s.2 ca) k = Some n -> n < length s.1)
    /\ forall ca ca' k k' n, ca ∈ pre -> ca' ∈ pre ->
         Component.terminal (comp_at s.2 ca) k = Some n ->
         Component.terminal (comp_at s.2 ca') k' = Some n ->
         ca = ca' /\ k = k').
  assert (I cs s) as [_ Hinj].
  { apply (foldl_prefix_invariant I).
    { split; intros; by match goal with H : _ ∈ [] |- _ =>
                          apply elem_of_nil in H end. }
    clear. intros pre c0 [h hc] [Hlt Hinj]. simpl in Hlt, Hinj.
    rewrite fresh_terminals_eq. set (c := comp_at hc c0).
    set (t := termCount c).
    assert (forall ca k n, ca ∈ pre ++ [c0] ->
              Component.terminal
                (comp_at (<[c0 := Component.set_nodes
                                    (fresh_refs (length h) t) c]> hc) ca) k
              = Some n ->
              (ca = c0 /\ k < t /\ n = length h + k)
              \/ (ca <> c0 /\ ca ∈ pre
                  /\ Component.terminal (comp_at hc ca) k = Some n)) as Hcases.
    { intros ca k n Hca. destruct (decide (ca = c0)) as [->|Hne].
      - destruct (decide (c0 < length hc)) as [Hin|Hout].
        + rewrite comp_at_insert_eq by done. intros Hn.
          apply terminal_fresh_refs in Hn. by left.
        + rewrite list_insert_ge by lia. unfold comp_at.
          rewrite (proj2 (lookup_ge_None hc c0)) by lia. done.
      - rewrite comp_at_insert_ne by done. intros Hn. right.
        split_and!; [done| |done].
        apply elem_of_app in Hca as [?|Hca]; [done|].
        by apply list_elem_of_singleton in Hca. }
    split; simpl.
    - intros ca k n Hca Hn. rewrite length_app, length_fresh_nodes.
      destruct (Hcases _ _ _ Hca Hn) as [(_ & ? & ->)|(_ & Hpre & Hold)];
        [lia|]. specialize (Hlt _ _ _ Hpre Hold). lia.
    - intros ca ca' k k' n Hca Hca' Hn Hn'.
      destruct (Hcases _ _ _ Hca Hn) as [(-> & ? & Hk)|(? & Hpre & Hold)];
        destruct (Hcases _ _ _ Hca' Hn')
          as [(-> & ? & Hk')|(? & Hpre' & Hold')].
      + split; [done|lia].
      + specialize (Hlt _ _ _ Hpre' Hold'). lia.
      + specialize (Hlt _ _ _ Hpre Hold). lia.
      + by eapply Hinj. }
  intros Hca Hca' Hn Hn'. by eapply Hinj.
Qed.

(** What step 1 leaves in the slots of the listed components. *)
Lemma step1_slots h0 hc0 cs s :
  after_step1 h0 hc0 cs s ->
  (forall ca k, ca ∈ cs -> ca < length hc0 ->
     k < termCount (comp_at hc0 ca) ->
     exists n, Component.terminal (comp_at s.2 ca) k = Some n)
  /\ (forall ca k n, ca ∈ cs ->
        Component.terminal (comp_at s.2 ca) k = Some n ->
        ca < length hc0 /\ k < termCount (comp_at hc0 ca)
        /\ length h0 <= n < length s.1)
  /\ forall n, length h0 <= n < length s.1 -> is_root s.1 n.
Proof.
  intros Hstep. split_and!.
  - intros ca k. by apply (step1_terminal h0 hc0 cs s).
  - destruct Hstep as (_ & _ & _ & Hin). intros ca k n Hca Hn.
    destruct (Hin ca Hca) as (base & Hnodes & Hlo & Hhi).
    unfold Component.terminal in Hn. rewrite Hnodes in Hn.
    case_decide as Hlt; [|by rewrite lookup_nil in Hn].
    unfold fresh_refs in Hn. rewrite list_lookup_fmap in Hn.
    destruct (seq 0 (termCount (comp_at hc0 ca)) !! k) as [i|] eqn:Hi;
      [|done].
    apply lookup_seq in Hi as [-> Hi]. simpl in Hn. injection Hn as <-. lia.
  - destruct Hstep as ((fresh & Hh & Hfresh) & _). intros n Hn.
    rewrite Hh, length_app in Hn. unfold is_root, node_at. rewrite Hh.
    rewrite lookup_app_r by lia.
    destruct (lookup_lt_is_Some_2 fresh (n - length h0)) as [x Hx]; [lia|].
    rewrite Hx. simpl. destruct (Hfresh _ _ Hx) as (-> & _). lia.
Qed.

(** The topology a rebuild computes is the wiring: two terminals of
    listed components hold the same node after the rebuild exactly when a
    chain of connection edges leads from one to the other.  Edges count in
    both directions; an edge counts when both its ends are terminals that
    exist. *)
Theorem rebuildCircuit_nodes_are_wiring_classes (wires : list wire)
  (e : CircuitEngine) :
  engine_wf e -> wires_listed (engine_components e) wires ->
  exists e',
    rebuildCircuit wires e = Ok e'
    /\ forall t1 t2, real_terminal e t1 -> real_terminal e t2 ->
         (Component.terminal (comp_at (comp_store e') t1.1) t1.2
          = Component.terminal (comp_at (comp_store e') t2.1) t2.2
          <-> wired e wires t1 t2).
Proof.
  intros Hwf Hlisted. unfold rebuildCircuit.
  destruct (rebuildTopology_spec wires e Hwf) as (t & Ht & _).
  destruct (rebuildTopology_stages _ _ _ Ht)
    as (h3 & h4 & hc4 & h5 & Hwires & Hstep4 & _ & Heq).
  pose proof (step1_spec (node_store e) (comp_store e) (engine_components e))
    as Hstep1.
  pose proof (fun ca ca' k k' n =>
                step1_injective (node_store e) (comp_store e)
                  (engine_components e) ca ca' k k' n) as Hinj.
  set (cs := engine_components e) in *.
  set (s1 := foldl fresh_terminals (node_store e, comp_store e) cs) in *.
  simpl in Hinj.
  destruct (step1_slots _ _ _ _ Hstep1) as (Hnode & Hslot & Hroots).
  set (fresh := fun n => length (node_store e) <= n < length s1.1).
  set (node_of := fun t : nat * nat =>
                    Component.terminal (comp_at s1.2 t.1) t.2).
  (* every wire that passes the check joins two fresh nodes *)
  assert (forall w n1 n2, w ∈ wires -> wire_ends s1.2 w = Some (n1, n2) ->
            exists t1 t2,
              wire_between e wires t1 t2
              /\ node_of t1 = Some n1 /\ node_of t2 = Some n2) as Hpairs.
  { intros w n1 n2 Hw Hends.
    destruct (wire_ends_Some _ _ _ _ Hends) as (sc & ec & Hsc & Hec & H1 & H2).
    destruct (Hlisted w Hw) as [Hls Hle].
    specialize (Hls sc Hsc). specialize (Hle ec Hec).
    destruct (Hslot _ _ _ Hls H1) as (? & ? & _).
    destruct (Hslot _ _ _ Hle H2) as (? & ? & _).
    exists (sc, startTerm w), (ec, endTerm w).
    split_and!; [|done..]. split_and!; [done..|]. by exists w. }
  assert (forall t n, real_terminal e t -> node_of t = Some n -> fresh n)
    as Hfresh.
  { intros [ca k] n (Hca & _) Hn. by destruct (Hslot _ _ _ Hca Hn) as (_ & _ & ?). }
  destruct Hwf as [Hforest Hvalid].
  destruct (wires_Ok s1.2 wires s1.1) as (h3' & Hw3 & Hf3 & Hl3 & _).
  { by eapply step1_forest. }
  { by eapply step1_terminals_valid. }
  assert (h3' = h3) as -> by congruence. clear Hw3.
  destruct (wires_classes _ _ _ _ _ Hwires) as [_ Hjoin].
  assert (forall a b, fresh a -> fresh b -> same_class h3 a b ->
            rtsc (wire_pair s1.2 wires) a b) as Hback.
  { apply (wires_classes_back (S (length s1.1)) s1.2 wires s1.1 h3 fresh);
      [done| |done].
    intros w n1 n2 Hw He.
    destruct (Hpairs w n1 n2 Hw He) as (t1 & t2 & (R1 & R2 & _) & N1 & N2).
    split; [by apply (Hfresh t1)|by apply (Hfresh t2)]. }
  (* the slot of a terminal after step 4 *)
  assert (forall t, real_terminal e t ->
            exists n r, node_of t = Some n /\ root_of h3 n r
                        /\ Component.terminal (comp_at hc4 t.1) t.2 = Some r)
    as Hslot4.
  { intros [ca k] (Hca & Hlt & Hk). simpl in *.
    destruct (Hnode ca k Hca Hlt Hk) as [n Hn].
    destruct (root_of_total h3 n Hf3) as [r Hr].
    { rewrite Hl3. destruct (Hslot _ _ _ Hca Hn) as (_ & _ & ?). lia. }
    exists n, r. split_and!; [done..|].
    by apply (step4_roots _ _ _ _ _ _ Hstep4 ca k n r). }
  (* chains of wires and chains of joined nodes *)
  assert (forall t1 t2, wired e wires t1 t2 -> real_terminal e t1 ->
            forall n1 n2, node_of t1 = Some n1 -> node_of t2 = Some n2 ->
              same_class h3 n1 n2) as Hsound.
  { intros t1 t2 Hrt. unfold wired, rtsc in Hrt.
    induction Hrt as [u|u tm u' Hstep _ IH]; intros Hreal n1 n2 Hn1 Hn2.
    - assert (n2 = n1) as -> by congruence.
      destruct (Hslot4 u Hreal) as (n & r & Hn & Hr & _).
      assert (n = n1) as -> by congruence. by exists r.
    - assert (real_terminal e tm /\ exists m, node_of tm = Some m
                                             /\ same_class h3 n1 m)
        as (Hrm & m & Hm & Hc).
      { destruct Hstep as [(R1 & R2 & w & Hw & Hsc & Hst & Hec & Het)
                          |(R1 & R2 & w & Hw & Hsc & Hst & Hec & Het)].
        - split; [done|].
          destruct (Hslot4 tm R2) as (m & _ & Hm & _). exists m. split; [done|].
          apply (Hjoin w); [done|]. unfold wire_ends.
          rewrite Hsc, Hec, Hst, Het. unfold node_of in Hn1, Hm.
          by rewrite Hn1, Hm.
        - split; [done|].
          destruct (Hslot4 tm R1) as (m & _ & Hm & _). exists m. split; [done|].
          apply same_class_sym. apply (Hjoin w); [done|]. unfold wire_ends.
          rewrite Hsc, Hec, Hst, Het. unfold node_of in Hn1, Hm.
          by rewrite Hn1, Hm. }
      eapply same_class_trans; [exact Hc|]. by apply (IH Hrm m n2). }
  assert (forall n1 n2, rtsc (wire_pair s1.2 wires) n1 n2 ->
            forall t1 t2, real_terminal e t1 -> real_terminal e t2 ->
              node_of t1 = Some n1 -> node_of t2 = Some n2 ->
              wired e wires t1 t2) as Hcomplete.
  { intros n1 n2 Hrt. unfold rtsc in Hrt.
    induction Hrt as [n|n m n' Hstep _ IH]; intros t1 t2 R1 R2 Hn1 Hn2.
    - destruct t1 as [c1 k1], t2 as [c2 k2].
      destruct R1 as (Hc1 & _), R2 as (Hc2 & _). simpl in *.
      destruct (Hinj c1 c2 k1 k2 n Hc1 Hc2 Hn1 Hn2) as [-> ->]. done.
    - assert (exists tm, real_terminal e tm /\ node_of tm = Some m
                         /\ sc (wire_between e wires) t1 tm)
        as (tm & Rm & Hm & Hsc).
      { destruct Hstep as [(w & Hw & He)|(w & Hw & He)];
          destruct (Hpairs w _ _ Hw He) as (u1 & u2 & Hb & N1 & N2);
          pose proof Hb as (U1 & U2 & _).
        - exists u2. split_and!; [done..|]. left.
          assert (u1 = t1) as <-; [|done].
          destruct u1 as [c k], t1 as [c' k'].
          destruct U1 as (Hc & _), R1 as (Hc' & _). simpl in *.
          by destruct (Hinj c c' k k' n Hc Hc' N1 Hn1) as [-> ->].
        - exists u1. split_and!; [done..|]. right.
          assert (u2 = t1) as <-; [|done].
          destruct u2 as [c k], t1 as [c' k'].
          destruct U2 as (Hc & _), R1 as (Hc' & _). simpl in *.
          by destruct (Hinj c c' k k' n Hc Hc' N2 Hn1) as [-> ->]. }
      eapply rtc_l; [exact Hsc|]. by apply IH. }
  destruct (solve_frame t) as (e' & He' & (_ & _ & _ & Hcf)).
  exists e'. rewrite Ht, bind_Ok_l. split; [done|].
  intros t1 t2 R1 R2. unfold Component.terminal.
  rewrite !(comp_frame_nodes _ _ _ Hcf). subst t. simpl.
  fold (Component.terminal (comp_at hc4 t1.1) t1.2).
  fold (Component.terminal (comp_at hc4 t2.1) t2.2).
  destruct (Hslot4 t1 R1) as (n1 & r1 & Hn1 & Hr1 & ->).
  destruct (Hslot4 t2 R2) as (n2 & r2 & Hn2 & Hr2 & ->).
  split.
  - intros [= ->]. apply (Hcomplete n1 n2); try done.
    apply Hback; [by apply (Hfresh t1)|by apply (Hfresh t2)|by exists r2].
  - intros Hw. f_equal.
    destruct (Hsound t1 t2 Hw R1 n1 n2 Hn1 Hn2) as (r & Ha & Hb).
    rewrite (root_of_inj _ _ _ _ Hr1 Ha). by eapply root_of_inj.
Qed.
Lemma rebuildCircuit_nodes_are_wiring_classes_witness :
  let wires := [mkWire (Some 0) 0 (Some 1) 0; mkWire (Some 0) 1 (Some 1) 1] in
  let e := (addComponent 1 "led" (addComponent 0 "battery" empty_engine).1).1 in
  exists e',
    rebuildCircuit wires e = Ok e'
    /\ forall t1 t2, real_terminal e t1 -> real_terminal e t2 ->
         (Component.terminal (comp_at (comp_store e') t1.1) t1.2
          = Component.terminal (comp_at (comp_store e') t2.1) t2.2
          <-> wired e wires t1 t2).
Proof.
  apply rebuildCircuit_nodes_are_wiring_classes.
  - apply engine_wf_addComponent, engine_wf_addComponent, engine_wf_empty.
  - intros w Hw. apply list_elem_of_In in Hw. simpl in Hw.
    destruct Hw as [<-|[<-|[]]]; simpl;
      (split; intros ca [= <-]; apply list_elem_of_In; simpl; auto).
Defined.

(** ** Which nodes are ground *)

(** With every edge naming listed components, a rebuild leaves exactly
    one ground node in the node list when a battery is listed, the node of
    the second terminal of the first listed battery, and none when no
    battery is listed. *)
Theorem rebuildCircuit_only_ground (wires : list wire) (e : CircuitEngine) :
  engine_wf e -> wires_listed (engine_components e) wires ->
  exists e',
    rebuildCircuit wires e = Ok e'
    /\ forall a, a ∈ engine_nodes e' ->
         (Node.isGND (node_at (node_store e') a) = true
          <-> exists i ca,
                list_find (fun ca => is_type "battery"
                                       (comp_at (comp_store e) ca) = true)
                          (engine_components e) = Some (i, ca)
                /\ Component.terminal (comp_at (comp_store e') ca) 1 = Some a).
Proof.
  intros Hwf Hlisted. unfold rebuildCircuit.
  destruct (rebuildTopology_spec wires e Hwf) as (t & Ht & _).
  destruct (rebuildTopology_ground _ _ _ Hwf Ht) as (h5 & Hl5 & Hgnd & Hg).
  pose proof (step1_spec (node_store e) (comp_store e) (engine_components e))
    as Hstep1.
  set (cs := engine_components e) in *.
  set (s1 := foldl fresh_terminals (node_store e, comp_store e) cs) in *.
  (* the nodes of the node list are nodes created by this rebuild *)
  destruct (relocated_rebuildTopology 0 wires e e t t) as [hi Hrel];
    [done|apply Forall2_refl_frame, same_settings_refl|lia|done..|].
  destruct Hrel as (_ & _ & Hrange & _).
  assert (forall a, a ∈ engine_nodes t -> Node.isGND (node_at h5 a) = false)
    as Hfalse.
  { intros a Ha. rewrite Forall_forall in Hrange.
    specialize (Hrange a Ha). rewrite Hgnd.
    destruct Hstep1 as ((fresh & Hh & Hfresh) & _).
    unfold node_at. rewrite Hh, lookup_app_r by lia.
    destruct (fresh !! (a - length (node_store e))) as [n|] eqn:Hn; [|done].
    simpl. by destruct (Hfresh _ _ Hn) as (_ & ? & _). }
  destruct (solve_frame t) as (e' & He' & (Hen & _ & Hnf & Hcf)).
  exists e'. rewrite Ht, bind_Ok_l. split; [done|].
  intros a. rewrite Hen. intros Ha.
  destruct (node_frame_node_at _ _ a Hnf) as (_ & -> & _).
  unfold Component.terminal.
  destruct (list_find _ cs) as [[i ca]|].
  - destruct Hg as (a0 & Hterm & _ & Hlt & ->).
    destruct (decide (a = a0)) as [->|Hne].
    + rewrite node_at_insert_eq by done. simpl. split; [|done].
      intros _. exists i, ca. split; [done|].
      by rewrite (comp_frame_nodes _ _ _ Hcf).
    + rewrite node_at_insert_ne by done. rewrite (Hfalse a Ha). split; [done|].
      intros (i' & ca' & [= <- <-] & Hslot).
      rewrite (comp_frame_nodes _ _ _ Hcf) in Hslot.
      unfold Component.terminal in Hterm. congruence.
  - rewrite Hg, (Hfalse a Ha). split; [done|]. by intros (? & ? & ? & _).
Qed.

Lemma rebuildCircuit_only_ground_witness :
  let wires := [mkWire (Some 0) 0 (Some 1) 0; mkWire (Some 0) 1 (Some 1) 1] in
  let e := (addComponent 1 "led" (addComponent 0 "battery" empty_engine).1).1 in
  exists e',
    rebuildCircuit wires e = Ok e'
    /\ forall a, a ∈ engine_nodes e' ->
         (Node.isGND (node_at (node_store e') a) = true
          <-> exists i ca,
                list_find (fun ca => is_type "battery"
                                       (comp_at (comp_store e) ca) = true)
                          (engine_components e) = Some (i, ca)
                /\ Component.terminal (comp_at (comp_store e') ca) 1 = Some a).
Proof.
  apply rebuildCircuit_only_ground.
  - apply engine_wf_addComponent, engine_wf_addComponent, engine_wf_empty.
  - intros w Hw. apply list_elem_of_In in Hw. simpl in Hw.
    destruct Hw as [<-|[<-|[]]]; simpl;
      (split; intros ca [= <-]; apply list_elem_of_In; simpl; auto).
Defined.

(** * Properties of the controller *)

(** ** Removing joints that no edge names *)

Lemma usedComps_spec wires o :
  o ∈ usedComps wires
  <-> exists w, w ∈ wires /\ (startComp w = o \/ endComp w = o).
Proof.
  unfold usedComps.
  assert (forall l s,
            o ∈ foldl (fun s w => set_add (set_add s (startComp w)) (endComp w))
                      s l
            <-> o ∈ s \/ exists w, w ∈ l /\ (startComp w = o \/ endComp w = o))
    as Hgen.
  { induction l as [|w l IH]; intros s; simpl.
    - split; [by left|]. intros [?|(w & Hw & _)]; [done|].
      by apply elem_of_nil in Hw.
    - rewrite IH. unfold set_add. split.
      + intros [Hin|(w' & Hw' & Ho)].
        * repeat case_decide; repeat (apply elem_of_app in Hin as [Hin|Hin]);
            try (apply list_elem_of_singleton in Hin);
            first [by left | right; exists w; split; [left|]; by auto ].
        * right. exists w'. split; [by right|done].
      + intros [Hin|(w' & Hw' & Ho)].
        * left. repeat case_decide; repeat (apply elem_of_app; left); done.
        * apply elem_of_cons in Hw' as [->|Hw'].
          -- left. destruct Ho as [<-|<-];
               repeat case_decide; try done;
               try (apply elem_of_app; right; by apply list_elem_of_singleton);
               try (apply elem_of_app; left; try done;
                    apply elem_of_app; right; by apply list_elem_of_singleton).
          -- right. by exists w'. }
  rewrite Hgen. split; [|by right]. intros [Hin|?]; [|done].
  by apply elem_of_nil in Hin.
Qed.

Lemma removeOrphanedJoints_spec_aux wires e :
  (forall c, c ∈ engine_components (removeOrphanedJoints wires e)
     <-> c ∈ engine_components e
         /\ (is_type "joint" (comp_at (comp_store e) c) = true ->
             exists w, w ∈ wires /\ names w c))
  /\ (wires_listed (engine_components e) wires ->
      wires_listed (engine_components (removeOrphanedJoints wires e)) wires).
Proof.
  assert (forall c, c ∈ engine_components (removeOrphanedJoints wires e)
            <-> c ∈ engine_components e
                /\ (is_type "joint" (comp_at (comp_store e) c) = true ->
                    exists w, w ∈ wires /\ names w c)) as Hchar.
  { intros c. unfold removeOrphanedJoints. simpl.
    rewrite list_elem_of_filter.
    destruct (is_type "joint" (comp_at (comp_store e) c)).
    - rewrite bool_decide_eq_true, usedComps_spec. unfold names. split.
      + intros [Hu Hc]. split; [done|]. by intros _.
      + intros [Hc Hu]. split; [by apply Hu|done].
    - split; [intros [_ Hc]; by split|intros [Hc _]; by split]. }
  split; [done|].
  intros Hl w Hw. destruct (Hl w Hw) as [Hs He].
  split; intros ca Hca; apply Hchar.
  - split; [by apply Hs|]. intros _. exists w. split; [done|by left].
  - split; [by apply He|]. intros _. exists w. split; [done|by right].
Qed.

(** [removeOrphanedJoints] keeps, in order, every listed component that
    is not a joint and every listed joint that some edge names, and
    nothing else; the stores and the node list are untouched.  Edges that
    named listed components only still do. *)
Theorem removeOrphanedJoints_keeps_named (wires : list wire)
  (e : CircuitEngine) :
  let e' := removeOrphanedJoints wires e in
  node_store e' = node_store e /\ comp_store e' = comp_store e
  /\ engine_nodes e' = engine_nodes e
  /\ sublist (engine_components e') (engine_components e)
  /\ (forall c, c ∈ engine_components e'
        <-> c ∈ engine_components e
            /\ (is_type "joint" (comp_at (comp_store e) c) = true ->
                exists w, w ∈ wires /\ names w c))
  /\ (wires_listed (engine_components e) wires ->
      wires_listed (engine_components e') wires).
Proof.
  intros e'. destruct (removeOrphanedJoints_spec_aux wires e) as [Hchar Hkeep].
  split_and!; try done.
  unfold e', removeOrphanedJoints. simpl. apply sublist_filter.
Qed.
(** ** Drawing the edges *)

Lemma getTermPos_spec hc c idx :
  getTermPos (is_type "spdt" (comp_at hc c)) idx = true
  <-> terminal_drawable hc (c, idx).
Proof.
  unfold getTermPos, terminal_drawable. simpl.
  destruct (Nat.eqb_spec idx 2) as [->|Hne]; [tauto|].
  split; [by intros _ ?|done].
Qed.

Lemma draw_wire_Ok hc w : draw_wire hc w = Ok tt <-> wire_drawable hc w.
Proof.
  unfold draw_wire, wire_drawable, getTransformedTerminals.
  destruct (startComp w) as [sc|]; simpl.
  2:{ split; [done|by intros (? & ? & ? & _)]. }
  destruct (endComp w) as [ec|]; simpl.
  2:{ split; [done|by intros (? & ? & _ & ? & _)]. }
  pose proof (getTermPos_spec hc sc (startTerm w)) as Hs.
  pose proof (getTermPos_spec hc ec (endTerm w)) as He.
  destruct (getTermPos _ (startTerm w)), (getTermPos _ (endTerm w)); simpl;
    (split; [intros H; try done; exists sc, ec; tauto|]);
    intros (? & ? & [= <-] & [= <-] & H1 & H2); try done.
  - by apply He in H2.
  - by apply Hs in H1.
  - by apply Hs in H1.
Qed.

Lemma draw_wire_outcomes hc w :
  draw_wire hc w = Ok tt \/ draw_wire hc w = TypeError.
Proof.
  unfold draw_wire, getTransformedTerminals.
  destruct (startComp w), (endComp w); simpl; try (by right).
  destruct (_ && _); [by left|by right].
Qed.

Lemma draw_outcomes a : draw a = Ok tt \/ draw a = TypeError.
Proof.
  unfold draw. induction (visualWires a) as [|w ws IH]; [by left|].
  cbn [forM].
  destruct (draw_wire_outcomes (comp_store (engine a)) w) as [->| ->];
    [by rewrite bind_Ok_l|by right].
Qed.

Lemma draw_Ok_iff a : draw a = Ok tt <-> controller_drawable a.
Proof.
  unfold controller_drawable, draw. generalize (comp_store (engine a)) as hc.
  intros hc. induction (visualWires a) as [|w ws IH].
  { split; [|done]. intros _ w Hw. by apply elem_of_nil in Hw. }
  cbn [forM]. pose proof (draw_wire_Ok hc w) as Hw.
  destruct (draw_wire_outcomes hc w) as [Hd|Hd]; rewrite Hd.
  - rewrite bind_Ok_l, IH. split.
    + intros Hws w' Hw'. apply elem_of_cons in Hw' as [->|Hw'];
        [by apply Hw|by apply Hws].
    + intros Hws w' Hw'. apply Hws. by right.
  - split; [done|]. intros Hws. rewrite Hd in Hw.
    assert (wire_drawable hc w) as Hdw by (apply Hws; left).
    by apply Hw in Hdw.
Qed.

Lemma draw_Ok a : controller_drawable a -> draw a = Ok tt.
Proof. apply draw_Ok_iff. Qed.

(** [draw] returns when every edge names two component objects and names
    terminal 2 only on an spdt, and raises a [TypeError] when some edge
    has a [null] component or names terminal 2 of a component of another
    kind. *)
Theorem draw_raises_on_undrawable_edge (a : controller) :
  (controller_drawable a <-> draw a = Ok tt)
  /\ (~ controller_drawable a <-> draw a = TypeError).
Proof.
  pose proof (draw_Ok_iff a) as Hiff. split; [done|]. split.
  - intros Hn. destruct (draw_outcomes a) as [Hd|Hd]; [|done].
    by apply Hiff in Hd.
  - intros Hr Hd. apply Hiff in Hd. by rewrite Hd in Hr.
Qed.

Lemma terminal_drawable_types hc hc' t :
  (forall ca, Component.type (comp_at hc' ca) = Component.type (comp_at hc ca)) ->
  terminal_drawable hc t -> terminal_drawable hc' t.
Proof.
  intros Hty Ht H2. specialize (Ht H2). unfold is_type in *. by rewrite Hty.
Qed.

Lemma wire_drawable_types hc hc' w :
  (forall ca, Component.type (comp_at hc' ca) = Component.type (comp_at hc ca)) ->
  wire_drawable hc w -> wire_drawable hc' w.
Proof.
  intros HF (sc & ec & Hs & He & Hts & Hte). exists sc, ec.
  split_and!; [done|done|by eapply terminal_drawable_types..].
Qed.

Lemma same_settings_types hc hc' :
  Forall2 same_settings hc hc' ->
  forall ca, Component.type (comp_at hc' ca) = Component.type (comp_at hc ca).
Proof.
  intros HF ca. by destruct (same_settings_comp_at _ _ ca HF) as (_ & ? & _).
Qed.

Lemma wire_drawable_settings hc hc' w :
  Forall2 same_settings hc hc' -> wire_drawable hc w -> wire_drawable hc' w.
Proof. intros HF. by apply wire_drawable_types, same_settings_types. Qed.

Lemma terminal_drawable_app hc c t :
  terminal_drawable hc t -> terminal_drawable (hc ++ [c]) t.
Proof.
  intros Ht H2. specialize (Ht H2).
  pose proof (is_type_stored hc t.1 "spdt" ltac:(done) Ht) as Hlt.
  unfold comp_at in *. by rewrite lookup_app_l.
Qed.

Lemma wire_drawable_app hc c w :
  wire_drawable hc w -> wire_drawable (hc ++ [c]) w.
Proof.
  intros (sc & ec & Hs & He & Hts & Hte). exists sc, ec.
  split_and!; [done|done|by apply terminal_drawable_app..].
Qed.

(** ** Deleting a component *)

Lemma without_wires_of_spec comp wires w :
  w ∈ without_wires_of comp wires <-> w ∈ wires /\ ~ names w comp.
Proof.
  unfold without_wires_of, names. rewrite list_elem_of_filter. tauto.
Qed.

Lemma without_component_spec comp e c :
  c ∈ engine_components (without_component comp e)
  <-> c ∈ engine_components e /\ c <> comp.
Proof. unfold without_component. simpl. rewrite list_elem_of_filter. tauto. Qed.

Lemma wires_listed_without comp e wires :
  wires_listed (engine_components e) wires ->
  wires_listed (engine_components (without_component comp e))
               (without_wires_of comp wires).
Proof.
  intros Hl w Hw. apply without_wires_of_spec in Hw as [Hw Hn].
  destruct (Hl w Hw) as [Hs He]. unfold names in Hn.
  split; intros ca Hca; apply without_component_spec.
  - split; [by apply Hs|]. intros ->. tauto.
  - split; [by apply He|]. intros ->. tauto.
Qed.

(** A rebuild on a well-formed engine with listed edges. *)
Lemma rebuildCircuit_controller wires e :
  engine_wf e -> wires_listed (engine_components e) wires ->
  exists e',
    rebuildCircuit wires e = Ok e'
    /\ engine_wf e' /\ engine_components e' = engine_components e
    /\ canonical_topology e'
    /\ Forall2 same_settings (comp_store e) (comp_store e').
Proof.
  intros Hwf Hl. unfold rebuildCircuit.
  destruct (rebuildTopology_spec wires e Hwf)
    as (t & -> & Hwf1 & Hcs1 & Hsame & Hcan1).
  rewrite bind_Ok_l.
  destruct (solve_frame t) as (e' & -> & Hfr).
  exists e'. split_and!; [done|by eapply engine_wf_frame| |
                          by eapply canonical_topology_frame|].
  - destruct Hfr as (_ & -> & _). done.
  - destruct Hfr as (_ & _ & _ & Hcf).
    eapply Forall2_trans; [apply same_settings_trans| |].
    + eapply Forall2_impl; [exact Hsame|].
      apply same_settings_of_same_but_nodes.
    + eapply Forall2_impl; [exact Hcf|]. apply same_settings_of_comp_frame.
Qed.

(** [deleteSelected] with a component selected, on a state whose edges
    can all be drawn: the rebuild and the redraw return; the component is
    no longer listed and no edge names it; the edges kept are exactly
    those that did not name it; the components kept are exactly the other
    ones, less the joints that no kept edge names; every kept edge names
    listed components only and can be drawn, so the controller's invariant
    holds again and the topology is the canonical one. *)
Theorem deleteSelected_removes_component (a : controller) (sel : nat) :
  controller_wf a -> controller_drawable a -> selectedComponent a = Some sel ->
  exists a',
    deleteSelected a = Ok a'
    /\ controller_wf a' /\ controller_drawable a'
    /\ canonical_topology (engine a')
    /\ selectedComponent a' = None /\ compCounter a' = compCounter a
    /\ (forall w, w ∈ visualWires a' <-> w ∈ visualWires a /\ ~ names w sel)
    /\ forall c, c ∈ engine_components (engine a')
         <-> c ∈ engine_components (engine a) /\ c <> sel
             /\ (is_type "joint" (comp_at (comp_store (engine a)) c) = true ->
                 exists w, w ∈ visualWires a' /\ names w c).
Proof.
  intros [Hwf Hl] Hdr Hsel. unfold deleteSelected. rewrite Hsel.
  set (wires := without_wires_of sel (visualWires a)).
  set (e1 := without_component sel (engine a)).
  pose proof (wires_listed_without sel _ _ Hl) as Hl1. fold wires e1 in Hl1.
  destruct (removeOrphanedJoints_spec_aux wires e1) as [Hchar Hkeep].
  specialize (Hkeep Hl1).
  destruct (rebuildCircuit_controller wires (removeOrphanedJoints wires e1))
    as (e' & -> & Hwf' & Hcs' & Hcan & Hset); [done|done|].
  rewrite bind_Ok_l. cbv zeta.
  assert (controller_drawable
            (mkController e' (compCounter a) wires None (isDragging a)
                          (isDrawingWire a) (wireStartTerminal a))) as Hdr'.
  { intros w Hw. cbn [engine visualWires] in Hw |- *.
    apply (wire_drawable_settings (comp_store (engine a))); [exact Hset|].
    apply Hdr. by apply without_wires_of_spec in Hw as [Hw _]. }
  rewrite (draw_Ok _ Hdr'), bind_Ok_l.
  eexists. split; [done|]. simpl.
  split_and!; try done.
  - split; simpl; [done|]. by rewrite Hcs'.
  - intros w. apply without_wires_of_spec.
  - intros c. rewrite Hcs', Hchar. unfold e1.
    rewrite without_component_spec. simpl. tauto.
Qed.
Lemma deleteSelected_removes_component_witness :
  let e := (addComponent 1 "led" (addComponent 0 "battery" empty_engine).1).1 in
  let a := mkController e 2 [mkWire (Some 0) 0 (Some 1) 0;
                              mkWire (Some 0) 1 (Some 1) 1] (Some 1)
                        false false None in
  exists a',
    deleteSelected a = Ok a'
    /\ controller_wf a' /\ controller_drawable a'
    /\ canonical_topology (engine a')
    /\ selectedComponent a' = None /\ compCounter a' = compCounter a
    /\ (forall w, w ∈ visualWires a' <-> w ∈ visualWires a /\ ~ names w 1)
    /\ forall c, c ∈ engine_components (engine a')
         <-> c ∈ engine_components (engine a) /\ c <> 1
             /\ (is_type "joint" (comp_at (comp_store (engine a)) c) = true ->
                 exists w, w ∈ visualWires a' /\ names w c).
Proof.
  apply deleteSelected_removes_component; [| |reflexivity].
  - split; cbn [engine visualWires].
    + apply engine_wf_addComponent, engine_wf_addComponent, engine_wf_empty.
    + intros w Hw. apply list_elem_of_In in Hw. simpl in Hw.
      destruct Hw as [<-|[<-|[]]]; simpl;
        (split; intros ca [= <-]; apply list_elem_of_In; simpl; auto).
  - intros w Hw. apply list_elem_of_In in Hw. simpl in Hw.
    destruct Hw as [<-|[<-|[]]]; eexists _, _;
      (split_and!; [reflexivity|reflexivity|discriminate..]).
Defined.

(** The delete button of the properties panel does the same for the
    component the panel shows, except that it keeps joints that no edge
    names any more: on a state whose edges can all be drawn, the rebuild
    and the redraw return, and the components kept are exactly the other
    ones. *)
Theorem deleteButton_removes_component (a : controller) (comp : nat) :
  controller_wf a -> controller_drawable a ->
  exists a',
    deleteButton comp a = Ok a'
    /\ controller_wf a' /\ controller_drawable a'
    /\ canonical_topology (engine a')
    /\ selectedComponent a' = None /\ compCounter a' = compCounter a
    /\ (forall w, w ∈ visualWires a' <-> w ∈ visualWires a /\ ~ names w comp)
    /\ forall c, c ∈ engine_components (engine a')
         <-> c ∈ engine_components (engine a) /\ c <> comp.
Proof.
  intros [Hwf Hl] Hdr. unfold deleteButton.
  pose proof (wires_listed_without comp _ _ Hl) as Hl1.
  destruct (rebuildCircuit_controller (without_wires_of comp (visualWires a))
              (without_component comp (engine a)))
    as (e' & -> & Hwf' & Hcs' & Hcan & Hset); [done|done|].
  rewrite bind_Ok_l. cbv zeta.
  assert (controller_drawable
            (mkController e' (compCounter a)
               (without_wires_of comp (visualWires a)) None (isDragging a)
               (isDrawingWire a) (wireStartTerminal a))) as Hdr'.
  { intros w Hw. cbn [engine visualWires] in Hw |- *.
    apply (wire_drawable_settings (comp_store (engine a))); [exact Hset|].
    apply Hdr. by apply without_wires_of_spec in Hw as [Hw _]. }
  rewrite (draw_Ok _ Hdr'), bind_Ok_l.
  eexists. split; [done|]. simpl.
  split_and!; try done.
  - split; simpl; [done|]. by rewrite Hcs'.
  - intros w. apply without_wires_of_spec.
  - intros c. rewrite Hcs'. apply without_component_spec.
Qed.

Lemma deleteButton_removes_component_witness :
  let e := (addComponent 1 "led" (addComponent 0 "battery" empty_engine).1).1 in
  let a := mkController e 2 [mkWire (Some 0) 0 (Some 1) 0] None
                        false false None in
  exists a',
    deleteButton 0 a = Ok a'
    /\ controller_wf a' /\ controller_drawable a'
    /\ canonical_topology (engine a')
    /\ selectedComponent a' = None /\ compCounter a' = compCounter a
    /\ (forall w, w ∈ visualWires a' <-> w ∈ visualWires a /\ ~ names w 0)
    /\ forall c, c ∈ engine_components (engine a')
         <-> c ∈ engine_components (engine a) /\ c <> 0.
Proof.
  apply deleteButton_removes_component.
  - split; cbn [engine visualWires].
    + apply engine_wf_addComponent, engine_wf_addComponent, engine_wf_empty.
    + intros w Hw. apply list_elem_of_In in Hw. simpl in Hw.
      destruct Hw as [<-|[]]; simpl;
        (split; intros ca [= <-]; apply list_elem_of_In; simpl; auto).
  - intros w Hw. apply list_elem_of_In in Hw. simpl in Hw.
    destruct Hw as [<-|[]]; eexists _, _;
      (split_and!; [reflexivity|reflexivity|discriminate..]).
Defined.

(** ** Dropping a new component *)

Lemma kind_defaults_id type c :
  Component.id (kind_defaults type c) = Component.id c
  /\ Component.type (kind_defaults type c) = Component.type c.
Proof. unfold kind_defaults. by repeat case_match. Qed.

(** [handleDrop] with an item type, on a state whose edges can all be
    drawn: the rebuild and the redraw return; the component list grows by
    one new component, placed last, of the dropped type and with the id
    [comp_<compCounter>]; the counter advances; edges and selection are as
    before; the controller's invariant holds again, the edges can still be
    drawn and the topology is the canonical one. *)
Theorem handleDrop_adds_component (a : controller) (type : string) :
  controller_wf a -> controller_drawable a -> type <> "" ->
  exists a',
    handleDrop (Some type) a = Ok a'
    /\ controller_wf a' /\ controller_drawable a'
    /\ canonical_topology (engine a')
    /\ compCounter a' = S (compCounter a)
    /\ visualWires a' = visualWires a
    /\ selectedComponent a' = selectedComponent a
    /\ let new := length (comp_store (engine a)) in
       engine_components (engine a')
       = engine_components (engine a) ++ [new]
       /\ Component.type (comp_at (comp_store (engine a')) new) = type
       /\ Component.id (comp_at (comp_store (engine a')) new)
          = "comp_" +:+ pretty (compCounter a).
Proof.
  intros [Hwf Hl] Hdr Hty. unfold handleDrop.
  rewrite (proj2 (String.eqb_neq type "")) by done.
  set (e1 := (addComponent (compCounter a) type (engine a)).1).
  destruct (rebuildCircuit_controller (visualWires a) e1)
    as (e' & -> & Hwf' & Hcs' & Hcan & Hset).
  { by apply engine_wf_addComponent. }
  { intros w Hw. destruct (Hl w Hw) as [Hs He].
    split; intros ca Hca; apply elem_of_app; left; eauto. }
  rewrite bind_Ok_l. cbv zeta.
  assert (controller_drawable
            (mkController e' (S (compCounter a)) (visualWires a)
               (selectedComponent a) (isDragging a) (isDrawingWire a)
               (wireStartTerminal a))) as Hdr'.
  { intros w Hw. cbn [engine visualWires] in Hw |- *.
    eapply wire_drawable_settings; [exact Hset|].
    unfold e1. simpl. by apply wire_drawable_app, Hdr. }
  rewrite (draw_Ok _ Hdr'), bind_Ok_l.
  eexists. split; [done|]. simpl.
  split_and!; try done.
  - split; simpl; [done|]. rewrite Hcs'.
    intros w Hw. destruct (Hl w Hw) as [Hs He].
    split; intros ca Hca; apply elem_of_app; left; eauto.
  - pose proof (same_settings_comp_at _ _ (length (comp_store (engine a))) Hset)
      as (_ & -> & _).
    unfold e1, comp_at. simpl. rewrite lookup_app_r, Nat.sub_diag by lia.
    simpl. by destruct (kind_defaults_id type
      (Component.mk ("comp_" +:+ pretty (compCounter a)) type [None; None]
                    10 0 false None None)) as [_ ->].
  - pose proof (same_settings_comp_at _ _ (length (comp_store (engine a))) Hset)
      as (-> & _).
    unfold e1, comp_at. simpl. rewrite lookup_app_r, Nat.sub_diag by lia.
    simpl. by destruct (kind_defaults_id type
      (Component.mk ("comp_" +:+ pretty (compCounter a)) type [None; None]
                    10 0 false None None)) as [-> _].
Qed.

Lemma handleDrop_adds_component_witness :
  let a := mkController (addComponent 0 "battery" empty_engine).1 1 [] None
                        false false None in
  exists a',
    handleDrop (Some "resistor") a = Ok a'
    /\ controller_wf a' /\ controller_drawable a'
    /\ canonical_topology (engine a')
    /\ compCounter a' = S (compCounter a)
    /\ visualWires a' = visualWires a
    /\ selectedComponent a' = selectedComponent a
    /\ let new := length (comp_store (engine a)) in
       engine_components (engine a')
       = engine_components (engine a) ++ [new]
       /\ Component.type (comp_at (comp_store (engine a')) new) = "resistor"
       /\ Component.id (comp_at (comp_store (engine a')) new)
          = "comp_" +:+ pretty (compCounter a).
Proof.
  apply handleDrop_adds_component; [| |discriminate].
  - split; cbn [engine visualWires].
    + apply engine_wf_addComponent, engine_wf_empty.
    + intros w Hw. by apply elem_of_nil in Hw.
  - intros w Hw. by apply elem_of_nil in Hw.
Defined.

(** ** mergeNodes *)

Lemma merged_slot nodeA nodeB c k :
  Component.terminal
    (Component.set_nodes
       (map (fun o => if bool_decide (o = Some nodeB) then Some nodeA else o)
            (Component.nodes c)) c) k
  = if decide (Component.terminal c k = Some nodeB) then Some nodeA
    else Component.terminal c k.
Proof.
  unfold Component.terminal. simpl. rewrite list_lookup_fmap.
  destruct (Component.nodes c !! k) as [[x|]|]; simpl; try done.
  destruct (decide (x = nodeB)) as [->|Hne].
  - rewrite bool_decide_eq_true_2 by done. by rewrite decide_True.
  - rewrite bool_decide_eq_false_2 by congruence.
    rewrite decide_False by congruence. done.
Qed.

Lemma merge_fold nodeA nodeB cs hc x :
  nodeA <> nodeB ->
  let g c := Component.set_nodes
               (map (fun o => if bool_decide (o = Some nodeB)
                              then Some nodeA else o)
                    (Component.nodes c)) c in
  foldl (fun hc ca => <[ca := g (comp_at hc ca)]> hc) hc cs !! x
  = if decide (x ∈ cs) then g <$> hc !! x else hc !! x.
Proof.
  intros Hne g.
  assert (forall c, g (g c) = g c) as Hidem.
  { intros c. unfold g, Component.set_nodes. simpl.
    assert (forall l : list (option nat),
              map (fun o => if bool_decide (o = Some nodeB)
                            then Some nodeA else o)
                  (map (fun o => if bool_decide (o = Some nodeB)
                                 then Some nodeA else o) l)
              = map (fun o => if bool_decide (o = Some nodeB)
                              then Some nodeA else o) l) as ->; [|done].
    intros l. rewrite map_map. apply map_ext.
    intros o. destruct (decide (o = Some nodeB)) as [->|Ho].
    - rewrite (bool_decide_eq_true_2 (Some nodeB = Some nodeB)) by done.
      rewrite bool_decide_eq_false_2 by congruence. done.
    - rewrite (bool_decide_eq_false_2 (o = Some nodeB)) by done.
      by rewrite bool_decide_eq_false_2. }
  revert hc. induction cs as [|c cs IH]; intros hc.
  { case_decide as Hin; [by apply elem_of_nil in Hin|done]. }
  cbn [foldl]. rewrite IH.
  assert (<[c := g (comp_at hc c)]> hc !! x
          = if decide (x = c) then g <$> hc !! x else hc !! x) as ->.
  { destruct (decide (x = c)) as [->|Hxc].
    - destruct (hc !! c) as [y|] eqn:Hy.
      + rewrite list_lookup_insert_eq by (by eapply lookup_lt_Some).
        by rewrite (comp_at_lookup _ _ _ Hy).
      + rewrite list_insert_ge by (by apply lookup_ge_None). by rewrite Hy.
    - by rewrite list_lookup_insert_ne. }
  destruct (decide (x = c)) as [->|Hxc].
  - rewrite (decide_True (P := c ∈ c :: cs)) by left.
    case_decide; [|done]. destruct (hc !! c); simpl; [|done].
    by rewrite Hidem.
  - destruct (decide (x ∈ cs)) as [Hin|Hnin].
    + rewrite decide_True by (by right). done.
    + rewrite decide_False; [done|]. by apply not_elem_of_cons.
Qed.

(** [mergeNodes(nodeA, nodeB)] with two different nodes removes [nodeB]
    from the circuit: it is no longer in the node list, every terminal
    slot of a listed component that held it holds [nodeA] and all other
    slots are as before, so no listed component refers to it; [nodeA] is
    ground afterwards exactly when one of the two was; nothing else
    changes.  With the same node twice it does nothing. *)
Theorem mergeNodes_replaces_node (nodeA nodeB : nat) (e : CircuitEngine) :
  nodeA <> nodeB -> nodeA < length (node_store e) ->
  let e' := mergeNodes nodeA nodeB e in
  mergeNodes nodeA nodeA e = e
  /\ engine_components e' = engine_components e
  /\ (forall n, n ∈ engine_nodes e' <-> n ∈ engine_nodes e /\ n <> nodeB)
  /\ (forall ca k, ca ∈ engine_components e ->
        Component.terminal (comp_at (comp_store e') ca) k
        = (if decide (Component.terminal (comp_at (comp_store e) ca) k
                      = Some nodeB)
           then Some nodeA
           else Component.terminal (comp_at (comp_store e) ca) k)
        /\ Component.terminal (comp_at (comp_store e') ca) k <> Some nodeB)
  /\ (forall ca, ca ∉ engine_components e ->
        comp_store e' !! ca = comp_store e !! ca)
  /\ Node.isGND (node_at (node_store e') nodeA)
     = Node.isGND (node_at (node_store e) nodeA)
       || Node.isGND (node_at (node_store e) nodeB)
  /\ forall n, n <> nodeA -> node_store e' !! n = node_store e !! n.
Proof.
  intros Hne HA e'. unfold e', mergeNodes.
  rewrite Nat.eqb_refl, (proj2 (Nat.eqb_neq nodeA nodeB)) by done. simpl.
  split_and!; try done.
  - intros n. rewrite list_elem_of_filter. tauto.
  - intros ca k Hca.
    assert (Component.terminal
              (comp_at
                 (foldl (fun hc ca0 =>
                    <[ca0 := Component.set_nodes
                               (map (fun o => if bool_decide (o = Some nodeB)
                                              then Some nodeA else o)
                                    (Component.nodes (comp_at hc ca0)))
                               (comp_at hc ca0)]> hc)
                    (comp_store e) (engine_components e)) ca) k
            = if decide (Component.terminal (comp_at (comp_store e) ca) k
                         = Some nodeB)
              then Some nodeA
              else Component.terminal (comp_at (comp_store e) ca) k) as Heq.
    { unfold comp_at at 1.
      rewrite (merge_fold nodeA nodeB _ _ ca Hne), decide_True by done.
      unfold comp_at. destruct (comp_store e !! ca) as [c|]; simpl.
      - apply merged_slot.
      - done. }
    split; [done|]. rewrite Heq. case_decide; congruence.
  - intros ca Hca. rewrite (merge_fold nodeA nodeB _ _ ca Hne).
    by rewrite decide_False.
  - destruct (Node.isGND (node_at (node_store e) nodeB)).
    + rewrite node_at_insert_eq by done. simpl. by rewrite orb_true_r.
    + by rewrite orb_false_r.
  - intros n Hn. destruct (Node.isGND (node_at (node_store e) nodeB)); [|done].
    by rewrite list_lookup_insert_ne.
Qed.

Lemma mergeNodes_replaces_node_witness :
  let e := mkEngine [Node.mk "node_0" 0%float false 0;
                     Node.mk "node_1" 0%float true 1]
                    [Component.mk "comp_0" "resistor" [Some 0; Some 1]
                                  100%float 0%float false None None]
                    [0; 1] [0] in
  let e' := mergeNodes 0 1 e in
  mergeNodes 0 0 e = e
  /\ engine_components e' = engine_components e
  /\ (forall n, n ∈ engine_nodes e' <-> n ∈ engine_nodes e /\ n <> 1)
  /\ (forall ca k, ca ∈ engine_components e ->
        Component.terminal (comp_at (comp_store e') ca) k
        = (if decide (Component.terminal (comp_at (comp_store e) ca) k
                      = Some 1)
           then Some 0
           else Component.terminal (comp_at (comp_store e) ca) k)
        /\ Component.terminal (comp_at (comp_store e') ca) k <> Some 1)
  /\ (forall ca, ca ∉ engine_components e ->
        comp_store e' !! ca = comp_store e !! ca)
  /\ Node.isGND (node_at (node_store e') 0)
     = Node.isGND (node_at (node_store e) 0)
       || Node.isGND (node_at (node_store e) 1)
  /\ forall n, n <> 0 -> node_store e' !! n = node_store e !! n.
Proof.
  apply (mergeNodes_replaces_node 0 1); [lia|simpl; lia].
Defined.

(** ** solve: circuits without LEDs *)

(** [x - x] is zero or NaN, and neither exceeds 0: the test
    [diff > maxChange] fails on it. *)
Lemma fsub_self_not_positive x : fgt (fabs (x - x)) 0 = false.
Proof.
  unfold fgt, fabs.
  rewrite FloatAxioms.ltb_spec, FloatAxioms.abs_spec, FloatAxioms.sub_spec.
  change (Prim2SF 0) with (S754_zero false).
  destruct (Prim2SF x) as [s|s| |s m e]; try done; try (by destruct s).
  unfold FloatAxioms.SF64sub, SFsub. cbv zeta. rewrite Z.sub_diag. done.
Qed.

Lemma running_max_zero ds :
  Forall (fun d => fgt d 0 = false) ds -> running_max 0 ds = 0%float.
Proof.
  unfold running_max. induction 1 as [|d ds Hd _ IH]; simpl; [done|].
  by rewrite Hd.
Qed.

Lemma build_nodeMap_frame h h' active :
  Forall2 node_frame h h' -> build_nodeMap h' active = build_nodeMap h active.
Proof.
  intros HF. unfold build_nodeMap. generalize (∅ : gmap string nat).
  generalize (imap pair active).
  induction l as [|[i a] l IH]; intros m; simpl; [done|].
  destruct (node_frame_node_at _ _ a HF) as (-> & _). apply IH.
Qed.

Lemma getIdx_frame h h' nodeMap o :
  Forall2 node_frame h h' -> getIdx h' nodeMap o = getIdx h nodeMap o.
Proof.
  intros HF. destruct o as [a|]; simpl; [|done].
  by destruct (node_frame_node_at _ _ a HF) as (-> & -> & _).
Qed.

(** Without an LED, what a component stamps does not depend on the pass
    or on the node voltages. *)
Lemma stamp_component_no_led iter iter' h h' nodeMap N s c c' :
  Forall2 node_frame h h' -> comp_frame c c' -> is_type "led" c = false ->
  stamp_component iter' h' nodeMap N s c'
  = stamp_component iter h nodeMap N s c.
Proof.
  intros HF (_ & Ht & Hn & HR & HV & HO & HS) Hled.
  unfold stamp_component, stamp_battery, stamp_spdt, stamp_resistive,
    stamp_resistance, is_type, Component.terminal in *.
  simpl. rewrite Ht, Hn, HR, HV, HO, HS, Hled.
  by rewrite !(getIdx_frame _ _ _ _ HF).
Qed.

Lemma assemble_no_led iter iter' e e' :
  engine_frame e e' ->
  (forall ca, ca ∈ engine_components e ->
     is_type "led" (comp_at (comp_store e) ca) = false) ->
  assemble iter' e' = assemble iter e.
Proof.
  intros Hfr Hled. pose proof Hfr as (Hn & Hc & HF & HC).
  unfold assemble.
  rewrite (activeNodes_frame _ _ Hfr), (battery_count_frame _ _ Hfr), Hc.
  rewrite (build_nodeMap_frame _ _ _ HF).
  generalize (mkAssembly
    (leakage (length (activeNodes e))
       (Matrix.new
          (length (activeNodes e)
           + battery_count (comp_store e) (engine_components e))
          (length (activeNodes e)
           + battery_count (comp_store e) (engine_components e))))
    (replicate (length (activeNodes e)
                + battery_count (comp_store e) (engine_components e))
       0%float) 0).
  revert Hled. generalize (engine_components e).
  induction l as [|ca l IH]; intros Hled s; simpl; [done|].
  rewrite (stamp_component_no_led iter iter' (node_store e) (node_store e')
             _ _ _ (comp_at (comp_store e) ca)); try done.
  - destruct (stamp_component _ _ _ _ _ _); simpl; [|done..].
    apply IH. intros. apply Hled. by right.
  - by apply comp_frame_comp_at.
  - apply Hled. left.
Qed.

(** The voltage a pass leaves on the node of the node list: what the
    solver returned at the node's index if it is not ground, 0 if it
    is. *)
Lemma solve_pass_voltage iter e p i a :
  solve_pass iter e = Ok p -> NoDup (engine_nodes e) ->
  Forall (fun a => a < length (node_store e)) (engine_nodes e) ->
  activeNodes e !! i = Some a ->
  Node.voltage (node_at (node_store (pass_after p)) a)
  = vget (pass_result p) i.
Proof.
  intros Hp Hnd Hrange Hia. unfold solve_pass in Hp.
  apply bind_Ok in Hp as (s & _ & Hp).
  destruct (update_voltages _ _ _) as [m h] eqn:Hu.
  injection Hp as <-. simpl.
  unfold update_voltages in Hu.
  destruct (update_voltage_loop (solveLinearSystem (asm_A s) (asm_Z s))
              (imap pair (activeNodes e)) 0%float (node_store e))
    as (_ & _ & Hset & _).
  { rewrite imap_pair_snd. unfold activeNodes. by apply NoDup_filter. }
  { apply Forall_forall. intros [j b] Hin. simpl.
    apply list_elem_of_lookup in Hin as [k Hk].
    rewrite list_lookup_imap in Hk.
    destruct (activeNodes e !! k) as [c|] eqn:Hc; simplify_eq/=.
    apply list_elem_of_lookup_2 in Hc. unfold activeNodes in Hc.
    apply list_elem_of_filter in Hc as [_ Hc].
    rewrite Forall_forall in Hrange. by apply Hrange. }
  rewrite Hu in Hset. simpl in Hset.
  assert (Node.isGND (node_at h a) = false) as Hg.
  { pose proof (update_voltages_frame (solveLinearSystem (asm_A s) (asm_Z s))
                  (activeNodes e) (node_store e) (node_store e)
                  (Forall2_refl_frame _ _ node_frame_refl)) as Hfr.
    unfold update_voltages in Hfr. rewrite Hu in Hfr. simpl in Hfr.
    destruct (node_frame_node_at _ _ a Hfr) as (_ & -> & _).
    apply list_elem_of_lookup_2 in Hia. unfold activeNodes in Hia.
    by apply list_elem_of_filter in Hia as [? _]. }
  rewrite (ground_voltages_keeps _ _ _ Hg).
  apply (Hset (i, a)). apply list_elem_of_lookup. exists i.
  by rewrite list_lookup_imap, Hia.
Qed.

(** A circuit without LEDs is linear, and [solve] is done with it in
    exactly two passes: the second pass assembles the system of the first,
    gets the same solution, finds [maxChange] equal to 0 and leaves the
    engine exactly as the first pass left it. *)
Theorem solve_without_led_two_passes (e : CircuitEngine) :
  NoDup (engine_nodes e) ->
  Forall (fun a => a < length (node_store e)) (engine_nodes e) ->
  unknowns e <> 0 ->
  (forall ca, ca ∈ engine_components e ->
     is_type "led" (comp_at (comp_store e) ca) = false) ->
  exists p0 p1,
    solve_passes e = Ok [p0; p1]
    /\ pass_A p1 = pass_A p0 /\ pass_Z p1 = pass_Z p0
    /\ pass_result p1 = pass_result p0
    /\ pass_maxChange p1 = 0%float
    /\ pass_after p1 = pass_after p0
    /\ solve e = Ok (pass_after p0).
Proof.
  intros Hnd Hrange Hu Hled.
  destruct (solve_pass_Ok 0 e) as [p0 Hp0].
  destruct (solve_pass_frame _ _ _ Hp0) as (_ & Hb0 & Hfr0).
  destruct (solve_pass_Ok 1 (pass_after p0)) as [p1 Hp1].
  destruct (solve_pass_frame _ _ _ Hp1) as (_ & Hb1 & Hfr1).
  pose proof Hfr0 as (Hen0 & Hec0 & Hnf0 & Hcf0).
  pose proof Hfr1 as (Hen1 & Hec1 & Hnf1 & Hcf1).
  assert (NoDup (engine_nodes (pass_after p0))) as Hnd1 by (by rewrite Hen0).
  assert (Forall (fun a => a < length (node_store (pass_after p0))) (engine_nodes (pass_after p0)))
    as Hrange1.
  { rewrite Hen0, <- (Forall2_length _ _ _ Hnf0). done. }
  (* the same system, the same solution *)
  destruct (solve_pass_assemble _ _ _ Hp0) as (vs0 & Ha0 & Hr0).
  destruct (solve_pass_assemble _ _ _ Hp1) as (vs1 & Ha1 & Hr1).
  rewrite (assemble_no_led 0 1 e (pass_after p0) Hfr0 Hled) in Ha1.
  assert (pass_A p1 = pass_A p0 /\ pass_Z p1 = pass_Z p0) as [HA HZ].
  { rewrite Ha0 in Ha1. by injection Ha1 as -> -> _. }
  assert (pass_result p1 = pass_result p0) as Hres by congruence.
  pose proof (activeNodes_frame _ _ Hfr0) as Hact.
  (* the voltages after the two passes *)
  assert (forall a, a ∈ engine_nodes e ->
            Node.voltage (node_at (node_store (pass_after p1)) a)
            = Node.voltage (node_at (node_store (pass_after p0)) a)) as Hvolt.
  { intros a Ha.
    destruct (Node.isGND (node_at (node_store e) a)) eqn:Hg.
    - rewrite (solve_pass_ground _ _ _ _ Hp0 Ha Hg).
      apply (solve_pass_ground _ _ _ _ Hp1); [by rewrite Hen0|].
      by destruct (node_frame_node_at _ _ a Hnf0) as (_ & -> & _).
    - assert (a ∈ activeNodes e) as Hin.
      { unfold activeNodes. by apply list_elem_of_filter. }
      apply list_elem_of_lookup in Hin as [i Hi].
      rewrite (solve_pass_voltage _ _ _ i a Hp0 Hnd Hrange Hi).
      rewrite (solve_pass_voltage _ _ _ i a Hp1 Hnd1 Hrange1);
        [by rewrite Hres|by rewrite Hact]. }
  assert (node_store (pass_after p1) = node_store (pass_after p0)) as Hnodes.
  { apply list_eq. intros a.
    destruct (decide (a ∈ engine_nodes e)) as [Ha|Ha].
    - specialize (Hvolt a Ha). unfold node_at in Hvolt.
      destruct (node_store (pass_after p0) !! a) as [n|] eqn:Hn.
      + destruct (Forall2_lookup_l _ _ _ _ _ Hnf1 Hn)
          as (n' & Hn' & Hid & Hg & Hp).
        rewrite Hn'. rewrite Hn' in Hvolt. simpl in Hvolt. f_equal.
        destruct n, n'. simpl in *. congruence.
      + apply lookup_ge_None. rewrite <- (Forall2_length _ _ _ Hnf1).
        by apply lookup_ge_None.
    - destruct (solve_pass_outside _ _ _ Hp1) as [Hout _].
      apply Hout. by rewrite Hen0. }
  assert (comp_store (pass_after p1) = comp_store (pass_after p0)) as Hcomps.
  { apply list_eq. intros ca.
    destruct (decide (ca ∈ engine_components e)) as [Hca|Hca].
    - destruct (comp_store e !! ca) as [c|] eqn:Hc.
      + destruct (Forall2_lookup_l _ _ _ _ _ Hcf0 Hc) as (c1 & Hc1 & Hf01).
        destruct (Forall2_lookup_l _ _ _ _ _ Hcf1 Hc1) as (c2 & Hc2 & Hf12).
        pose proof (solve_pass_current _ _ _ _ _ Hp0 Hca Hc) as Hcur0.
        pose proof (solve_pass_current _ _ _ ca c1 Hp1) as Hcur1.
        rewrite Hec0 in Hcur1. specialize (Hcur1 Hca Hc1).
        rewrite (component_current_frame _ _ _ _ _ _ _ Hcf0) in Hcur1.
        rewrite Hnodes, Hres, Hact in Hcur1.
        rewrite <- Hcur0 in Hcur1.
        rewrite (comp_at_lookup _ _ _ Hc2), (comp_at_lookup _ _ _ Hc1) in Hcur1.
        rewrite Hc1, Hc2. f_equal.
        destruct Hf12 as (?&?&?&?&?&?&?).
        destruct c1, c2. simpl in *. congruence.
      + assert (length (comp_store e) <= ca) as Hge by (by apply lookup_ge_None).
        rewrite (proj2 (lookup_ge_None (comp_store (pass_after p0)) ca))
          by (rewrite <- (Forall2_length _ _ _ Hcf0); lia).
        apply lookup_ge_None.
        rewrite <- (Forall2_length _ _ _ Hcf1), <- (Forall2_length _ _ _ Hcf0).
        lia.
    - destruct (solve_pass_outside _ _ _ Hp1) as [_ Hout].
      apply Hout. by rewrite Hec0. }
  assert (pass_after p1 = (pass_after p0)) as Hafter.
  { destruct (pass_after p1) as [h hc ns cs], (pass_after p0) as [h1 hc1 ns1 cs1].
    simpl in *. congruence. }
  (* hence no change is seen, and the loop stops *)
  assert (pass_maxChange p1 = 0%float) as Hmax.
  { rewrite (solve_pass_maxChange _ _ _ Hp1 Hnd1 Hrange1).
    apply running_max_zero, Forall_fmap, Forall_forall. intros a Ha. simpl.
    rewrite Hnodes. apply fsub_self_not_positive. }
  assert (solve_passes e = Ok [p0; p1]) as Hps.
  { unfold solve_passes, maxIterations. simpl.
    rewrite (proj2 (Nat.eqb_neq (unknowns e) 0)) by done.
    rewrite Hp0. simpl.
    rewrite (proj2 (Nat.eqb_neq (unknowns (pass_after p0)) 0))
      by (by rewrite (unknowns_frame _ _ Hfr0)).
    rewrite Hp1. simpl. rewrite Hmax. done. }
  exists p0, p1. split_and!; try done.
  rewrite (solve_unfold _ _ Hps). unfold final_state. simpl. by rewrite Hafter.
Qed.

Lemma solve_without_led_two_passes_witness :
  let e := built (rebuildTopology [mkWire (Some 0) 0 (Some 1) 0;
                                   mkWire (Some 0) 1 (Some 1) 1]
                    (addComponent 1 "resistor"
                       (addComponent 0 "battery" empty_engine).1).1) in
  exists p0 p1,
    solve_passes e = Ok [p0; p1]
    /\ pass_A p1 = pass_A p0 /\ pass_Z p1 = pass_Z p0
    /\ pass_result p1 = pass_result p0
    /\ pass_maxChange p1 = 0%float
    /\ pass_after p1 = pass_after p0
    /\ solve e = Ok (pass_after p0).
Proof.
  apply solve_without_led_two_passes.
  - vm_compute. repeat constructor; intros H; apply list_elem_of_In in H;
      simpl in H; lia.
  - vm_compute. repeat constructor; lia.
  - vm_compute. lia.
  - intros ca Hca. vm_compute in Hca. apply list_elem_of_In in Hca.
    simpl in Hca. destruct Hca as [<-|[<-|[]]]; reflexivity.
Defined.

(** ** Pointer events *)

Lemma engine_wf_store_comp e ca c :
  engine_wf e ->
  Component.nodes c = Component.nodes (comp_at (comp_store e) ca) ->
  engine_wf (store_comp e ca c).
Proof.
  intros [Hf Hv] Hn. split; [done|]. simpl.
  intros c' a Hc' Ha. apply elem_of_insert_inv in Hc' as [->|Hc'].
  - rewrite Hn in Ha. unfold comp_at in Ha.
    destruct (comp_store e !! ca) as [c0|] eqn:Hc0.
    + eapply Hv; [|exact Ha]. by eapply list_elem_of_lookup_2.
    + simpl in Ha. by apply elem_of_nil in Ha.
  - by eapply Hv.
Qed.

(** What the release loop does to the stored components. *)
Lemma release_pushbuttons_spec e :
  let r := release_pushbuttons e in
  node_store r.1 = node_store e /\ engine_nodes r.1 = engine_nodes e
  /\ engine_components r.1 = engine_components e
  /\ length (comp_store r.1) = length (comp_store e)
  /\ (engine_wf e -> engine_wf r.1)
  /\ forall ca c, comp_store e !! ca = Some c ->
       comp_store r.1 !! ca
       = Some (if bool_decide (ca ∈ engine_components e)
                  && is_type "pushbutton" c && negb (Component.isOpen c)
               then Component.set_resistance 1e9 (Component.set_isOpen true c)
               else c).
Proof.
  unfold release_pushbuttons.
  set (P := fun c => is_type "pushbutton" (comp_at (comp_store e) c) = true).
  set (f := fun (s : CircuitEngine * bool) pb =>
              let c := comp_at (comp_store s.1) pb in
              if Component.isOpen c then s
              else (store_comp s.1 pb
                      (Component.set_resistance 1e9
                         (Component.set_isOpen true c)), true)).
  assert (forall l s,
    let r := foldl f s l in
    node_store r.1 = node_store s.1 /\ engine_nodes r.1 = engine_nodes s.1
    /\ engine_components r.1 = engine_components s.1
    /\ length (comp_store r.1) = length (comp_store s.1)
    /\ (engine_wf s.1 -> engine_wf r.1)
    /\ forall ca c, comp_store s.1 !! ca = Some c ->
         comp_store r.1 !! ca
         = Some (if bool_decide (ca ∈ l) && negb (Component.isOpen c)
                 then Component.set_resistance 1e9
                        (Component.set_isOpen true c)
                 else c)) as Hgen.
  { induction l as [|pb l IH]; intros s; cbn [foldl].
    { cbv zeta. by split_and!. }
    pose (c0 := comp_at (comp_store s.1) pb).
    assert (f s pb = if Component.isOpen c0 then s
                     else (store_comp s.1 pb
                             (Component.set_resistance 1e9
                                (Component.set_isOpen true c0)), true))
      as -> by done.
    destruct (Component.isOpen c0) eqn:Hopen.
    - destruct (IH s) as (H1 & H2 & H3 & H4 & H5 & H6).
      cbv zeta. split_and!; try done. intros ca c Hc. rewrite (H6 ca c Hc).
      f_equal. destruct (decide (ca = pb)) as [->|Hne].
      + unfold c0 in Hopen. rewrite (comp_at_lookup _ _ _ Hc) in Hopen.
        rewrite Hopen. simpl. by rewrite !andb_false_r.
      + assert (bool_decide (ca ∈ pb :: l) = bool_decide (ca ∈ l)) as ->;
          [|done].
        apply bool_decide_ext. rewrite elem_of_cons. tauto.
    - destruct (IH (store_comp s.1 pb
                      (Component.set_resistance 1e9
                         (Component.set_isOpen true c0)), true))
        as (H1 & H2 & H3 & H4 & H5 & H6).
      cbn [fst] in *. cbv zeta. split_and!; try done.
      + rewrite H4. simpl. by rewrite length_insert.
      + intros Hwf. apply H5. by apply engine_wf_store_comp.
      + intros ca c Hc. destruct (decide (ca = pb)) as [->|Hne].
        * rewrite (H6 pb (Component.set_resistance 1e9
                            (Component.set_isOpen true c0))).
          2:{ simpl. apply list_lookup_insert_eq. by eapply lookup_lt_Some. }
          simpl. rewrite andb_false_r.
          unfold c0 in *. rewrite (comp_at_lookup _ _ _ Hc) in *.
          rewrite Hopen. rewrite bool_decide_eq_true_2 by left. done.
        * rewrite (H6 ca c); [|by simpl; rewrite list_lookup_insert_ne].
          f_equal.
          assert (bool_decide (ca ∈ pb :: l) = bool_decide (ca ∈ l)) as ->;
            [|done].
          apply bool_decide_ext. rewrite elem_of_cons. tauto. }
  destruct (Hgen (filter P (engine_components e)) (e, false))
    as (H1 & H2 & H3 & H4 & H5 & H6).
  cbv zeta. cbn [fst] in *. split_and!; try done.
  intros ca c Hc. rewrite (H6 ca c Hc). f_equal.
  assert (bool_decide (ca ∈ filter P (engine_components e))
          = bool_decide (ca ∈ engine_components e) && is_type "pushbutton" c)
    as ->; [|done].
  destruct (is_type "pushbutton" c) eqn:Hty.
  - rewrite andb_true_r. apply bool_decide_ext. rewrite list_elem_of_filter.
    unfold P. rewrite (comp_at_lookup _ _ _ Hc). tauto.
  - rewrite andb_false_r. apply bool_decide_eq_false_2.
    rewrite list_elem_of_filter. unfold P.
    rewrite (comp_at_lookup _ _ _ Hc), Hty. by intros [? _].
Qed.

Lemma release_pushbuttons_types e ca :
  Component.type (comp_at (comp_store (release_pushbuttons e).1) ca)
  = Component.type (comp_at (comp_store e) ca).
Proof.
  destruct (release_pushbuttons_spec e) as (_ & _ & _ & Hlen & _ & Hst).
  unfold comp_at. destruct (comp_store e !! ca) as [c|] eqn:Hc.
  - rewrite (Hst ca c Hc). simpl. by destruct (_ && _).
  - rewrite (proj2 (lookup_ge_None _ _)); [done|].
    rewrite Hlen. by apply lookup_ge_None.
Qed.

(** A rebuild on a well-formed engine returns, whatever the edges. *)
Lemma rebuildCircuit_returns wires e :
  engine_wf e ->
  exists e',
    rebuildCircuit wires e = Ok e'
    /\ engine_wf e' /\ engine_components e' = engine_components e
    /\ canonical_topology e'
    /\ Forall2 same_settings (comp_store e) (comp_store e').
Proof.
  intros Hwf. unfold rebuildCircuit.
  destruct (rebuildTopology_spec wires e Hwf)
    as (t & -> & Hwf1 & Hcs1 & Hsame & Hcan1).
  rewrite bind_Ok_l.
  destruct (solve_frame t) as (e' & -> & Hfr).
  exists e'. split_and!; [done|by eapply engine_wf_frame| |
                          by eapply canonical_topology_frame|].
  - destruct Hfr as (_ & -> & _). done.
  - destruct Hfr as (_ & _ & _ & Hcf).
    eapply Forall2_trans; [apply same_settings_trans| |].
    + eapply Forall2_impl; [exact Hsame|].
      apply same_settings_of_same_but_nodes.
    + eapply Forall2_impl; [exact Hcf|]. apply same_settings_of_comp_frame.
Qed.

Lemma solve_settings e :
  exists e',
    solve e = Ok e'
    /\ (engine_wf e -> engine_wf e')
    /\ engine_components e' = engine_components e
    /\ engine_nodes e' = engine_nodes e
    /\ Forall2 same_settings (comp_store e) (comp_store e').
Proof.
  destruct (solve_frame e) as (e' & -> & Hfr). exists e'.
  split_and!; [done|by apply engine_wf_frame|..].
  - by destruct Hfr as (_ & -> & _).
  - by destruct Hfr as (-> & _).
  - destruct Hfr as (_ & _ & _ & Hcf).
    eapply Forall2_impl; [exact Hcf|]. apply same_settings_of_comp_frame.
Qed.

Lemma same_settings_lookup hc hc' ca c :
  Forall2 same_settings hc hc' -> hc !! ca = Some c ->
  exists c', hc' !! ca = Some c' /\ same_settings c c'.
Proof. intros HF Hc. by eapply Forall2_lookup_l. Qed.

Lemma wires_listed_app cs w1 w2 :
  wires_listed cs w1 -> wires_listed cs w2 -> wires_listed cs (w1 ++ w2).
Proof. intros H1 H2 w Hw. apply elem_of_app in Hw as [Hw|Hw]; auto. Qed.

Lemma wires_listed_delete cs i ws :
  wires_listed cs ws -> wires_listed cs (delete i ws).
Proof.
  intros H w Hw. apply H. by eapply list_elem_of_delete_inv.
Qed.

Lemma wires_listed_more cs cs' ws :
  (forall c, c ∈ cs -> c ∈ cs') -> wires_listed cs ws -> wires_listed cs' ws.
Proof.
  intros Hsub H w Hw. destruct (H w Hw) as [Hs He]. split; eauto.
Qed.

(** [handlePointerUp] at the end of a wire drag from terminal [i] of the
    listed component [c] to another terminal, [j] of the listed component
    [c'], both terminals that [getTerminalAt] can return, on a state whose
    edges can all be drawn: the rebuild and the redraw return; the edge
    from the first terminal to the second is appended to [visualWires];
    the component list is as before; the controller's invariant holds
    again, the edges can still be drawn and the topology is the canonical
    one; the drag and drawing state is cleared and the selection is
    kept. *)
Theorem handlePointerUp_adds_wire (a : controller) (c i c' j : nat) :
  controller_wf a -> controller_drawable a ->
  isDrawingWire a = true -> wireStartTerminal a = Some (c, i) ->
  c ∈ engine_components (engine a) -> c' ∈ engine_components (engine a) ->
  terminal_drawable (comp_store (engine a)) (c, i) ->
  terminal_drawable (comp_store (engine a)) (c', j) ->
  (c', j) <> (c, i) ->
  exists a',
    handlePointerUp (Some (c', j)) a = Ok a'
    /\ controller_wf a' /\ controller_drawable a'
    /\ canonical_topology (engine a')
    /\ visualWires a' = visualWires a ++ [mkWire (Some c) i (Some c') j]
    /\ engine_components (engine a') = engine_components (engine a)
    /\ isDragging a' = false /\ isDrawingWire a' = false
    /\ wireStartTerminal a' = None
    /\ selectedComponent a' = selectedComponent a.
Proof.
  intros [Hwf Hl] Hdr Hdraw Hstart Hc Hc' Hti Htj Hne. unfold handlePointerUp.
  destruct (release_pushbuttons_spec (engine a))
    as (_ & _ & Hcs & _ & Hwf1 & _).
  pose proof (release_pushbuttons_types (engine a)) as Hty.
  destruct (release_pushbuttons (engine a)) as [e1 needs].
  simpl in Hcs, Hwf1, Hty.
  rewrite Hdraw, Hstart. rewrite bool_decide_eq_false_2 by done.
  cbn [fst snd].
  destruct (rebuildCircuit_returns
              (visualWires a ++ [mkWire (Some c) i (Some c') j]) e1)
    as (e' & He' & Hwf' & Hcs' & Hcan & Hset); [by apply Hwf1|].
  cbv zeta. rewrite He', !bind_Ok_l.
  assert (forall ca, Component.type (comp_at (comp_store e') ca)
                     = Component.type (comp_at (comp_store (engine a)) ca))
    as Hty'.
  { intros ca. by rewrite (same_settings_types _ _ Hset). }
  assert (controller_drawable
            (mkController e' (compCounter a)
               (visualWires a ++ [mkWire (Some c) i (Some c') j])
               (selectedComponent a) false false None)) as Hdr'.
  { intros w Hw. cbn [engine visualWires] in Hw |- *.
    apply (wire_drawable_types (comp_store (engine a))); [done|].
    apply elem_of_app in Hw as [Hw|Hw]; [by apply Hdr|].
    apply list_elem_of_singleton in Hw as ->. by exists c, c'. }
  rewrite (draw_Ok _ Hdr'), bind_Ok_l.
  eexists. split; [done|]. simpl. split_and!; try done; [|congruence].
  split; simpl; [done|]. rewrite Hcs', Hcs.
  apply wires_listed_app; [done|].
  intros w Hw. apply list_elem_of_singleton in Hw as ->. simpl.
  split; intros ca [= <-]; done.
Qed.

Lemma handlePointerUp_adds_wire_witness :
  let e := (addComponent 1 "bulb" (addComponent 0 "battery" empty_engine).1).1 in
  let a := mkController e 2 [] None false true (Some (0, 0)) in
  exists a',
    handlePointerUp (Some (1, 0)) a = Ok a'
    /\ controller_wf a' /\ controller_drawable a'
    /\ canonical_topology (engine a')
    /\ visualWires a' = visualWires a ++ [mkWire (Some 0) 0 (Some 1) 0]
    /\ engine_components (engine a') = engine_components (engine a)
    /\ isDragging a' = false /\ isDrawingWire a' = false
    /\ wireStartTerminal a' = None
    /\ selectedComponent a' = selectedComponent a.
Proof.
  apply handlePointerUp_adds_wire; try reflexivity; try discriminate.
  - split; cbn [engine visualWires].
    + apply engine_wf_addComponent, engine_wf_addComponent, engine_wf_empty.
    + intros w Hw. by apply elem_of_nil in Hw.
  - intros w Hw. by apply elem_of_nil in Hw.
  - apply list_elem_of_In. simpl. auto.
  - apply list_elem_of_In. simpl. auto.
Defined.

(** A wire drag that starts on a terminal of the selected component and
    ends after that component was deleted from the keyboard leaves an edge
    that names the deleted component.  On a state whose edges can all be
    drawn, [handlePointerDown] on the terminal records it and keeps the
    selection; [deleteSelected] removes the component and its edges but
    keeps the recorded terminal; [handlePointerUp] on any terminal of a
    still listed component then appends an edge from the recorded
    terminal.  All three return, and the edges can still be drawn, but
    the edge list names a component that is not listed: the controller's
    invariant is lost. *)
Theorem delete_while_drawing_leaves_stale_edge (a : controller) (c i : nat)
    (clickedComp : option nat) (wireHit : option (wire * nat)) :
  controller_wf a -> controller_drawable a ->
  selectedComponent a = Some c ->
  terminal_drawable (comp_store (engine a)) (c, i) ->
  exists a1 a2,
    handlePointerDown (Some (c, i)) clickedComp wireHit a = Ok a1
    /\ deleteSelected a1 = Ok a2
    /\ (c ∉ engine_components (engine a2))
    /\ forall c' j, c' ∈ engine_components (engine a2) ->
         terminal_drawable (comp_store (engine a2)) (c', j) ->
         exists a3,
           handlePointerUp (Some (c', j)) a2 = Ok a3
           /\ mkWire (Some c) i (Some c') j ∈ visualWires a3
           /\ (c ∉ engine_components (engine a3))
           /\ controller_drawable a3
           /\ ~ controller_wf a3.
Proof.
  intros [Hwf Hl] Hdr Hsel Hti.
  set (wires := without_wires_of c (visualWires a)).
  set (e1 := without_component c (engine a)).
  destruct (removeOrphanedJoints_spec_aux wires e1) as [Hchar _].
  destruct (rebuildCircuit_returns wires (removeOrphanedJoints wires e1))
    as (e2 & He2 & Hwf2 & Hcs2 & _ & Hset2); [done|].
  pose proof (same_settings_types _ _ Hset2) as Hty2. simpl in Hty2.
  exists (mkController (engine a) (compCounter a) (visualWires a)
                       (selectedComponent a) (isDragging a) true
                       (Some (c, i))),
         (mkController e2 (compCounter a) wires None (isDragging a) true
                       (Some (c, i))).
  split; [reflexivity|].
  unfold deleteSelected. cbn [selectedComponent engine visualWires compCounter
    isDragging isDrawingWire wireStartTerminal]. rewrite Hsel.
  fold wires e1. rewrite He2, bind_Ok_l. cbv zeta.
  assert (controller_drawable
            (mkController e2 (compCounter a) wires None (isDragging a) true
                          (Some (c, i)))) as Hdr2.
  { intros w Hw. cbn [engine visualWires] in Hw |- *.
    apply (wire_drawable_types (comp_store (engine a))); [done|].
    apply Hdr. by apply without_wires_of_spec in Hw as [Hw _]. }
  rewrite (draw_Ok _ Hdr2), bind_Ok_l. split; [reflexivity|].
  cbn [engine].
  assert (c ∉ engine_components e2) as Hnc.
  { rewrite Hcs2, Hchar. unfold e1. rewrite without_component_spec. tauto. }
  split; [done|]. intros c' j Hc' Htj.
  unfold handlePointerUp. cbn [engine visualWires compCounter
    selectedComponent isDragging isDrawingWire wireStartTerminal].
  destruct (release_pushbuttons_spec e2) as (_ & _ & Hcs & _ & Hwf3 & _).
  pose proof (release_pushbuttons_types e2) as Hty3.
  destruct (release_pushbuttons e2) as [e3 needs]. simpl in Hcs, Hwf3, Hty3.
  rewrite bool_decide_eq_false_2 by (intros [= -> _]; done).
  cbn [fst snd].
  destruct (rebuildCircuit_returns
              (wires ++ [mkWire (Some c) i (Some c') j]) e3)
    as (e4 & He4 & _ & Hcs4 & _ & Hset4); [by apply Hwf3|].
  pose proof (same_settings_types _ _ Hset4) as Hty4.
  cbv zeta. rewrite He4, !bind_Ok_l.
  assert (controller_drawable
            (mkController e4 (compCounter a)
               (wires ++ [mkWire (Some c) i (Some c') j]) None
               false false None)) as Hdr4.
  { intros w Hw. cbn [engine visualWires] in Hw |- *.
    apply (wire_drawable_types (comp_store e2)).
    { intros ca. by rewrite Hty4, Hty3. }
    apply elem_of_app in Hw as [Hw|Hw]; [by apply Hdr2|].
    apply list_elem_of_singleton in Hw as ->. exists c, c'.
    split_and!; [done|done| |done].
    by apply (terminal_drawable_types (comp_store (engine a))). }
  rewrite (draw_Ok _ Hdr4), bind_Ok_l.
  eexists. split; [reflexivity|]. cbn [engine visualWires].
  assert (c ∉ engine_components e4) as Hnc4 by (by rewrite Hcs4, Hcs).
  assert (mkWire (Some c) i (Some c') j
          ∈ wires ++ [mkWire (Some c) i (Some c') j]) as Hin.
  { apply elem_of_app. right. by apply list_elem_of_singleton. }
  split_and!; [done|done|done|].
  intros [_ Hl4]. cbn [engine visualWires] in Hl4.
  destruct (Hl4 _ Hin) as [Hs _]. by apply Hnc4, Hs.
Qed.

Lemma delete_while_drawing_leaves_stale_edge_witness :
  let e := (addComponent 1 "bulb" (addComponent 0 "battery" empty_engine).1).1 in
  let a := mkController e 2 [mkWire (Some 0) 1 (Some 1) 1] (Some 0)
                        false false None in
  exists a1 a2,
    handlePointerDown (Some (0, 0)) None None a = Ok a1
    /\ deleteSelected a1 = Ok a2
    /\ (0 ∉ engine_components (engine a2))
    /\ forall c' j, c' ∈ engine_components (engine a2) ->
         terminal_drawable (comp_store (engine a2)) (c', j) ->
         exists a3,
           handlePointerUp (Some (c', j)) a2 = Ok a3
           /\ mkWire (Some 0) 0 (Some c') j ∈ visualWires a3
           /\ (0 ∉ engine_components (engine a3))
           /\ controller_drawable a3
           /\ ~ controller_wf a3.
Proof.
  apply delete_while_drawing_leaves_stale_edge;
    [| |reflexivity|discriminate].
  - split; cbn [engine visualWires].
    + apply engine_wf_addComponent, engine_wf_addComponent, engine_wf_empty.
    + intros w Hw. apply list_elem_of_In in Hw. simpl in Hw.
      destruct Hw as [<-|[]]; simpl;
        (split; intros ca [= <-]; apply list_elem_of_In; simpl; auto).
  - intros w Hw. apply list_elem_of_In in Hw. simpl in Hw.
    destruct Hw as [<-|[]]; eexists _, _;
      (split_and!; [reflexivity|reflexivity|discriminate..]).
Defined.

(** [handlePointerUp] on a state whose edges can all be drawn, with
    terminals that [getTerminalAt] can return, always returns and leaves
    every listed push button open: one that was closed is opened with
    resistance [1e9], one that was open keeps its resistance.  All other
    settings of all stored components are kept, the edges can still be
    drawn, and the drag and drawing state is cleared. *)
Theorem handlePointerUp_releases_pushbuttons (a : controller)
    (terminal : option (nat * nat)) :
  engine_wf (engine a) -> controller_drawable a ->
  (forall t, wireStartTerminal a = Some t \/ terminal = Some t ->
             terminal_drawable (comp_store (engine a)) t) ->
  exists a',
    handlePointerUp terminal a = Ok a'
    /\ engine_wf (engine a') /\ controller_drawable a'
    /\ engine_components (engine a') = engine_components (engine a)
    /\ isDragging a' = false /\ isDrawingWire a' = false
    /\ wireStartTerminal a' = None
    /\ forall ca c, comp_store (engine a) !! ca = Some c ->
         exists c',
           comp_store (engine a') !! ca = Some c'
           /\ same_settings
                (if bool_decide (ca ∈ engine_components (engine a))
                    && is_type "pushbutton" c && negb (Component.isOpen c)
                 then Component.set_resistance 1e9
                        (Component.set_isOpen true c)
                 else c) c'.
Proof.
  intros Hwf Hdr Hterm. unfold handlePointerUp.
  destruct (release_pushbuttons_spec (engine a))
    as (_ & _ & Hcs & _ & Hwf1 & Hst).
  pose proof (release_pushbuttons_types (engine a)) as Hty.
  destruct (release_pushbuttons (engine a)) as [e1 needs].
  cbn [fst] in Hcs, Hwf1, Hst, Hty. specialize (Hwf1 Hwf).
  assert (forall (r : outcome (CircuitEngine * list wire * bool)),
    (exists e2 ws b, r = Ok (e2, ws, b) /\ engine_wf e2
       /\ engine_components e2 = engine_components e1
       /\ Forall2 same_settings (comp_store e1) (comp_store e2)
       /\ forall w, w ∈ ws -> wire_drawable (comp_store (engine a)) w) ->
    exists a',
      ('(e, wires, needsSolve) ← r;
       e ← (if needsSolve : bool then solve e else Ok e);
       let a' := mkController e (compCounter a) wires (selectedComponent a)
                              false false None in
       draw a';; Ok a') = Ok a'
      /\ engine_wf (engine a') /\ controller_drawable a'
      /\ engine_components (engine a') = engine_components e1
      /\ isDragging a' = false /\ isDrawingWire a' = false
      /\ wireStartTerminal a' = None
      /\ Forall2 same_settings (comp_store e1) (comp_store (engine a')))
    as Hfinish.
  { intros r (e2 & ws & b & -> & Hwf2 & Hcs2 & Hset2 & Hws).
    rewrite bind_Ok_l.
    assert (exists e3, (if b then solve e2 else Ok e2) = Ok e3
                       /\ engine_wf e3
                       /\ engine_components e3 = engine_components e1
                       /\ Forall2 same_settings (comp_store e1) (comp_store e3))
      as (e3 & -> & Hwf3 & Hcs3 & Hset3).
    { destruct b; [|by exists e2].
      destruct (solve_settings e2) as (e3 & -> & Hwf3 & Hcs3 & _ & Hset3).
      exists e3. split_and!; [done|by apply Hwf3|congruence|].
      eapply Forall2_trans; [apply same_settings_trans|done|done]. }
    rewrite bind_Ok_l. cbv zeta.
    assert (controller_drawable
              (mkController e3 (compCounter a) ws (selectedComponent a)
                            false false None)) as Hdr3.
    { intros w Hw. cbn [engine visualWires] in Hw |- *.
      apply (wire_drawable_types (comp_store (engine a))); [|by apply Hws].
      intros ca. by rewrite (same_settings_types _ _ Hset3), Hty. }
    rewrite (draw_Ok _ Hdr3), bind_Ok_l. eexists. split; [done|]. by simpl. }
  cbv zeta.
  match goal with
  | |- exists a', mbind _ ?r = _ /\ _ =>
      destruct (Hfinish r)
        as (a' & Ha' & Hwf' & Hdr' & Hcs' & H1 & H2 & H3 & Hset)
  end.
  { assert (exists e2 ws b,
              Ok (e1, visualWires a, needs) = Ok (e2, ws, b) /\ engine_wf e2
              /\ engine_components e2 = engine_components e1
              /\ Forall2 same_settings (comp_store e1) (comp_store e2)
              /\ forall w, w ∈ ws -> wire_drawable (comp_store (engine a)) w)
      as Hsame.
    { eexists _, _, _. split_and!; try done.
      apply Forall2_same_length_lookup_2; [done|].
      intros k x y Hx Hy. rewrite Hx in Hy. injection Hy as <-.
      apply same_settings_refl. }
    destruct (isDrawingWire a); [|exact Hsame].
    destruct (wireStartTerminal a) as [start|]; [|exact Hsame].
    destruct terminal as [t|]; [|exact Hsame].
    case_bool_decide; [exact Hsame|].
    destruct (rebuildCircuit_returns
                (visualWires a ++ [mkWire (Some start.1) start.2
                                          (Some t.1) t.2]) e1)
      as (e2 & -> & Hwf2 & Hcs2 & _ & Hset2); [done|].
    rewrite bind_Ok_l. eexists _, _, _. split_and!; try done.
    intros w Hw. apply elem_of_app in Hw as [Hw|Hw]; [by apply Hdr|].
    apply list_elem_of_singleton in Hw as ->. exists start.1, t.1.
    split_and!; [done|done|..]; simpl.
    - destruct start. apply Hterm. by left.
    - destruct t. apply Hterm. by right. }
  exists a'. split; [exact Ha'|]. split_and!; try done; [congruence|].
  intros ca c Hc. specialize (Hst ca c Hc).
  by eapply same_settings_lookup.
Qed.

Lemma handlePointerUp_releases_pushbuttons_witness :
  let a := mkController (addComponent 0 "pushbutton" empty_engine).1 1 []
                        None true false None in
  exists a',
    handlePointerUp None a = Ok a'
    /\ engine_wf (engine a') /\ controller_drawable a'
    /\ engine_components (engine a') = engine_components (engine a)
    /\ isDragging a' = false /\ isDrawingWire a' = false
    /\ wireStartTerminal a' = None
    /\ forall ca c, comp_store (engine a) !! ca = Some c ->
         exists c',
           comp_store (engine a') !! ca = Some c'
           /\ same_settings
                (if bool_decide (ca ∈ engine_components (engine a))
                    && is_type "pushbutton" c && negb (Component.isOpen c)
                 then Component.set_resistance 1e9
                        (Component.set_isOpen true c)
                 else c) c'.
Proof.
  apply handlePointerUp_releases_pushbuttons.
  - apply engine_wf_addComponent, engine_wf_empty.
  - intros w Hw. by apply elem_of_nil in Hw.
  - intros t [Ht|Ht]; discriminate.
Defined.

(** [handleDoubleClick] on an edge, on a state whose edges can all be
    drawn: the rebuild and the redraw return; the edge at the hit index is
    removed from [visualWires]; the components kept are the listed ones,
    less the joints that no remaining edge names; the controller's
    invariant holds again, the edges can still be drawn and the topology
    is the canonical one. *)
Theorem handleDoubleClick_removes_wire (a : controller) (w : wire)
    (index : nat) :
  controller_wf a -> controller_drawable a ->
  exists a',
    handleDoubleClick (Some (w, index)) a = Ok a'
    /\ controller_wf a' /\ controller_drawable a'
    /\ canonical_topology (engine a')
    /\ visualWires a' = delete index (visualWires a)
    /\ selectedComponent a' = selectedComponent a
    /\ forall c, c ∈ engine_components (engine a')
         <-> c ∈ engine_components (engine a)
             /\ (is_type "joint" (comp_at (comp_store (engine a)) c) = true ->
                 exists w', w' ∈ visualWires a' /\ names w' c).
Proof.
  intros [Hwf Hl] Hdr. unfold handleDoubleClick.
  set (wires := delete index (visualWires a)).
  pose proof (wires_listed_delete _ index _ Hl) as Hl1. fold wires in Hl1.
  destruct (removeOrphanedJoints_spec_aux wires (engine a)) as [Hchar Hkeep].
  specialize (Hkeep Hl1).
  destruct (rebuildCircuit_returns wires (removeOrphanedJoints wires (engine a)))
    as (e' & -> & Hwf' & Hcs' & Hcan & Hset); [done|].
  rewrite bind_Ok_l. cbv zeta.
  assert (controller_drawable
            (mkController e' (compCounter a) wires (selectedComponent a)
               (isDragging a) (isDrawingWire a) (wireStartTerminal a)))
    as Hdr'.
  { intros w' Hw'. cbn [engine visualWires] in Hw' |- *.
    apply (wire_drawable_settings (comp_store (engine a))); [exact Hset|].
    apply Hdr. by eapply list_elem_of_delete_inv. }
  rewrite (draw_Ok _ Hdr'), bind_Ok_l.
  eexists. split; [done|]. simpl.
  split_and!; try done.
  - split; simpl; [done|]. by rewrite Hcs'.
  - intros c. rewrite Hcs'. apply Hchar.
Qed.

Lemma handleDoubleClick_removes_wire_witness :
  let e := (addComponent 1 "joint" (addComponent 0 "battery" empty_engine).1).1 in
  let a := mkController e 2 [mkWire (Some 0) 0 (Some 1) 0] None
                        false false None in
  exists a',
    handleDoubleClick (Some (mkWire (Some 0) 0 (Some 1) 0, 0)) a = Ok a'
    /\ controller_wf a' /\ controller_drawable a'
    /\ canonical_topology (engine a')
    /\ visualWires a' = delete 0 (visualWires a)
    /\ selectedComponent a' = selectedComponent a
    /\ forall c, c ∈ engine_components (engine a')
         <-> c ∈ engine_components (engine a)
             /\ (is_type "joint" (comp_at (comp_store (engine a)) c) = true ->
                 exists w', w' ∈ visualWires a' /\ names w' c).
Proof.
  apply handleDoubleClick_removes_wire.
  - split; cbn [engine visualWires].
    + apply engine_wf_addComponent, engine_wf_addComponent, engine_wf_empty.
    + intros w Hw. apply list_elem_of_In in Hw. simpl in Hw.
      destruct Hw as [<-|[]]; simpl;
        (split; intros ca [= <-]; apply list_elem_of_In; simpl; auto).
  - intros w Hw. apply list_elem_of_In in Hw. simpl in Hw.
    destruct Hw as [<-|[]]; eexists _, _;
      (split_and!; [reflexivity|reflexivity|discriminate..]).
Defined.

(** [handlePointerDown] on an edge of [visualWires], away from terminals
    and components: the rebuild returns; a new joint of resistance
    [0.001] is listed last and selected for dragging; the edge is replaced
    by one from its start to terminal 0 of the joint and one from
    terminal 1 of the joint to its end, both appended; the counter
    advances; the controller's invariant holds again and the topology is
    the canonical one. *)
Theorem handlePointerDown_splits_wire (a : controller) (oldW : wire)
    (index : nat) :
  controller_wf a -> visualWires a !! index = Some oldW ->
  exists a',
    handlePointerDown None None (Some (oldW, index)) a = Ok a'
    /\ controller_wf a' /\ canonical_topology (engine a')
    /\ compCounter a' = S (compCounter a)
    /\ isDragging a' = true
    /\ let joint := length (comp_store (engine a)) in
       selectedComponent a' = Some joint
       /\ engine_components (engine a')
          = engine_components (engine a) ++ [joint]
       /\ Component.type (comp_at (comp_store (engine a')) joint) = "joint"
       /\ Component.resistance (comp_at (comp_store (engine a')) joint)
          = 0.001%float
       /\ visualWires a'
          = delete index (visualWires a)
            ++ [mkWire (startComp oldW) (startTerm oldW) (Some joint) 0;
                mkWire (Some joint) 1 (endComp oldW) (endTerm oldW)].
Proof.
  intros [Hwf Hl] Hold. unfold handlePointerDown.
  destruct (addComponent (compCounter a) "joint" (engine a)) as [e1 joint]
    eqn:Hadd.
  assert (e1 = (addComponent (compCounter a) "joint" (engine a)).1) as He1
    by (by rewrite Hadd).
  assert (joint = length (comp_store (engine a))) as ->
    by (by injection Hadd as _ <-).
  set (joint := length (comp_store (engine a))).
  set (wires := delete index (visualWires a)
                ++ [mkWire (startComp oldW) (startTerm oldW) (Some joint) 0;
                    mkWire (Some joint) 1 (endComp oldW) (endTerm oldW)]).
  assert (engine_components e1 = engine_components (engine a) ++ [joint])
    as Hcs1 by (by rewrite He1).
  destruct (rebuildCircuit_returns wires e1)
    as (e' & -> & Hwf' & Hcs' & Hcan & Hset).
  { rewrite He1. by apply engine_wf_addComponent. }
  rewrite bind_Ok_l. eexists. split; [done|]. simpl.
  pose proof (same_settings_comp_at _ _ joint Hset) as (_ & Hty & Hres & _).
  assert (comp_at (comp_store e1) joint
          = kind_defaults "joint"
              (Component.mk ("comp_" +:+ pretty (compCounter a)) "joint"
                            [None; None] 10 0 false None None)) as Hj.
  { rewrite He1. unfold comp_at, joint. simpl.
    by rewrite lookup_app_r, Nat.sub_diag by lia. }
  rewrite Hj in Hty, Hres.
  split_and!; try done; [|congruence].
  split; simpl; [done|]. rewrite Hcs', Hcs1.
  pose proof (list_elem_of_lookup_2 _ _ _ Hold) as Hin.
  destruct (Hl _ Hin) as [Hs He].
  apply wires_listed_app.
  - eapply wires_listed_more; [|by apply wires_listed_delete].
    intros c Hc. apply elem_of_app. by left.
  - intros w Hw. apply elem_of_cons in Hw as [->|Hw];
      [|apply list_elem_of_singleton in Hw as ->]; simpl.
    + split; intros ca Hca; apply elem_of_app.
      * left. by apply Hs.
      * right. injection Hca as <-. by apply list_elem_of_singleton.
    + split; intros ca Hca; apply elem_of_app.
      * right. injection Hca as <-. by apply list_elem_of_singleton.
      * left. by apply He.
Qed.

Lemma handlePointerDown_splits_wire_witness :
  let e := (addComponent 1 "bulb" (addComponent 0 "battery" empty_engine).1).1 in
  let a := mkController e 2 [mkWire (Some 0) 0 (Some 1) 0] None
                        false false None in
  exists a',
    handlePointerDown None None (Some (mkWire (Some 0) 0 (Some 1) 0, 0)) a
    = Ok a'
    /\ controller_wf a' /\ canonical_topology (engine a')
    /\ compCounter a' = S (compCounter a)
    /\ isDragging a' = true
    /\ let joint := length (comp_store (engine a)) in
       selectedComponent a' = Some joint
       /\ engine_components (engine a')
          = engine_components (engine a) ++ [joint]
       /\ Component.type (comp_at (comp_store (engine a')) joint) = "joint"
       /\ Component.resistance (comp_at (comp_store (engine a')) joint)
          = 0.001%float
       /\ visualWires a'
          = delete 0 (visualWires a)
            ++ [mkWire (Some 0) 0 (Some joint) 0;
                mkWire (Some joint) 1 (Some 1) 0].
Proof.
  apply (handlePointerDown_splits_wire _ (mkWire (Some 0) 0 (Some 1) 0) 0);
    [|reflexivity].
  split; cbn [engine visualWires].
  - apply engine_wf_addComponent, engine_wf_addComponent, engine_wf_empty.
  - intros w Hw. apply list_elem_of_In in Hw. simpl in Hw.
    destruct Hw as [<-|[]]; simpl;
      (split; intros ca [= <-]; apply list_elem_of_In; simpl; auto).
Defined.

(** One of the three blocks of a component click: the fields of the
    clicked component are written and the circuit solved, or nothing
    happens. *)
Lemma click_stage e clicked c (b : bool) (u : Component.t) :
  comp_store e !! clicked = Some c ->
  exists e',
    (if b then solve (store_comp e clicked u) else Ok e) = Ok e'
    /\ engine_components e' = engine_components e
    /\ engine_nodes e' = engine_nodes e
    /\ (exists c', comp_store e' !! clicked = Some c'
                   /\ same_settings (if b then u else c) c')
    /\ forall ca c0, ca <> clicked -> comp_store e !! ca = Some c0 ->
         exists c0', comp_store e' !! ca = Some c0' /\ same_settings c0 c0'.
Proof.
  intros Hc. destruct b.
  - destruct (solve_settings (store_comp e clicked u))
      as (e' & -> & _ & Hcs & Hns & Hset).
    exists e'. split_and!; try done.
    + eapply same_settings_lookup; [exact Hset|]. simpl.
      apply list_lookup_insert_eq. by eapply lookup_lt_Some.
    + intros ca c0 Hne Hc0. eapply same_settings_lookup; [exact Hset|].
      simpl. by rewrite list_lookup_insert_ne.
  - exists e. split_and!; try done.
    + exists c. split; [done|apply same_settings_refl].
    + intros ca c0 _ Hc0. exists c0. split; [done|apply same_settings_refl].
Qed.

(** [handlePointerDown] on a component, away from terminals: it always
    returns, with the component selected for dragging and the edges, the
    component list and the node list as before.  A switch is toggled if
    it was already selected or nothing was; a push button is closed with
    resistance [0.001]; a two-way switch goes to position 1 from position
    0 and to position 0 otherwise, also when it had no position yet.  No
    other setting of any stored component changes. *)
Theorem handlePointerDown_click_component (a : controller) (clicked : nat)
    (c : Component.t) (wireHit : option (wire * nat)) :
  comp_store (engine a) !! clicked = Some c ->
  exists a',
    handlePointerDown None (Some clicked) wireHit a = Ok a'
    /\ selectedComponent a' = Some clicked /\ isDragging a' = true
    /\ visualWires a' = visualWires a
    /\ engine_components (engine a') = engine_components (engine a)
    /\ engine_nodes (engine a') = engine_nodes (engine a)
    /\ (forall ca c0, ca <> clicked ->
          comp_store (engine a) !! ca = Some c0 ->
          exists c0', comp_store (engine a') !! ca = Some c0'
                      /\ same_settings c0 c0')
    /\ exists c',
         comp_store (engine a') !! clicked = Some c'
         /\ Component.id c' = Component.id c
         /\ Component.type c' = Component.type c
         /\ Component.voltage c' = Component.voltage c
         /\ Component.isOpen c'
            = (if is_type "switch" c
               then if bool_decide (selectedComponent a = Some clicked)
                       || bool_decide (selectedComponent a = None)
                    then negb (Component.isOpen c) else Component.isOpen c
               else if is_type "pushbutton" c then false
               else Component.isOpen c)
         /\ Component.resistance c'
            = (if is_type "pushbutton" c then 0.001%float
               else Component.resistance c)
         /\ Component.spdtState c'
            = (if is_type "spdt" c
               then Some (if bool_decide (Component.spdtState c = Some 0)
                          then 1 else 0)
               else Component.spdtState c).
Proof.
  intros Hc. unfold handlePointerDown, click_component.
  rewrite (comp_at_lookup _ _ _ Hc).
  destruct (click_stage (engine a) clicked c
              (is_type "switch" c
               && (bool_decide (selectedComponent a = Some clicked)
                   || bool_decide (selectedComponent a = None)))
              (Component.set_isOpen (negb (Component.isOpen c)) c) Hc)
    as (e1 & -> & Hcs1 & Hns1 & (c1 & Hc1 & Hs1) & Hoth1).
  rewrite bind_Ok_l. rewrite (comp_at_lookup _ _ _ Hc1).
  destruct (click_stage e1 clicked c1 (is_type "pushbutton" c1)
              (Component.set_resistance 0.001
                 (Component.set_isOpen false c1)) Hc1)
    as (e2 & -> & Hcs2 & Hns2 & (c2 & Hc2 & Hs2) & Hoth2).
  rewrite bind_Ok_l. rewrite (comp_at_lookup _ _ _ Hc2).
  destruct (click_stage e2 clicked c2 (is_type "spdt" c2)
              (Component.set_spdtState
                 (Some (if bool_decide (Component.spdtState c2 = Some 0)
                        then 1 else 0)) c2) Hc2)
    as (e3 & -> & Hcs3 & Hns3 & (c3 & Hc3 & Hs3) & Hoth3).
  rewrite bind_Ok_l. eexists. split; [done|]. simpl.
  split_and!; try done; try congruence.
  - intros ca c0 Hne Hc0.
    destruct (Hoth1 ca c0 Hne Hc0) as (x1 & Hx1 & Hy1).
    destruct (Hoth2 ca x1 Hne Hx1) as (x2 & Hx2 & Hy2).
    destruct (Hoth3 ca x2 Hne Hx2) as (x3 & Hx3 & Hy3).
    exists x3. split; [done|].
    eapply same_settings_trans; [|exact Hy3].
    eapply same_settings_trans; [exact Hy1|exact Hy2].
  - exists c3. split; [done|].
    assert (Component.type c1 = Component.type c) as Ht1.
    { destruct Hs1 as (_ & -> & _). by destruct (_ && _). }
    assert (Component.type c2 = Component.type c) as Ht2.
    { destruct Hs2 as (_ & -> & _). rewrite <- Ht1.
      by destruct (is_type "pushbutton" c1). }
    assert (forall s, is_type s c1 = is_type s c) as Hi1
      by (intros s; unfold is_type; by rewrite Ht1).
    assert (forall s, is_type s c2 = is_type s c) as Hi2
      by (intros s; unfold is_type; by rewrite Ht2).
    rewrite Hi1 in Hs2. rewrite Hi2 in Hs3.
    clear Hi1 Hi2 Hoth1 Hoth2 Hoth3.
    assert (forall s1 s2, s1 <> s2 -> is_type s1 c = true ->
                          is_type s2 c = true -> False) as Hex.
    { intros s1 s2 Hne H1%is_type_eq H2%is_type_eq. congruence. }
    set (sel := bool_decide (selectedComponent a = Some clicked)
                || bool_decide (selectedComponent a = None)) in *.
    destruct (is_type "switch" c) eqn:Esw;
      destruct (is_type "pushbutton" c) eqn:Epb;
      destruct (is_type "spdt" c) eqn:Esp;
      try (exfalso; by (eapply (Hex "switch" "pushbutton")
                        || eapply (Hex "switch" "spdt")
                        || eapply (Hex "pushbutton" "spdt")));
      destruct sel; cbn [andb] in Hs1;
      destruct Hs1 as (Ha1 & _ & Hb1 & Hc1' & Hd1 & He1);
      destruct Hs2 as (Ha2 & _ & Hb2 & Hc2' & Hd2 & He2);
      destruct Hs3 as (Ha3 & Ht3 & Hb3 & Hc3' & Hd3 & He3);
      simpl in *;
      rewrite Ha3, Ht3, Hb3, Hc3', Hd3, He3, ?Ha2, ?Hb2, ?Hc2', ?Hd2, ?He2,
        ?Ha1, ?Hb1, ?Hc1', ?Hd1, ?He1;
      by split_and!.
Qed.

Lemma handlePointerDown_click_component_witness :
  let a := mkController (addComponent 0 "switch" empty_engine).1 1 [] None
                        false false None in
  let c := comp_at (comp_store (engine a)) 0 in
  comp_store (engine a) !! 0 = Some c
  /\ exists a',
    handlePointerDown None (Some 0) None a = Ok a'
    /\ selectedComponent a' = Some 0 /\ isDragging a' = true
    /\ visualWires a' = visualWires a
    /\ engine_components (engine a') = engine_components (engine a)
    /\ engine_nodes (engine a') = engine_nodes (engine a)
    /\ (forall ca c0, ca <> 0 ->
          comp_store (engine a) !! ca = Some c0 ->
          exists c0', comp_store (engine a') !! ca = Some c0'
                      /\ same_settings c0 c0')
    /\ exists c',
         comp_store (engine a') !! 0 = Some c'
         /\ Component.id c' = Component.id c
         /\ Component.type c' = Component.type c
         /\ Component.voltage c' = Component.voltage c
         /\ Component.isOpen c'
            = (if is_type "switch" c
               then if bool_decide (selectedComponent a = Some 0)
                       || bool_decide (selectedComponent a = None)
                    then negb (Component.isOpen c) else Component.isOpen c
               else if is_type "pushbutton" c then false
               else Component.isOpen c)
         /\ Component.resistance c'
            = (if is_type "pushbutton" c then 0.001%float
               else Component.resistance c)
         /\ Component.spdtState c'
            = (if is_type "spdt" c
               then Some (if bool_decide (Component.spdtState c = Some 0)
                          then 1 else 0)
               else Component.spdtState c).
Proof.
  split; [reflexivity|].
  apply handlePointerDown_click_component. reflexivity.
Defined.

(** ** Renaming: the same circuit on other node objects

    Two rebuilds of the same circuit need not pick the same node of a
    class as its root, so their results agree only up to a one-to-one
    renaming of the nodes.  The solver does not depend on which objects
    the nodes are. *)

Section Renaming.

Variable R : nat -> nat -> Prop.
Hypothesis R_fun : forall a b b', R a b -> R a b' -> b = b'.
Hypothesis R_inj : forall a a' b, R a b -> R a' b -> a = a'.

Lemma renamed_terminal cs hc1 hc2 ca k :
  renamed_comps R cs hc1 hc2 -> ca ∈ cs ->
  renamed_ref R (Component.terminal (comp_at hc1 ca) k)
                (Component.terminal (comp_at hc2 ca) k).
Proof.
  intros [_ Hcs] Hca. destruct (Hcs ca Hca) as (_&_&_&_&_&_&Hn).
  unfold Component.terminal.
  destruct (Component.nodes (comp_at hc1 ca) !! k) as [o1|] eqn:H1.
  - destruct (Forall2_lookup_l _ _ _ _ _ Hn H1) as (o2 & -> & Ho). done.
  - rewrite (proj2 (lookup_ge_None _ _)); [done|].
    rewrite <- (Forall2_length _ _ _ Hn). by apply lookup_ge_None.
Qed.

Lemma renamed_voltage_of h1 h2 o1 o2 :
  renamed_nodes R h1 h2 -> renamed_ref R o1 o2 ->
  voltage_of h2 o2 = voltage_of h1 o1.
Proof.
  intros Hn Ho. destruct o1 as [a|], o2 as [b|]; simpl in *; try done.
  by destruct (Hn a b Ho) as (_ & _ & _ & ? & _).
Qed.

Lemma renamed_isGND h1 h2 a b :
  renamed_nodes R h1 h2 -> R a b ->
  Node.isGND (node_at h2 b) = Node.isGND (node_at h1 a).
Proof. intros Hn Hab. by destruct (Hn a b Hab) as (_ & _ & _ & _ & ?). Qed.

Lemma renamed_id h1 h2 a b :
  renamed_nodes R h1 h2 -> R a b ->
  Node.id (node_at h2 b) = Node.id (node_at h1 a).
Proof. intros Hn Hab. by destruct (Hn a b Hab) as (_ & _ & ? & _). Qed.

Lemma renamed_activeNodes e1 e2 :
  renamed_engine R e1 e2 -> Forall2 R (activeNodes e1) (activeNodes e2).
Proof.
  intros (_ & Hn & Hreg & _). unfold activeNodes.
  induction Hn as [|a b l1 l2 Hab Hl IH]; [constructor|].
  rewrite !filter_cons, (renamed_isGND _ _ a b Hreg Hab).
  destruct (Node.isGND (node_at (node_store e1) a)); simpl; [done|].
  by constructor.
Qed.

Lemma renamed_battery_count cs hc1 hc2 :
  renamed_comps R cs hc1 hc2 ->
  battery_count hc2 cs = battery_count hc1 cs.
Proof.
  intros [_ Hcs]. unfold battery_count.
  assert (forall l : list nat, (forall ca, ca ∈ l -> ca ∈ cs) ->
    filter (fun a => is_type "battery" (comp_at hc2 a) = true) l
    = filter (fun a => is_type "battery" (comp_at hc1 a) = true) l) as Hgen.
  { induction l as [|ca l IH]; intros Hl; [done|].
    rewrite !filter_cons, IH by (intros; apply Hl; by right).
    destruct (Hcs ca) as (_ & Ht & _); [apply Hl; left|].
    unfold is_type. by rewrite Ht. }
  by rewrite Hgen.
Qed.

Lemma renamed_build_nodeMap h1 h2 active1 active2 :
  renamed_nodes R h1 h2 -> Forall2 R active1 active2 ->
  build_nodeMap h2 active2 = build_nodeMap h1 active1.
Proof.
  intros Hreg Hact. unfold build_nodeMap.
  assert (forall (f : nat -> nat) (m : gmap string nat),
    foldl (fun m ia => <[Node.id (node_at h2 ia.2) := ia.1]> m) m
          (imap (fun i a => (f i, a)) active2)
    = foldl (fun m ia => <[Node.id (node_at h1 ia.2) := ia.1]> m) m
            (imap (fun i a => (f i, a)) active1)) as Hgen.
  { induction Hact as [|a b l1 l2 Hab Hl IH]; intros f m; simpl; [done|].
    rewrite (renamed_id _ _ a b Hreg Hab).
    apply (IH (f ∘ S)). }
  apply (Hgen id).
Qed.

Lemma renamed_getIdx h1 h2 nodeMap o1 o2 :
  renamed_nodes R h1 h2 -> renamed_ref R o1 o2 ->
  getIdx h2 nodeMap o2 = getIdx h1 nodeMap o1.
Proof.
  intros Hreg Ho. destruct o1 as [a|], o2 as [b|]; simpl in *; try done.
  by rewrite (renamed_isGND _ _ a b Hreg Ho), (renamed_id _ _ a b Hreg Ho).
Qed.

Lemma renamed_ref_None o1 o2 :
  renamed_ref R o1 o2 -> bool_decide (o2 = None) = bool_decide (o1 = None).
Proof. by destruct o1, o2. Qed.

(** The stamp of a component does not depend on which objects its nodes
    are. *)
Lemma renamed_stamp_component iter cs hc1 hc2 h1 h2 nodeMap N s ca :
  renamed_comps R cs hc1 hc2 -> renamed_nodes R h1 h2 -> ca ∈ cs ->
  stamp_component iter h2 nodeMap N s (comp_at hc2 ca)
  = stamp_component iter h1 nodeMap N s (comp_at hc1 ca).
Proof.
  intros Hcs Hreg Hca.
  pose proof (fun k => renamed_terminal cs hc1 hc2 ca k Hcs Hca) as Hterm.
  destruct Hcs as [_ Hcs].
  destruct (Hcs ca Hca) as (_ & Ht & HR & HV & HO & HS & _).
  set (c1 := comp_at hc1 ca) in *. set (c2 := comp_at hc2 ca) in *.
  assert (forall k, getIdx h2 nodeMap (Component.terminal c2 k)
                    = getIdx h1 nodeMap (Component.terminal c1 k)) as Hidx.
  { intros k. by apply renamed_getIdx. }
  assert (forall k, voltage_of h2 (Component.terminal c2 k)
                    = voltage_of h1 (Component.terminal c1 k)) as Hvolt.
  { intros k. by apply renamed_voltage_of. }
  assert (forall k, bool_decide (Component.terminal c2 k = None)
                    = bool_decide (Component.terminal c1 k = None)) as Hnone.
  { intros k. by apply renamed_ref_None. }
  unfold stamp_component, stamp_battery, stamp_spdt, stamp_resistive,
    stamp_resistance, is_type.
  simpl. rewrite Ht, HR, HV, HO, HS, !Hidx, !Hvolt, !Hnone. done.
Qed.

Lemma renamed_assemble iter e1 e2 :
  renamed_engine R e1 e2 -> assemble iter e2 = assemble iter e1.
Proof.
  intros Hrel. pose proof Hrel as (Hc & Hn & Hreg & Hcs).
  pose proof (renamed_activeNodes e1 e2 Hrel) as Hact.
  unfold assemble. rewrite <- (Forall2_length _ _ _ Hact), Hc.
  rewrite (renamed_battery_count _ _ _ Hcs).
  rewrite (renamed_build_nodeMap _ _ _ _ Hreg Hact).
  set (nodeMap := build_nodeMap (node_store e1) (activeNodes e1)).
  set (N := length (activeNodes e1)).
  generalize (mkAssembly
    (leakage N (Matrix.new
       (N + battery_count (comp_store e1) (engine_components e1))
       (N + battery_count (comp_store e1) (engine_components e1))))
    (replicate (N + battery_count (comp_store e1) (engine_components e1))
       0%float) 0).
  assert (forall l : list nat,
    (forall ca, ca ∈ l -> ca ∈ engine_components e1) ->
    forall s,
    forM (fun s ca => stamp_component iter (node_store e2) nodeMap N s
                        (comp_at (comp_store e2) ca)) l s
    = forM (fun s ca => stamp_component iter (node_store e1) nodeMap N s
                          (comp_at (comp_store e1) ca)) l s) as Hgen.
  { induction l as [|ca l IH]; intros Hl s; simpl; [done|].
    rewrite (renamed_stamp_component iter _ _ _ _ _ _ _ _ _ Hcs Hreg)
      by (apply Hl; left).
    destruct (stamp_component _ _ _ _ _ _); simpl; [|done..].
    apply IH. intros; apply Hl; by right. }
  by apply Hgen.
Qed.

Lemma renamed_nodes_update h1 h2 a b n1 n2 :
  renamed_nodes R h1 h2 -> R a b -> same_payload n1 n2 ->
  renamed_nodes R (<[a := n1]> h1) (<[b := n2]> h2).
Proof using R_fun R_inj.
  intros Hreg Hab Hn a' b' Hab'. rewrite !length_insert.
  destruct (Hreg a' b' Hab') as (Ha' & Hb' & Hp).
  destruct (Hreg a b Hab) as (Ha & Hb & _).
  split_and!; [done..|].
  destruct (decide (a' = a)) as [->|Hne].
  - assert (b' = b) as -> by (by eapply R_fun).
    by rewrite !node_at_insert_eq.
  - assert (b' <> b) as Hne' by (intros ->; apply Hne; by eapply R_inj).
    by rewrite !node_at_insert_ne.
Qed.

Lemma renamed_set_voltage h1 h2 a b v :
  renamed_nodes R h1 h2 -> R a b ->
  renamed_nodes R (<[a := Node.set_voltage v (node_at h1 a)]> h1)
                  (<[b := Node.set_voltage v (node_at h2 b)]> h2).
Proof using R_fun R_inj.
  intros Hreg Hab. destruct (Hreg a b Hab) as (_ & _ & Hid & _ & Hg).
  apply renamed_nodes_update; [done..|]. by split_and!.
Qed.

Lemma renamed_update_voltages result active1 active2 h1 h2 :
  renamed_nodes R h1 h2 -> Forall2 R active1 active2 ->
  (update_voltages result active2 h2).1
  = (update_voltages result active1 h1).1
  /\ renamed_nodes R (update_voltages result active1 h1).2
                     (update_voltages result active2 h2).2.
Proof using R_fun R_inj.
  intros Hreg Hact. unfold update_voltages. generalize 0%float.
  assert (forall (f : nat -> nat) h1 h2 m,
    renamed_nodes R h1 h2 ->
    let s1 := foldl (update_voltage result) (m, h1)
                    (imap (fun i a => (f i, a)) active1) in
    let s2 := foldl (update_voltage result) (m, h2)
                    (imap (fun i a => (f i, a)) active2) in
    s2.1 = s1.1 /\ renamed_nodes R s1.2 s2.2) as Hgen.
  { clear h1 h2 Hreg.
    induction Hact as [|a b l1 l2 Hab Hl IH]; intros f h1 h2 m Hreg; simpl;
      [done|].
    destruct (Hreg a b Hab) as (_ & _ & _ & Hv & _). rewrite Hv.
    apply (IH (f ∘ S)). by apply renamed_set_voltage. }
  intros m. by apply (Hgen id).
Qed.

Lemma renamed_ground_voltages all1 all2 h1 h2 :
  renamed_nodes R h1 h2 -> Forall2 R all1 all2 ->
  renamed_nodes R (ground_voltages all1 h1) (ground_voltages all2 h2).
Proof using R_fun R_inj.
  intros Hreg Hall. unfold ground_voltages. revert h1 h2 Hreg.
  induction Hall as [|a b l1 l2 Hab Hl IH]; intros h1 h2 Hreg; simpl; [done|].
  apply IH. rewrite (renamed_isGND _ _ a b Hreg Hab).
  destruct (Node.isGND (node_at h1 a)); [|done].
  by apply renamed_set_voltage.
Qed.

Lemma renamed_comps_set_current cs hc1 hc2 ca i1 i2 :
  renamed_comps R cs hc1 hc2 ->
  renamed_comps R cs
    (<[ca := Component.set_current i1 (comp_at hc1 ca)]> hc1)
    (<[ca := Component.set_current i2 (comp_at hc2 ca)]> hc2).
Proof.
  intros [Hlen Hcs]. split; [by rewrite !length_insert|].
  intros c Hc. pose proof (Hcs c Hc) as Hrel.
  destruct (decide (c = ca)) as [->|Hne].
  - destruct (decide (ca < length hc1)) as [Hlt|Hge].
    + rewrite !comp_at_insert_eq by lia. done.
    + rewrite !list_insert_ge by lia. done.
  - rewrite !comp_at_insert_ne by done. done.
Qed.

Lemma renamed_update_currents cs h1 h2 N result hc1 hc2 :
  renamed_comps R cs hc1 hc2 -> renamed_nodes R h1 h2 ->
  renamed_comps R cs (update_currents h1 cs N result hc1)
    (update_currents h2 cs N result hc2).
Proof.
  intros Hcs Hreg. unfold update_currents.
  assert (forall l : list nat, (forall c, c ∈ l -> c ∈ cs) ->
    forall hc1 hc2, renamed_comps R cs hc1 hc2 ->
    renamed_comps R cs
      (foldl (fun hc ca =>
                <[ca := Component.set_current
                          (component_current h1 hc cs N result ca)
                          (comp_at hc ca)]> hc) hc1 l)
      (foldl (fun hc ca =>
                <[ca := Component.set_current
                          (component_current h2 hc cs N result ca)
                          (comp_at hc ca)]> hc) hc2 l)) as Hgen.
  { induction l as [|c l IH]; intros Hl hc1' hc2' Hrel; simpl; [done|].
    apply IH; [intros; apply Hl; by right|].
    by apply renamed_comps_set_current. }
  by apply Hgen.
Qed.

(** One pass on a renamed engine: the same system, the same solution,
    the same [maxChange], and renamed results. *)
Lemma renamed_solve_pass iter e1 e2 p1 :
  renamed_engine R e1 e2 -> solve_pass iter e1 = Ok p1 ->
  exists p2,
    solve_pass iter e2 = Ok p2
    /\ pass_maxChange p2 = pass_maxChange p1
    /\ pass_result p2 = pass_result p1
    /\ renamed_engine R (pass_after p1) (pass_after p2).
Proof using R_fun R_inj.
  intros Hrel. pose proof Hrel as (Hc & Hn & Hreg & Hcs).
  pose proof (renamed_activeNodes e1 e2 Hrel) as Hact.
  unfold solve_pass.
  rewrite (renamed_assemble iter e1 e2 Hrel),
    <- (Forall2_length _ _ _ Hact), Hc.
  intros H. apply bind_Ok in H as (s & -> & H). rewrite bind_Ok_l.
  set (result := solveLinearSystem (asm_A s) (asm_Z s)) in *.
  destruct (renamed_update_voltages result (activeNodes e1) (activeNodes e2)
              (node_store e1) (node_store e2) Hreg Hact) as [Hm Hreg1].
  destruct (update_voltages result (activeNodes e1) (node_store e1))
    as [m1 h1] eqn:E1.
  destruct (update_voltages result (activeNodes e2) (node_store e2))
    as [m2 h2] eqn:E2.
  simpl in Hm, Hreg1. subst m2. injection H as <-.
  eexists. split; [done|]. simpl. split_and!; [done..|].
  unfold renamed_engine. simpl. split_and!; [done..| |].
  - by apply renamed_ground_voltages.
  - apply renamed_update_currents; [done|].
    by apply renamed_ground_voltages.
Qed.

Lemma renamed_unknowns e1 e2 :
  renamed_engine R e1 e2 -> unknowns e2 = unknowns e1.
Proof.
  intros Hrel. pose proof Hrel as (Hc & _ & _ & Hcs).
  pose proof (renamed_activeNodes e1 e2 Hrel) as Hact.
  unfold unknowns.
  by rewrite <- (Forall2_length _ _ _ Hact), Hc,
    (renamed_battery_count _ _ _ Hcs).
Qed.

Lemma renamed_solve_loop todo iter e1 e2 ps1 :
  renamed_engine R e1 e2 -> solve_loop todo iter e1 = Ok ps1 ->
  exists ps2,
    solve_loop todo iter e2 = Ok ps2
    /\ renamed_engine R (final_state e1 ps1) (final_state e2 ps2).
Proof using R_fun R_inj.
  revert iter e1 e2 ps1.
  induction todo as [|todo IH]; intros iter e1 e2 ps1 Hrel; simpl.
  { intros [= <-]. by exists []. }
  rewrite (renamed_unknowns e1 e2 Hrel).
  destruct (unknowns e1 =? 0); [intros [= <-]; by exists []|].
  intros H. apply bind_Ok in H as (p1 & Hp1 & H).
  destruct (renamed_solve_pass iter e1 e2 p1 Hrel Hp1)
    as (p2 & -> & Hm & _ & Hrel'). rewrite bind_Ok_l, Hm.
  destruct ((0 <? iter) && flt (pass_maxChange p1) 1e-3).
  - injection H as <-. by exists [p2].
  - apply bind_Ok in H as (ps1' & Hps1' & [= <-]).
    destruct (IH _ _ _ _ Hrel' Hps1') as (ps2' & -> & Hfin).
    rewrite bind_Ok_l. exists (p2 :: ps2'). split; [done|].
    by rewrite !final_state_cons.
Qed.

(** [solve] on a renamed engine gives the renamed result. *)
Lemma renamed_solve e1 e2 e1' :
  renamed_engine R e1 e2 -> solve e1 = Ok e1' ->
  exists e2', solve e2 = Ok e2' /\ renamed_engine R e1' e2'.
Proof using R_fun R_inj.
  intros Hrel. unfold solve, solve_passes. intros H.
  apply bind_Ok in H as (ps1 & Hps1 & [= <-]).
  destruct (renamed_solve_loop _ _ _ _ _ Hrel Hps1) as (ps2 & -> & Hfin).
  rewrite bind_Ok_l. by eexists.
Qed.

Lemma renamed_node_voltages e1 e2 :
  renamed_engine R e1 e2 -> node_voltages e2 = node_voltages e1.
Proof.
  intros (_ & Hn & Hreg & _). unfold node_voltages.
  induction Hn as [|a b l1 l2 Hab Hl IH]; [done|]. simpl.
  rewrite IH. f_equal. by destruct (Hreg a b Hab) as (_ & _ & _ & ? & _).
Qed.

Lemma renamed_terminal_voltages e1 e2 :
  renamed_engine R e1 e2 -> terminal_voltages e2 = terminal_voltages e1.
Proof.
  intros (Hc & _ & Hreg & [_ Hcs]). unfold terminal_voltages. rewrite Hc.
  apply map_ext_in. intros ca Hca. apply list_elem_of_In in Hca.
  destruct (Hcs ca Hca) as (_&_&_&_&_&_&Hn).
  induction Hn as [|o1 o2 l1 l2 Ho Hl IH]; [done|]. simpl.
  rewrite IH. f_equal. by apply renamed_voltage_of.
Qed.

End Renaming.

(** ** Classes of a rebuild on any edge list *)

Lemma root_of_same_parent h h' a r :
  Forall2 same_parent h h' -> root_of h a r -> root_of h' a r.
Proof.
  intros HF. induction 1 as [a Hroot|a r Hne Hr IH].
  - apply root_here. by eapply is_root_same_parent.
  - apply root_step; rewrite (same_parent_node_at _ _ a HF); done.
Qed.

Lemma root_of_lt h a r :
  forest h -> a < length h -> root_of h a r -> r < length h.
Proof.
  intros [rank Hf] Ha Hr. induction Hr as [a Hroot|a r Hne Hr IH]; [done|].
  apply IH. by destruct (forest_by_node_at rank h a Hf Ha).
Qed.

Lemma node_at_app_l h f a : a < length h -> node_at (h ++ f) a = node_at h a.
Proof. intros Ha. unfold node_at. by rewrite lookup_app_l. Qed.

Lemma root_of_app h f a r :
  forest h -> a < length h -> root_of h a r -> root_of (h ++ f) a r.
Proof.
  intros [rank Hf] Ha Hr. induction Hr as [a Hroot|a r Hne Hr IH].
  - apply root_here. unfold is_root in *. by rewrite node_at_app_l.
  - destruct (forest_by_node_at rank h a Hf Ha) as [Hp _].
    apply root_step; rewrite node_at_app_l by done; [done|]. by apply IH.
Qed.

Lemma root_of_app_inv h f a r :
  forest h -> a < length h -> root_of (h ++ f) a r -> root_of h a r.
Proof.
  intros [rank Hf] Ha Hr. remember (h ++ f) as g eqn:Hg.
  induction Hr as [a Hroot|a r Hne Hr IH]; subst g.
  - apply root_here. unfold is_root in *. by rewrite node_at_app_l in Hroot.
  - rewrite node_at_app_l in Hne, Hr, IH by done.
    destruct (forest_by_node_at rank h a Hf Ha) as [Hp _].
    apply root_step; [done|]. by apply IH.
Qed.

(** The classes of the store after the wire loop are the least ones that
    contain the classes it starts with and join the two ends of every
    edge that passes the check. *)
Lemma wires_classes_least fuel hc wires h h' (E : nat -> nat -> Prop) :
  (forall a b, E a b -> E b a) ->
  (forall a b c, E a b -> E b c -> E a c) ->
  (forall a b, a < length h -> b < length h -> same_class h a b -> E a b) ->
  (forall w n1 n2, w ∈ wires -> wire_ends hc w = Some (n1, n2) ->
     n1 < length h /\ n2 < length h /\ E n1 n2) ->
  forM (apply_wire fuel hc) wires h = Ok h' ->
  forall a b, a < length h -> b < length h -> same_class h' a b -> E a b.
Proof.
  intros Hsym Htrans. revert h.
  induction wires as [|w wires IH]; intros h Hh Hw; simpl.
  { intros [= <-]. exact Hh. }
  intros H. apply bind_Ok in H as (h1 & H1 & H).
  destruct (apply_wire_spec _ _ _ _ _ H1) as [Hlen1 _].
  intros a b Ha Hb. rewrite <- Hlen1 in Ha, Hb. revert a b Ha Hb.
  apply (IH h1); [|intros; rewrite Hlen1; eapply Hw; [by right|done]|done].
  rewrite Hlen1. unfold apply_wire in H1.
  destruct (wire_ends hc w) as [[n1 n2]|] eqn:Hends;
    [|injection H1 as <-; done].
  destruct (Hw w n1 n2) as (Hn1 & Hn2 & H12); [left|done|].
  intros a b Ha Hb Hab.
  destruct (union_classes_back _ _ _ _ _ a b H1 Hab)
    as [?|[[Ha' Hb']|[Ha' Hb']]]; [by apply Hh|..].
  - apply (Htrans a n1); [by apply Hh|]. apply (Htrans n1 n2); [done|].
    by apply Hsym, Hh.
  - apply (Htrans a n2); [by apply Hh|].
    apply (Htrans n2 n1); [by apply Hsym|]. by apply Hsym, Hh.
Qed.

(** Step 4 compresses paths: every node keeps its root. *)
Lemma step4_root_of fuel cs h hc h' hc' :
  forM (root_terminals fuel) cs (h, hc) = Ok (h', hc') ->
  forall b rb, root_of h b rb -> root_of h' b rb.
Proof.
  intros Hrun.
  assert (roots_kept h hc (h', hc')) as (Hroots & _).
  { eapply (forM_prefix_invariant (fun _ t => roots_kept h hc t));
      [| |exact Hrun].
    - split_and!; [done| |done]. intros ca k n r Hn Hr. by exists n.
    - intros pre ca s s' J Hstep.
      by destruct (root_terminals_roots _ _ _ _ _ _ J Hstep) as (S1 & _). }
  done.
Qed.

(** Two nodes are of one class in both stores or in neither, when every
    node keeps its root. *)
Lemma same_class_kept h h' a b :
  forest h -> a < length h -> b < length h ->
  (forall x r, root_of h x r -> root_of h' x r) ->
  same_class h a b <-> same_class h' a b.
Proof.
  intros Hf Ha Hb Hk. split.
  - intros (r & H1 & H2). exists r. split; by apply Hk.
  - intros (r & H1 & H2).
    destruct (root_of_total h a Hf Ha) as [ra Hra].
    destruct (root_of_total h b Hf Hb) as [rb Hrb].
    pose proof (root_of_inj _ _ _ _ H1 (Hk _ _ Hra)) as ->.
    pose proof (root_of_inj _ _ _ _ H2 (Hk _ _ Hrb)) as ->.
    by exists rb.
Qed.

Lemma Forall2_node_at (P : Node.t -> Node.t -> Prop) h h' a :
  P Node.dummy Node.dummy -> Forall2 P h h' -> P (node_at h a) (node_at h' a).
Proof.
  intros Hd HF. unfold node_at. destruct (h !! a) as [n|] eqn:Hn.
  - destruct (Forall2_lookup_l _ _ _ _ _ HF Hn) as (n' & -> & Hnn'). done.
  - rewrite (proj2 (lookup_ge_None h' a)); [done|].
    rewrite <- (Forall2_length _ _ _ HF). by apply lookup_ge_None.
Qed.

(** What a rebuild leaves, seen from the state after its step 1: the
    wire loop returns a forest of the same length; every node keeps the
    root the wire loop gave it and its voltage; every slot of a listed
    component holds the root of the fresh node step 1 put there; stored
    components that are not listed are untouched. *)
Lemma rebuildTopology_summary wires e t :
  engine_wf e -> rebuildTopology wires e = Ok t ->
  let cs := engine_components e in
  let s1 := foldl fresh_terminals (node_store e, comp_store e) cs in
  exists h3,
    forM (apply_wire (S (length s1.1)) s1.2) wires s1.1 = Ok h3
    /\ forest h3 /\ length h3 = length s1.1
    /\ length (node_store t) = length s1.1
    /\ (forall b rb, root_of h3 b rb -> root_of (node_store t) b rb)
    /\ (forall ca k n r, ca ∈ cs ->
          Component.terminal (comp_at s1.2 ca) k = Some n ->
          root_of h3 n r ->
          Component.terminal (comp_at (comp_store t) ca) k = Some r)
    /\ (forall ca, ca ∈ cs ->
          length (Component.nodes (comp_at (comp_store t) ca))
          = length (Component.nodes (comp_at s1.2 ca)))
    /\ (forall ca, ca ∉ cs -> comp_store t !! ca = comp_store e !! ca)
    /\ forall a, Node.voltage (node_at (node_store t) a)
                 = Node.voltage (node_at s1.1 a).
Proof.
  intros [Hforest Hvalid] Ht. cbv zeta.
  destruct (rebuildTopology_stages _ _ _ Ht) as (h3 & h4 & hc4 & h5 & H3 & H4 & H5 & ->).
  pose proof (step1_spec (node_store e) (comp_store e) (engine_components e))
    as Hstep1.
  set (s1 := foldl fresh_terminals (node_store e, comp_store e)
                   (engine_components e)) in *.
  pose proof (step1_forest _ _ _ _ Hstep1 Hforest) as Hf1.
  pose proof (step1_terminals_valid _ _ _ _ Hstep1 Hvalid) as Hv1.
  destruct (wires_Ok s1.2 wires s1.1 Hf1 Hv1) as (h3' & H3' & Hf3 & Hlen3 & Hp3).
  assert (h3' = h3) as -> by congruence.
  destruct (step4_spec _ _ _ _ _ _ H4) as (Hlen4 & Hp4 & _ & Hout4 & Hin4).
  destruct (uniqueNodes_spec hc4 (engine_components e)) as [Hnd _].
  destruct (assign_ids_spec _ _ _ H5 Hnd) as (Hlen5 & Hid5 & _).
  pose proof (ground_first_battery_same_but_id hc4 (engine_components e)
                h4 h5 Hid5) as Hg.
  exists h3. simpl. split_and!; [done|done|done| | | | | |].
  - rewrite <- (Forall2_length _ _ _ Hg). lia.
  - intros b rb Hr. apply (root_of_same_parent h5).
    { eapply Forall2_impl; [exact Hg|]. by intros x y (_ & _ & ?). }
    apply (root_of_same_parent h4).
    { eapply Forall2_impl; [exact Hid5|]. by intros x y (_ & _ & ?). }
    by eapply step4_root_of.
  - intros ca k n r Hca Hn Hr. by eapply step4_roots.
  - intros ca Hca. by destruct (Hin4 ca Hca).
  - intros ca Hca. rewrite (Hout4 ca Hca).
    by destruct Hstep1 as (_ & _ & Hout1 & _); apply Hout1.
  - intros a.
    pose proof (Forall2_node_at same_payload _ _ a ltac:(by repeat split) Hp3) as (_ & V3 & _).
    pose proof (Forall2_node_at same_payload _ _ a ltac:(by repeat split) Hp4) as (_ & V4 & _).
    assert (same_but_id (node_at h4 a) (node_at h5 a)) as (V5 & _).
    { apply Forall2_node_at; [by repeat split|done]. }
    assert (Node.voltage (node_at (ground_first_battery hc4
                                     (engine_components e) h5) a)
            = Node.voltage (node_at h5 a)) as V6.
    { apply (Forall2_node_at (fun n n' => Node.voltage n' = Node.voltage n));
        [done|].
      eapply Forall2_impl; [exact Hg|]. by intros x y (_ & ? & _). }
    congruence.
Qed.

(** The classes of the store step 1 leaves: the classes of the store it
    started on, and one class for each fresh node. *)
Lemma step1_classes h0 hc0 cs s a b :
  after_step1 h0 hc0 cs s -> forest h0 ->
  a < length s.1 -> b < length s.1 -> same_class s.1 a b ->
  (a < length h0 /\ b < length h0 /\ same_class h0 a b) \/ a = b.
Proof.
  intros Hs Hf Ha Hb (r & Hra & Hrb).
  destruct (step1_slots _ _ _ _ Hs) as (_ & _ & Hroot).
  destruct Hs as ((fresh & Hfresh & _) & _).
  assert (forall x, x < length s.1 -> root_of s.1 x r ->
            (x < length h0 /\ root_of h0 x r /\ r < length h0)
            \/ (length h0 <= x /\ x = r)) as Hcase.
  { intros x Hx Hr. destruct (decide (x < length h0)) as [Hlt|Hge].
    - left. rewrite Hfresh in Hr. apply root_of_app_inv in Hr; [|done..].
      split_and!; [done|done|]. by eapply root_of_lt.
    - right. split; [lia|]. eapply root_of_inj; [|exact Hr].
      apply root_here, Hroot. lia. }
  destruct (Hcase a Ha Hra) as [(?&?&?)|[? ->]];
    destruct (Hcase b Hb Hrb) as [(?&?&?)|[? ?]]; try lia.
  left. split_and!; [done..|]. by exists r.
Qed.

(** After a union every node has the root it had, or the root the second
    node had. *)
Lemma union_roots_back fuel h n1 n2 h' x r' :
  union fuel h n1 n2 = Ok h' -> root_of h' x r' ->
  exists r r2, root_of h x r /\ root_of h n2 r2 /\ (r' = r \/ r' = r2).
Proof.
  unfold union. intros H.
  apply bind_Ok in H as ([g1 r1] & Hf1 & H).
  apply bind_Ok in H as ([g2 r2] & Hf2 & [= <-]).
  destruct (find_root _ _ _ _ _ Hf1) as [Hr1 Hk1].
  destruct (find_root _ _ _ _ _ Hf2) as [Hr2 Hk2].
  pose proof (find_root_back _ _ _ _ _ Hf1) as Hb1.
  pose proof (find_root_back _ _ _ _ _ Hf2) as Hb2.
  pose proof (Hb1 _ _ Hr2) as Hr2'.
  destruct (Nat.eqb_spec r1 r2) as [->|Hne].
  { intros Hx. exists r', r2. split_and!; [by apply Hb1, Hb2|done|by left]. }
  pose proof (root_of_is_root _ _ _ (Hk2 _ _ (Hk1 _ _ Hr1))) as Hroot1.
  pose proof (root_of_is_root _ _ _ (Hk2 _ _ Hr2)) as Hroot2.
  intros Hx.
  apply (root_of_link_back _ _ _ _ _ Hroot1 Hroot2 Hne) in Hx as (rx & Hx & ->).
  exists rx, r2. split_and!; [by apply Hb1, Hb2|done|].
  case_decide; [by right|by left].
Qed.

(** When every edge ends on a listed component, the root of a fresh node
    is a fresh node. *)
Lemma wires_roots_fresh fuel hc wires h h' (L0 : nat) :
  (forall x r, L0 <= x < length h -> root_of h x r -> L0 <= r) ->
  (forall w n1 n2, w ∈ wires -> wire_ends hc w = Some (n1, n2) ->
     L0 <= n2 < length h) ->
  forM (apply_wire fuel hc) wires h = Ok h' ->
  forall x r, L0 <= x < length h -> root_of h' x r -> L0 <= r.
Proof.
  revert h. induction wires as [|w wires IH]; intros h Hh Hw; simpl.
  { intros [= <-]. exact Hh. }
  intros H. apply bind_Ok in H as (h1 & H1 & H).
  destruct (apply_wire_spec _ _ _ _ _ H1) as [Hlen1 _].
  rewrite <- Hlen1.
  apply (IH h1); [|intros; rewrite Hlen1; eapply Hw; [by right|done]|done].
  rewrite Hlen1. unfold apply_wire in H1.
  destruct (wire_ends hc w) as [[n1 n2]|] eqn:Hends;
    [|injection H1 as <-; done].
  intros x r' Hx Hr'.
  destruct (union_roots_back _ _ _ _ _ _ _ H1 Hr')
    as (r & r2 & Hr & Hr2 & [->| ->]); [by eapply Hh|].
  eapply (Hh n2); [|done]. eapply Hw; [left|done].
Qed.

(** ** Two rebuilds in succession, on any edge list *)

Section TwoRebuilds.

Variables (wires : list wire) (e t1 e1 t2 : CircuitEngine).
Hypothesis Hwf : engine_wf e.
Hypothesis Ht1 : rebuildTopology wires e = Ok t1.
Hypothesis Hfr : engine_frame t1 e1.
Hypothesis Ht2 : rebuildTopology wires e1 = Ok t2.

Local Notation "'cs'" := (engine_components e).
Local Notation "'sA'" :=
  (foldl fresh_terminals (node_store e, comp_store e) (engine_components e)).
Local Notation "'sB'" :=
  (foldl fresh_terminals (node_store e1, comp_store e1)
         (engine_components e)).
Local Notation "'L0'" := (length (node_store e)).
Local Notation "'L1'" := (length sA.1).
Local Notation "'d'" := (length sA.1 - length (node_store e)).

(** Where a node of the first rebuild is found in the second: a node
    that was there before stays, a fresh node is [d] addresses on. *)
Local Notation "'to_second'" :=
  (fun a => if decide (a < length (node_store e)) then a
            else a + (length sA.1 - length (node_store e))).
Local Notation "'to_first'" :=
  (fun b => if decide (b < length sA.1) then b
            else b - (length sA.1 - length (node_store e))).

Lemma two_rebuilds_setup :
  engine_components e1 = cs /\ engine_wf t1 /\ engine_wf e1
  /\ L0 <= L1 /\ length (node_store t1) = L1
  /\ length (node_store e1) = L1 /\ length sB.1 = L1 + d
  /\ Forall2 same_settings (comp_store e) (comp_store e1)
  /\ relocated_comps L0 L1 d cs sA.2 sB.2
  /\ after_step1 (node_store e) (comp_store e) cs sA
  /\ after_step1 (node_store e1) (comp_store e1) cs sB.
Proof using All.
  destruct (rebuildTopology_spec wires e Hwf)
    as (t & Ht & Hwf1 & Hcs1 & Hsame1 & _).
  assert (t = t1) as -> by congruence.
  pose proof (engine_wf_frame _ _ Hfr Hwf1) as Hwf1'.
  destruct Hfr as (_ & Hcs1' & Hnf & Hcf).
  destruct (rebuildTopology_summary _ _ _ Hwf Ht1)
    as (hA & _ & _ & _ & Hlen1 & _).
  pose proof (step1_spec (node_store e) (comp_store e) cs) as HsA.
  pose proof (step1_spec (node_store e1) (comp_store e1) cs) as HsB.
  assert (L0 <= L1) as Hle.
  { destruct HsA as ((fresh & -> & _) & _). rewrite length_app. lia. }
  assert (length (node_store e1) = L1) as HL1.
  { by rewrite <- (Forall2_length _ _ _ Hnf). }
  assert (Forall2 same_settings (comp_store e) (comp_store e1)) as Hset.
  { eapply Forall2_trans; [apply same_settings_trans| |].
    - eapply Forall2_impl; [exact Hsame1|].
      apply same_settings_of_same_but_nodes.
    - eapply Forall2_impl; [exact Hcf|]. apply same_settings_of_comp_frame. }
  destruct (relocated_step1 d (node_store e) (comp_store e)
              (node_store e1) (comp_store e1) cs) as (Hl & _ & _ & Hcomps);
    [lia|done|].
  split_and!; try done. congruence.
Qed.

Lemma first_terminal_valid c k n :
  Component.terminal (comp_at sA.2 c) k = Some n -> n < L1.
Proof using Hwf.
  destruct Hwf as [_ Hvalid].
  pose proof (step1_spec (node_store e) (comp_store e) cs) as HsA.
  pose proof (step1_terminals_valid _ _ _ _ HsA Hvalid) as Hv.
  intros Hn. by eapply terminal_valid.
Qed.

(** The slots of the second step 1 hold the nodes of the first, seen in
    the second store. *)
Lemma second_terminal c k :
  Component.terminal (comp_at sB.2 c) k
  = to_second <$> Component.terminal (comp_at sA.2 c) k.
Proof using All.
  destruct two_rebuilds_setup
    as (Hcs & Hwf1 & Hwf1' & Hle & HLt & HL1 & HLB & Hset & Hcomps & HsA & HsB).
  destruct (decide (c ∈ cs)) as [Hc|Hc].
  - destruct (relocated_terminal _ _ _ _ _ _ c k Hcomps Hc) as [-> Hin].
    destruct (Component.terminal (comp_at sA.2 c) k) as [n|]; simpl; [|done].
    specialize (Hin n eq_refl). rewrite decide_False by lia. done.
  - destruct HsA as (_ & _ & HoutA & _). destruct HsB as (_ & _ & HoutB & _).
    destruct (rebuildTopology_summary _ _ _ Hwf Ht1)
      as (hA & _ & _ & _ & _ & _ & _ & _ & Hout1 & _).
    destruct Hfr as (_ & _ & _ & Hcf).
    assert (comp_at sA.2 c = comp_at (comp_store e) c) as EA.
    { unfold comp_at. by rewrite (HoutA c Hc). }
    assert (comp_at sB.2 c = comp_at (comp_store e1) c) as EB.
    { unfold comp_at. by rewrite (HoutB c Hc). }
    assert (comp_at (comp_store t1) c = comp_at (comp_store e) c) as E1.
    { unfold comp_at. by rewrite (Hout1 c Hc). }
    unfold Component.terminal.
    rewrite EB, EA, (comp_frame_nodes _ _ c Hcf), E1.
    destruct (mjoin (Component.nodes (comp_at (comp_store e) c) !! k))
      as [n|] eqn:Hk; simpl; [|done].
    assert (n < L0) as Hlt; [|by rewrite decide_True].
    destruct Hwf as [_ Hvalid].
    by apply (terminal_valid _ (comp_store e) c k).
Qed.

Lemma second_wire_ends w :
  wire_ends sB.2 w
  = (fun p => (to_second p.1, to_second p.2)) <$> wire_ends sA.2 w.
Proof using All.
  unfold wire_ends.
  destruct (startComp w) as [sc|]; [|done].
  destruct (endComp w) as [ec|]; [|done].
  rewrite !second_terminal.
  destruct (Component.terminal (comp_at sA.2 sc) (startTerm w)); simpl;
    [|done].
  by destruct (Component.terminal (comp_at sA.2 ec) (endTerm w)).
Qed.

(** Both wire loops return. *)
Lemma two_rebuilds_wires :
  exists hA hB,
    forM (apply_wire (S (length sA.1)) sA.2) wires sA.1 = Ok hA
    /\ forM (apply_wire (S (length sB.1)) sB.2) wires sB.1 = Ok hB
    /\ forest hA /\ forest hB /\ length hA = L1 /\ length hB = L1 + d
    /\ (forall b rb, root_of hA b rb -> root_of (node_store e1) b rb).
Proof using All.
  destruct two_rebuilds_setup
    as (Hcs & Hwf1 & Hwf1' & Hle & HLt & HL1 & HLB & Hset & Hcomps & HsA & HsB).
  destruct (rebuildTopology_summary _ _ _ Hwf Ht1)
    as (hA & HA & HfA & HlA & _ & HkA & _).
  destruct (rebuildTopology_summary _ _ _ Hwf1' Ht2)
    as (hB & HB & HfB & HlB & _).
  rewrite Hcs in HB, HlB.
  exists hA, hB. split_and!; [done..|lia|].
  intros b rb Hr. apply (root_of_same_parent (node_store t1)).
  - destruct Hfr as (_ & _ & Hnf & _). by apply node_frame_same_parent.
  - by apply HkA.
Qed.

(** Two fresh nodes of the first rebuild are of one class after its wire
    loop exactly when the fresh nodes of the same slots are after the
    wire loop of the second rebuild. *)
Lemma two_rebuilds_same_classes hA hB x y :
  forM (apply_wire (S (length sA.1)) sA.2) wires sA.1 = Ok hA ->
  forM (apply_wire (S (length sB.1)) sB.2) wires sB.1 = Ok hB ->
  L0 <= x < L1 -> L0 <= y < L1 ->
  same_class hA x y <-> same_class hB (x + d) (y + d).
Proof using All.
  intros HA HB Hx Hy.
  destruct two_rebuilds_setup
    as (Hcs & Hwf1 & Hwf1' & Hle & HLt & HL1 & HLB & Hset & Hcomps & HsA & HsB).
  destruct two_rebuilds_wires
    as (hA' & hB' & HA' & HB' & HfA & HfB & HlA & HlB & HkA).
  assert (hA' = hA) as -> by congruence.
  assert (hB' = hB) as -> by congruence.
  destruct (wires_classes _ _ _ _ _ HA) as [HupA HwA].
  destruct (wires_classes _ _ _ _ _ HB) as [HupB HwB].
  destruct Hwf as [Hf0 Hv0]. destruct Hwf1' as [Hf1 Hv1].
  pose proof (step1_forest _ _ _ _ HsA Hf0) as HfsA.
  pose proof (step1_forest _ _ _ _ HsB Hf1) as HfsB.
  assert (sB.1 = node_store e1 ++ drop L1 sB.1) as HappB.
  { destruct HsB as ((fresh & Hfresh & _) & _). rewrite Hfresh at 1.
    rewrite Hfresh, <- HL1, drop_app_length. done. }
  (* a class of the store the first rebuild leaves is a class of [hA] *)
  assert (forall a b, a < L1 -> b < L1 ->
            same_class (node_store e1) a b <-> same_class hA a b) as He1.
  { intros a b Ha Hb. symmetry. apply same_class_kept; [done|lia..|done]. }
  (* and it is found again in the second store after step 1 *)
  assert (forall a b, a < L1 -> b < L1 ->
            same_class (node_store e1) a b -> same_class sB.1 a b) as Hin.
  { intros a b Ha Hb (r & H1 & H2). exists r. rewrite HappB.
    split; apply root_of_app; try done; lia. }
  split.
  - (* first to second *)
    intros Hxy.
    assert (same_class hB (to_second x) (to_second y)) as H;
      [|cbv beta in H; by rewrite !decide_False in H by lia].
    revert x y Hx Hy Hxy.
    assert (forall a b, a < L1 -> b < L1 -> same_class hA a b ->
              same_class hB (to_second a) (to_second b)) as Hgen;
      [|intros x y Hx Hy; apply Hgen; lia].
    apply (wires_classes_least (S (length sA.1)) sA.2 wires sA.1 hA
             (fun a b => same_class hB (to_second a) (to_second b))
             ltac:(intros a b; apply same_class_sym)
             ltac:(intros a b c; apply same_class_trans)); [| |exact HA].
    + intros a b Ha Hb Hab.
      destruct (step1_classes _ _ _ _ a b HsA Hf0 Ha Hb Hab)
        as [(Ha0 & Hb0 & _)| ->].
      * cbv beta. rewrite !decide_True by done. apply HupB, Hin; [lia..|].
        apply He1; [lia..|]. by apply HupA.
      * destruct (root_of_total hB (to_second b) HfB) as [r Hr];
          [cbv beta; case_decide; lia|]. by exists r.
    + intros w n1 n2 Hw Hends.
      destruct (wire_ends_Some _ _ _ _ Hends) as (sc & ec & _ & _ & T1 & T2).
      split_and!; [by eapply first_terminal_valid..|].
      eapply HwB; [done|]. rewrite second_wire_ends, Hends. done.
  - (* second to first *)
    intros Hxy.
    assert (same_class hA (to_first (x + d)) (to_first (y + d))) as H.
    2:{ cbv beta in H. rewrite !decide_False in H by lia.
        by replace (x + d - d) with x in H by lia;
           replace (y + d - d) with y in H by lia. }
    revert Hxy. generalize (x + d) (y + d) (ltac:(lia) : x + d < L1 + d)
      (ltac:(lia) : y + d < L1 + d). clear x y Hx Hy.
    intros a b Ha Hb.
    rewrite <- HLB in Ha, Hb. revert a b Ha Hb.
    apply (wires_classes_least (S (length sB.1)) sB.2 wires sB.1 hB
             (fun a b => same_class hA (to_first a) (to_first b))
             ltac:(intros a b; apply same_class_sym)
             ltac:(intros a b c; apply same_class_trans)); [| |exact HB].
    + intros a b Ha Hb Hab. rewrite HLB in Ha, Hb.
      destruct (step1_classes _ _ _ _ a b HsB Hf1 ltac:(lia) ltac:(lia) Hab)
        as [(Ha0 & Hb0 & Hab0)| ->].
      * rewrite HL1 in Ha0, Hb0. cbv beta. rewrite !decide_True by done.
        by apply He1.
      * destruct (root_of_total hA (to_first b) HfA) as [r Hr];
          [cbv beta; case_decide; lia|]. by exists r.
    + intros w m1 m2 Hw Hends. rewrite second_wire_ends in Hends.
      destruct (wire_ends sA.2 w) as [[n1 n2]|] eqn:HendsA; [|done].
      injection Hends as <- <-.
      destruct (wire_ends_Some _ _ _ _ HendsA) as (sc & ec & _ & _ & T1 & T2).
      pose proof (first_terminal_valid _ _ _ T1) as V1.
      pose proof (first_terminal_valid _ _ _ T2) as V2.
      rewrite HLB.
      assert (forall n, n < L1 ->
                to_second n < L1 + d /\ to_first (to_second n) = n) as Hback.
      { intros n Hn. cbv beta. repeat case_decide; lia. }
      destruct (Hback n1 V1) as [? ->]. destruct (Hback n2 V2) as [? ->].
      split_and!; [done..|]. by eapply HwA.
Qed.

End TwoRebuilds.

(** ** The node list under a renaming *)

Section RenamedList.

Variable R : nat -> nat -> Prop.
Hypothesis R_fun : forall a b b', R a b -> R a b' -> b = b'.
Hypothesis R_inj : forall a a' b, R a b -> R a' b -> a = a'.

Lemma renamed_ref_elem_of s1 s2 x y :
  Forall2 (renamed_ref R) s1 s2 -> renamed_ref R x y -> x ∈ s1 <-> y ∈ s2.
Proof using R_fun R_inj.
  intros Hs Hxy. split.
  - intros Hx. apply list_elem_of_lookup in Hx as [i Hi].
    destruct (Forall2_lookup_l _ _ _ _ _ Hs Hi) as (y' & Hi' & Hy').
    assert (y' = y) as ->; [|by eapply list_elem_of_lookup_2].
    destruct x as [a|], y as [b|], y' as [b'|]; simpl in *; try done.
    f_equal. by eapply R_fun.
  - intros Hy. apply list_elem_of_lookup in Hy as [i Hi].
    destruct (Forall2_lookup_r _ _ _ _ _ Hs Hi) as (x' & Hi' & Hx').
    assert (x' = x) as ->; [|by eapply list_elem_of_lookup_2].
    destruct x as [a|], y as [b|], x' as [a'|]; simpl in *; try done.
    f_equal. by eapply R_inj.
Qed.

Lemma renamed_set_add s1 s2 x y :
  Forall2 (renamed_ref R) s1 s2 -> renamed_ref R x y ->
  Forall2 (renamed_ref R) (set_add s1 x) (set_add s2 y).
Proof using R_fun R_inj.
  intros Hs Hxy. unfold set_add.
  pose proof (renamed_ref_elem_of s1 s2 x y Hs Hxy) as Hiff.
  destruct (decide (x ∈ s1)) as [Hx|Hx].
  - rewrite decide_True by (by apply Hiff). done.
  - rewrite decide_False by (by rewrite <- Hiff).
    apply Forall2_app; [done|]. by constructor.
Qed.

Lemma renamed_foldl_set_add l1 l2 s1 s2 :
  Forall2 (renamed_ref R) s1 s2 -> Forall2 (renamed_ref R) l1 l2 ->
  Forall2 (renamed_ref R) (foldl set_add s1 l1) (foldl set_add s2 l2).
Proof using R_fun R_inj.
  intros Hs Hl. revert s1 s2 Hs.
  induction Hl as [|x y l1 l2 Hxy Hl IH]; intros s1 s2 Hs; simpl; [done|].
  apply IH. by apply renamed_set_add.
Qed.

Lemma renamed_uniqueNodes (cs : list nat) hc1 hc2 :
  (forall ca, ca ∈ cs ->
     Forall2 (renamed_ref R) (Component.nodes (comp_at hc1 ca))
                             (Component.nodes (comp_at hc2 ca))) ->
  Forall2 (renamed_ref R) (uniqueNodes hc1 cs) (uniqueNodes hc2 cs).
Proof using R_fun R_inj.
  intros Hcs. unfold uniqueNodes.
  assert (forall l : list nat, (forall ca, ca ∈ l -> ca ∈ cs) ->
    forall s1 s2, Forall2 (renamed_ref R) s1 s2 ->
    Forall2 (renamed_ref R)
      (foldl (fun s ca => foldl set_add s (Component.nodes (comp_at hc1 ca)))
             s1 l)
      (foldl (fun s ca => foldl set_add s (Component.nodes (comp_at hc2 ca)))
             s2 l)) as Hgen.
  { induction l as [|ca l IH]; intros Hl s1 s2 Hs; simpl; [done|].
    apply IH; [intros; apply Hl; by right|].
    apply renamed_foldl_set_add; [done|]. apply Hcs, Hl. left. }
  by apply Hgen.
Qed.

Lemma renamed_omap_id l1 l2 :
  Forall2 (renamed_ref R) l1 l2 -> Forall2 R (omap id l1) (omap id l2).
Proof.
  induction 1 as [|x y l1 l2 Hxy Hl IH]; [constructor|].
  destruct x as [a|], y as [b|]; simpl in *; try done. by constructor.
Qed.

End RenamedList.


(** Fresh nodes after a rebuild: at 0 V, and ground only for the node in
    slot 1 of the first listed battery. *)
Lemma rebuilt_fresh_nodes wires e t :
  engine_wf e -> rebuildTopology wires e = Ok t ->
  let cs := engine_components e in
  let s1 := foldl fresh_terminals (node_store e, comp_store e) cs in
  (forall a, length (node_store e) <= a < length s1.1 ->
     Node.voltage (node_at (node_store t) a) = 0%float
     /\ (Node.isGND (node_at (node_store t) a) = true ->
         exists i ca,
           list_find (fun ca => is_type "battery"
                                  (comp_at (comp_store e) ca) = true) cs
           = Some (i, ca)
           /\ Component.terminal (comp_at (comp_store t) ca) 1 = Some a))
  /\ forall i ca,
       list_find (fun ca => is_type "battery"
                              (comp_at (comp_store e) ca) = true) cs
       = Some (i, ca) ->
       exists g, Component.terminal (comp_at (comp_store t) ca) 1 = Some g
                 /\ Node.isGND (node_at (node_store t) g) = true.
Proof.
  intros Hwf Ht. cbv zeta.
  destruct (rebuildTopology_ground _ _ _ Hwf Ht) as (h5 & Hl5 & Hgnd & Hg).
  destruct (rebuildTopology_summary _ _ _ Hwf Ht)
    as (_ & _ & _ & _ & _ & _ & _ & _ & _ & Hvolt).
  pose proof (step1_spec (node_store e) (comp_store e) (engine_components e))
    as ((fresh & Hh & Hfresh) & _).
  set (cs := engine_components e) in *.
  set (s1 := foldl fresh_terminals (node_store e, comp_store e) cs) in *.
  assert (forall a, length (node_store e) <= a < length s1.1 ->
            Node.voltage (node_at s1.1 a) = 0%float
            /\ Node.isGND (node_at s1.1 a) = false) as Hnew.
  { intros a Ha. unfold node_at. rewrite Hh, lookup_app_r by lia.
    rewrite Hh, length_app in Ha.
    destruct (lookup_lt_is_Some_2 fresh (a - length (node_store e)))
      as [n Hn]; [lia|].
    rewrite Hn. simpl. by destruct (Hfresh _ _ Hn) as (_ & ? & ?). }
  split.
  - intros a Ha. destruct (Hnew a Ha) as [Hv Hf]. split; [by rewrite Hvolt|].
    destruct (list_find _ cs) as [[i ca]|].
    + destruct Hg as (g & Hterm & _ & Hlt & ->).
      destruct (decide (a = g)) as [->|Hne].
      * intros _. by exists i, ca.
      * rewrite node_at_insert_ne by done. by rewrite Hgnd, Hf.
    + rewrite Hg. by rewrite Hgnd, Hf.
  - intros i ca Hfind. rewrite Hfind in Hg.
    destruct Hg as (g & Hterm & _ & Hlt & ->).
    exists g. split; [done|]. by rewrite node_at_insert_eq.
Qed.

(** ** The second rebuild is a renaming of the first *)

Section SecondRebuild.

Variables (wires : list wire) (e t1 e1 t2 : CircuitEngine).
Variables (hA hB : list Node.t).
Hypothesis Hwf : engine_wf e.
Hypothesis Ht1 : rebuildTopology wires e = Ok t1.
Hypothesis Hfr : engine_frame t1 e1.
Hypothesis Ht2 : rebuildTopology wires e1 = Ok t2.

Local Notation "'cs'" := (engine_components e).
Local Notation "'sA'" :=
  (foldl fresh_terminals (node_store e, comp_store e) (engine_components e)).
Local Notation "'sB'" :=
  (foldl fresh_terminals (node_store e1, comp_store e1)
         (engine_components e)).
Local Notation "'L0'" := (length (node_store e)).
Local Notation "'L1'" := (length sA.1).
Local Notation "'d'" := (length sA.1 - length (node_store e)).

Hypothesis HA :
  forM (apply_wire (S (length sA.1)) sA.2) wires sA.1 = Ok hA.
Hypothesis HB :
  forM (apply_wire (S (length sB.1)) sB.2) wires sB.1 = Ok hB.

(** A slot of the first rebuild holds the root of the fresh node step 1
    put there. *)
Lemma slot_of_first ca k a :
  ca ∈ cs ->
  Component.terminal (comp_at (comp_store t1) ca) k = Some a ->
  exists n, Component.terminal (comp_at sA.2 ca) k = Some n
            /\ L0 <= n < L1 /\ root_of hA n a.
Proof using All.
  intros Hca Ha.
  destruct (rebuildTopology_summary _ _ _ Hwf Ht1)
    as (hA' & HA' & HfA & HlA & _ & _ & Hslot & Hlen & _).
  assert (hA' = hA) as -> by congruence.
  pose proof (step1_spec (node_store e) (comp_store e) cs) as HsA.
  pose proof (step1_slots_filled _ _ _ _ HsA ca Hca) as Hfilled.
  destruct (step1_slots _ _ _ _ HsA) as (_ & Hrange & _).
  assert (k < length (Component.nodes (comp_at sA.2 ca))) as Hk.
  { rewrite <- (Hlen ca Hca). apply terminal_Some in Ha.
    by eapply lookup_lt_Some. }
  destruct (lookup_lt_is_Some_2 _ _ Hk) as [o Ho].
  rewrite Forall_forall in Hfilled.
  destruct (Hfilled o) as [n ->]; [by eapply list_elem_of_lookup_2|].
  apply terminal_Some in Ho.
  destruct (Hrange ca k n Hca Ho) as (_ & _ & Hn).
  destruct (root_of_total hA n HfA) as [r Hr]; [lia|].
  pose proof (Hslot ca k n r Hca Ho Hr) as Ha'.
  exists n. split_and!; [done|lia|lia|]. congruence.
Qed.

Lemma slot_of_second ca k b :
  ca ∈ cs ->
  Component.terminal (comp_at (comp_store t2) ca) k = Some b ->
  exists n, Component.terminal (comp_at sA.2 ca) k = Some n
            /\ L0 <= n < L1 /\ root_of hB (n + d) b.
Proof using All.
  intros Hca Hb.
  destruct (two_rebuilds_setup _ _ _ _ _ Hwf Ht1 Hfr Ht2)
    as (Hcs & Hwf1 & Hwf1' & Hle & HLt & HL1 & HLB & Hset & Hcomps & HsA & HsB).
  destruct (rebuildTopology_summary _ _ _ Hwf1' Ht2)
    as (hB' & HB' & HfB & HlB & _ & _ & Hslot & Hlen & _).
  rewrite Hcs in HB', HlB, Hslot, Hlen.
  assert (hB' = hB) as -> by congruence.
  pose proof (step1_slots_filled _ _ _ _ HsB ca Hca) as Hfilled.
  destruct (step1_slots _ _ _ _ HsA) as (_ & Hrange & _).
  assert (k < length (Component.nodes (comp_at sB.2 ca))) as Hk.
  { rewrite <- (Hlen ca Hca). apply terminal_Some in Hb.
    by eapply lookup_lt_Some. }
  destruct (lookup_lt_is_Some_2 _ _ Hk) as [o Ho].
  rewrite Forall_forall in Hfilled.
  destruct (Hfilled o) as [m ->]; [by eapply list_elem_of_lookup_2|].
  apply terminal_Some in Ho.
  pose proof Ho as Ho'.
  rewrite (second_terminal _ _ _ _ _ Hwf Ht1 Hfr Ht2) in Ho'.
  destruct (Component.terminal (comp_at sA.2 ca) k) as [n|] eqn:Hn; [|done].
  destruct (Hrange ca k n Hca Hn) as (_ & _ & Hr).
  simpl in Ho'. rewrite decide_False in Ho' by lia. injection Ho' as <-.
  destruct (root_of_total hB (n + d) HfB) as [r Hr']; [lia|].
  pose proof (Hslot ca k _ r Hca Ho Hr') as Hb'.
  exists n. split_and!; [done|lia|lia|]. congruence.
Qed.

Lemma same_slot_fun a b b' :
  same_slot t1 t2 a b -> same_slot t1 t2 a b' -> b = b'.
Proof using All.
  destruct (rebuildTopology_spec wires e Hwf) as (t & Ht & _ & Hcs1 & _).
  assert (t = t1) as -> by congruence.
  intros (ca & k & Hca & Ha & Hb) (ca' & k' & Hca' & Ha' & Hb').
  rewrite Hcs1 in Hca, Hca'.
  destruct (slot_of_first _ _ _ Hca Ha) as (n & Hn & Hr & Hroot).
  destruct (slot_of_first _ _ _ Hca' Ha') as (n' & Hn' & Hr' & Hroot').
  destruct (slot_of_second _ _ _ Hca Hb) as (m & Hm & _ & Hrootm).
  destruct (slot_of_second _ _ _ Hca' Hb') as (m' & Hm' & _ & Hrootm').
  assert (m = n) as -> by congruence. assert (m' = n') as -> by congruence.
  assert (same_class hA n n') as Hc by (by exists a).
  apply (two_rebuilds_same_classes _ _ _ _ _ Hwf Ht1 Hfr Ht2 _ _ _ _ HA HB)
    in Hc as (r & H1 & H2); [|done..].
  pose proof (root_of_inj _ _ _ _ H1 Hrootm) as ->.
  by pose proof (root_of_inj _ _ _ _ H2 Hrootm') as ->.
Qed.

Lemma same_slot_inj a a' b :
  same_slot t1 t2 a b -> same_slot t1 t2 a' b -> a = a'.
Proof using All.
  destruct (rebuildTopology_spec wires e Hwf) as (t & Ht & _ & Hcs1 & _).
  assert (t = t1) as -> by congruence.
  intros (ca & k & Hca & Ha & Hb) (ca' & k' & Hca' & Ha' & Hb').
  rewrite Hcs1 in Hca, Hca'.
  destruct (slot_of_first _ _ _ Hca Ha) as (n & Hn & Hr & Hroot).
  destruct (slot_of_first _ _ _ Hca' Ha') as (n' & Hn' & Hr' & Hroot').
  destruct (slot_of_second _ _ _ Hca Hb) as (m & Hm & _ & Hrootm).
  destruct (slot_of_second _ _ _ Hca' Hb') as (m' & Hm' & _ & Hrootm').
  assert (m = n) as -> by congruence. assert (m' = n') as -> by congruence.
  assert (same_class hB (n + d) (n' + d)) as Hc by (by exists b).
  apply (two_rebuilds_same_classes _ _ _ _ _ Hwf Ht1 Hfr Ht2 _ _ _ _ HA HB)
    in Hc as (r & H1 & H2); [|done..].
  pose proof (root_of_inj _ _ _ _ H1 Hroot) as ->.
  by pose proof (root_of_inj _ _ _ _ H2 Hroot') as ->.
Qed.

Hypothesis Hends : wires_end_listed cs wires.

(** The roots of the two wire loops are fresh nodes. *)
Lemma first_roots_fresh x r :
  L0 <= x < L1 -> root_of hA x r -> L0 <= r < L1.
Proof using All.
  intros Hx Hr.
  pose proof (step1_spec (node_store e) (comp_store e) cs) as HsA.
  destruct (step1_slots _ _ _ _ HsA) as (_ & Hrange & Hroot).
  destruct (two_rebuilds_wires _ _ _ _ _ Hwf Ht1 Hfr Ht2)
    as (hA' & hB' & HA' & HB' & HfA & HfB & HlA & HlB & _).
  assert (hA' = hA) as -> by congruence.
  split; [|rewrite <- HlA; apply (root_of_lt hA x r HfA); [lia|done]].
  eapply (wires_roots_fresh _ _ _ _ _ L0); [| |exact HA|exact Hx|exact Hr].
  - intros y ry Hy Hry.
    pose proof (root_of_inj _ _ _ _ Hry (root_here _ _ (Hroot y Hy))). lia.
  - intros w n1 n2 Hw Hwe.
    destruct (wire_ends_Some _ _ _ _ Hwe) as (sc & ec & _ & Hec & _ & T2).
    by destruct (Hrange ec _ _ (Hends w ec Hw Hec) T2) as (_ & _ & ?).
Qed.

Lemma second_roots_fresh x r :
  L1 <= x < L1 + d -> root_of hB x r -> L1 <= r < L1 + d.
Proof using All.
  intros Hx Hr.
  destruct (two_rebuilds_setup _ _ _ _ _ Hwf Ht1 Hfr Ht2)
    as (Hcs & Hwf1 & Hwf1' & Hle & HLt & HL1 & HLB & Hset & Hcomps & HsA & HsB).
  destruct (step1_slots _ _ _ _ HsB) as (_ & Hrange & Hroot).
  destruct (two_rebuilds_wires _ _ _ _ _ Hwf Ht1 Hfr Ht2)
    as (hA' & hB' & HA' & HB' & HfA & HfB & HlA & HlB & _).
  assert (hB' = hB) as -> by congruence.
  rewrite HL1 in Hrange, Hroot. rewrite HLB in Hrange, Hroot.
  split; [|rewrite <- HlB; apply (root_of_lt hB x r HfB); [lia|done]].
  eapply (wires_roots_fresh _ _ _ _ _ L1); [| |exact HB| |exact Hr].
  - rewrite HLB. intros y ry Hy Hry.
    pose proof (root_of_inj _ _ _ _ Hry (root_here _ _ (Hroot y Hy))). lia.
  - rewrite HLB. intros w n1 n2 Hw Hwe.
    destruct (wire_ends_Some _ _ _ _ Hwe) as (sc & ec & _ & Hec & _ & T2).
    by destruct (Hrange ec _ _ (Hends w ec Hw Hec) T2) as (_ & _ & ?).
  - by rewrite HLB.
Qed.

(** Two nodes of the same slot are fresh nodes of their rebuilds. *)
Lemma same_slot_fresh a b :
  same_slot t1 t2 a b -> L0 <= a < L1 /\ L1 <= b < L1 + d.
Proof using All.
  destruct (rebuildTopology_spec wires e Hwf) as (t & Ht & _ & Hcs1 & _).
  assert (t = t1) as -> by congruence.
  intros (ca & k & Hca & Ha & Hb). rewrite Hcs1 in Hca.
  destruct (slot_of_first _ _ _ Hca Ha) as (n & Hn & Hr & Hroot).
  destruct (slot_of_second _ _ _ Hca Hb) as (m & Hm & Hr' & Hrootm).
  split; [apply (first_roots_fresh n a); [lia|done]|].
  apply (second_roots_fresh (m + d) b); [lia|done].
Qed.

(** The components of the two rebuilds agree up to [same_slot]. *)
Lemma second_rebuild_comps :
  renamed_comps (same_slot t1 t2) cs (comp_store t1) (comp_store t2).
Proof using All.
  destruct (two_rebuilds_setup _ _ _ _ _ Hwf Ht1 Hfr Ht2)
    as (Hcs & Hwf1 & Hwf1' & Hle & HLt & HL1 & HLB & Hset & Hcomps & HsA & HsB).
  destruct (rebuildTopology_spec wires e Hwf)
    as (t & Ht & _ & Hcs1 & Hsame1 & (_ & _ & Hslots1 & _)).
  assert (t = t1) as -> by congruence.
  destruct (rebuildTopology_spec wires e1 Hwf1')
    as (t & Ht' & _ & Hcs2 & Hsame2 & (_ & _ & Hslots2 & _)).
  assert (t = t2) as -> by congruence.
  rewrite Hcs1 in Hslots1. rewrite Hcs2, Hcs in Hslots2.
  destruct (rebuildTopology_summary _ _ _ Hwf Ht1)
    as (_ & _ & _ & _ & _ & _ & _ & HlenA & _).
  destruct (rebuildTopology_summary _ _ _ Hwf1' Ht2)
    as (_ & _ & _ & _ & _ & _ & _ & HlenB & _).
  rewrite Hcs in HlenB.
  split.
  { rewrite <- (Forall2_length _ _ _ Hsame2), <- (Forall2_length _ _ _ Hset).
    by rewrite (Forall2_length _ _ _ Hsame1). }
  intros ca Hca.
  destruct (same_but_nodes_comp_at _ _ ca Hsame1) as (A1&A2&A3&A4&A5&A6&_).
  destruct (same_but_nodes_comp_at _ _ ca Hsame2) as (B1&B2&B3&B4&B5&B6&_).
  destruct (same_settings_comp_at _ _ ca Hset) as (C1&C2&C3&C4&C5&C6).
  split_and!; [congruence..|].
  apply Forall2_same_length_lookup. split.
  { rewrite (HlenA ca Hca), (HlenB ca Hca).
    destruct Hcomps as [_ Hrel]. destruct (Hrel ca Hca) as [(_&_&_&_&_&_&->) _].
    by rewrite length_map. }
  intros k x y Hx Hy.
  destruct (Hslots1 ca k Hca) as (a & Ha & _); [by eapply lookup_lt_Some|].
  destruct (Hslots2 ca k Hca) as (b & Hb & _); [by eapply lookup_lt_Some|].
  assert (x = Some a) as -> by congruence.
  assert (y = Some b) as -> by congruence.
  simpl. exists ca, k. rewrite Hcs1. by rewrite !terminal_Some.
Qed.

(** The node lists of the two rebuilds hold the nodes of the same slots in
    the same order. *)
Lemma second_rebuild_node_list :
  Forall2 (same_slot t1 t2) (engine_nodes t1) (engine_nodes t2).
Proof using All.
  destruct (two_rebuilds_setup _ _ _ _ _ Hwf Ht1 Hfr Ht2) as (Hcs & _).
  destruct second_rebuild_comps as [_ Hcomps].
  destruct (rebuildTopology_stages _ _ _ Ht1)
    as (? & ? & hc4 & ? & _ & _ & _ & E1).
  destruct (rebuildTopology_stages _ _ _ Ht2)
    as (? & ? & hc4' & ? & _ & _ & _ & E2).
  rewrite Hcs in E2.
  assert (engine_nodes t1 = omap id (uniqueNodes (comp_store t1) cs)) as ->
    by (by rewrite E1).
  assert (engine_nodes t2 = omap id (uniqueNodes (comp_store t2) cs)) as ->
    by (by rewrite E2).
  apply renamed_omap_id.
  apply (renamed_uniqueNodes _ same_slot_fun same_slot_inj).
  intros ca Hca. by destruct (Hcomps ca Hca) as (_&_&_&_&_&_&?).
Qed.

(** The first listed battery is the same in both rebuilds. *)
Lemma second_rebuild_battery :
  list_find (fun ca => is_type "battery" (comp_at (comp_store e1) ca) = true) cs
  = list_find (fun ca => is_type "battery" (comp_at (comp_store e) ca) = true)
              cs.
Proof using All.
  destruct (two_rebuilds_setup _ _ _ _ _ Hwf Ht1 Hfr Ht2)
    as (_ & _ & _ & _ & _ & _ & _ & Hset & _).
  apply list_find_agree. intros ca _. unfold is_type.
  by rewrite (same_settings_types _ _ Hset ca).
Qed.

(** The nodes of the same slot carry the same id, voltage and ground
    flag. *)
Lemma second_rebuild_nodes :
  renamed_nodes (same_slot t1 t2) (node_store t1) (node_store t2).
Proof using All.
  destruct (two_rebuilds_setup _ _ _ _ _ Hwf Ht1 Hfr Ht2)
    as (Hcs & Hwf1 & Hwf1' & Hle & HLt & HL1 & HLB & Hset & Hcomps & HsA & HsB).
  destruct (rebuildTopology_spec wires e Hwf)
    as (t & Ht & _ & Hcs1 & _ & (_ & _ & _ & Hlisted1)).
  assert (t = t1) as -> by congruence.
  destruct (rebuildTopology_spec wires e1 Hwf1')
    as (t & Ht' & Hwf2 & Hcs2 & _).
  assert (t = t2) as -> by congruence.
  destruct (rebuildTopology_ids _ _ _ Hwf Ht1) as [_ Hids1].
  destruct (rebuildTopology_ids _ _ _ Hwf1' Ht2) as [_ Hids2].
  destruct (rebuilt_fresh_nodes _ _ _ Hwf Ht1) as [Hnew1 Hgnd1].
  destruct (rebuilt_fresh_nodes _ _ _ Hwf1' Ht2) as [Hnew2 Hgnd2].
  rewrite Hcs, second_rebuild_battery in Hnew2, Hgnd2.
  rewrite HL1, HLB in Hnew2.
  pose proof second_rebuild_node_list as Hlist.
  intros a b Hab.
  pose proof Hab as (ca & k & Hca & Ha & Hb).
  destruct (same_slot_fresh a b Hab) as [Hra Hrb].
  destruct (Hnew1 a Hra) as [Hva Hga]. destruct (Hnew2 b Hrb) as [Hvb Hgb].
  unfold same_payload. split_and!.
  - destruct Hwf1 as [_ Hv]. by apply (terminal_valid _ _ ca k a Hv).
  - destruct Hwf2 as [_ Hv]. by apply (terminal_valid _ _ ca k b Hv).
  - assert (a ∈ engine_nodes t1) as Hin.
    { rewrite terminal_Some in Ha.
      destruct (rebuildTopology_spec wires e Hwf)
        as (t & Ht'' & _ & _ & _ & (_ & _ & Hslots & _)).
      assert (t = t1) as -> by congruence.
      destruct (Hslots ca k Hca) as (a' & Ha' & _ & Hin');
        [by eapply lookup_lt_Some|].
      by assert (a' = a) as <- by congruence. }
    apply list_elem_of_lookup in Hin as [i Hi].
    destruct (Forall2_lookup_l _ _ _ _ _ Hlist Hi) as (b' & Hi' & Hab').
    assert (b' = b) as -> by (by eapply same_slot_fun).
    by rewrite (Hids1 i a Hi), (Hids2 i b Hi').
  - by rewrite Hva, Hvb.
  - destruct (Node.isGND (node_at (node_store t1) a)) eqn:G1.
    + destruct (Hga eq_refl) as (i & cb & Hfind & Hterm).
      destruct (Hgnd2 i cb Hfind) as (g & Hg & Hgg).
      apply list_find_Some in Hfind as (Hcb & _).
      apply list_elem_of_lookup_2 in Hcb.
      assert (same_slot t1 t2 a g) as Hag.
      { exists cb, 1. by rewrite Hcs1. }
      by rewrite (same_slot_fun _ _ _ Hab Hag).
    + destruct (Node.isGND (node_at (node_store t2) b)) eqn:G2; [|done].
      destruct (Hgb eq_refl) as (i & cb & Hfind & Hterm).
      destruct (Hgnd1 i cb Hfind) as (g & Hg & Hgg).
      apply list_find_Some in Hfind as (Hcb & _).
      apply list_elem_of_lookup_2 in Hcb.
      assert (same_slot t1 t2 g b) as Hgb'.
      { exists cb, 1. by rewrite Hcs1. }
      rewrite (same_slot_inj _ _ _ Hab Hgb') in G1. congruence.
Qed.

(** The state after the second rebuild is the state after the first, on
    the nodes of the second. *)
Lemma second_rebuild_renamed : renamed_engine (same_slot t1 t2) t1 t2.
Proof using All.
  destruct (two_rebuilds_setup _ _ _ _ _ Hwf Ht1 Hfr Ht2) as (Hcs & _).
  destruct (rebuildTopology_spec wires e Hwf) as (t & Ht & _ & Hcs1 & _).
  assert (t = t1) as -> by congruence.
  destruct (rebuildTopology_spec wires e1 (engine_wf_frame _ _ Hfr
              ltac:(by destruct (rebuildTopology_spec wires e Hwf)
                         as (t & Ht' & ? & _);
                       assert (t = t1) as -> by congruence)))
    as (t & Ht'' & _ & Hcs2 & _).
  assert (t = t2) as -> by congruence.
  split_and!.
  - congruence.
  - exact second_rebuild_node_list.
  - exact second_rebuild_nodes.
  - rewrite Hcs1. exact second_rebuild_comps.
Qed.

End SecondRebuild.

(** ** C7: two rebuilds in succession *)

(** C7.  On a store whose parent references form a forest and whose
    components reference stored nodes only, and with an edge list in which
    every edge that ends on a component ends on one of [engine.components]
    (both are part of [controller_inv], which holds between the events of
    the page: the handlers end an edge on a terminal that [getTerminalAt]
    finds among the listed components, and every removal of a component
    filters the edges that name it; the start of an edge may name a
    component that was removed while the edge was being drawn), two calls
    of [rebuildCircuit] in succession with the same edge list both return,
    leave the component list as it was, and end with the same voltages,
    float for float: the voltages of the nodes of [engine.nodes], in
    order, and the voltages at the terminals of every listed component. *)
Theorem rebuildCircuit_twice_same_voltages (wires : list wire)
  (e : CircuitEngine) :
  engine_wf e -> wires_end_listed (engine_components e) wires ->
  exists e1 e2,
    rebuildCircuit wires e = Ok e1
    /\ rebuildCircuit wires e1 = Ok e2
    /\ engine_components e1 = engine_components e
    /\ engine_components e2 = engine_components e
    /\ node_voltages e2 = node_voltages e1
    /\ terminal_voltages e2 = terminal_voltages e1.
Proof.
  intros Hwf Hends. unfold rebuildCircuit.
  destruct (rebuildTopology_spec wires e Hwf)
    as (t1 & Ht1 & Hwf1 & Hcs1 & _).
  destruct (solve_frame t1) as (e1 & He1 & Hfr).
  pose proof (engine_wf_frame _ _ Hfr Hwf1) as Hwf1'.
  destruct (rebuildTopology_spec wires e1 Hwf1')
    as (t2 & Ht2 & _ & Hcs2 & _).
  destruct (two_rebuilds_wires wires e t1 e1 t2 Hwf Ht1 Hfr Ht2)
    as (hA & hB & HA & HB & _).
  pose proof (second_rebuild_renamed wires e t1 e1 t2 hA hB
                Hwf Ht1 Hfr Ht2 HA HB Hends) as Hren.
  destruct (renamed_solve (same_slot t1 t2)
              (same_slot_fun wires e t1 e1 t2 hA hB Hwf Ht1 Hfr Ht2 HA HB)
              (same_slot_inj wires e t1 e1 t2 hA hB Hwf Ht1 Hfr Ht2 HA HB)
              t1 t2 e1 Hren He1) as (e2 & He2 & Hren2).
  exists e1, e2. rewrite Ht1, Ht2, !bind_Ok_l.
  pose proof Hfr as (_ & Hcs1' & _).
  pose proof Hren2 as (Hcs3 & _).
  split_and!; [done|done|congruence|congruence| |].
  - by apply (renamed_node_voltages (same_slot t1 t2)).
  - by apply (renamed_terminal_voltages (same_slot t1 t2)).
Qed.

(** A battery and two resistors after a rebuild, the second resistor
    then taken off the component list; the first edge puts terminal 1 of
    the remaining resistor on terminal 1 of the battery, the second starts
    on terminal 0 of the removed resistor and ends on terminal 0 of the
    battery. *)
Lemma rebuildCircuit_twice_same_voltages_witness :
  let e0 := (addComponent 2 "resistor"
               (addComponent 1 "resistor"
                  (addComponent 0 "battery" empty_engine).1).1).1 in
  let e := without_component 2 (built (rebuildCircuit [] e0)) in
  let wires := [mkWire (Some 0) 1 (Some 1) 1; mkWire (Some 2) 0 (Some 0) 0] in
  exists e1 e2,
    rebuildCircuit wires e = Ok e1
    /\ rebuildCircuit wires e1 = Ok e2
    /\ engine_components e1 = engine_components e
    /\ engine_components e2 = engine_components e
    /\ node_voltages e2 = node_voltages e1
    /\ terminal_voltages e2 = terminal_voltages e1.
Proof.
  intros e0 e wires. apply rebuildCircuit_twice_same_voltages.
  - assert (engine_wf e0) as Hwf0
      by apply engine_wf_addComponent, engine_wf_addComponent,
               engine_wf_addComponent, engine_wf_empty.
    destruct (rebuildCircuit_returns [] e0 Hwf0) as (e' & He' & Hwf' & _).
    unfold e. rewrite He'. apply (engine_wf_remove e'). exact Hwf'.
  - assert (engine_components e = [0; 1]) as -> by (vm_compute; reflexivity).
    intros w ca Hw Hca. apply list_elem_of_In in Hw. simpl in Hw.
    destruct Hw as [<-|[<-|[]]]; simpl in Hca; injection Hca as <-;
      apply list_elem_of_In; simpl; auto.
Defined.

(** ** The edges of the controller end on listed components *)

Lemma controller_inv_intro hc e' n ws' sel dr dw start' :
  engine_wf e' ->
  (forall ca, Component.type (comp_at (comp_store e') ca)
              = Component.type (comp_at hc ca)) ->
  (forall w, w ∈ ws' ->
     wire_drawable hc w
     /\ forall ca, endComp w = Some ca -> ca ∈ engine_components e') ->
  (forall t, start' = Some t -> terminal_drawable hc t) ->
  controller_inv (mkController e' n ws' sel dr dw start').
Proof.
  intros Hwf Hty Hws Hstart. split_and!; cbn.
  - done.
  - intros w ca Hw Hca. by apply (Hws w Hw).
  - intros w Hw. cbn in Hw |- *.
    apply (wire_drawable_types hc); [done|]. by apply Hws.
  - intros t Ht. apply (terminal_drawable_types hc); [done|]. by apply Hstart.
Qed.

Lemma redraw_inv a' : controller_inv a' -> (draw a';; Ok a') = Ok a'.
Proof. intros (_ & _ & Hdr & _). by rewrite (draw_Ok _ Hdr). Qed.

Lemma store_comp_types e ca c' x :
  Component.type c' = Component.type (comp_at (comp_store e) ca) ->
  Component.type (comp_at (comp_store (store_comp e ca c')) x)
  = Component.type (comp_at (comp_store e) x).
Proof.
  intros Hty. simpl. destruct (decide (x = ca)) as [->|Hne].
  - destruct (decide (ca < length (comp_store e))) as [Hlt|Hge].
    + by rewrite comp_at_insert_eq.
    + by rewrite list_insert_ge by lia.
  - by rewrite comp_at_insert_ne.
Qed.

(** A write to the settings of a component, followed by a solve. *)
Lemma store_then_solve e ca c' :
  engine_wf e ->
  Component.nodes c' = Component.nodes (comp_at (comp_store e) ca) ->
  Component.type c' = Component.type (comp_at (comp_store e) ca) ->
  exists e',
    solve (store_comp e ca c') = Ok e'
    /\ engine_wf e' /\ engine_components e' = engine_components e
    /\ forall x, Component.type (comp_at (comp_store e') x)
                 = Component.type (comp_at (comp_store e) x).
Proof.
  intros Hwf Hn Hty.
  destruct (solve_settings (store_comp e ca c'))
    as (e' & He' & Hwf' & Hcs & _ & Hset).
  exists e'. split_and!; [done| |done|].
  - by apply Hwf', engine_wf_store_comp.
  - intros x. rewrite (same_settings_types _ _ Hset x).
    by apply store_comp_types.
Qed.

Lemma click_component_inv clicked a :
  engine_wf (engine a) ->
  exists e',
    click_component clicked a = Ok e'
    /\ engine_wf e' /\ engine_components e' = engine_components (engine a)
    /\ forall x, Component.type (comp_at (comp_store e') x)
                 = Component.type (comp_at (comp_store (engine a)) x).
Proof.
  intros Hwf. unfold click_component.
  assert (forall e (b : bool) (u : Component.t),
            engine_wf e ->
            Component.nodes u = Component.nodes (comp_at (comp_store e) clicked) ->
            Component.type u = Component.type (comp_at (comp_store e) clicked) ->
            exists e',
              (if b then solve (store_comp e clicked u) else Ok e) = Ok e'
              /\ engine_wf e' /\ engine_components e' = engine_components e
              /\ forall x, Component.type (comp_at (comp_store e') x)
                           = Component.type (comp_at (comp_store e) x))
    as Hstage.
  { intros e b u He Hn Hty. destruct b; [by apply store_then_solve|].
    by exists e. }
  destruct (Hstage (engine a)
              (is_type "switch" (comp_at (comp_store (engine a)) clicked)
               && (bool_decide (selectedComponent a = Some clicked)
                   || bool_decide (selectedComponent a = None)))
              (Component.set_isOpen
                 (negb (Component.isOpen
                          (comp_at (comp_store (engine a)) clicked)))
                 (comp_at (comp_store (engine a)) clicked)))
    as (e1 & H1 & Hwf1 & Hcs1 & Hty1); [done..|].
  cbv zeta. rewrite H1, bind_Ok_l.
  destruct (Hstage e1 (is_type "pushbutton" (comp_at (comp_store e1) clicked))
              (Component.set_resistance 0.001
                 (Component.set_isOpen false (comp_at (comp_store e1) clicked))))
    as (e2 & H2 & Hwf2 & Hcs2 & Hty2); [done..|].
  rewrite H2, bind_Ok_l.
  destruct (Hstage e2 (is_type "spdt" (comp_at (comp_store e2) clicked))
              (Component.set_spdtState
                 (Some (if bool_decide
                             (Component.spdtState
                                (comp_at (comp_store e2) clicked) = Some 0)
                        then 1 else 0))
                 (comp_at (comp_store e2) clicked)))
    as (e3 & H3 & Hwf3 & Hcs3 & Hty3); [done..|].
  rewrite H3. exists e3. split_and!; [done|done|congruence|].
  intros x. by rewrite Hty3, Hty2, Hty1.
Qed.

Lemma removeOrphanedJoints_keeps_ends wires e w ca :
  w ∈ wires -> endComp w = Some ca -> ca ∈ engine_components e ->
  ca ∈ engine_components (removeOrphanedJoints wires e).
Proof.
  intros Hw Hca Hin.
  destruct (removeOrphanedJoints_spec_aux wires e) as [Hchar _].
  apply Hchar. split; [done|]. intros _. exists w. split; [done|by right].
Qed.

Lemma deleteSelected_inv a :
  controller_inv a ->
  exists a', deleteSelected a = Ok a' /\ controller_inv a'.
Proof.
  intros Hinv. pose proof Hinv as (Hwf & Hends & Hdr & Hstart).
  unfold deleteSelected.
  destruct (selectedComponent a) as [sel|]; [|by exists a].
  set (wires := without_wires_of sel (visualWires a)).
  set (e1 := without_component sel (engine a)).
  destruct (rebuildCircuit_returns wires (removeOrphanedJoints wires e1))
    as (e' & -> & Hwf' & Hcs' & _ & Hset); [done|].
  rewrite bind_Ok_l. cbv zeta.
  eexists. split; [apply redraw_inv|];
    (apply (controller_inv_intro (comp_store (engine a)));
     [done|by apply same_settings_types| |done]);
    (intros w Hw; apply without_wires_of_spec in Hw as [Hw Hn];
     split; [by apply Hdr|]; intros ca Hca; rewrite Hcs';
     apply (removeOrphanedJoints_keeps_ends _ _ w);
     [by apply without_wires_of_spec|done|];
     apply without_component_spec; split; [by eapply Hends|];
     intros ->; apply Hn; by right).
Qed.

Lemma deleteButton_inv comp a :
  controller_inv a ->
  exists a', deleteButton comp a = Ok a' /\ controller_inv a'.
Proof.
  intros Hinv. pose proof Hinv as (Hwf & Hends & Hdr & Hstart).
  unfold deleteButton.
  destruct (rebuildCircuit_returns (without_wires_of comp (visualWires a))
              (without_component comp (engine a)))
    as (e' & -> & Hwf' & Hcs' & _ & Hset); [done|].
  rewrite bind_Ok_l. cbv zeta.
  eexists. split; [apply redraw_inv|];
    (apply (controller_inv_intro (comp_store (engine a)));
     [done|by apply same_settings_types| |done]);
    (intros w Hw; apply without_wires_of_spec in Hw as [Hw Hn];
     split; [by apply Hdr|]; intros ca Hca; rewrite Hcs';
     apply without_component_spec; split; [by eapply Hends|];
     intros ->; apply Hn; by right).
Qed.

Lemma handleDoubleClick_inv wireHit a :
  controller_inv a ->
  exists a', handleDoubleClick wireHit a = Ok a' /\ controller_inv a'.
Proof.
  intros Hinv. pose proof Hinv as (Hwf & Hends & Hdr & Hstart).
  unfold handleDoubleClick.
  destruct wireHit as [[w0 index]|]; [|by exists a].
  set (wires := delete index (visualWires a)).
  destruct (rebuildCircuit_returns wires
              (removeOrphanedJoints wires (engine a)))
    as (e' & -> & Hwf' & Hcs' & _ & Hset); [done|].
  rewrite bind_Ok_l. cbv zeta.
  eexists. split; [apply redraw_inv|];
    (apply (controller_inv_intro (comp_store (engine a)));
     [done|by apply same_settings_types| |done]);
    (intros w Hw; pose proof (list_elem_of_delete_inv _ _ _ Hw) as Hw0;
     split; [by apply Hdr|]; intros ca Hca; rewrite Hcs';
     apply (removeOrphanedJoints_keeps_ends _ _ w); [done|done|];
     by eapply Hends).
Qed.

Lemma handleDrop_inv type a :
  controller_inv a ->
  exists a', handleDrop type a = Ok a' /\ controller_inv a'.
Proof.
  intros Hinv. pose proof Hinv as (Hwf & Hends & Hdr & Hstart).
  unfold handleDrop.
  destruct type as [type|]; [|by exists a].
  destruct (String.eqb type ""); [by exists a|].
  destruct (rebuildCircuit_returns (visualWires a)
              (addComponent (compCounter a) type (engine a)).1)
    as (e' & -> & Hwf' & Hcs' & _ & Hset);
    [by apply engine_wf_addComponent|].
  rewrite bind_Ok_l. cbv zeta.
  eexists. split; [apply redraw_inv|];
    (apply (controller_inv_intro
              (comp_store (addComponent (compCounter a) type (engine a)).1));
     [done|by apply same_settings_types| |
      intros t Ht; by apply terminal_drawable_app, Hstart]);
    (intros w Hw; split; [by apply wire_drawable_app, Hdr|];
     intros ca Hca; rewrite Hcs'; simpl; apply elem_of_app; left;
     by eapply Hends).
Qed.

Lemma handlePointerDown_inv terminal clickedComp wireHit a :
  controller_inv a -> hit_tests a (PointerDown terminal clickedComp wireHit) ->
  exists a',
    handlePointerDown terminal clickedComp wireHit a = Ok a'
    /\ controller_inv a'.
Proof.
  intros Hinv [Hterm Hwire]. pose proof Hinv as (Hwf & Hends & Hdr & Hstart).
  unfold handlePointerDown.
  destruct terminal as [t|].
  { eexists. split; [done|].
    apply (controller_inv_intro (comp_store (engine a))); [done|done| |].
    - intros w Hw. split; [by apply Hdr|]. intros ca Hca. by eapply Hends.
    - intros t' [= <-]. by apply Hterm. }
  destruct clickedComp as [clicked|].
  { destruct (click_component_inv clicked a Hwf)
      as (e' & -> & Hwf' & Hcs' & Hty).
    rewrite bind_Ok_l. eexists. split; [done|].
    apply (controller_inv_intro (comp_store (engine a))); [done|done| |done].
    intros w Hw. split; [by apply Hdr|]. intros ca Hca. rewrite Hcs'.
    by eapply Hends. }
  destruct wireHit as [[oldW index]|].
  2:{ cbv zeta. eexists. split; [apply redraw_inv|];
        (apply (controller_inv_intro (comp_store (engine a)));
         [done|done| |done]);
        (intros w Hw; split; [by apply Hdr|]; intros ca Hca;
         by eapply Hends). }
  specialize (Hwire _ eq_refl). unfold wire_hit in Hwire. simpl in Hwire.
  apply list_elem_of_lookup_2 in Hwire.
  cbn [addComponent]. cbv zeta.
  set (joint := length (comp_store (engine a))).
  set (e0 := (addComponent (compCounter a) "joint" (engine a)).1).
  set (wires := delete index (visualWires a)
                ++ [mkWire (startComp oldW) (startTerm oldW) (Some joint) 0;
                    mkWire (Some joint) 1 (endComp oldW) (endTerm oldW)]).
  destruct (rebuildCircuit_returns wires e0)
    as (e' & He' & Hwf' & Hcs' & _ & Hset);
    [by apply engine_wf_addComponent|].
  change (exists a',
            (e ← rebuildCircuit wires e0;
             Ok (mkController e (S (compCounter a)) wires (Some joint) true
                              (isDrawingWire a) (wireStartTerminal a)))
            = Ok a' /\ controller_inv a').
  rewrite He', bind_Ok_l. eexists. split; [done|].
  apply (controller_inv_intro (comp_store e0));
    [done|by apply same_settings_types| |
     intros t Ht; by apply terminal_drawable_app, Hstart].
  assert (joint ∈ engine_components e') as Hjoint.
  { rewrite Hcs'. simpl. apply elem_of_app. right. by left. }
  destruct (Hdr oldW Hwire) as (sc & ec & Hsc & Hec & Hts & Hte).
  intros w Hw. apply elem_of_app in Hw as [Hw|Hw].
  { pose proof (list_elem_of_delete_inv _ _ _ Hw) as Hw0.
    split; [by apply wire_drawable_app, Hdr|].
    intros ca Hca. rewrite Hcs'. simpl. apply elem_of_app. left.
    by eapply Hends. }
  apply elem_of_cons in Hw as [->|Hw].
  { split.
    - exists sc, joint. split_and!; [done|done| |by intros [=]].
      by apply terminal_drawable_app.
    - by intros ca [= <-]. }
  apply list_elem_of_singleton in Hw as ->. split.
  - exists joint, ec. split_and!; [done|done|by intros [=]|].
    by apply terminal_drawable_app.
  - simpl. intros ca Hca. rewrite Hcs'. simpl. apply elem_of_app. left.
    by eapply Hends.
Qed.

Lemma handlePointerUp_inv terminal a :
  controller_inv a -> hit_tests a (PointerUp terminal) ->
  exists a', handlePointerUp terminal a = Ok a' /\ controller_inv a'.
Proof.
  intros Hinv Hterm. pose proof Hinv as (Hwf & Hends & Hdr & Hstart).
  simpl in Hterm. unfold handlePointerUp.
  destruct (release_pushbuttons_spec (engine a))
    as (_ & _ & Hcs & _ & Hwf1 & _).
  pose proof (release_pushbuttons_types (engine a)) as Hty.
  destruct (release_pushbuttons (engine a)) as [e1 needs].
  cbn [fst] in Hcs, Hwf1, Hty. specialize (Hwf1 Hwf).
  assert (forall (r : outcome (CircuitEngine * list wire * bool)),
    (exists e2 ws b, r = Ok (e2, ws, b) /\ engine_wf e2
       /\ engine_components e2 = engine_components e1
       /\ (forall ca, Component.type (comp_at (comp_store e2) ca)
                      = Component.type (comp_at (comp_store e1) ca))
       /\ forall w, w ∈ ws ->
            wire_drawable (comp_store (engine a)) w
            /\ forall ca, endComp w = Some ca ->
                 ca ∈ engine_components (engine a)) ->
    exists a',
      ('(e, wires, needsSolve) ← r;
       e ← (if needsSolve : bool then solve e else Ok e);
       let a' := mkController e (compCounter a) wires (selectedComponent a)
                              false false None in
       draw a';; Ok a') = Ok a'
      /\ controller_inv a') as Hfinish.
  { intros r (e2 & ws & b & -> & Hwf2 & Hcs2 & Hty2 & Hws).
    rewrite bind_Ok_l.
    assert (exists e3, (if b then solve e2 else Ok e2) = Ok e3
                       /\ engine_wf e3
                       /\ engine_components e3 = engine_components e1
                       /\ forall ca, Component.type (comp_at (comp_store e3) ca)
                                     = Component.type (comp_at (comp_store e1) ca))
      as (e3 & -> & Hwf3 & Hcs3 & Hty3).
    { destruct b; [|by exists e2].
      destruct (solve_settings e2) as (e3 & -> & Hwf3 & Hcs3 & _ & Hset3).
      exists e3. split_and!; [done|by apply Hwf3|congruence|].
      intros ca. by rewrite (same_settings_types _ _ Hset3). }
    rewrite bind_Ok_l. cbv zeta.
    eexists. split; [apply redraw_inv|];
      (apply (controller_inv_intro (comp_store (engine a)));
       [done|intros ca; by rewrite Hty3, Hty| |done]);
      (intros w Hw; destruct (Hws w Hw) as [? Hin]; split; [done|];
       intros ca Hca; rewrite Hcs3, Hcs; by apply Hin). }
  cbv zeta. apply Hfinish.
  assert (exists e2 ws b,
            Ok (e1, visualWires a, needs) = Ok (e2, ws, b) /\ engine_wf e2
            /\ engine_components e2 = engine_components e1
            /\ (forall ca, Component.type (comp_at (comp_store e2) ca)
                           = Component.type (comp_at (comp_store e1) ca))
            /\ forall w, w ∈ ws ->
                 wire_drawable (comp_store (engine a)) w
                 /\ forall ca, endComp w = Some ca ->
                      ca ∈ engine_components (engine a)) as Hsame.
  { eexists _, _, _. split_and!; try done.
    intros w Hw. split; [by apply Hdr|]. intros ca Hca. by eapply Hends. }
  destruct (isDrawingWire a); [|exact Hsame].
  destruct (wireStartTerminal a) as [start|]; [|exact Hsame].
  destruct terminal as [t|]; [|exact Hsame].
  case_bool_decide; [exact Hsame|].
  destruct (rebuildCircuit_returns
              (visualWires a ++ [mkWire (Some start.1) start.2
                                        (Some t.1) t.2]) e1)
    as (e2 & -> & Hwf2 & Hcs2 & _ & Hset2); [done|].
  rewrite bind_Ok_l. eexists _, _, _. split_and!; try done.
  { by apply same_settings_types. }
  destruct (Hterm t eq_refl) as [Hlisted Htd].
  intros w Hw. apply elem_of_app in Hw as [Hw|Hw].
  { split; [by apply Hdr|]. intros ca Hca. by eapply Hends. }
  apply list_elem_of_singleton in Hw as ->. split.
  - exists start.1, t.1. split_and!; [done|done|..]; simpl.
    + destruct start. by apply Hstart.
    + by destruct t.
  - by intros ca [= <-].
Qed.

Lemma resetSimulation_inv a :
  controller_inv a ->
  exists a', resetSimulation a = Ok a' /\ controller_inv a'.
Proof.
  intros Hinv. pose proof Hinv as (Hwf & Hends & Hdr & Hstart).
  unfold resetSimulation.
  destruct (solve_settings
              (mkEngine (node_store (engine a)) (comp_store (engine a)) [] []))
    as (e' & -> & Hwf' & _ & _ & Hset).
  rewrite bind_Ok_l. cbv zeta.
  eexists. split; [apply redraw_inv|];
    (apply (controller_inv_intro (comp_store (engine a)));
     [by apply Hwf'|by apply (same_settings_types _ _ Hset)| |done]);
    (intros w Hw; by apply elem_of_nil in Hw).
Qed.

Lemma panel_input_inv comp write a :
  (forall c, Component.nodes (write c) = Component.nodes c
             /\ Component.type (write c) = Component.type c) ->
  controller_inv a ->
  exists a', panel_input comp write a = Ok a' /\ controller_inv a'.
Proof.
  intros Hwrite Hinv. pose proof Hinv as (Hwf & Hends & Hdr & Hstart).
  unfold panel_input. cbv zeta.
  destruct (store_then_solve (engine a) comp
              (write (comp_at (comp_store (engine a)) comp)) Hwf)
    as (e' & -> & Hwf' & Hcs' & Hty); [apply Hwrite..|].
  rewrite bind_Ok_l.
  eexists. split; [apply redraw_inv|];
    (apply (controller_inv_intro (comp_store (engine a)));
     [done|done| |done]);
    (intros w Hw; split; [by apply Hdr|]; intros ca Hca; rewrite Hcs';
     by eapply Hends).
Qed.

(** Every handler of the page returns on a state in which the stores
    are well formed, every edge ends on a listed component and can be
    drawn and the terminal a wire is being drawn from has a position, and
    leaves such a state: the drop of a palette item, the pointer handlers
    (given what the hit tests can return: a terminal of a listed
    component, an edge of [visualWires] with its index), the double
    click, the Delete key, the panel's delete button and inputs, the reset
    button, and the listeners that only repaint.  The initial state of the
    page, with no component and no edge, is such a state; so no sequence
    of events produces an edge that ends on a component that is not
    listed, although one can start there. *)
Theorem handlers_keep_edge_ends_listed (a : controller) (ev : event) :
  controller_inv a -> hit_tests a ev ->
  exists a', handle ev a = Ok a' /\ controller_inv a'.
Proof.
  intros Hinv Hhit. destruct ev; simpl.
  - by apply handleDrop_inv.
  - by apply handlePointerDown_inv.
  - by apply handlePointerUp_inv.
  - by apply handleDoubleClick_inv.
  - by apply deleteSelected_inv.
  - by apply deleteButton_inv.
  - by apply resetSimulation_inv.
  - by apply panel_input_inv.
  - by apply panel_input_inv.
  - by apply panel_input_inv.
  - by apply panel_input_inv.
  - exists a. split; [by apply redraw_inv|done].
Qed.

(** The release of the pointer on terminal 0 of the listed battery, while
    a wire is being drawn from terminal 0 of a resistor that was taken off
    the component list during the drag. *)
Lemma handlers_keep_edge_ends_listed_witness :
  let e := without_component 1
             (addComponent 1 "resistor"
                (addComponent 0 "battery" empty_engine).1).1 in
  let a := mkController e 2 [] None false true (Some (1, 0)) in
  exists a', handle (PointerUp (Some (0, 0))) a = Ok a' /\ controller_inv a'.
Proof.
  intros e a. apply handlers_keep_edge_ends_listed.
  - split_and!.
    + apply (engine_wf_remove
               (addComponent 1 "resistor"
                  (addComponent 0 "battery" empty_engine).1).1).
      apply engine_wf_addComponent, engine_wf_addComponent, engine_wf_empty.
    + intros w ca Hw. by apply elem_of_nil in Hw.
    + intros w Hw. by apply elem_of_nil in Hw.
    + intros t [= <-]. intros H2. discriminate H2.
  - intros t [= <-]. split.
    + apply list_elem_of_In. simpl. auto.
    + intros H2. discriminate H2.
Defined.
